(* ===== verification/_CoqProject ===== *)
-Q . S2P
Prelude.v
GoString.v
Utf8.v
GoTime.v
Host.v
HostLogic.v
MemHost.v
MemTree.v
SyncData.v
Json.v
JsonRoundTrip.v
TimeRoundTrip.v
StateFile.v
StateFileRoundTrip.v
SyncPath.v
SyncPathSpec.v
Options.v
Filters.v
FiltersSpec.v
SyncState.v
SyncStateSpec.v
Acquire.v
Session.v
Payload.v
Fixtures.v
SessionSpec.v
Readings.v
AcquireSpec.v
Lease.v
CrashRecovery.v
Refresh.v
Goroutines.v
Watcher.v
PathTheory.v
WatcherSpec.v
Reserved.v
Scenarios.v
PayloadSpec.v
Interleave.v
Backend.v
BackendSpec.v
Config.v
Help.v
ConfigSpec.v
TestVectors.v
MainLoop.v
ExitSpec.v
Run.v
Terminal.v
Command.v
MainLoopSpec.v
LoopProgress.v
RunSpec.v
Clock.v
