(* ===== verification/Prelude.v ===== *)
(** * rclonewatch: a verification development

    rclonewatch (Go, [src/src/]) watches a local directory and mirrors its changes to an rclone
    destination. Two small JSON state files, one beside the source and one beside the
    destination, record a generation number, an identifier of the last upload, whether an
    upload is in progress, and, in the remote one, a lock with a TTL. They let the program
    decide at the next start which side is newer, and keep two instances from writing at once.

    ** How the program is modelled

    The program is embedded as functions of the monad [M W V] of [Host.v]. A computation takes
    the state of the host [W] and the variables [V] of a component and gives a [result], the
    state it leaves and the trace of the operations it performed. Everything outside the
    program (rclone, the clock, timers, the random source, the file system, inotify, the
    terminal) is an operation [op] answered by an instance of the class [Host]; the theorems
    hold for every instance, so commands fail at any point, other programs change the remote
    between any two commands, and an upload whose command failed may or may not have taken
    effect. [HostLogic.v] has the program logic ([wp]) and abstracts a trace to the [action]s
    that matter: a replaced local state file, a publication of the remote one, a transfer of
    payload. A [contract] states how result, variables and actions depend on the variables
    before. Loops take fuel; running out of it is the result [OutOfFuel], never a result of the
    program.

    ** Files

    - Language and library: [Prelude] (results, tactics, lists), [GoString] (strings, unicode,
      path), [Utf8] (theory of runes), [GoTime] (time), [Json] (encoding/json), [Host],
      [HostLogic]; [JsonRoundTrip], [TimeRoundTrip] read back what is written. [MemHost] and
      [MemTree] are hosts that can be run, with the configurations of [Fixtures], for witnesses
      and scenarios.
    - [syncstate.go]: [SyncData] (the record), [StateFile] (its text; [StateFileRoundTrip]),
      [SyncState] (reading and writing the files, [replaceOwnedRemote]; [SyncStateSpec]; in
      [Readings], which reading of the remote file an action rests on), [Acquire] ([AcquireSpec], [Lease] for what other instances do, [Clock] for termination),
      [Session] (initialization, updates around a batch, end, release; [SessionSpec],
      [CrashRecovery]), [Refresh] (the lock's refresh loop, with its theorems), [Goroutines]
      ([Start], [refreshLoop] and [Close] as steps on their mutex and channels).
    - [payload.go] and the [syncer] of [main.go]: [Filters] ([FiltersSpec]) and [Payload]
      ([PathTheory], [PayloadSpec]); [Interleave] runs a batch and lock refreshes side by side.
    - [watcher_linux.go]: [Watcher] ([WatcherSpec]; [Reserved], with the state-file paths and the
      filters).
    - [syncpath.go], [options.go], [backend.go]: [SyncPath] ([SyncPathSpec]), [Options],
      [Backend] ([BackendSpec]).
    - [main.go]: [Config] (flag parsing, [parseConfig], [main] up to [run], [newSyncState]; [ConfigSpec]),
      [MainLoop] (the event loop of [run] as a state machine, start-up messages, exit;
      [MainLoopSpec], [LoopProgress], [ExitSpec]), [Run] (what [run] does up to its loop;
      [RunSpec], with the theorems about the whole run) and [Command] (the wrapped command's
      process).
    - [terminal_linux.go]: [Terminal], with its theorems. [help.go]: [Help].
    - [Scenarios] has two runs that end badly; [TestVectors] evaluates the definitions on the
      inputs of the repository's own tests.

    Definitions carry the names of the source. A Go struct whose fields never change after
    start-up is a record the operations take ([syncState], [syncer]); the fields that change
    are the variables ([syncVars], [watcher], [loop]). Integers are values of [Z] with the
    wrap-around or the check of the source where the width matters ([add_uint64] for
    generations, [int64_max] for durations and [strconv.Atoi]). A Go [error] is a value of
    [error] that keeps what [errors.Is] and [errors.As] ask for; the texts of [fmt.Errorf] are
    shortened.

    ** What is proved

    - Safety of the data: [interrupted_batch_recovers] and [completed_batch_is_current] take
      the actions of a whole batch ([Sync]), cut them anywhere, and run the start-up table
      [startup_plan] on what is left, provided that the remote file was the state the program
      knew; [startup_follows_plan] proves that [InitializeGeneration] implements that table for
      the state found in the local file; [batch_updates_in_order] follows a batch down to its
      commands and filter files; [replaceOwnedRemote_refines] is the contract of the guarded update
      of the remote state, on which the contracts of [Session.v] rest.
      [refreshed_batch_recovers] adds the refreshes of the lock, which other goroutines perform
      before, between and after the updates, with crash triples for whole programs, and
      [session_of_batches_recovers] takes a session of many batches, failed ones tried again.
    - The lock: what [Acquire] publishes, over which reading of the remote file, when a wait may end, that it ends, when a refresh is
      due, what its failures lead to, and that [Close] releases once. [Lease] follows the remote
      object through its versions: with conditional writes a lock is taken over only after its
      TTL ([lock_taken_over_after_ttl]) and two leases never overlap ([leases_do_not_overlap]).
    - The goroutines, under every schedule: no panic on a channel, the release after the last
      refresh ([release_comes_last]), and [Close] returns ([close_returns]).
    - The loop: runs of the state machine with an account of the changes no successful sync
      covers yet. A clean end has none left; after a lost lock nothing starts; at most one final
      sync; back-off. Progress: without events for reserved paths a pending
      change is served ([pending_change_is_served]), and a loop that stops ends
      ([shutdown_ends]).
    - The whole run: status 0 means that nothing was left undone
      ([exit_zero_means_synced]), and an early return reports a failure and leaves no lock
      behind ([early_exit_fails_and_closes]).
    - The watcher: its tables agree, its changes are acceptable to the syncer, buffers are
      handled event by event, a walk covers the tree. The program's own state file and its
      temporary files never count as changes ([state_files_are_reserved]).
    - The wrapped command: job control and the terminal ([command_job_control]).
    - Reference definitions: the collapse of a batch's scopes ([collapse_equals_reference]), and
      the options of the help text against the parser ([help_matches_parser]).
    - Formats: state files, patterns, destinations and options read back what was written, and
      a decoded state or an accepted configuration is well formed.
    - Three faults of the program shown by concrete runs: [retry_forfeits_recovery] and
      [moved_directory_loses_watch] in [Scenarios], [reserved_event_stalls_loop] in
      [LoopProgress].

    ** Fuel

    Fuel is enough when it exceeds: for [acquireLoop] and [verifyAcquiredLock], the polls that
    fit into the TTL ([Acquire_without_wait_returns]); for [awaitLock], the nanoseconds to the
    deadline ([wait_until_deadline_returns]); for [addTree], the depth of the tree
    ([walk_covers_tree]); for [terminal_wait], the stops and interruptions of the command
    ([terminal_wait_returns]); for [process_go] and [parse_options], the length of the text,
    which the definitions pass themselves. [refreshLoop] and [readLoop] run until they are told
    to stop, so no bound exists: their theorems hold for every fuel.

    ** Not modelled

    - The memory model below the mutex and the channels. The updates of the sync state hold
      [updateMu] for their whole length, so each is one computation; [Goroutines] and
      [Interleave] order them in every way, and the loop's goroutines reach it as messages in
      any order. What a watchdog does while it runs is the answer of [StopWatchdog].
    - Logging and the texts of error messages.
    - Of the wrapped command's process: its standard streams, and the ioctls behind [Tcgetpgrp]
      and [Tcsetpgrp]. In the loop the signals it gets are effects, and whether it started is an
      input that [Command] provides.
    - unicode's upper-case table beyond ASCII: a parameter of [Backend.v]. *)

From Stdlib Require Export ZArith Lia.
From stdpp Require Export base tactics list strings gmap sets sorting.

#[export] Set Default Proof Using "Type".

(** The development's literals are Go strings (byte sequences) and Go integers (values of
    [Z], kept at their width where the width matters). *)
Declare Scope go_scope.
Delimit Scope go_scope with go.

(** ** Results of Go calls

    A Go function that returns [(T, error)] is a function to [result]; [OutOfFuel] is no
    value of the program, it marks a loop that the model ran with too little fuel. *)
Inductive result (E A : Type) : Type :=
| Ok (a : A)
| Err (e : E)
| OutOfFuel.
Arguments Ok {E A} a.
Arguments Err {E A} e.
Arguments OutOfFuel {E A}.

Lemma Ok_inj {E A} (a b : A) : @Ok E A a = Ok b -> a = b.
Proof. congruence. Qed.

Definition result_bind {E A B} (r : result E A) (f : A -> result E B) : result E B :=
  match r with
  | Ok a => f a
  | Err e => Err e
  | OutOfFuel => OutOfFuel
  end.

Definition is_ok {E A} (r : result E A) : bool :=
  match r with Ok _ => true | _ => false end.

Notation "'let?' x ':=' r 'in' k" := (result_bind r (fun x => k))
  (at level 10, x pattern, r at level 200, k at level 200) : go_scope.

(** [guard? b 'else' e 'in' k] is Go's [if !b { return e }; k]. *)
Notation "'guard?' b 'else' e 'in' k" := (if b : bool then k else Err e)
  (at level 10, b at level 200, e at level 200, k at level 200) : go_scope.

(** ** Automation *)
Create HintDb go discriminated.

(** Destructs the scrutinee of the first [match] of the goal, keeping its equation. *)
Ltac case_goal :=
  match goal with
  | |- context [match ?x with _ => _ end] =>
      lazymatch x with
      | context [match _ with _ => _ end] => fail
      | _ => let E := fresh "E" in destruct x eqn:E
      end
  end.

Ltac case_hyp H :=
  match type of H with
  | context [match ?x with _ => _ end] =>
      lazymatch x with
      | context [match _ with _ => _ end] => fail
      | _ => let E := fresh "E" in destruct x eqn:E
      end
  end.

(** Splits boolean conjunctions and reflects boolean comparisons into propositions. *)
Ltac reflect_bools :=
  repeat match goal with
  | H : _ && _ = true |- _ => apply andb_true_iff in H as [? ?]
  | H : _ || _ = false |- _ => apply orb_false_iff in H as [? ?]
  | H : negb _ = true |- _ => apply negb_true_iff in H
  | H : negb _ = false |- _ => apply negb_false_iff in H
  | H : (_ =? _)%Z = true |- _ => apply Z.eqb_eq in H
  | H : (_ =? _)%Z = false |- _ => apply Z.eqb_neq in H
  | H : (_ <? _)%Z = true |- _ => apply Z.ltb_lt in H
  | H : (_ <? _)%Z = false |- _ => apply Z.ltb_ge in H
  | H : (_ <=? _)%Z = true |- _ => apply Z.leb_le in H
  | H : (_ <=? _)%Z = false |- _ => apply Z.leb_gt in H
  | H : (_ =? _)%string = true |- _ => apply String.eqb_eq in H
  | H : (_ =? _)%string = false |- _ => apply String.eqb_neq in H
  | H : bool_decide _ = true |- _ => apply bool_decide_eq_true_1 in H
  | H : bool_decide _ = false |- _ => apply bool_decide_eq_false_1 in H
  end.

(** ** Machine integers *)
Definition uint64_max : Z := 2 ^ 64 - 1.
Definition int64_max : Z := 2 ^ 63 - 1.
Definition int64_min : Z := - 2 ^ 63.

(** Addition of [uint64] values wraps around. *)
Definition add_uint64 (a b : Z) : Z := (a + b) mod 2 ^ 64.

(** [time.Time.Sub] (and so [time.Until]) saturates at the bounds of an [int64]. *)
Definition clamp_int64 (d : Z) : Z := Z.max int64_min (Z.min int64_max d).

Lemma add_uint64_small a b : (0 <= a + b <= uint64_max)%Z -> add_uint64 a b = (a + b)%Z.
Proof. unfold add_uint64, uint64_max. intros. rewrite Z.mod_small; lia. Qed.

Lemma add_uint64_range a b : (0 <= add_uint64 a b <= uint64_max)%Z.
Proof.
  unfold add_uint64, uint64_max.
  pose proof (Z.mod_pos_bound (a + b) (2 ^ 64) ltac:(lia)). lia.
Qed.

Lemma clamp_int64_id d : (int64_min <= d <= int64_max)%Z -> clamp_int64 d = d.
Proof. unfold clamp_int64. lia. Qed.

(** ** Strings *)
Arguments String.append : simpl nomatch.

Lemma str_app_nil_r (s : string) : String.append s "" = s.
Proof. induction s; simpl; congruence. Qed.

Lemma str_app_assoc (a b c : string) :
  String.append (String.append a b) c = String.append a (String.append b c).
Proof. induction a; simpl; congruence. Qed.

Lemma str_app_inj_l (p a b : string) : String.append p a = String.append p b -> a = b.
Proof. induction p; simpl; [done|]. intros [=]; auto. Qed.

Lemma str_length_app (a b : string) :
  String.length (String.append a b) = (String.length a + String.length b)%nat.
Proof. induction a; simpl; auto. Qed.

(** Every byte of [s] satisfies [f]. *)
Fixpoint str_forallb (f : Ascii.ascii -> bool) (s : string) : bool :=
  match s with
  | EmptyString => true
  | String c s => f c && str_forallb f s
  end.

Lemma str_forallb_app f a b :
  str_forallb f (String.append a b) = str_forallb f a && str_forallb f b.
Proof. induction a; simpl; [done|]. rewrite IHa. by rewrite andb_assoc. Qed.
