(* ===== verification/GoString.v ===== *)
(** * The Go string functions that rclonewatch uses

    A Go [string] is a byte sequence: a [string] of [ascii] bytes here.  This file models the
    functions of the packages [strings], [unicode/utf8], [path] and [path/filepath] that the
    program calls (on Linux, where [path/filepath] uses ["/"] too), with the lemmas the
    components share.  It models the language's library, so it has no lines of its own under
    [src/]. *)

From Stdlib Require Import Ascii.
From S2P Require Import Prelude.

Local Open Scope Z_scope.

(** ** Bytes *)
Definition code (c : ascii) : Z := Z.of_N (N_of_ascii c).
Definition chr (z : Z) : ascii := ascii_of_N (Z.to_N z).
Definition str1 (c : ascii) : string := String c EmptyString.

Definition dquote : ascii := "034"%char.
Definition backslash : ascii := "092"%char.
Definition newline : ascii := "010"%char.
Definition nl : string := str1 newline.
Definition nul : string := str1 "000"%char.

Lemma code_range c : 0 <= code c <= 255.
Proof. unfold code. pose proof (N_ascii_bounded c). lia. Qed.

Lemma code_chr z : 0 <= z <= 255 -> code (chr z) = z.
Proof. intros H. unfold code, chr. rewrite N_ascii_embedding; lia. Qed.

Lemma chr_code c : chr (code c) = c.
Proof. unfold code, chr. by rewrite N2Z.id, ascii_N_embedding. Qed.

Lemma code_inj a b : code a = code b -> a = b.
Proof. intros H. by rewrite <- (chr_code a), <- (chr_code b), H. Qed.

(** ** Package strings *)
Definition has_prefix (p s : string) : bool := String.prefix p s.

Lemma has_prefix_nil s : has_prefix "" s = true.
Proof. by destruct s. Qed.

Fixpoint drop_str (n : nat) (s : string) : string :=
  match n, s with
  | O, _ => s
  | S n, String _ s => drop_str n s
  | S _, EmptyString => EmptyString
  end.

(** [strings.TrimPrefix s p]. *)
Definition trim_prefix (p s : string) : string :=
  if has_prefix p s then drop_str (String.length p) s else s.

Fixpoint contains_byte (c : ascii) (s : string) : bool :=
  match s with
  | EmptyString => false
  | String d s => Ascii.eqb c d || contains_byte c s
  end.

(** [strings.ContainsAny s chars] for ASCII [chars]. *)
Fixpoint contains_any (chars s : string) : bool :=
  match s with
  | EmptyString => false
  | String d s => contains_byte d chars || contains_any chars s
  end.

(** [strings.Contains s sub]. *)
Fixpoint contains_str (sub s : string) : bool :=
  has_prefix sub s ||
  match s with EmptyString => false | String _ s => contains_str sub s end.

(** [strings.Cut s sep] for a one-byte separator: text before, text after, found. *)
Fixpoint cut (sep : ascii) (s : string) : string * string * bool :=
  match s with
  | EmptyString => (EmptyString, EmptyString, false)
  | String d s =>
      if Ascii.eqb d sep then (EmptyString, s, true)
      else let '(a, b, f) := cut sep s in (String d a, b, f)
  end.

(** [strings.Split s sep] for a one-byte separator. *)
Fixpoint split_on (sep : ascii) (s : string) : list string :=
  match s with
  | EmptyString => [EmptyString]
  | String d s =>
      if Ascii.eqb d sep then EmptyString :: split_on sep s
      else match split_on sep s with
           | [] => [str1 d]
           | w :: ws => String d w :: ws
           end
  end.

(** [strings.Join parts sep]. *)
Definition join (sep : string) (parts : list string) : string := String.concat sep parts.

(** [strings.Repeat s n]. *)
Fixpoint repeat_str (s : string) (n : nat) : string :=
  match n with O => EmptyString | S n => s +:+ repeat_str s n end.

(** ASCII upper case of a byte. *)
Definition upper_byte (c : ascii) : ascii :=
  let z := code c in if (97 <=? z) && (z <=? 122) then chr (z - 32) else c.
Fixpoint map_str (f : ascii -> ascii) (s : string) : string :=
  match s with EmptyString => EmptyString | String c s => String (f c) (map_str f s) end.

(** ** Package unicode/utf8

    [range] over a string and [utf8.DecodeRuneInString]: a byte that starts no well-formed
    sequence is one rune U+FFFD of width 1. *)
Record rune := Rune { rune_value : Z; rune_raw : string }.
#[export] Instance rune_eq_dec : EqDecision rune.
Proof. solve_decision. Defined.

Definition rune_error : Z := 65533.

Definition is_cont (b : Z) : bool := (128 <=? b) && (b <=? 191).

Definition decode2 (a b : Z) : option Z :=
  if (194 <=? a) && (a <=? 223) && is_cont b then Some ((a - 192) * 64 + (b - 128)) else None.

Definition decode3 (a b c : Z) : option Z :=
  let lo := if a =? 224 then 160 else 128 in
  let hi := if a =? 237 then 159 else 191 in
  if (224 <=? a) && (a <=? 239) && (lo <=? b) && (b <=? hi) && is_cont c
  then Some ((a - 224) * 4096 + (b - 128) * 64 + (c - 128)) else None.

Definition decode4 (a b c d : Z) : option Z :=
  let lo := if a =? 240 then 144 else 128 in
  let hi := if a =? 244 then 143 else 191 in
  if (240 <=? a) && (a <=? 244) && (lo <=? b) && (b <=? hi) && is_cont c && is_cont d
  then Some ((a - 240) * 262144 + (b - 128) * 4096 + (c - 128) * 64 + (d - 128)) else None.

(** The runes of a string, each with the bytes it was decoded from. *)
Fixpoint runes (s : string) : list rune :=
  match s with
  | EmptyString => []
  | String a s1 =>
      if code a <? 128 then Rune (code a) (str1 a) :: runes s1
      else match s1 with
      | EmptyString => Rune rune_error (str1 a) :: runes s1
      | String b s2 =>
          match decode2 (code a) (code b) with
          | Some r => Rune r (String a (str1 b)) :: runes s2
          | None =>
              match s2 with
              | EmptyString => Rune rune_error (str1 a) :: runes s1
              | String c s3 =>
                  match decode3 (code a) (code b) (code c) with
                  | Some r => Rune r (String a (String b (str1 c))) :: runes s3
                  | None =>
                      match s3 with
                      | EmptyString => Rune rune_error (str1 a) :: runes s1
                      | String d s4 =>
                          match decode4 (code a) (code b) (code c) (code d) with
                          | Some r => Rune r (String a (String b (String c (str1 d)))) :: runes s4
                          | None => Rune rune_error (str1 a) :: runes s1
                          end
                      end
                  end
              end
          end
      end
  end.

Definition rune_valid (r : rune) : bool :=
  negb ((rune_value r =? rune_error) && (String.length (rune_raw r) =? 1)%nat).

(** [utf8.ValidString]. *)
Definition valid_utf8 (s : string) : bool := forallb rune_valid (runes s).

(** A Unicode scalar value. *)
Definition is_scalar (r : Z) : bool :=
  (0 <=? r) && (r <=? 1114111) && negb ((55296 <=? r) && (r <=? 57343)).

(** [strings.Builder.WriteRune] (and [utf8.AppendRune]). *)
Definition encode_rune (r0 : Z) : string :=
  let r := if is_scalar r0 then r0 else rune_error in
  if r <? 128 then str1 (chr r)
  else if r <? 2048 then String (chr (192 + r / 64)) (str1 (chr (128 + r mod 64)))
  else if r <? 65536 then
    String (chr (224 + r / 4096)) (String (chr (128 + (r / 64) mod 64)) (str1 (chr (128 + r mod 64))))
  else
    String (chr (240 + r / 262144)) (String (chr (128 + (r / 4096) mod 64))
      (String (chr (128 + (r / 64) mod 64)) (str1 (chr (128 + r mod 64))))).

Fixpoint concat_str (l : list string) : string :=
  match l with [] => EmptyString | s :: l => s +:+ concat_str l end.

(** A literal rune of the source, for instance U+201B. *)
Definition rune_str (r : Z) : string := encode_rune r.

(** [unicode.IsSpace]. *)
Definition is_space (r : Z) : bool :=
  ((9 <=? r) && (r <=? 13)) || (r =? 32) || (r =? 133) || (r =? 160) || (r =? 5760) ||
  ((8192 <=? r) && (r <=? 8202)) || (r =? 8232) || (r =? 8233) || (r =? 8239) ||
  (r =? 8287) || (r =? 12288).

Fixpoint drop_while {A} (f : A -> bool) (l : list A) : list A :=
  match l with [] => [] | x :: l' => if f x then drop_while f l' else l end.

Definition raw_runes (l : list rune) : string := concat_str (rune_raw <$> l).

(** [strings.TrimFunc]: drops the runes that satisfy [f] at both ends. *)
Definition trim_runes (f : rune -> bool) (s : string) : string :=
  raw_runes (rev (drop_while f (rev (drop_while f (runes s))))).

(** [strings.TrimSpace]. *)
Definition trim_space (s : string) : string := trim_runes (fun r => is_space (rune_value r)) s.

(** [strings.Trim s cutset] for a one-byte cutset. *)
Definition trim_byte (c : ascii) (s : string) : string :=
  trim_runes (fun r => rune_value r =? code c) s.

(** [strings.Fields]: the maximal runs of runes that are no white space. *)
Fixpoint fields_go (cur : string) (l : list rune) : list string :=
  match l with
  | [] => match cur with EmptyString => [] | _ => [cur] end
  | r :: l =>
      if is_space (rune_value r)
      then match cur with EmptyString => fields_go EmptyString l | _ => cur :: fields_go EmptyString l end
      else fields_go (cur +:+ rune_raw r) l
  end.
Definition fields (s : string) : list string := fields_go EmptyString (runes s).

(** [strings.EqualFold s t] for a [t] of ASCII letters outside [k] and [s], whose case orbits
    hold ASCII letters only. *)
Definition equal_fold_ascii (s t : string) : bool :=
  (map_str upper_byte s =? map_str upper_byte t)%string.

(** ** Packages path and path/filepath *)
Definition slash : ascii := "/"%char.

Definition is_abs (p : string) : bool := has_prefix "/" p.

(** The elements of [path.Clean]'s result: empty and "." elements dropped, ".." taking away
    the element before it, kept at the start of a path that is not rooted. *)
Definition clean_step (rooted : bool) (acc : list string) (e : string) : list string :=
  if (e =? "")%string || (e =? ".")%string then acc
  else if (e =? "..")%string then
    match acc with
    | [] => if rooted then [] else [".."%stdpp]
    | h :: t => if (h =? "..")%string then ".."%stdpp :: acc else t
    end
  else e :: acc.

Definition clean_elems (p : string) : list string :=
  rev (fold_left (clean_step (is_abs p)) (split_on slash p) []).

Definition render (rooted : bool) (elems : list string) : string :=
  if rooted then "/" +:+ join "/" elems
  else match elems with [] => "." | _ => join "/" elems end.

(** [path.Clean] ([filepath.Clean]). *)
Definition clean (p : string) : string := render (is_abs p) (clean_elems p).

(** The text up to and including the last slash, and the text after it. *)
Fixpoint split_last (s : string) : string * string :=
  match s with
  | EmptyString => (EmptyString, EmptyString)
  | String c s' =>
      let '(d, f) := split_last s' in
      match d with
      | EmptyString => if Ascii.eqb c slash then (str1 c, f) else (EmptyString, String c f)
      | _ => (String c d, f)
      end
  end.

(** [path.Dir]. *)
Definition dir (p : string) : string := clean (fst (split_last p)).

(** [path.Base]. *)
Definition rev_str (s : string) : string := String.rev s.
Fixpoint drop_slashes (s : string) : string :=
  match s with String c s' => if Ascii.eqb c slash then drop_slashes s' else s | _ => s end.
Definition base (p : string) : string :=
  match p with
  | EmptyString => "."
  | _ => match snd (split_last (rev_str (drop_slashes (rev_str p)))) with
         | EmptyString => "/"
         | b => b
         end
  end.

(** [path.Join]. *)
Definition path_join (parts : list string) : string :=
  match filter (λ p, p ≠ ""%stdpp) parts with
  | [] => ""
  | ps => clean (join "/" ps)
  end.

(** The elements [filepath.Rel] compares: those of a clean path, none for "." as a base. *)
Definition rel_elems (p : string) : list string :=
  split_on slash (trim_prefix "/" p).

Fixpoint strip_common (b t : list string) : list string * list string :=
  match b, t with
  | x :: b', y :: t' => if (x =? y)%string then strip_common b' t' else (b, t)
  | _, _ => (b, t)
  end.

(** [filepath.Rel]: [None] is its error. *)
Definition rel (basepath targpath : string) : option string :=
  let b := clean basepath in
  let t := clean targpath in
  if (t =? b)%string then Some "."
  else
    let b := if (b =? ".")%string then "" else b in
    if negb (Bool.eqb (is_abs b) (is_abs t)) then None
    else
      let elems p := if (trim_prefix "/" p =? "")%string then [] else rel_elems p in
      let '(b', t') := strip_common (elems b) (elems t) in
      match b' with
      | [] => Some (join "/" t')
      | x :: _ =>
          if (x =? "..")%string then None
          else Some (join "/" (((fun _ => ".."%stdpp) <$> b') ++ t'))
      end.
