(* ===== verification/Utf8.v ===== *)
(** * UTF-8: encoding and decoding runes

    [runes] reads back what [encode_rune] writes, and splits every string into runes that are
    either an encoded scalar value or a stray byte.  [sanitize] is what remains of a string
    whose stray bytes are replaced by U+FFFD. *)

From Stdlib Require Import Ascii.
From S2P Require Import Prelude GoString.

Local Open Scope Z_scope.

(** ** Arithmetic of bytes *)
Ltac code_simpl := repeat rewrite code_chr by lia.
Ltac divmod := Z.to_euclidean_division_equations; lia.

Lemma chr_eq a z : code a = z -> a = chr z.
Proof. intros <-. by rewrite chr_code. Qed.

(** Decides the boolean tests of the goal by arithmetic. *)
Ltac decide_tests :=
  repeat match goal with
  | |- context [?x <? ?y] =>
      first [ replace (x <? y) with true by (symmetry; apply Z.ltb_lt; divmod)
            | replace (x <? y) with false by (symmetry; apply Z.ltb_ge; divmod) ]
  | |- context [?x <=? ?y] =>
      first [ replace (x <=? y) with true by (symmetry; apply Z.leb_le; divmod)
            | replace (x <=? y) with false by (symmetry; apply Z.leb_gt; divmod) ]
  | |- context [?x =? ?y] =>
      first [ replace (x =? y) with true by (symmetry; apply Z.eqb_eq; divmod)
            | replace (x =? y) with false by (symmetry; apply Z.eqb_neq; divmod) ]
  end; cbn [andb orb negb].

(** ** Scalar values *)
Definition scalar (r : Z) : Prop := 0 <= r <= 1114111 /\ ~ (55296 <= r <= 57343).

Lemma is_scalar_spec r : is_scalar r = true <-> scalar r.
Proof.
  unfold is_scalar, scalar. rewrite andb_true_iff, negb_true_iff, andb_true_iff, andb_false_iff,
    !Z.leb_le, !Z.leb_gt. lia.
Qed.

Lemma scalar_error : scalar rune_error.
Proof. unfold scalar, rune_error. lia. Qed.

(** The bytes of a scalar value, by its size. *)
Lemma encode_rune_scalar r : scalar r ->
  encode_rune r =
    if r <? 128 then str1 (chr r)
    else if r <? 2048 then String (chr (192 + r / 64)) (str1 (chr (128 + r mod 64)))
    else if r <? 65536 then
      String (chr (224 + r / 4096)) (String (chr (128 + (r / 64) mod 64)) (str1 (chr (128 + r mod 64))))
    else
      String (chr (240 + r / 262144)) (String (chr (128 + (r / 4096) mod 64))
        (String (chr (128 + (r / 64) mod 64)) (str1 (chr (128 + r mod 64))))).
Proof. intros H. unfold encode_rune. apply is_scalar_spec in H. by rewrite H. Qed.

Lemma decode2_encode r : 128 <= r < 2048 -> decode2 (192 + r / 64) (128 + r mod 64) = Some r.
Proof.
  intros H. unfold decode2, is_cont. decide_tests. f_equal. divmod.
Qed.

Lemma decode2_high a b : 224 <= a -> decode2 a b = None.
Proof. intros H. unfold decode2. by replace (a <=? 223) with false by lia; rewrite andb_false_r. Qed.

Lemma decode3_high a b c : 240 <= a -> decode3 a b c = None.
Proof. intros H. unfold decode3. by replace (a <=? 239) with false by lia; rewrite andb_false_r. Qed.

Lemma decode3_encode r : scalar r -> 2048 <= r < 65536 ->
  decode3 (224 + r / 4096) (128 + (r / 64) mod 64) (128 + r mod 64) = Some r.
Proof.
  intros [_ H] Hr. unfold decode3, is_cont.
  destruct (224 + r / 4096 =? 224) eqn:E1; destruct (224 + r / 4096 =? 237) eqn:E2; reflect_bools;
    decide_tests; f_equal; divmod.
Qed.

Lemma decode4_encode r : 65536 <= r <= 1114111 ->
  decode4 (240 + r / 262144) (128 + (r / 4096) mod 64) (128 + (r / 64) mod 64) (128 + r mod 64) = Some r.
Proof.
  intros Hr. unfold decode4, is_cont.
  destruct (240 + r / 262144 =? 240) eqn:E1; destruct (240 + r / 262144 =? 244) eqn:E2; reflect_bools;
    decide_tests; f_equal; divmod.
Qed.

(** ** One step of [runes] *)
Lemma runes_1 a s : code a < 128 -> runes (String a s) = Rune (code a) (str1 a) :: runes s.
Proof. intros H. cbn [runes]. by replace (code a <? 128) with true by lia. Qed.

Lemma runes_2 a b s v : 128 <= code a -> decode2 (code a) (code b) = Some v ->
  runes (String a (String b s)) = Rune v (String a (str1 b)) :: runes s.
Proof. intros H H2. cbn [runes]. replace (code a <? 128) with false by lia. by rewrite H2. Qed.

Lemma runes_3 a b c s v : 128 <= code a -> decode2 (code a) (code b) = None ->
  decode3 (code a) (code b) (code c) = Some v ->
  runes (String a (String b (String c s))) = Rune v (String a (String b (str1 c))) :: runes s.
Proof. intros H H2 H3. cbn [runes]. replace (code a <? 128) with false by lia. by rewrite H2, H3. Qed.

Lemma runes_4 a b c d s v : 128 <= code a -> decode2 (code a) (code b) = None ->
  decode3 (code a) (code b) (code c) = None ->
  decode4 (code a) (code b) (code c) (code d) = Some v ->
  runes (String a (String b (String c (String d s)))) = Rune v (String a (String b (String c (str1 d)))) :: runes s.
Proof. intros H H2 H3 H4. cbn [runes]. replace (code a <? 128) with false by lia. by rewrite H2, H3, H4. Qed.

(** An encoded scalar value is one rune, whatever follows. *)
Lemma runes_encode r s : scalar r -> runes (encode_rune r +:+ s) = Rune r (encode_rune r) :: runes s.
Proof.
  intros Hr. rewrite encode_rune_scalar by done. pose proof Hr as [Hr1 _].
  destruct (r <? 128) eqn:E1; [|destruct (r <? 2048) eqn:E2; [|destruct (r <? 65536) eqn:E3]]; reflect_bools;
    cbn [String.append str1].
  - rewrite runes_1; rewrite code_chr; [done|lia..].
  - apply runes_2; rewrite !code_chr; try divmod. apply decode2_encode; lia.
  - apply runes_3; rewrite !code_chr; try divmod; [apply decode2_high; divmod|apply decode3_encode; [done|lia]].
  - apply runes_4; rewrite !code_chr; try divmod;
      [apply decode2_high; divmod|apply decode3_high; divmod|apply decode4_encode; lia].
Qed.

(** ** Every string is a sequence of encoded scalar values and stray bytes *)
Definition encoded (r : rune) : Prop :=
  scalar (rune_value r) /\ rune_raw r = encode_rune (rune_value r).
Definition stray (r : rune) : Prop :=
  rune_value r = rune_error /\ exists c, rune_raw r = str1 c /\ 128 <= code c.

Lemma encoded_1 a : code a < 128 -> encoded (Rune (code a) (str1 a)).
Proof.
  intros H. pose proof (code_range a). assert (scalar (code a)) by (unfold scalar; lia).
  split; [done|]. simpl. rewrite encode_rune_scalar by done.
  replace (code a <? 128) with true by lia. by rewrite chr_code.
Qed.

Lemma decode2_encoded a b v : decode2 (code a) (code b) = Some v -> encoded (Rune v (String a (str1 b))).
Proof.
  unfold decode2, is_cont. destruct (_ && _) eqn:E; [|done]. intros [= <-]. reflect_bools.
  assert (Hs : scalar ((code a - 192) * 64 + (code b - 128))) by (unfold scalar; lia).
  split; [done|]. simpl. rewrite encode_rune_scalar by done. decide_tests.
  f_equal; [apply chr_eq; divmod|]. unfold str1. f_equal. apply chr_eq; divmod.
Qed.

Lemma decode3_encoded a b c v :
  decode3 (code a) (code b) (code c) = Some v -> encoded (Rune v (String a (String b (str1 c)))).
Proof.
  unfold decode3, is_cont. destruct (_ && _) eqn:E; [|done]. intros [= <-]. reflect_bools.
  assert (Hb : 128 <= code b <= 191 /\ (code a = 224 -> 160 <= code b) /\ (code a = 237 -> code b <= 159)).
  { destruct (code a =? 224) eqn:E1; destruct (code a =? 237) eqn:E2; reflect_bools; lia. }
  assert (Hs : scalar ((code a - 224) * 4096 + (code b - 128) * 64 + (code c - 128))) by (unfold scalar; lia).
  split; [done|]. simpl. rewrite encode_rune_scalar by done. decide_tests.
  repeat first [apply chr_eq; divmod | unfold str1; progress f_equal].
Qed.

Lemma decode4_encoded a b c d v :
  decode4 (code a) (code b) (code c) (code d) = Some v ->
  encoded (Rune v (String a (String b (String c (str1 d))))).
Proof.
  unfold decode4, is_cont. destruct (_ && _) eqn:E; [|done]. intros [= <-]. reflect_bools.
  assert (Hb : 128 <= code b <= 191 /\ (code a = 240 -> 144 <= code b) /\ (code a = 244 -> code b <= 143)).
  { destruct (code a =? 240) eqn:E1; destruct (code a =? 244) eqn:E2; reflect_bools; lia. }
  assert (Hs : scalar ((code a - 240) * 262144 + (code b - 128) * 4096 + (code c - 128) * 64 + (code d - 128)))
    by (unfold scalar; lia).
  split; [done|]. simpl. rewrite encode_rune_scalar by done. decide_tests.
  repeat first [apply chr_eq; divmod | unfold str1; progress f_equal].
Qed.

(** A byte that starts no well-formed sequence. *)
Lemma runes_stray a s : 128 <= code a ->
  match s with
  | EmptyString => True
  | String b s2 => decode2 (code a) (code b) = None /\
      match s2 with
      | EmptyString => True
      | String c s3 => decode3 (code a) (code b) (code c) = None /\
          match s3 with
          | EmptyString => True
          | String d _ => decode4 (code a) (code b) (code c) (code d) = None
          end
      end
  end -> runes (String a s) = Rune rune_error (str1 a) :: runes s.
Proof.
  intros H. cbn [runes]. replace (code a <? 128) with false by lia.
  destruct s as [|b [|c [|d s]]]; [done|intros [-> _]|intros [-> [-> _]]|intros [-> [-> ->]]]; done.
Qed.

(** The first rune of a nonempty string. *)
Lemma runes_cons s : s <> "" ->
  exists r s', s = rune_raw r +:+ s' /\ runes s = r :: runes s' /\ (encoded r \/ stray r).
Proof.
  destruct s as [|a s]; [done|]. intros _.
  destruct (Z.ltb_spec (code a) 128) as [Ha|Ha].
  { eexists (Rune _ _), s. rewrite runes_1 by done. split_and!; [|done|left; by apply encoded_1]. done. }
  destruct (match s with String b _ => decode2 (code a) (code b) | _ => None end) as [v|] eqn:E2.
  { destruct s as [|b s]; [done|]. eexists (Rune _ _), s. erewrite runes_2 by done.
    split_and!; [|done|left; by apply decode2_encoded]. done. }
  destruct (match s with String b (String c _) => decode3 (code a) (code b) (code c) | _ => None end) as [v|] eqn:E3.
  { destruct s as [|b [|c s]]; [done..|]. eexists (Rune _ _), s. erewrite runes_3 by done.
    split_and!; [|done|left; by apply decode3_encoded]. done. }
  destruct (match s with String b (String c (String d _)) => decode4 (code a) (code b) (code c) (code d) | _ => None end)
    as [v|] eqn:E4.
  { destruct s as [|b [|c [|d s]]]; [done..|]. eexists (Rune _ _), s. erewrite runes_4 by done.
    split_and!; [|done|left; by apply decode4_encoded]. done. }
  eexists (Rune _ _), s. rewrite runes_stray; [|done|by destruct s as [|b [|c [|d s]]]].
  split_and!; [|done|right; by split; [|exists a]]. done.
Qed.

(** Induction along the runes of a string. *)
Lemma runes_ind (P : string -> Prop) :
  P "" -> (forall r s, encoded r \/ stray r -> runes (rune_raw r +:+ s) = r :: runes s -> P s -> P (rune_raw r +:+ s)) ->
  forall s, P s.
Proof.
  intros H0 Hr s. remember (length (runes s)) as n eqn:En. revert s En.
  induction n as [|n IH]; intros s En; (destruct (decide (s = "")) as [->|Hs]; [done|]);
    destruct (runes_cons s Hs) as (r & s' & -> & Hrs & Hr'); rewrite Hrs in En; simpl in En; [done|].
  apply Hr; [done..|]. apply IH. lia.
Qed.

Lemma runes_encoded s : Forall (fun r => encoded r \/ stray r) (runes s).
Proof. induction s using runes_ind; [constructor|]. rewrite H0. by constructor. Qed.

(** The bytes of the runes of a string are the string. *)
Lemma raw_runes_runes s : raw_runes (runes s) = s.
Proof.
  induction s using runes_ind; [done|]. rewrite H0.
  change (rune_raw r +:+ raw_runes (runes s) = rune_raw r +:+ s). by rewrite IHs.
Qed.

(** ** Valid strings *)
Lemma rune_valid_encoded r : encoded r -> rune_valid r = true.
Proof.
  intros [Hs Hr]. unfold rune_valid. rewrite Hr. destruct (rune_value r =? rune_error) eqn:E; [|done].
  reflect_bools. by rewrite E.
Qed.

Lemma rune_valid_stray r : stray r -> rune_valid r = false.
Proof. intros [Hv (c & Hc & _)]. unfold rune_valid. by rewrite Hv, Hc. Qed.

(** What is left when every stray byte is replaced by U+FFFD. *)
Definition sanitize (s : string) : string := concat_str ((fun r => encode_rune (rune_value r)) <$> runes s).

Lemma sanitize_cons r s : runes (rune_raw r +:+ s) = r :: runes s ->
  sanitize (rune_raw r +:+ s) = encode_rune (rune_value r) +:+ sanitize s.
Proof. intros H. unfold sanitize. by rewrite H. Qed.

Lemma sanitize_valid s : valid_utf8 s = true -> sanitize s = s.
Proof.
  unfold valid_utf8. induction s using runes_ind; [done|]. rewrite sanitize_cons by done. rewrite H0. simpl.
  intros [Hv Hs]%andb_true_iff. rewrite IHs by done. f_equal.
  destruct H as [[_ ->]|Hst]; [done|]. apply rune_valid_stray in Hst. congruence.
Qed.

(** Runes of a text that is put together from encoded runes. *)
Lemma runes_encode_all l s : Forall scalar l ->
  runes (concat_str (encode_rune <$> l) +:+ s) = ((fun v => Rune v (encode_rune v)) <$> l) ++ runes s.
Proof.
  induction 1 as [|v l Hv Hl IH]; [done|]. csimpl. rewrite str_app_assoc, runes_encode by done. by rewrite IH.
Qed.

Lemma runes_scalar s : Forall (fun r => scalar (rune_value r)) (runes s).
Proof.
  eapply Forall_impl; [apply runes_encoded|]. intros r [[H _]|[-> _]]; [done|apply scalar_error].
Qed.

Lemma sanitize_nonempty s : s <> "" -> sanitize s <> "".
Proof.
  intros Hs. destruct (runes_cons s Hs) as (r & s' & _ & Hr & _). unfold sanitize. rewrite Hr. simpl.
  unfold encode_rune. repeat case_goal; done.
Qed.


(** The bytes of an encoded scalar value: its own below 128, bytes from 128 on otherwise. *)
Lemma encode_forallb (f : ascii -> bool) r : scalar r ->
  (r < 128 -> f (chr r) = true) -> (forall b, 128 <= code b -> f b = true) -> str_forallb f (encode_rune r) = true.
Proof.
  intros Hs H1 H2. rewrite encode_rune_scalar by done. destruct Hs as [Hs _].
  destruct (r <? 128) eqn:E1; [|destruct (r <? 2048) eqn:E2; [|destruct (r <? 65536) eqn:E3]]; reflect_bools;
    cbn [str_forallb str1]; [by rewrite H1|..]; rewrite !H2; try done; rewrite code_chr; divmod.
Qed.
