(* ===== verification/GoTime.v ===== *)
(** * The parts of Go's [time] and [strconv] that rclonewatch uses

    Instants are nanoseconds since the Unix epoch, durations are [int64] nanoseconds.  A
    timestamp read from a state file keeps the zone offset it was written with, because
    [Time.Format] prints it and [Time.Equal] ignores it.  This file models the language's
    library and has no lines of its own under [src/]. *)

From Stdlib Require Import Ascii DecimalString DecimalN DecimalPos.
From S2P Require Import Prelude GoString.

Local Open Scope Z_scope.

Definition nanosecond : Z := 1.
Definition microsecond : Z := 1000.
Definition millisecond : Z := 1000000.
Definition second : Z := 1000000000.
Definition minute : Z := 60 * second.
Definition hour : Z := 60 * minute.

(** The zero [time.Time], January 1 of year 1: what [IsZero] tests. *)
Definition time_zero : Z := -62135596800 * second.

(** [time.Until t] at the instant [now]. *)
Definition until (t now : Z) : Z := clamp_int64 (t - now).

(** ** Decimal numbers *)
Definition string_of_N (n : N) : string := NilZero.string_of_uint (N.to_uint n).
Definition string_of_Z (z : Z) : string :=
  if z <? 0 then "-" +:+ string_of_N (Z.to_N (- z)) else string_of_N (Z.to_N z).

(** A nonempty run of decimal digits, without a bound. *)
Definition parse_N (s : string) : option N :=
  match s with
  | EmptyString => None
  | _ => option_map N.of_uint (NilZero.uint_of_string s)
  end.

Lemma string_of_N_nonempty n : string_of_N n <> EmptyString.
Proof.
  unfold string_of_N, NilZero.string_of_uint. by destruct (N.to_uint n).
Qed.

Lemma N_to_uint_nonnil n : N.to_uint n <> Decimal.Nil.
Proof. destruct n; [done|]. apply DecimalPos.Unsigned.to_uint_nonnil. Qed.

Lemma parse_string_of_N n : parse_N (string_of_N n) = Some n.
Proof.
  unfold parse_N. pose proof (string_of_N_nonempty n).
  destruct (string_of_N n) eqn:E; [done|]. rewrite <- E. unfold string_of_N.
  rewrite NilZero.usu by apply N_to_uint_nonnil. cbn [option_map].
  by rewrite DecimalN.Unsigned.of_to.
Qed.

(** [strconv.ParseUint s 10 64] and [strconv.ParseInt s 10 64] on a JSON number literal. *)
Definition parse_uint64 (s : string) : option Z :=
  match parse_N s with
  | Some n => if Z.of_N n <=? uint64_max then Some (Z.of_N n) else None
  | None => None
  end.

Definition parse_int64 (s : string) : option Z :=
  match s with
  | String c s' =>
      if Ascii.eqb c "-" then
        match parse_N s' with
        | Some n => if - Z.of_N n <? int64_min then None else Some (- Z.of_N n)
        | None => None
        end
      else match parse_N s with
           | Some n => if Z.of_N n <=? int64_max then Some (Z.of_N n) else None
           | None => None
           end
  | EmptyString => None
  end.

(** ** Calendar dates *)
Record date := Date { date_year : Z; date_month : Z; date_day : Z }.

Definition is_leap (y : Z) : bool :=
  (y mod 4 =? 0) && (negb (y mod 100 =? 0) || (y mod 400 =? 0)).

Definition days_in (m y : Z) : Z :=
  if m =? 2 then (if is_leap y then 29 else 28)
  else if (m =? 4) || (m =? 6) || (m =? 9) || (m =? 11) then 30 else 31.

(** Days since the epoch, computed over eras of 400 years that start on March 1. *)
Definition days_of_date (t : date) : Z :=
  let y := if date_month t <=? 2 then date_year t - 1 else date_year t in
  let yoe := y mod 400 in
  let mp := if date_month t <=? 2 then date_month t + 9 else date_month t - 3 in
  let doy := (153 * mp + 2) / 5 + date_day t - 1 in
  (y / 400) * 146097 + (yoe * 365 + yoe / 4 - yoe / 100 + doy) - 719468.

Definition date_of_days (days : Z) : date :=
  let z := days + 719468 in
  let doe := z mod 146097 in
  let yoe := (doe - doe / 1460 + doe / 36524 - doe / 146096) / 365 in
  let doy := doe - (365 * yoe + yoe / 4 - yoe / 100) in
  let mp := (5 * doy + 2) / 153 in
  let m := if mp <? 10 then mp + 3 else mp - 9 in
  let y := yoe + (z / 146097) * 400 in
  Date (if m <=? 2 then y + 1 else y) m (doy - (153 * mp + 2) / 5 + 1).

(** ** Timestamps *)
Record gotime := GoTime { unix_nano : Z; zone_seconds : Z }.
#[export] Instance gotime_eq_dec : EqDecision gotime.
Proof. solve_decision. Defined.

(** [Time.IsZero] and [Time.Equal]. *)
Definition is_zero_time (t : gotime) : bool := unix_nano t =? time_zero.
Definition time_equal (a b : gotime) : bool := unix_nano a =? unix_nano b.

(** [time.Now().UTC()] at the instant [now]. *)
Definition utc (now : Z) : gotime := GoTime now 0.

Definition digit (n : Z) : ascii := chr (48 + n).
Definition pad2 (n : Z) : string := String (digit (n / 10)) (str1 (digit (n mod 10))).
Definition pad4 (n : Z) : string := pad2 (n / 100) +:+ pad2 (n mod 100).

(** The [k] decimal digits of [n], most significant first. *)
Fixpoint digits (k : nat) (n : Z) : string :=
  match k with
  | O => EmptyString
  | S k => digits k (n / 10) +:+ str1 (digit (n mod 10))
  end.

Fixpoint drop_zeros (s : string) : string :=
  match s with String c s' => if Ascii.eqb c "0" then drop_zeros s' else s | _ => s end.
Definition trim_zeros (s : string) : string := rev_str (drop_zeros (rev_str s)).

Definition seconds_per_day : Z := 86400.

Definition format_year (y : Z) : string :=
  if (0 <=? y) && (y <=? 9999) then pad4 y else string_of_Z y.

(** The calendar fields of a timestamp in its zone. *)
Definition local_seconds (t : gotime) : Z := unix_nano t / second + zone_seconds t.
Definition local_date (t : gotime) : date := date_of_days (local_seconds t / seconds_per_day).

Definition format_fraction (ns : Z) : string :=
  if ns =? 0 then EmptyString else "." +:+ trim_zeros (digits 9 ns).

Definition format_zone (z : Z) : string :=
  if z =? 0 then "Z"
  else (if z <? 0 then "-" else "+") +:+ pad2 (Z.abs z / 3600) +:+ ":" +:+ pad2 (Z.abs z / 60 mod 60).

(** [Time.Format(time.RFC3339Nano)]. *)
Definition format_rfc3339nano (t : gotime) : string :=
  let d := local_date t in
  let s := local_seconds t mod seconds_per_day in
  format_year (date_year d) +:+ "-" +:+ pad2 (date_month d) +:+ "-" +:+ pad2 (date_day d) +:+
  "T" +:+ pad2 (s / 3600) +:+ ":" +:+ pad2 (s / 60 mod 60) +:+ ":" +:+ pad2 (s mod 60) +:+
  format_fraction (unix_nano t mod second) +:+ format_zone (zone_seconds t).

(** [Time.MarshalJSON] fails when the year has no four digits or the zone's hour is out of
    range. *)
Definition marshal_time (t : gotime) : option string :=
  let y := date_year (local_date t) in
  if (0 <=? y) && (y <=? 9999) && (Z.abs (zone_seconds t) / 3600 <=? 23)
  then Some (format_rfc3339nano t) else None.

Definition digit_of (c : ascii) : option Z :=
  let z := code c in if (48 <=? z) && (z <=? 57) then Some (z - 48) else None.

(** A fixed number of decimal digits, with a range check. *)
Definition take2 (lo hi : Z) (s : string) : option (Z * string) :=
  match s with
  | String a (String b s) =>
      match digit_of a, digit_of b with
      | Some x, Some y =>
          let n := 10 * x + y in
          if (lo <=? n) && (n <=? hi) then Some (n, s) else None
      | _, _ => None
      end
  | _ => None
  end.

Definition expect (c : ascii) (s : string) : option string :=
  match s with String d s => if Ascii.eqb c d then Some s else None | EmptyString => None end.

(** The digits of a fraction: the first nine count. [k] digits are still to come. *)
Fixpoint take_fraction (k : nat) (acc : Z) (s : string) : Z * string :=
  match s with
  | String c s' =>
      match digit_of c with
      | Some x =>
          match k with
          | O => take_fraction O acc s'
          | S k => take_fraction k (10 * acc + x) s'
          end
      | None => (acc * 10 ^ Z.of_nat k, s)
      end
  | EmptyString => (acc * 10 ^ Z.of_nat k, s)
  end.

Definition parse_fraction (s : string) : Z * string :=
  match s with
  | String c (String d _ as s') =>
      if Ascii.eqb c "." && match digit_of d with Some _ => true | None => false end
      then take_fraction 9 0 s' else (0, s)
  | _ => (0, s)
  end.

Definition parse_zone (s : string) : option Z :=
  if (s =? "Z")%string then Some 0
  else match s with
  | String sg s =>
      let sign := if Ascii.eqb sg "-" then Some (-1) else if Ascii.eqb sg "+" then Some 1 else None in
      sign ← sign;
      '(hh, s) ← take2 0 23 s;
      s ← expect ":" s;
      '(mm, s) ← take2 0 59 s;
      if (s =? "")%string then Some (sign * (hh * 3600 + mm * 60)) else None
  | EmptyString => None
  end.

(** [Time.UnmarshalJSON] on the text between the quotes, for RFC 3339 texts.  Go falls back to
    its lenient parser for other texts; the model rejects them. *)
Definition parse_rfc3339 (s : string) : option gotime :=
  '(y1, s) ← take2 0 99 s;
  '(y2, s) ← take2 0 99 s;
  let y := 100 * y1 + y2 in
  s ← expect "-" s;
  '(mo, s) ← take2 1 12 s;
  s ← expect "-" s;
  '(d, s) ← take2 1 (days_in mo y) s;
  s ← expect "T" s;
  '(h, s) ← take2 0 23 s;
  s ← expect ":" s;
  '(mi, s) ← take2 0 59 s;
  s ← expect ":" s;
  '(sec, s) ← take2 0 59 s;
  let '(ns, s) := parse_fraction s in
  z ← parse_zone s;
  Some (GoTime ((days_of_date (Date y mo d) * seconds_per_day + h * 3600 + mi * 60 + sec - z) * second + ns) z).

(** Every zone that is parsed is a number of minutes below a day. *)
Definition wf_zone (z : Z) : Prop := z mod 60 = 0 /\ Z.abs z < seconds_per_day.

Lemma take2_range lo hi s n s' : take2 lo hi s = Some (n, s') -> lo <= n <= hi.
Proof.
  unfold take2. destruct s as [|a [|b s]]; [done..|]. destruct (digit_of a), (digit_of b); try done.
  case_goal; [|done]. intros [= <- _]. reflect_bools. lia.
Qed.

Lemma parse_zone_wf s z : parse_zone s = Some z -> wf_zone z.
Proof.
  unfold parse_zone, wf_zone, seconds_per_day. destruct (s =? "Z")%string; [intros [= <-]; split; [done|lia]|].
  destruct s as [|sg s]; [done|].
  intros (sign & Hsign & ([hh s1] & Hh & (s2 & _ & ([mm s3] & Hm & H)%bind_Some)%bind_Some)%bind_Some)%bind_Some.
  apply take2_range in Hh, Hm. destruct (s3 =? "")%string; [|done]. injection H as <-.
  assert (sign = -1 \/ sign = 1) as [-> | ->].
  { destruct (Ascii.eqb sg "-"); [left; congruence|]. destruct (Ascii.eqb sg "+"); [right; congruence|done]. }
  all: split; [Z.to_euclidean_division_equations|]; lia.
Qed.

Lemma parse_rfc3339_wf s t : parse_rfc3339 s = Some t -> wf_zone (zone_seconds t).
Proof.
  unfold parse_rfc3339. intros H.
  repeat match type of H with
  | mbind _ _ = Some _ => apply bind_Some in H as (? & ? & H)
  | (let '(_, _) := ?x in _) = Some _ => destruct x
  end.
  injection H as <-. simpl. by eapply parse_zone_wf.
Qed.

(** ** Durations *)

(** The digits of a fraction of [10 ^ k] parts, without trailing zeros. *)
Definition duration_fraction (k : nat) (v : Z) : string :=
  let f := trim_zeros (digits k (v mod 10 ^ Z.of_nat k)) in
  if (f =? "")%string then EmptyString else "." +:+ f.

Definition duration_unit (k : nat) (v : Z) : string :=
  string_of_Z (v / 10 ^ Z.of_nat k) +:+ duration_fraction k v.

(** [Duration.String]. *)
Definition duration_string (d : Z) : string :=
  let u := Z.abs d in
  let body :=
    if u <? second then
      if u =? 0 then "0s"
      else if u <? microsecond then string_of_Z u +:+ "ns"
      else if u <? millisecond then duration_unit 3 u +:+ rune_str 181 +:+ "s"
      else duration_unit 6 u +:+ "ms"
    else
      let secs := u / second in
      let s := string_of_Z (secs mod 60) +:+ duration_fraction 9 u +:+ "s" in
      if secs / 60 =? 0 then s
      else
        let m := string_of_Z (secs / 60 mod 60) +:+ "m" +:+ s in
        if secs / 3600 =? 0 then m else string_of_Z (secs / 3600) +:+ "h" +:+ m in
  if d <? 0 then "-" +:+ body else body.
