(* ===== verification/Host.v ===== *)
(** * Errors, effects and the monad of the program

    The program runs rclone, reads clocks and timers, draws random identifiers and touches
    the local file system.  Each such call is an operation [op]; what it answers is up to the
    host, an instance of the class [Host].  The theorems hold for every host, so the answers
    are arbitrary: commands fail, other writers change the remote between two commands, and
    files disappear.  A computation returns its result, the state it leaves and the list of
    the operations it performed, in order. *)

From Stdlib Require Import Ascii.
From S2P Require Import Prelude GoString.

Local Open Scope Z_scope.

(** ** Errors

    [sys_error] is what the operating system and the rclone process answer.  [Errorf] is an error with a text of its own ([errors.New] or [fmt.Errorf] without [%w];
    formatted arguments are left out of the text).  [Wrapf] is [fmt.Errorf] with [%w]. *)
Inductive sys_error :=
| ExitError (code : Z)          (* [exec.ExitError] *)
| ContextCanceled               (* [context.Canceled] *)
| NotExist                      (* [os.ErrNotExist] *)
| NotDir                        (* [syscall.ENOTDIR] *)
| DeadlineExceeded              (* [os.ErrDeadlineExceeded] *)
| Interrupted                   (* [syscall.EINTR] *)
| TryAgain                      (* [syscall.EAGAIN] *)
| OtherError (msg : string).

Inductive error :=
| Errorf (msg : string)
| Wrapf (msg : string) (cause : error)
| ErrLockOwnershipLost
| ErrInterrupted (signal : Z) (phase : string)
| ErrSys (e : sys_error).

#[export] Instance sys_error_eq_dec : EqDecision sys_error.
Proof. solve_decision. Defined.
#[export] Instance error_eq_dec : EqDecision error.
Proof. solve_decision. Defined.

(** [errors.Is(err, errLockOwnershipLost)]. *)
Fixpoint is_ownership_lost (e : error) : bool :=
  match e with
  | ErrLockOwnershipLost => true
  | Wrapf _ e => is_ownership_lost e
  | _ => false
  end.

(** [errors.Is(err, os.ErrNotExist)] and [errors.Is(err, syscall.ENOTDIR)]. *)
Fixpoint is_not_exist (e : error) : bool :=
  match e with ErrSys NotExist => true | Wrapf _ e => is_not_exist e | _ => false end.
Fixpoint is_not_dir (e : error) : bool :=
  match e with ErrSys NotDir => true | Wrapf _ e => is_not_dir e | _ => false end.

(** [errors.As(err, &exitError)]: the exit code of the wrapped [exec.ExitError]. *)
Fixpoint as_exit_error (e : error) : option Z :=
  match e with ErrSys (ExitError c) => Some c | Wrapf _ e => as_exit_error e | _ => None end.

(** [errors.As(err, &interrupted)] for [interruptedError]: the signal. *)
Fixpoint as_interrupted (e : error) : option Z :=
  match e with ErrInterrupted s _ => Some s | Wrapf _ e => as_interrupted e | _ => None end.

(** Rclone exits with 3 for a missing directory and 4 for a missing file. *)
Definition isRcloneNotFound (e : error) : bool :=
  match as_exit_error e with
  | Some c => (c =? 3) || (c =? 4)
  | None => false
  end.

Definition commandError (e : error) (output : string) : error :=
  match trim_space output with
  | EmptyString => e
  | message => Wrapf message e
  end.

(** ** Operations *)
Record cmd_output := CmdOutput { cmd_stdout : string; cmd_stderr : string; cmd_err : option sys_error }.

(** What became of a watchdog timer that the program stops: [StoppedInTime] if it had not
    fired, otherwise whether it fired before the program's own update of the lock expiry. *)
Inductive watchdog := StoppedInTime | Fired (before_update : bool).

(** The status of a process: [syscall.WaitStatus]. *)
Inductive wait_status := Exited (code : Z) | Signaled (sig : Z) | Stopped | OtherStatus.

(** The fields of [syscall.SysProcAttr] that the program sets. *)
Record process_attr := ProcessAttr { Setpgid : bool; Foreground : bool; Ctty : Z }.

Inductive op : Type -> Type :=
| Rclone (args : list string) : op cmd_output        (* the [rclone] process *)
| Now : op Z                                         (* [time.Now] *)
| RandText : op (list Z)                             (* the bytes [rand.Text] reads *)
| AwaitTimer (d : Z) : op (option Z)                 (* [select] on a signal and a timer *)
| StopWatchdog (deadline : Z) : op watchdog          (* [Timer.Stop] of a [time.AfterFunc] *)
| ReadFile (path : string) : op (string + sys_error)
| MkdirAll (path : string) : op (option sys_error)
| CreateTemp (dir pattern : string) : op (string + sys_error)
| WriteFile (name contents : string) : op (option sys_error)
| SyncFile (name : string) : op (option sys_error)
| CloseFile (name : string) : op (option sys_error)
| Rename (old new : string) : op (option sys_error)
| OpenDir (path : string) : op (option sys_error)
| SyncDir (path : string) : op (option sys_error)
| Remove (name : string) : op unit
| Lstat (path : string) : op (bool + sys_error)          (* [inl]: is it a directory *)
| Stat (path : string) : op (bool + sys_error)           (* the same, through symbolic links *)
| EvalSymlinks (path : string) : op (string + sys_error)
| Getwd : op (string + sys_error)
| LookupEnv (name : string) : op (option string)
| RandRead (n : nat) : op (list Z + sys_error)           (* [rand.Read]: [n] bytes *)
| ReadDir (path : string) : op (list (string * bool) * option sys_error)  (* sorted: name, is it a directory *)
| InotifyInit : op (Z + sys_error)
| InotifyAddWatch (fd : Z) (path : string) : op (Z + sys_error)
| InotifyRmWatch (fd descriptor : Z) : op unit
| ReadEvents (fd : Z) : op (string + sys_error)          (* a read of the inotify instance *)
| CloseFd (fd : Z) : op unit
| Wait4 (pid : Z) : op (wait_status + sys_error)
| Tcgetpgrp : op (Z + sys_error)                         (* the terminal's foreground group *)
| Tcsetpgrp (pgrp : Z) : op unit                         (* its error is ignored *)
| Kill (pid sig : Z) : op (option sys_error)
| IsIgnored (sig : Z) : op bool
| AwaitSignal (sig : Z) : op unit
| Getpgrp : op Z
| IgnoreSignal (sig : Z) : op unit                       (* [signal.Ignore] *)
| StartProcess (args : list string) (attr : process_attr) : op (Z + (bool * error))
    (* [exec.Cmd.Start]: the process, or the error and whether it is [exec.ErrNotFound] *)
| WaitProcess (pid : Z) : op (option (option wait_status)).
    (* [exec.Cmd.Wait]: [Some None] is an error that is no [exec.ExitError] *)

(** [rand.Text]: 26 characters of the base32 alphabet, each from one random byte. *)
Definition base32 : string := "ABCDEFGHIJKLMNOPQRSTUVWXYZ234567".
Definition base32_char (b : Z) : ascii := default "A"%char (String.get (Z.to_nat (b mod 32)) base32).
Definition rand_text (bytes : list Z) : string :=
  concat_str ((fun i => str1 (base32_char (nth i bytes 0))) <$> seq 0 26).

(** A performed operation and its answer. *)
Record event := Event { ev_type : Type; ev_op : op ev_type; ev_answer : ev_type }.
Arguments Event {ev_type} ev_op ev_answer.

Class Host (W : Type) := host_step : forall A, op A -> W -> A * W.
Arguments host_step {W _ A} o w.

(** The rclone commands of a trace, in order. *)
Definition event_args (e : event) : option (list string) :=
  match ev_op e with Rclone args => Some args | _ => None end.
Definition commands (t : list event) : list (list string) := omap event_args t.

(** ** Computations *)
Record outcome (S A : Type) := Outcome { res : result error A; out_state : S; trace : list event }.
Arguments Outcome {S A} res out_state trace.
Arguments res {S A} o.
Arguments out_state {S A} o.
Arguments trace {S A} o.

(** The state: the host's, which the program cannot inspect, and the program's variables. *)
Record st (W V : Type) := St { host : W; vars : V }.
Arguments St {W V} host vars.
Arguments host {W V} s.
Arguments vars {W V} s.

Definition M (W V A : Type) : Type := st W V -> outcome (st W V) A.

Section Monad.
Context {W V : Type}.

Definition ret {A} (a : A) : M W V A := fun s => Outcome (Ok a) s [].
Definition throw {A} (e : error) : M W V A := fun s => Outcome (Err e) s [].
Definition out_of_fuel {A} : M W V A := fun s => Outcome OutOfFuel s [].

Definition bind {A B} (m : M W V A) (f : A -> M W V B) : M W V B := fun s =>
  let o := m s in
  match res o with
  | Ok a => let o' := f a (out_state o) in Outcome (res o') (out_state o') (trace o ++ trace o')
  | Err e => Outcome (Err e) (out_state o) (trace o)
  | OutOfFuel => Outcome OutOfFuel (out_state o) (trace o)
  end.

(** A call whose error the caller looks at. *)
Definition try {A} (m : M W V A) : M W V (A + error) := fun s =>
  let o := m s in
  match res o with
  | Ok a => Outcome (Ok (inl a)) (out_state o) (trace o)
  | Err e => Outcome (Ok (inr e)) (out_state o) (trace o)
  | OutOfFuel => Outcome OutOfFuel (out_state o) (trace o)
  end.

(** [if err := m; err != nil { return fmt.Errorf(msg + ": %w", err) }]. *)
Definition wrap {A} (msg : string) (m : M W V A) : M W V A := fun s =>
  let o := m s in
  match res o with
  | Err e => Outcome (Err (Wrapf msg e)) (out_state o) (trace o)
  | _ => o
  end.

(** [defer cleanup]: runs after [m] whatever it returned. *)
Definition finally {A} (m : M W V A) (cleanup : M W V unit) : M W V A := fun s =>
  let o := m s in
  let o' := cleanup (out_state o) in
  Outcome (res o) (out_state o') (trace o ++ trace o').

Definition get : M W V V := fun s => Outcome (Ok (vars s)) s [].
Definition modify (f : V -> V) : M W V unit := fun s =>
  Outcome (Ok tt) (St (host s) (f (vars s))) [].

Definition lift {A} (r : result error A) : M W V A := fun s => Outcome r s [].

Definition sys {A} `{Host W} (o : op A) : M W V A := fun s =>
  let '(a, w) := host_step o (host s) in
  Outcome (Ok a) (St w (vars s)) [Event o a].
End Monad.

(** The notations [x ← m; k] and [m ;; k] of stdpp. *)
#[export] Instance M_ret {W V} : MRet (M W V) := fun A a => ret a.
#[export] Instance M_bind {W V} : MBind (M W V) := fun A B f m => bind m f.

Section Helpers.
Context {W V : Type} `{!Host W}.

(** An operation that answers an error or nothing. *)
Definition check (o : op (option sys_error)) : M W V unit :=
  r ← sys o;
  match r with None => ret tt | Some e => throw (ErrSys e) end.

(** An operation that answers a value or an error. *)
Definition obtain {A} (o : op (A + sys_error)) : M W V A :=
  r ← sys o;
  match r with inl a => ret a | inr e => throw (ErrSys e) end.

(** [if b { return err }]. *)
Definition fail_if (b : bool) (e : error) : M W V unit := if b then throw e else ret tt.
End Helpers.

(** ** Results of pure code

    [plain r]: [r] is a value or an error of the code that computed it, not one of the errors
    that stand for a lost lock or a signal, and the computation had enough fuel. *)
Definition ordinary (e : error) : Prop := is_ownership_lost e = false /\ as_interrupted e = None.

Definition plain {A} (r : result error A) : Prop :=
  match r with Ok _ => True | Err e => ordinary e | OutOfFuel => False end.

Lemma ordinary_Errorf msg : ordinary (Errorf msg).
Proof. done. Qed.
Lemma ordinary_sys e : ordinary (ErrSys e).
Proof. done. Qed.
Lemma ordinary_Wrapf msg e : ordinary e -> ordinary (Wrapf msg e).
Proof. done. Qed.
Lemma ordinary_commandError e out : ordinary e -> ordinary (commandError e out).
Proof. unfold commandError. by destruct (trim_space out). Qed.

Lemma plain_Ok {A} (a : A) : plain (Ok a).
Proof. done. Qed.
Lemma plain_Errorf {A} msg : @plain A (Err (Errorf msg)).
Proof. done. Qed.
Lemma plain_bind {A B} (r : result error A) (f : A -> result error B) :
  plain r -> (forall a, r = Ok a -> plain (f a)) -> plain (result_bind r f).
Proof. destruct r; simpl; auto. Qed.
Lemma plain_if {A} (b : bool) (r1 r2 : result error A) :
  plain r1 -> plain r2 -> plain (if b then r1 else r2).
Proof. by destruct b. Qed.

#[export] Hint Resolve ordinary_Errorf ordinary_sys ordinary_Wrapf ordinary_commandError
  plain_Ok plain_Errorf : go.

(** Takes a result apart along its binds, tests and matches. *)
Ltac plain_steps :=
  repeat first
    [ done
    | solve [auto with go]
    | lazymatch goal with
      | |- plain (result_bind _ _) => apply plain_bind; [|intros ??]
      | |- plain (match ?x with _ => _ end) => destruct x eqn:?
      end ].
