(* ===== verification/HostLogic.v ===== *)
(** * A program logic for the monad of [Host]

    [wp m Q s]: running [m] from [s] gives a result, a state and a trace that satisfy [Q].
    The rule for an operation leaves the host's answer and the state it moves to arbitrary, so
    what is proved with these rules holds whatever the environment does.  A trace is
    abstracted to the [action]s that matter: replacements of the local state file,
    publications of the remote one, and payload transfers. *)

From S2P Require Import Prelude GoString Host.

(** ** Actions *)
Inductive action :=
| SaveLocal (path contents : string)                                  (* a file renamed into place *)
| Publish (contents : string) (condition : list string) (accepted : bool) (* an upload of the state object *)
| Transfer (args : list string)                                       (* a payload command that was run *).

#[export] Instance action_eq_dec : EqDecision action.
Proof. solve_decision. Defined.

(** The contents of the files written so far, as the trace shows them. *)
Definition track (f : gmap string string) (e : event) : gmap string string :=
  match ev_op e in op A return A -> _ with
  | WriteFile n c => fun r => match r with None => <[n := c]> f | Some _ => delete n f end
  | _ => fun _ => f
  end (ev_answer e).

(** What follows the source and the destination of an upload, but for the flag every command
    gets at its end. *)
Definition upload_condition (rest : list string) : list string := List.removelast (tail rest).

Definition command_action (f : gmap string string) (args : list string) (accepted : bool) : option action :=
  match args with
  | cmd :: rest =>
      if (cmd =? "copyto")%string then
        Some (Publish (default "" (f !! default "" (head rest))) (upload_condition (tail rest)) accepted)
      else if (cmd =? "sync")%string || (cmd =? "delete")%string || (cmd =? "rmdirs")%string
      then Some (Transfer args)
      else None
  | [] => None
  end.

Definition event_action (f : gmap string string) (e : event) : option action :=
  match ev_op e in op A return A -> _ with
  | Rclone args => fun r => command_action f args (match cmd_err r with None => true | Some _ => false end)
  | Rename a b => fun r => match r with None => Some (SaveLocal b (default "" (f !! a))) | Some _ => None end
  | _ => fun _ => None
  end (ev_answer e).

Fixpoint actions (f : gmap string string) (t : list event) : list action :=
  match t with
  | [] => []
  | e :: t => option_list (event_action f e) ++ actions (track f e) t
  end.

(** [acts t l]: the actions of [t] are [l], whatever files were written before. *)
Definition acts (t : list event) (l : list action) : Prop := forall f, actions f t = l.
Abbreviation quiet t := (acts t []).

Lemma actions_app f t1 t2 : actions f (t1 ++ t2) = actions f t1 ++ actions (foldl track f t1) t2.
Proof.
  revert f. induction t1 as [|e t1 IH]; intros f; simpl; [done|]. by rewrite IH, <- app_assoc.
Qed.

Lemma acts_nil : acts [] [].
Proof. by intros f. Qed.

Lemma acts_app t1 t2 l1 l2 : acts t1 l1 -> acts t2 l2 -> acts (t1 ++ t2) (l1 ++ l2).
Proof. intros H1 H2 f. by rewrite actions_app, H1, H2. Qed.

Lemma quiet_app_l t1 t2 l : quiet t1 -> acts t2 l -> acts (t1 ++ t2) l.
Proof. apply (acts_app t1 t2 []). Qed.

Lemma quiet_app_r t1 t2 l : acts t1 l -> quiet t2 -> acts (t1 ++ t2) l.
Proof. intros H1 H2. rewrite <- (app_nil_r l). by apply acts_app. Qed.

Lemma quiet_cons e t l : quiet [e] -> acts t l -> acts (e :: t) l.
Proof. apply (quiet_app_l [e]). Qed.

(** An operation that is no action, whatever its answer. *)
Definition quiet_op {A} (o : op A) : Prop := forall a, quiet [Event o a].

Lemma quiet_op_cons {A} (o : op A) a t l : quiet_op o -> acts t l -> acts (Event o a :: t) l.
Proof. intros Ho. apply (quiet_app_l [_]), Ho. Qed.

(** ** Weakest preconditions *)
Section Wp.
Context {W V : Type}.
Implicit Types (s : st W V) (t : list event).

Definition post (A : Type) : Type := result error A -> st W V -> list event -> Prop.

Definition wp {A} (m : M W V A) (Q : post A) s : Prop :=
  Q (res (m s)) (out_state (m s)) (trace (m s)).

(** The continuation of a bind, run after a trace [t]. *)
Definition after {A B} (f : A -> M W V B) (Q : post B) : post A := fun r s t =>
  match r with
  | Ok a => wp (f a) (fun r' s' t' => Q r' s' (t ++ t')) s
  | Err e => Q (Err e) s t
  | OutOfFuel => Q OutOfFuel s t
  end.

Lemma wp_mono {A} (m : M W V A) (Q Q' : post A) s :
  wp m Q s -> (forall r s' t, Q r s' t -> Q' r s' t) -> wp m Q' s.
Proof. unfold wp. auto. Qed.

Lemma wp_and {A} (m : M W V A) (Q1 Q2 : post A) s :
  wp m Q1 s -> wp m Q2 s -> wp m (fun r s' t => Q1 r s' t /\ Q2 r s' t) s.
Proof. by split. Qed.

Lemma wp_bind {A B} (m : M W V A) (f : A -> M W V B) Q s : wp m (after f Q) s -> wp (m ≫= f) Q s.
Proof. unfold wp, after, mbind, M_bind, bind. by destruct (res (m s)). Qed.

Lemma wp_ret {A} (a : A) Q s : Q (Ok a) s [] -> wp (ret a) Q s.
Proof. done. Qed.
Lemma wp_throw {A} e (Q : post A) s : Q (Err e) s [] -> wp (throw e) Q s.
Proof. done. Qed.
Lemma wp_out_of_fuel {A} (Q : post A) s : Q OutOfFuel s [] -> wp out_of_fuel Q s.
Proof. done. Qed.
Lemma wp_get (Q : post V) s : Q (Ok (vars s)) s [] -> wp get Q s.
Proof. done. Qed.
Lemma wp_modify f (Q : post unit) s : Q (Ok tt) (St (host s) (f (vars s))) [] -> wp (modify f) Q s.
Proof. done. Qed.
Lemma wp_lift {A} (r : result error A) (Q : post A) s : Q r s [] -> wp (lift r) Q s.
Proof. done. Qed.

Lemma wp_try {A} (m : M W V A) Q s :
  wp m (fun r s t => match r with
                     | Ok a => Q (Ok (inl a)) s t
                     | Err e => Q (Ok (inr e)) s t
                     | OutOfFuel => Q OutOfFuel s t
                     end) s ->
  wp (try m) Q s.
Proof. unfold wp, try. by destruct (res (m s)). Qed.

Lemma wp_wrap {A} msg (m : M W V A) (Q : post A) s :
  wp m (fun r s t => match r with
                     | Err e => Q (Err (Wrapf msg e)) s t
                     | _ => Q r s t
                     end) s ->
  wp (wrap msg m) Q s.
Proof. unfold wp, wrap. destruct (res (m s)) eqn:E; simpl; rewrite ?E; done. Qed.

Lemma wp_finally {A} (m : M W V A) c (Q : post A) s :
  wp m (fun r s t => wp c (fun _ s' t' => Q r s' (t ++ t')) s) s -> wp (finally m c) Q s.
Proof. done. Qed.

Lemma wp_sys `{!Host W} {A} (o : op A) (Q : post A) s :
  (forall a w, Q (Ok a) (St w (vars s)) [Event o a]) -> wp (sys o) Q s.
Proof. intros H. unfold wp, sys. destruct (host_step o (host s)); apply H. Qed.

Lemma wp_fail_if b e (Q : post unit) s :
  (b = true -> Q (Err e) s []) -> (b = false -> Q (Ok tt) s []) -> wp (fail_if b e) Q s.
Proof. destruct b; intros H1 H2; [apply H1|apply H2]; done. Qed.

Lemma wp_check `{!Host W} (o : op (option sys_error)) (Q : post unit) s :
  (forall w, Q (Ok tt) (St w (vars s)) [Event o None]) ->
  (forall e w, Q (Err (ErrSys e)) (St w (vars s)) [Event o (Some e)]) ->
  wp (check o) Q s.
Proof. intros H1 H2. apply wp_bind, wp_sys. intros [e|] w; simpl; [apply wp_throw|apply wp_ret]; simpl; auto. Qed.

Lemma wp_obtain `{!Host W} {A} (o : op (A + sys_error)) (Q : post A) s :
  (forall a w, Q (Ok a) (St w (vars s)) [Event o (inl a)]) ->
  (forall e w, Q (Err (ErrSys e)) (St w (vars s)) [Event o (inr e)]) ->
  wp (obtain o) Q s.
Proof. intros H1 H2. apply wp_bind, wp_sys. intros [a|e] w; simpl; [apply wp_ret|apply wp_throw]; simpl; auto. Qed.

(** The same when the host's answer is known to be a value. *)
Lemma wp_obtain_value `{!Host W} {A} (o : op (A + sys_error)) (Q : post A) s :
  (exists a, fst (host_step o (host s)) = inl a) ->
  (forall a w, Q (Ok a) (St w (vars s)) [Event o (inl a)]) ->
  wp (obtain o) Q s.
Proof.
  intros [a Ha] HQ. unfold obtain. apply wp_bind. unfold wp, sys. destruct (host_step o (host s)) as [b w]. cbn in Ha. subst b.
  cbn [res out_state trace after]. apply wp_ret. rewrite app_nil_r. apply HQ.
Qed.
End Wp.

(** Runs the program one construct further. *)
Ltac wp_step :=
  lazymatch goal with
  | |- wp (mbind _ _) _ _ => apply wp_bind
  | |- wp (ret _) _ _ => apply wp_ret
  | |- wp (throw _) _ _ => apply wp_throw
  | |- wp out_of_fuel _ _ => apply wp_out_of_fuel
  | |- wp get _ _ => apply wp_get
  | |- wp (modify _) _ _ => apply wp_modify
  | |- wp (lift _) _ _ => apply wp_lift
  | |- wp (try _) _ _ => apply wp_try
  | |- wp (wrap _ _) _ _ => apply wp_wrap
  | |- wp (finally _ _) _ _ => apply wp_finally
  | |- wp (sys _) _ _ => apply wp_sys; intros ??
  | |- wp (check _) _ _ => apply wp_check; intros
  | |- wp (obtain _) _ _ => apply wp_obtain; intros
  | |- wp (fail_if _ _) _ _ => apply wp_fail_if; intros ?
  | |- wp (match ?x with _ => _ end) _ _ => destruct x eqn:?
  | |- after _ _ _ _ _ => cbn [after]
  | |- wp (let '(_, _) := ?x in _) _ _ => destruct x
  end; cbn beta iota.
Ltac wp_run := repeat wp_step.

Create HintDb acts discriminated.
#[export] Hint Resolve acts_nil : acts.
#[export] Hint Resolve quiet_app_l quiet_app_r quiet_cons | 5 : acts.

(** ** Contracts

    The specification of an operation without a value: how its result, the variables it leaves
    and its actions depend on the variables it starts with. *)
Section Contracts.
Context {W V : Type}.

Definition contract : Type := V -> result error unit -> V -> list action -> Prop.

Definition satisfies (m : M W V unit) (C : contract) : Prop :=
  forall s, exists l, acts (trace (m s)) l /\ C (vars s) (res (m s)) (vars (out_state (m s))) l.

(** As a rule of the logic. *)
Lemma satisfies_wp m (C : contract) (Q : post (W := W) unit) s :
  satisfies m C ->
  (forall r w v l t, C (vars s) r v l -> acts t l -> Q r (St w v) t) -> wp m Q s.
Proof.
  intros Hm HQ. destruct (Hm s) as (l & Hl & HC). unfold wp.
  destruct (out_state (m s)) as [w v] eqn:E. by eapply HQ.
Qed.

Lemma wp_satisfies m (C : contract) :
  (forall s, wp m (fun r s' t => exists l, acts t l /\ C (vars s) r (vars s') l) s) -> satisfies m C.
Proof. done. Qed.

(** Nothing happens. *)
Definition c_skip : contract := fun v r v' l => r = Ok tt /\ v' = v /\ l = [].
(** An error before anything happens. *)
Definition c_fail : contract := fun v r v' l => (exists e, r = Err e /\ ordinary e) /\ v' = v /\ l = [].
(** One action, and an error that leaves open whether it was performed. *)
Definition c_action (a : action) : contract := fun v r v' l =>
  v' = v /\ (r = Ok tt /\ l = [a] \/ (exists e, r = Err e /\ ordinary e) /\ (l = [] \/ l = [a])).
(** [C2] after [C1], if that succeeds. *)
Definition c_seq (C1 C2 : contract) : contract := fun v r v' l =>
  (exists e, r = Err e /\ C1 v (Err e) v' l) \/
  (exists v1 l1 l2, C1 v (Ok tt) v1 l1 /\ C2 v1 r v' l2 /\ l = l1 ++ l2).
(** An error is passed on with a text of the caller. *)
Definition c_wrap (msg : string) (C : contract) : contract := fun v r v' l =>
  match r with
  | Err (Wrapf m e) => m = msg /\ C v (Err e) v' l
  | Err _ => False
  | _ => C v r v' l
  end.
Definition c_exists {A} (C : A -> contract) : contract := fun v r v' l => exists a, C a v r v' l.
Definition c_or (C1 C2 : contract) : contract := fun v r v' l => C1 v r v' l \/ C2 v r v' l.

Lemma satisfies_weaken m (C C' : contract) :
  satisfies m C -> (forall v r v' l, C v r v' l -> C' v r v' l) -> satisfies m C'.
Proof. intros Hm HC s. destruct (Hm s) as (l & Hl & H). eauto. Qed.

Lemma satisfies_ret : satisfies (ret tt) c_skip.
Proof. intros s. exists []. split; [apply acts_nil|done]. Qed.

Lemma satisfies_throw e : ordinary e -> satisfies (throw e) c_fail.
Proof. intros He s. exists []. split; [apply acts_nil|]. split; [by exists e|done]. Qed.

Lemma satisfies_wrap msg m C : satisfies m C -> satisfies (wrap msg m) (c_wrap msg C).
Proof.
  intros Hm s. destruct (Hm s) as (l & Hl & HC). exists l. unfold wrap.
  destruct (res (m s)) as [[]| |] eqn:E; simpl; rewrite ?E; auto.
Qed.

Lemma satisfies_seq m1 m2 C1 C2 :
  satisfies m1 C1 -> satisfies m2 C2 ->
  (forall v v' l, ~ C1 v OutOfFuel v' l) ->
  satisfies (m1 ≫= fun _ => m2) (c_seq C1 C2).
Proof.
  intros H1 H2 Hf s. destruct (H1 s) as (l1 & Hl1 & HC1).
  unfold mbind, M_bind, bind. destruct (res (m1 s)) as [[]|e|] eqn:E; simpl.
  - destruct (H2 (out_state (m1 s))) as (l2 & Hl2 & HC2).
    exists (l1 ++ l2). split; [by apply acts_app|]. right. by exists (vars (out_state (m1 s))), l1, l2.
  - exists l1. split; [done|]. left. by exists e.
  - by apply Hf in HC1.
Qed.

Lemma satisfies_get (f : V -> M W V unit) (C : V -> contract) :
  (forall v, satisfies (f v) (C v)) -> satisfies (get ≫= f) (fun v => C v v).
Proof. intros Hf s. destruct (Hf (vars s) s) as (l & Hl & HC). by exists l. Qed.

Lemma satisfies_sys `{!Host W} {A} (o : op A) (f : A -> M W V unit) (C : A -> contract) :
  quiet_op o -> (forall a, satisfies (f a) (C a)) -> satisfies (sys o ≫= f) (c_exists C).
Proof.
  intros Ho Hf. apply wp_satisfies. intros s. apply wp_bind, wp_sys. intros a w. cbn [after].
  eapply satisfies_wp; [apply Hf|]. intros r w' v l t HC Hl. exists l.
  split; [by apply quiet_op_cons|]. by exists a.
Qed.

Lemma satisfies_fail_if b e (m : M W V unit) C :
  ordinary e -> satisfies m C -> satisfies (fail_if b e ≫= fun _ => m) (if b then c_fail else C).
Proof.
  intros He Hm. destruct b; [|done].
  intros s. exists []. split; [apply acts_nil|]. split; [by exists e|done].
Qed.

Lemma satisfies_if (b : bool) m1 m2 C1 C2 :
  satisfies m1 C1 -> satisfies m2 C2 -> satisfies (if b then m1 else m2) (if b then C1 else C2).
Proof. by destruct b. Qed.

(** What a result other than [Ok] means for the actions of a sequence, by cases. *)
Lemma c_wrap_not_fuel msg (C : contract) v v' l : (~ C v OutOfFuel v' l) -> ~ c_wrap msg C v OutOfFuel v' l.
Proof. done. Qed.
End Contracts.
Arguments contract V : clear implicits.
