(* ===== verification/MemHost.v ===== *)
(** * A host that can be run

    A concrete instance of [Host]: a local file system in memory, one remote state object
    with an ETag, a payload flag, a clock that advances with every reading and every wait, and
    a script of errors for the rclone commands to come.  The examples and the witnesses run
    the program on it; no theorem about the program depends on it. *)

From Stdlib Require Import Ascii.
From S2P Require Import Prelude GoString GoTime Host.

Local Open Scope Z_scope.

Record mem := Mem {
  clock : Z;
  files : gmap string string;
  object : option (string * Z);     (* contents and version of the remote state object *)
  version : Z;                      (* versions handed out so far *)
  occupied : bool;                  (* does the remote hold payload *)
  counter : Z;                      (* names and identifiers handed out so far *)
  failures : list (option sys_error);   (* what the next commands answer instead of running *)
  signals : list (option positive)         (* what the next waits deliver *)
}.

Definition fresh_mem (files : gmap string string) (object : option string) (occupied : bool) : mem :=
  Mem (1700000000 * second) files ((fun o => (o, 1)) <$> object) 1 occupied 0 [] [].

Definition upd_files (f : gmap string string) (m : mem) : mem :=
  Mem (clock m) f (object m) (version m) (occupied m) (counter m) (failures m) (signals m).
Definition tick (d : Z) (m : mem) : mem :=
  Mem (clock m + d) (files m) (object m) (version m) (occupied m) (counter m) (failures m) (signals m).
Definition count (m : mem) : mem :=
  Mem (clock m) (files m) (object m) (version m) (occupied m) (counter m + 1) (failures m) (signals m).
Definition upd_object (contents : string) (m : mem) : mem :=
  Mem (clock m) (files m) (Some (contents, version m + 1)) (version m + 1) (occupied m) (counter m)
    (failures m) (signals m).
Definition set_occupied (b : bool) (m : mem) : mem :=
  Mem (clock m) (files m) (object m) (version m) b (counter m) (failures m) (signals m).
Definition set_failures (l : list (option sys_error)) (m : mem) : mem :=
  Mem (clock m) (files m) (object m) (version m) (occupied m) (counter m) l (signals m).
Definition set_signals (l : list (option positive)) (m : mem) : mem :=
  Mem (clock m) (files m) (object m) (version m) (occupied m) (counter m) (failures m) l.

Definition version_tag (v : Z) : string := "v" +:+ string_of_Z v.
Definition in_quotes (t : string) : string := String dquote (t +:+ str1 dquote).

Definition ok_output (out err : string) : cmd_output := CmdOutput out err None.
Definition exit_output (code : Z) : cmd_output := CmdOutput "" "" (Some (ExitError code)).

(** The condition of an upload, against the object that is there. *)
Definition condition_holds (flags : list string) (o : option (string * Z)) : bool :=
  if bool_decide ("If-None-Match: *"%stdpp ∈ flags) then match o with None => true | Some _ => false end
  else match List.find (has_prefix "If-Match: ") flags with
       | None => true
       | Some h => match o with
                   | None => false
                   | Some (_, v) => (h =? "If-Match: " +:+ in_quotes (version_tag v))%string
                   end
       end.

Definition mem_rclone (args : list string) (m : mem) : cmd_output * mem :=
  match args with
  | cmd :: rest =>
      if (cmd =? "cat")%string then
        match object m with
        | None => (exit_output 4, m)
        | Some (c, v) => (ok_output c ("Etag: " +:+ in_quotes (version_tag v)), m)
        end
      else if (cmd =? "copyto")%string then
        match rest with
        | name :: _ =>
            if condition_holds rest (object m)
            then (ok_output "" "", upd_object (default "" (files m !! name)) m)
            else (exit_output 1, m)
        | [] => (exit_output 2, m)
        end
      else if (cmd =? "lsjson")%string then
        (ok_output (if occupied m then "[{" +:+ in_quotes "Path" +:+ ":" +:+ in_quotes "x" +:+ "}]" else "[]") "", m)
      else if (cmd =? "sync")%string then (ok_output "" "", set_occupied true m)
      else (ok_output "" "", set_occupied false m)
  | [] => (exit_output 2, m)
  end.

Definition mem_step A (o : op A) (m : mem) : A * mem :=
  match o in op A return A * mem with
  | Rclone args =>
      match failures m with
      | Some e :: l => (CmdOutput "" "" (Some e), set_failures l m)
      | None :: l => mem_rclone args (set_failures l m)
      | [] => mem_rclone args m
      end
  | Now => (clock m, tick 1 m)
  | RandText => ([counter m], count m)
  | AwaitTimer d =>
      match signals m with
      | Some g :: l => (Some (Z.pos g), set_signals l m)
      | None :: l => (None, tick (Z.max d 0) (set_signals l m))
      | [] => (None, tick (Z.max d 0) m)
      end
  | StopWatchdog d => (if clock m <? d then StoppedInTime else Fired true, m)
  | ReadFile p => (match files m !! p with Some c => inl c | None => inr NotExist end, m)
  | MkdirAll _ => (None, m)
  | CreateTemp d p => (inl (d +:+ "/" +:+ p +:+ string_of_Z (counter m)), count m)
  | WriteFile n c => (None, upd_files (<[n := c]> (files m)) m)
  | SyncFile _ => (None, m)
  | CloseFile _ => (None, m)
  | Rename a b =>
      match files m !! a with
      | Some c => (None, upd_files (<[b := c]> (delete a (files m))) m)
      | None => (Some NotExist, m)
      end
  | OpenDir _ => (None, m)
  | SyncDir _ => (None, m)
  | Remove n => (tt, upd_files (delete n (files m)) m)
  | Lstat p | Stat p => (match files m !! p with Some _ => inl false | None => inr NotExist end, m)
  | EvalSymlinks p => (inl p, m)
  | Getwd => (inl "/"%stdpp, m)
  | LookupEnv _ => (None, m)
  | RandRead n => (inl (repeat (counter m mod 256) n), count m)
  | ReadDir _ => (([], Some NotExist), m)
  | InotifyInit | InotifyAddWatch _ _ => (inr (OtherError "no inotify here"), m)
  | InotifyRmWatch _ _ => (tt, m)
  | ReadEvents _ => (inr TryAgain, m)
  | CloseFd _ => (tt, m)
  | Wait4 _ => (inl (Exited 0), m)
  | Tcgetpgrp => (inr (OtherError "no terminal here"), m)
  | Tcsetpgrp _ | AwaitSignal _ | IgnoreSignal _ => (tt, m)
  | Kill _ _ => (None, m)
  | IsIgnored _ => (false, m)
  | Getpgrp => (100, m)
  | StartProcess _ _ => (inl 42, m)
  | WaitProcess _ => (None, m)
  end.

#[export] Instance mem_host : Host mem := mem_step.
