(* ===== verification/MemTree.v ===== *)
(** * A directory tree with inotify

    A concrete [Host] for the watcher: a list of paths with their inodes, and an inotify
    instance whose watches belong to inodes, as in the kernel: watching a directory a second
    time, under another name, answers the descriptor it already has.  Witnesses and scenarios
    run on it. *)

From Stdlib Require Import Ascii.
From S2P Require Import Prelude GoString Host.

Local Open Scope Z_scope.

Record tree := Tree {
  nodes : list (string * (Z * bool));     (* path, inode, is it a directory *)
  watches : gmap Z Z;                     (* inode to descriptor *)
  next_descriptor : Z;
  buffers : list (string + sys_error)     (* what the next reads answer *)
}.

Definition fresh_tree (nodes : list (string * (Z * bool))) : tree := Tree nodes ∅ 1 [].
Definition upd_nodes (n : list (string * (Z * bool))) (t : tree) : tree := Tree n (watches t) (next_descriptor t) (buffers t).
Definition upd_buffers (b : list (string + sys_error)) (t : tree) : tree := Tree (nodes t) (watches t) (next_descriptor t) b.

Definition node (t : tree) (p : string) : option (Z * bool) :=
  snd <$> List.find (fun n => (fst n =? p)%string) (nodes t).

(** The name of [q] in the directory [p]. *)
Definition child_name (p q : string) : option string :=
  let prefix := if (p =? "/")%string then p else p +:+ "/" in
  if has_prefix prefix q then
    let name := drop_str (String.length prefix) q in
    if (name =? "")%string || contains_byte slash name then None else Some name
  else None.

Definition entries (t : tree) (p : string) : list (string * bool) :=
  omap (fun n => (fun name => (name, snd (snd n))) <$> child_name p (fst n)) (nodes t).

Definition is_watched (t : tree) (inode : Z) : bool :=
  match watches t !! inode with Some _ => true | None => false end.

Definition inode_of (t : tree) (d : Z) : option Z :=
  fst <$> List.find (fun w => snd w =? d) (map_to_list (watches t)).

Definition tree_step A (o : op A) (t : tree) : A * tree :=
  match o in op A return A * tree with
  | Rclone _ => (CmdOutput "" "" (Some (OtherError "no rclone here")), t)
  | Now => (0, t)
  | RandText => ([], t)
  | AwaitTimer _ => (None, t)
  | StopWatchdog _ => (StoppedInTime, t)
  | ReadFile _ | CreateTemp _ _ => (inr NotExist, t)
  | MkdirAll _ | WriteFile _ _ | SyncFile _ | CloseFile _ | Rename _ _ | OpenDir _ | SyncDir _ => (None, t)
  | Remove _ => (tt, t)
  | Lstat p | Stat p => (match node t p with Some (_, d) => inl d | None => inr NotExist end, t)
  | EvalSymlinks p => (inl p, t)
  | Getwd => (inl "/"%stdpp, t)
  | LookupEnv _ => (None, t)
  | RandRead n => (inl (repeat 0 n), t)
  | ReadDir p => ((entries t p, None), t)
  | InotifyInit => (inl 3, Tree (nodes t) ∅ 1 (buffers t))
  | InotifyAddWatch _ p =>
      match node t p with
      | None => (inr NotExist, t)
      | Some (i, _) =>
          match watches t !! i with
          | Some d => (inl d, t)
          | None => (inl (next_descriptor t),
                     Tree (nodes t) (<[i := next_descriptor t]> (watches t)) (next_descriptor t + 1) (buffers t))
          end
      end
  | InotifyRmWatch _ d =>
      (tt, match inode_of t d with
           | Some i => Tree (nodes t) (delete i (watches t)) (next_descriptor t) (buffers t)
           | None => t
           end)
  | ReadEvents _ =>
      match buffers t with
      | b :: l => (b, upd_buffers l t)
      | [] => (inr TryAgain, t)
      end
  | CloseFd _ => (tt, t)
  | Wait4 _ => (inl (Exited 0), t)
  | Tcgetpgrp => (inr (OtherError "no terminal here"), t)
  | Tcsetpgrp _ | AwaitSignal _ | IgnoreSignal _ => (tt, t)
  | Kill _ _ => (None, t)
  | IsIgnored _ => (false, t)
  | Getpgrp => (100, t)
  | StartProcess _ _ => (inl 42, t)
  | WaitProcess _ => (None, t)
  end.

#[export] Instance tree_host : Host tree := tree_step.

(** ** A tree that never changes

    The root [/r] with a directory [a] that holds a file [f], and a file [b]; every watch is
    granted. Every read answers [event] until the reads run out. *)
Definition still_ls (p : string) : list (string * bool) :=
  if (p =? "/r")%string then [("a"%stdpp, true); ("b"%stdpp, false)]
  else if (p =? "/r/a")%string then [("f"%stdpp, false)] else [].

Record still := Still { granted : Z; reads_left : nat }.

Section Still.
Variable event : string.

Definition still_step A (o : op A) (t : still) : A * still :=
  match o in op A return A * still with
  | Rclone _ => (CmdOutput "" "" (Some (OtherError "no rclone here")), t)
  | Now => (0, t)
  | RandText => ([], t)
  | AwaitTimer _ => (None, t)
  | StopWatchdog _ => (StoppedInTime, t)
  | ReadFile _ | CreateTemp _ _ => (inr NotExist, t)
  | MkdirAll _ | WriteFile _ _ | SyncFile _ | CloseFile _ | Rename _ _ | OpenDir _ | SyncDir _ => (None, t)
  | Remove _ => (tt, t)
  | Lstat _ | Stat _ => (inl true, t)
  | EvalSymlinks _ => (inl "/r"%stdpp, t)
  | Getwd => (inl "/"%stdpp, t)
  | LookupEnv _ => (None, t)
  | RandRead n => (inl (repeat 0 n), t)
  | ReadDir p => ((still_ls p, None), t)
  | InotifyInit => (inl 3, t)
  | InotifyAddWatch _ _ => (inl (granted t), Still (granted t + 1) (reads_left t))
  | InotifyRmWatch _ _ => (tt, t)
  | ReadEvents _ =>
      match reads_left t with
      | S n => (inl event, Still (granted t) n)
      | O => (inr (OtherError "closed"), t)
      end
  | CloseFd _ => (tt, t)
  | Wait4 _ => (inl (Exited 0), t)
  | Tcgetpgrp => (inr (OtherError "no terminal here"), t)
  | Tcsetpgrp _ | AwaitSignal _ | IgnoreSignal _ => (tt, t)
  | Kill _ _ => (None, t)
  | IsIgnored _ => (false, t)
  | Getpgrp => (100, t)
  | StartProcess _ _ => (inl 42, t)
  | WaitProcess _ => (None, t)
  end.
End Still.
