(* ===== verification/SyncData.v ===== *)
(** * The sync-state record and its comparisons ([syncstate.go])

    [syncFileData] is the content of a state file, [remoteSyncFile] a reading of the remote
    one.  A lock pointer is an option: the program never writes through it. *)

From S2P Require Import Prelude GoString GoTime.

Local Open Scope Z_scope.

Record syncFileLock := SyncFileLock {
  Owner : string;
  Timestamp : gotime;
  TTL : Z
}.

Record syncFileData := SyncFileData {
  RepositoryID : string;
  Generation : Z;
  SyncID : string;
  Syncing : bool;
  Active : bool;   (* local session marker; never published remotely *)
  Lock : option syncFileLock
}.

Record remoteSyncFile := RemoteSyncFile {
  data : syncFileData;
  etag : string;
  exists_ : bool
}.

#[export] Instance syncFileLock_eq_dec : EqDecision syncFileLock.
Proof. solve_decision. Defined.
#[export] Instance syncFileData_eq_dec : EqDecision syncFileData.
Proof. solve_decision. Defined.
#[export] Instance remoteSyncFile_eq_dec : EqDecision remoteSyncFile.
Proof. solve_decision. Defined.

(** The zero values of Go. *)
Definition no_data : syncFileData := SyncFileData "" 0 "" false false None.
Definition no_remote : remoteSyncFile := RemoteSyncFile no_data "" false.

(** Assignments to a field of a copy. *)
Definition set_Lock (l : option syncFileLock) (d : syncFileData) : syncFileData :=
  SyncFileData (RepositoryID d) (Generation d) (SyncID d) (Syncing d) (Active d) l.
Definition set_Syncing (b : bool) (d : syncFileData) : syncFileData :=
  SyncFileData (RepositoryID d) (Generation d) (SyncID d) b (Active d) (Lock d).
Definition set_Active (b : bool) (d : syncFileData) : syncFileData :=
  SyncFileData (RepositoryID d) (Generation d) (SyncID d) (Syncing d) b (Lock d).
Definition set_RepositoryID (s : string) (d : syncFileData) : syncFileData :=
  SyncFileData s (Generation d) (SyncID d) (Syncing d) (Active d) (Lock d).
Definition set_upload (gen : Z) (id : string) (b : bool) (d : syncFileData) : syncFileData :=
  SyncFileData (RepositoryID d) gen id b (Active d) (Lock d).

(** [(l *syncFileLock) ttl]. *)
Definition ttl (l : option syncFileLock) (fallback : Z) : Z :=
  match l with
  | None => fallback
  | Some l => if TTL l <=? 0 then fallback else TTL l
  end.

Definition lockTTL (r : remoteSyncFile) (fallback : Z) : Z := ttl (Lock (data r)) fallback.

Definition ownedBy (r : remoteSyncFile) (owner : string) : bool :=
  exists_ r && match Lock (data r) with
               | Some l => (Owner l =? owner)%string
               | None => false
               end.

Definition lockIdentity (r : remoteSyncFile) : string :=
  match Lock (data r) with
  | None => ""
  | Some l =>
      Owner l +:+ nul +:+ format_rfc3339nano (Timestamp l) +:+ nul +:+ duration_string (TTL l)
  end.

Definition sameLock (left right : option syncFileLock) : bool :=
  match left, right with
  | Some l, Some r =>
      (Owner l =? Owner r)%string && time_equal (Timestamp l) (Timestamp r) && (TTL l =? TTL r)
  | None, None => true
  | _, _ => false
  end.

Definition sameSyncFileData (left right : syncFileData) : bool :=
  (RepositoryID left =? RepositoryID right)%string && (Generation left =? Generation right) &&
  (SyncID left =? SyncID right)%string && Bool.eqb (Syncing left) (Syncing right) &&
  sameLock (Lock left) (Lock right).

(** ** Lemmas *)

(** What [sameSyncFileData] compares: everything but the session marker, locks up to the zone
    of their timestamp. *)
Definition lock_view (l : syncFileLock) : string * Z * Z :=
  (Owner l, unix_nano (Timestamp l), TTL l).
Definition data_view (d : syncFileData) :=
  (RepositoryID d, Generation d, SyncID d, Syncing d, lock_view <$> Lock d).

Lemma sameLock_spec l r : sameLock l r = true <-> lock_view <$> l = lock_view <$> r.
Proof.
  unfold sameLock, lock_view, time_equal.
  destruct l as [[o [u z] t]|], r as [[o' [u' z'] t']|]; simpl; try (split; congruence).
  rewrite !andb_true_iff, String.eqb_eq, !Z.eqb_eq. split; [|intros [=]; done].
  intros [[-> ->] ->]. done.
Qed.

Lemma sameSyncFileData_spec a b : sameSyncFileData a b = true <-> data_view a = data_view b.
Proof.
  unfold sameSyncFileData, data_view.
  rewrite !andb_true_iff, !String.eqb_eq, Z.eqb_eq, Bool.eqb_true_iff, sameLock_spec.
  split; [|intros H; split_and!; congruence].
  intros [[[[-> ->] ->] ->] ->]. done.
Qed.

(** [sameSyncFileData] is an equivalence: the relation under which two readings of the remote
    state are the same to the program. *)
Definition same_data (a b : syncFileData) : Prop := sameSyncFileData a b = true.

#[export] Instance same_data_equiv : Equivalence same_data.
Proof.
  unfold same_data. split.
  - intros a. by apply sameSyncFileData_spec.
  - intros a b H. apply sameSyncFileData_spec. symmetry. by apply sameSyncFileData_spec.
  - intros a b c H1 H2. apply sameSyncFileData_spec.
    transitivity (data_view b); by apply sameSyncFileData_spec.
Qed.

#[export] Instance same_data_RepositoryID : Proper (same_data ==> eq) RepositoryID.
Proof. intros a b H%sameSyncFileData_spec. unfold data_view in H. congruence. Qed.
#[export] Instance same_data_Generation : Proper (same_data ==> eq) Generation.
Proof. intros a b H%sameSyncFileData_spec. unfold data_view in H. congruence. Qed.
#[export] Instance same_data_SyncID : Proper (same_data ==> eq) SyncID.
Proof. intros a b H%sameSyncFileData_spec. unfold data_view in H. congruence. Qed.
#[export] Instance same_data_Syncing : Proper (same_data ==> eq) Syncing.
Proof. intros a b H%sameSyncFileData_spec. unfold data_view in H. congruence. Qed.

Lemma same_data_owner a b etag1 etag2 o :
  same_data a b -> ownedBy (RemoteSyncFile a etag1 true) o = ownedBy (RemoteSyncFile b etag2 true) o.
Proof.
  intros H%sameSyncFileData_spec. unfold data_view in H. simplify_eq. unfold ownedBy; simpl.
  destruct (Lock a), (Lock b); simpl in *; simplify_eq/=; try done. unfold lock_view in *. congruence.
Qed.

Lemma sameLock_refl l : sameLock l l = true.
Proof. by apply sameLock_spec. Qed.

Lemma sameSyncFileData_refl d : sameSyncFileData d d = true.
Proof. by apply sameSyncFileData_spec. Qed.

(** Published data never carries the session marker, and dropping it changes nothing the
    comparison sees. *)
Lemma same_data_inactive d b : same_data (set_Active b d) d.
Proof. by apply sameSyncFileData_spec. Qed.

#[export] Hint Resolve sameLock_refl sameSyncFileData_refl same_data_inactive : go.

Lemma ttl_positive l fallback : 0 < fallback -> 0 < ttl l fallback.
Proof. unfold ttl. destruct l as [l|]; [|done]. destruct (TTL l <=? 0) eqn:E; lia. Qed.
