(* ===== verification/Json.v ===== *)
(** * JSON texts, as Go's [encoding/json] reads and writes them

    The parser keeps string tokens raw and number literals as text, because
    [time.UnmarshalJSON] looks at the raw token and [strconv] at the literal.  This file
    models the language's library and has no lines of its own under [src/]. *)

From Stdlib Require Import Ascii.
From S2P Require Import Prelude GoString.

Local Open Scope Z_scope.

Inductive json :=
| JNull
| JBool (b : bool)
| JNum (literal : string)
| JStr (raw : string)
| JArr (elems : list json)
| JObj (members : list (string * json)).

(** ** Scanning *)
Definition is_ws (c : ascii) : bool :=
  let z := code c in (z =? 32) || (z =? 9) || (z =? 10) || (z =? 13).

Fixpoint skip_ws (s : string) : string :=
  match s with String c s' => if is_ws c then skip_ws s' else s | EmptyString => EmptyString end.

Definition is_digit (c : ascii) : bool := let z := code c in (48 <=? z) && (z <=? 57).

Definition hex_value (r : Z) : option Z :=
  if (48 <=? r) && (r <=? 57) then Some (r - 48)
  else if (97 <=? r) && (r <=? 102) then Some (r - 87)
  else if (65 <=? r) && (r <=? 70) then Some (r - 55)
  else None.

Definition is_hex (c : ascii) : bool :=
  match hex_value (code c) with Some _ => true | None => false end.

Definition is_escape (c : ascii) : bool := contains_byte c (String dquote (String backslash "/bfnrt")).

(** The raw text of a string token up to its closing quote, and what follows it. *)
Fixpoint scan_string (s : string) : option (string * string) :=
  match s with
  | EmptyString => None
  | String c s1 =>
      if Ascii.eqb c dquote then Some (EmptyString, s1)
      else if Ascii.eqb c backslash then
        match s1 with
        | String e s2 =>
            if is_escape e then '(t, r) ← scan_string s2; Some (String c (String e t), r)
            else if Ascii.eqb e "u" then
              match s2 with
              | String h1 (String h2 (String h3 (String h4 s6))) =>
                  if is_hex h1 && is_hex h2 && is_hex h3 && is_hex h4 then
                    '(t, r) ← scan_string s6;
                    Some (String c (String e (String h1 (String h2 (String h3 (String h4 t))))), r)
                  else None
              | _ => None
              end
            else None
        | EmptyString => None
        end
      else if code c <? 32 then None
      else '(t, r) ← scan_string s1; Some (String c t, r)
  end.

Fixpoint take_digits (s : string) : string * string :=
  match s with
  | String c s' => if is_digit c then let '(d, r) := take_digits s' in (String c d, r) else (EmptyString, s)
  | EmptyString => (EmptyString, EmptyString)
  end.

Definition scan_fraction (s : string) : option (string * string) :=
  match s with
  | String c s' =>
      if Ascii.eqb c "." then
        match take_digits s' with (EmptyString, _) => None | (d, r) => Some (String c d, r) end
      else Some (EmptyString, s)
  | EmptyString => Some (EmptyString, s)
  end.

Definition scan_exponent (s : string) : option (string * string) :=
  match s with
  | String c s' =>
      if Ascii.eqb c "e" || Ascii.eqb c "E" then
        let '(sg, s2) :=
          match s' with
          | String x s2 => if Ascii.eqb x "+" || Ascii.eqb x "-" then (str1 x, s2) else (EmptyString, s')
          | EmptyString => (EmptyString, s')
          end in
        match take_digits s2 with (EmptyString, _) => None | (d, r) => Some (String c (sg +:+ d), r) end
      else Some (EmptyString, s)
  | EmptyString => Some (EmptyString, s)
  end.

(** A number literal: optional minus, an integer without leading zeros, fraction, exponent. *)
Definition scan_number (s : string) : option (string * string) :=
  let '(sg, s) :=
    match s with
    | String c s' => if Ascii.eqb c "-" then (str1 c, s') else (EmptyString, s)
    | EmptyString => (EmptyString, s)
    end in
  '(int, s) ←
    match s with
    | String c s' =>
        if Ascii.eqb c "0" then Some (str1 c, s')
        else match take_digits s with (EmptyString, _) => None | (d, r) => Some (d, r) end
    | EmptyString => None
    end;
  '(frac, s) ← scan_fraction s;
  '(ex, s) ← scan_exponent s;
  Some (sg +:+ int +:+ frac +:+ ex, s).

(** ** Parsing: the first value of a text and what follows it *)
Definition expect_byte (c : ascii) (s : string) : option string :=
  match s with String d s => if Ascii.eqb c d then Some s else None | EmptyString => None end.

Fixpoint parse_value (fuel : nat) (s : string) : option (json * string) :=
    match fuel with
    | O => None
    | S fuel =>
        match skip_ws s with
        | EmptyString => None
        | String c r =>
            if Ascii.eqb c dquote then '(t, r) ← scan_string r; Some (JStr t, r)
            else if Ascii.eqb c "{" then
              match expect_byte "}" (skip_ws r) with
              | Some r => Some (JObj [], r)
              | None => '(ms, r) ← parse_members fuel r; Some (JObj ms, r)
              end
            else if Ascii.eqb c "[" then
              match expect_byte "]" (skip_ws r) with
              | Some r => Some (JArr [], r)
              | None => '(es, r) ← parse_elements fuel r; Some (JArr es, r)
              end
            else if has_prefix "null" (String c r) then Some (JNull, drop_str 4 (String c r))
            else if has_prefix "true" (String c r) then Some (JBool true, drop_str 4 (String c r))
            else if has_prefix "false" (String c r) then Some (JBool false, drop_str 5 (String c r))
            else '(t, r) ← scan_number (String c r); Some (JNum t, r)
        end
    end
  with parse_members (fuel : nat) (s : string) : option (list (string * json) * string) :=
    match fuel with
    | O => None
    | S fuel =>
        s ← expect_byte dquote (skip_ws s);
        '(key, s) ← scan_string s;
        s ← expect_byte ":" (skip_ws s);
        '(v, s) ← parse_value fuel s;
        match skip_ws s with
        | String c r =>
            if Ascii.eqb c "," then '(ms, r) ← parse_members fuel r; Some ((key, v) :: ms, r)
            else if Ascii.eqb c "}" then Some ([(key, v)], r)
            else None
        | EmptyString => None
        end
    end
  with parse_elements (fuel : nat) (s : string) : option (list json * string) :=
    match fuel with
    | O => None
    | S fuel =>
        '(v, s) ← parse_value fuel s;
        match skip_ws s with
        | String c r =>
            if Ascii.eqb c "," then '(es, r) ← parse_elements fuel r; Some (v :: es, r)
            else if Ascii.eqb c "]" then Some ([v], r)
            else None
        | EmptyString => None
        end
    end.

(** Every call but the first consumes at least one byte, so twice the length is enough fuel. *)
Definition parse_json (s : string) : option (json * string) :=
  parse_value (S (2 * String.length s)) s.

(** ** String tokens *)
Definition is_surrogate (r : Z) : bool := (55296 <=? r) && (r <=? 57343).

Definition hex4 (a b c d : rune) : option Z :=
  a ← hex_value (rune_value a); b ← hex_value (rune_value b);
  c ← hex_value (rune_value c); d ← hex_value (rune_value d);
  Some (a * 4096 + b * 256 + c * 16 + d).

(** [utf16.DecodeRune]. *)
Definition combine_surrogates (hi lo : Z) : option Z :=
  if (55296 <=? hi) && (hi <=? 56319) && (56320 <=? lo) && (lo <=? 57343)
  then Some ((hi - 55296) * 1024 + (lo - 56320) + 65536) else None.

Definition simple_escape (e : Z) : Z :=
  if e =? 98 then 8 else if e =? 102 then 12 else if e =? 110 then 10
  else if e =? 114 then 13 else if e =? 116 then 9 else e.

(** The text a raw token denotes ([unquoteBytes]). *)
Fixpoint unquote_runes (l : list rune) : string :=
  match l with
  | [] => EmptyString
  | r :: l1 =>
      if rune_value r =? code backslash then
        match l1 with
        | [] => EmptyString
        | e :: l2 =>
            if rune_value e =? 117 then
              match l2 with
              | h1 :: h2 :: h3 :: h4 :: l6 =>
                  match hex4 h1 h2 h3 h4 with
                  | None => EmptyString
                  | Some v =>
                      if is_surrogate v then
                        match l6 with
                        | b :: u :: g1 :: g2 :: g3 :: g4 :: l12 =>
                            match (if (rune_value b =? code backslash) && (rune_value u =? 117)
                                   then hex4 g1 g2 g3 g4 else None) ≫= combine_surrogates v with
                            | Some w => encode_rune w +:+ unquote_runes l12
                            | None => encode_rune rune_error +:+ unquote_runes l6
                            end
                        | _ => encode_rune rune_error +:+ unquote_runes l6
                        end
                      else encode_rune v +:+ unquote_runes l6
                  end
              | _ => EmptyString
              end
            else encode_rune (simple_escape (rune_value e)) +:+ unquote_runes l2
        end
      else encode_rune (rune_value r) +:+ unquote_runes l1
  end.

Definition unquote (raw : string) : string := unquote_runes (runes raw).

Definition hex_digit (n : Z) : ascii := if n <? 10 then chr (48 + n) else chr (87 + n).
Definition u_escape (r : Z) : string :=
  String backslash (String "u" (String (hex_digit (r / 4096)) (String (hex_digit ((r / 256) mod 16))
    (String (hex_digit ((r / 16) mod 16)) (str1 (hex_digit (r mod 16))))))).
Definition esc (c : ascii) : string := String backslash (str1 c).

(** [appendString] with HTML escaping, the default of [json.Marshal]. *)
Definition escape_rune (r : rune) : string :=
  let v := rune_value r in
  if negb (rune_valid r) then u_escape rune_error
  else if v =? 34 then esc dquote
  else if v =? 92 then esc backslash
  else if v =? 8 then esc "b" else if v =? 12 then esc "f" else if v =? 10 then esc "n"
  else if v =? 13 then esc "r" else if v =? 9 then esc "t"
  else if (v <? 32) || (v =? 60) || (v =? 62) || (v =? 38) || (v =? 8232) || (v =? 8233) then u_escape v
  else rune_raw r.

Definition quoted (t : string) : string := String dquote (t +:+ str1 dquote).
Definition quote (s : string) : string := quoted (concat_str (escape_rune <$> runes s)).

(** ** Field names: an exact match first, then one up to case ([foldName]) *)
Definition fold_rune (r : Z) : Z :=
  if (97 <=? r) && (r <=? 122) then r - 32
  else if r =? 8490 then 75 else if r =? 383 then 83 else r.
Definition fold_name (s : string) : list Z := (fun r => fold_rune (rune_value r)) <$> runes s.

Definition match_name (names : list string) (key : string) : option string :=
  if bool_decide (key ∈ names) then Some key
  else find (fun n => bool_decide (fold_name n = fold_name key)) names.

(** ** Objects as [json.MarshalIndent] prints them, with two-space indentation *)
Definition indent (depth : nat) : string := repeat_str "  " depth.

Definition render_member (depth : nat) (m : string * string) : string :=
  indent (S depth) +:+ quote (fst m) +:+ ": " +:+ snd m.

Definition render_object (depth : nat) (members : list (string * string)) : string :=
  "{" +:+ nl +:+ join ("," +:+ nl) (render_member depth <$> members) +:+ nl +:+ indent depth +:+ "}".
