(* ===== verification/JsonRoundTrip.v ===== *)
(** * Reading back the JSON that is written

    [parses text j]: wherever [text] stands before a byte that ends a value, the parser reads
    it as [j].  Strings, numbers, booleans and the objects of [render_object] parse to what
    they were made from; a string comes back with its stray bytes replaced. *)

From Stdlib Require Import Ascii DecimalString DecimalN DecimalPos.
From S2P Require Import Prelude GoString Utf8 GoTime Json.

Local Open Scope Z_scope.

(** ** String tokens *)
Definition escape_str (s : string) : string := concat_str (escape_rune <$> runes s).

Definition plain_byte (c : ascii) : bool :=
  negb (Ascii.eqb c dquote) && negb (Ascii.eqb c backslash) && (32 <=? code c).

Definition prepend (a : string) (x : option (string * string)) : option (string * string) :=
  '(t, r) ← x; Some (a +:+ t, r).

Lemma prepend_app a b x : prepend a (prepend b x) = prepend (a +:+ b) x.
Proof. destruct x as [[t r]|]; [|done]. simpl. by rewrite str_app_assoc. Qed.

Lemma scan_plain_byte c s : plain_byte c = true -> scan_string (String c s) = prepend (str1 c) (scan_string s).
Proof.
  unfold plain_byte. intros H. reflect_bools. simpl. destruct (Ascii.eqb c dquote); [done|].
  destruct (Ascii.eqb c backslash); [done|]. by replace (code c <? 32) with false by lia.
Qed.

Lemma scan_plain a s : str_forallb plain_byte a = true -> scan_string (a +:+ s) = prepend a (scan_string s).
Proof.
  induction a as [|c a IH]; cbn [String.append str_forallb]; intros H; [by destruct (scan_string s) as [[]|]|].
  apply andb_true_iff in H as [Hc Ha]. rewrite scan_plain_byte, IH, prepend_app by done. done.
Qed.

Lemma plain_byte_high c : 128 <= code c -> plain_byte c = true.
Proof.
  intros H. unfold plain_byte.
  assert (c <> dquote) by (intros ->; unfold code, dquote in H; simpl in H; lia).
  assert (c <> backslash) by (intros ->; unfold code, backslash in H; simpl in H; lia).
  apply Ascii.eqb_neq in H0, H1. rewrite H0, H1. simpl. lia.
Qed.

Lemma plain_chr z : 32 <= z <= 255 -> z <> 34 -> z <> 92 -> plain_byte (chr z) = true.
Proof.
  intros H H1 H2. unfold plain_byte. rewrite code_chr by lia.
  assert (chr z <> dquote). { intros E. apply (f_equal code) in E. rewrite code_chr in E by lia. unfold code in E; simpl in E; lia. }
  assert (chr z <> backslash). { intros E. apply (f_equal code) in E. rewrite code_chr in E by lia. unfold code in E; simpl in E; lia. }
  apply Ascii.eqb_neq in H0, H3. rewrite H0, H3. simpl. lia.
Qed.

Lemma plain_encode v : scalar v -> 32 <= v -> v <> 34 -> v <> 92 -> str_forallb plain_byte (encode_rune v) = true.
Proof.
  intros Hs H1 H2 H3. rewrite encode_rune_scalar by done. destruct Hs as [Hs _].
  destruct (v <? 128) eqn:E1; [|destruct (v <? 2048) eqn:E2; [|destruct (v <? 65536) eqn:E3]]; reflect_bools;
    cbn [str_forallb str1]; rewrite !plain_chr; try divmod; done.
Qed.

(** The four digits of a [\u] escape. *)
Lemma hex_value_digit n : 0 <= n <= 15 -> hex_value (code (hex_digit n)) = Some n.
Proof.
  intros H. unfold hex_digit. destruct (n <? 10) eqn:E; reflect_bools; rewrite code_chr by lia; unfold hex_value;
    decide_tests; f_equal; lia.
Qed.

Lemma hex_digit_ascii n : 0 <= n <= 15 -> code (hex_digit n) < 128.
Proof. intros H. unfold hex_digit. case_goal; reflect_bools; rewrite code_chr; lia. Qed.

Lemma is_hex_digit n : 0 <= n <= 15 -> is_hex (hex_digit n) = true.
Proof. intros H. unfold is_hex. by rewrite hex_value_digit. Qed.

Section UEscape.
Context (v : Z) (Hv : 0 <= v <= 65535).
#[local] Set Default Proof Using "Hv".

Lemma nibbles : 0 <= v / 4096 <= 15 /\ 0 <= (v / 256) mod 16 <= 15 /\ 0 <= (v / 16) mod 16 <= 15 /\ 0 <= v mod 16 <= 15.
Proof. divmod. Qed.

Lemma scan_u_escape s : scan_string (u_escape v +:+ s) = prepend (u_escape v) (scan_string s).
Proof.
  destruct nibbles as (H1 & H2 & H3 & H4). unfold u_escape. cbn [String.append str1 scan_string].
  rewrite !is_hex_digit by done. simpl. by destruct (scan_string s) as [[t r]|].
Qed.

Lemma unquote_u_escape s : is_surrogate v = false ->
  unquote_runes (runes (u_escape v +:+ s)) = encode_rune v +:+ unquote_runes (runes s).
Proof.
  intros Hs. destruct nibbles as (H1 & H2 & H3 & H4). unfold u_escape. cbn [String.append str1].
  do 2 rewrite runes_1 by (vm_compute; done). do 4 rewrite runes_1 by (by apply hex_digit_ascii).
  cbn [unquote_runes rune_value]. unfold hex4. cbn [rune_value]. rewrite !hex_value_digit by done.
  change (code backslash =? code backslash) with true. change (code "u" =? 117) with true. cbn [mbind option_bind].
  replace (v / 4096 * 4096 + (v / 256) mod 16 * 256 + (v / 16) mod 16 * 16 + v mod 16) with v by divmod.
  by rewrite Hs.
Qed.
End UEscape.

(** The escapes of two bytes. *)
Definition short_escapes : list (ascii * Z) :=
  [(dquote, 34); (backslash, 92); ("b", 8); ("f", 12); ("n", 10); ("r", 13); ("t", 9)]%char.

Lemma short_escape c v s : In (c, v) short_escapes ->
  scan_string (esc c +:+ s) = prepend (esc c) (scan_string s) /\
  unquote_runes (runes (esc c +:+ s)) = encode_rune v +:+ unquote_runes (runes s).
Proof.
  intros H. unfold esc, short_escapes in *. simpl in H. cbn [String.append str1].
  repeat destruct H as [[= <- <-]|H]; try done;
    (split; [by cbn [scan_string]; simpl; destruct (scan_string s) as [[]|]|]);
    do 2 rewrite runes_1 by (vm_compute; done); reflexivity.
Qed.

Lemma escape_rune_spec r s : encoded r \/ stray r ->
  scan_string (escape_rune r +:+ s) = prepend (escape_rune r) (scan_string s) /\
  unquote_runes (runes (escape_rune r +:+ s)) = encode_rune (rune_value r) +:+ unquote_runes (runes s).
Proof.
  intros Hr. unfold escape_rune.
  destruct Hr as [Hr|Hr]; [rewrite rune_valid_encoded by done|rewrite rune_valid_stray by done]; simpl negb; cbv iota.
  2: { destruct Hr as [-> _]. unfold rune_error. split; [apply scan_u_escape; lia|by apply unquote_u_escape]. }
  destruct Hr as [Hs Hraw]. pose proof Hs as [Hlo Hsur].
  repeat match goal with
  | |- context [if ?b then _ else _] =>
      lazymatch b with
      | orb _ _ => fail
      | _ => destruct b eqn:?; [reflect_bools; match goal with H : rune_value r = _ |- _ => rewrite H end;
                                apply short_escape; simpl; tauto|]
      end
  end.
  case_goal.
  - assert (0 <= rune_value r <= 65535 /\ is_surrogate (rune_value r) = false) as [? ?].
    { unfold is_surrogate. repeat (apply orb_true_iff in E as [E|E]); reflect_bools; lia. }
    split; [by apply scan_u_escape|by apply unquote_u_escape].
  - reflect_bools. rewrite Hraw, runes_encode by done. split; [apply scan_plain, plain_encode; auto; lia|].
    cbn [unquote_runes rune_value]. by replace (rune_value r =? code backslash) with false by (symmetry; apply Z.eqb_neq; done).
Qed.

Lemma escape_str_cons r s : runes (rune_raw r +:+ s) = r :: runes s ->
  escape_str (rune_raw r +:+ s) = escape_rune r +:+ escape_str s.
Proof. intros H. unfold escape_str. by rewrite H. Qed.

Lemma scan_escape_str s rest : scan_string (escape_str s +:+ rest) = prepend (escape_str s) (scan_string rest).
Proof.
  induction s using runes_ind; [cbn; by destruct (scan_string rest) as [[]|]|].
  rewrite escape_str_cons, str_app_assoc by done.
  by rewrite (proj1 (escape_rune_spec r _ H)), IHs, prepend_app.
Qed.

Lemma unquote_escape_str s : unquote (escape_str s) = sanitize s.
Proof.
  unfold unquote. induction s using runes_ind; [done|].
  rewrite escape_str_cons, sanitize_cons by done. by rewrite (proj2 (escape_rune_spec r _ H)), IHs.
Qed.

(** ** Values *)

(** Bytes that end a number literal. *)
Definition ends_value (rest : string) : Prop :=
  match rest with
  | EmptyString => True
  | String c _ => is_digit c = false /\ Ascii.eqb c "." = false /\ Ascii.eqb c "e" = false /\ Ascii.eqb c "E" = false
  end.

(** What the parser makes of a text, with fuel for twice its length. *)
Definition parses (text : string) (j : json) : Prop :=
  forall fuel rest, (2 * String.length text < fuel)%nat -> ends_value rest ->
    parse_value fuel (text +:+ rest) = Some (j, rest).

Lemma parses_quote s : parses (quote s) (JStr (escape_str s)).
Proof.
  intros [|fuel] rest Hf _; [lia|]. unfold quote, quoted. cbn [String.append parse_value].
  rewrite str_app_assoc. fold (escape_str s).
  change (skip_ws (String dquote ?x)) with (String dquote x).
  cbv iota. rewrite Ascii.eqb_refl. rewrite scan_escape_str. simpl. by rewrite str_app_nil_r.
Qed.

(** A text without bytes to escape. *)
Lemma parses_quoted t : str_forallb plain_byte t = true -> parses (quoted t) (JStr t).
Proof.
  intros Ht [|fuel] rest Hf _; [lia|]. unfold quoted. cbn [String.append parse_value].
  rewrite str_app_assoc. change (skip_ws (String dquote ?x)) with (String dquote x).
  cbv iota. rewrite Ascii.eqb_refl. rewrite scan_plain by done. simpl. by rewrite str_app_nil_r.
Qed.

Lemma parses_bool (b : bool) : parses (if b then "true" else "false") (JBool b).
Proof. intros [|fuel] rest Hf _; [lia|]. destruct b; simpl; by rewrite has_prefix_nil. Qed.

(** ** Numbers *)
Fixpoint all_digits (s : string) : bool :=
  match s with EmptyString => true | String c s => is_digit c && all_digits s end.

Lemma take_all_digits d rest : all_digits d = true ->
  match rest with String c _ => is_digit c = false | EmptyString => True end ->
  take_digits (d +:+ rest) = (d, rest).
Proof.
  intros Hd Hr. induction d as [|c d IH]; simpl in *.
  - destruct rest as [|c r]; [done|]. simpl. by rewrite Hr.
  - apply andb_true_iff in Hd as [-> Hd]. by rewrite (IH Hd).
Qed.

Lemma uint_digits u : all_digits (NilEmpty.string_of_uint u) = true.
Proof. induction u; simpl; auto. Qed.

Lemma string_of_N_digits n : all_digits (string_of_N n) = true.
Proof. unfold string_of_N, NilZero.string_of_uint. destruct (N.to_uint n) eqn:E; [done|apply uint_digits..]. Qed.

(** No leading zero, but for the number zero itself. *)
Lemma nzhead_not_zero u v : Decimal.nzhead u <> Decimal.D0 v.
Proof. by induction u. Qed.

Lemma string_of_N_head n : exists c d, string_of_N n = String c d /\ all_digits (String c d) = true /\
  (Ascii.eqb c "0" = true -> d = "").
Proof.
  pose proof (string_of_N_digits n) as Hd. revert Hd.
  unfold string_of_N, NilZero.string_of_uint. pose proof (DecimalN.Unsigned.to_of (N.to_uint n)) as H.
  rewrite DecimalN.Unsigned.of_to in H.
  destruct (N.to_uint n) eqn:E; cbn [NilEmpty.string_of_uint]; intros Hd; (eexists _, _; split; [done|]; split; [done|]); try done.
  intros _. unfold Decimal.unorm in H. cbn [Decimal.nzhead] in H.
  destruct (Decimal.nzhead u) eqn:En; try congruence; [by injection H as ->|by apply nzhead_not_zero in En].
Qed.

Lemma scan_number_digits c d rest :
  all_digits (String c d) = true -> (Ascii.eqb c "0" = true -> d = "") -> ends_value rest ->
  scan_number (String c d +:+ rest) = Some (String c d, rest).
Proof.
  intros Hd H0 Hr. unfold scan_number. cbn [String.append].
  assert (Ascii.eqb c "-" = false) as ->.
  { apply andb_true_iff in Hd as [Hd _]. apply Ascii.eqb_neq. intros ->. done. }
  assert (Hint : (if Ascii.eqb c "0" then Some (str1 c, d +:+ rest)
                  else match take_digits (String c (d +:+ rest)) with
                       | ("", _) => None
                       | (String _ _ as d0, r) => Some (d0, r)
                       end) = Some (String c d, rest)).
  { destruct (Ascii.eqb c "0") eqn:E; [by rewrite (H0 eq_refl)|].
    change (String c (d +:+ rest)) with (String c d +:+ rest). rewrite take_all_digits; [done..|].
    destruct rest; [done|]. apply Hr. }
  rewrite Hint. cbn [mbind option_bind].
  assert (scan_fraction rest = Some ("", rest)) as ->.
  { destruct rest as [|x r]; [done|]. destruct Hr as (_ & Hx & _). unfold scan_fraction. by rewrite Hx. }
  cbn [mbind option_bind].
  assert (scan_exponent rest = Some ("", rest)) as ->.
  { destruct rest as [|x r]; [done|]. destruct Hr as (_ & _ & H1 & H2). unfold scan_exponent. by rewrite H1, H2. }
  cbn [mbind option_bind]. by rewrite !str_app_nil_r.
Qed.

(** A byte that starts a number starts no other value. *)
Lemma digit_starts_number c d fuel : is_digit c = true ->
  parse_value (S fuel) (String c d) = ('(t, r) ← scan_number (String c d); Some (JNum t, r)).
Proof.
  intros H. cbn [parse_value skip_ws].
  assert (is_ws c = false) as ->.
  { unfold is_digit in H. unfold is_ws. reflect_bools. decide_tests. done. }
  assert (forall x, is_digit x = false -> Ascii.eqb c x = false) as Hne.
  { intros x Hx. apply Ascii.eqb_neq. intros ->. congruence. }
  rewrite !Hne by done.
  assert (forall x p, is_digit x = false -> has_prefix (String x p) (String c d) = false) as Hp.
  { intros x p Hx. unfold has_prefix. cbn [String.prefix].
    destruct (Ascii.ascii_dec x c) as [->|]; [congruence|done]. }
  by rewrite !Hp by done.
Qed.

Lemma parses_N n : parses (string_of_N n) (JNum (string_of_N n)).
Proof.
  intros [|fuel] rest Hf Hr; [lia|]. clear Hf. destruct (string_of_N_head n) as (c & d & -> & Hd & H0).
  cbn [String.append]. pose proof Hd as Hc. apply andb_true_iff in Hc as [Hc _].
  rewrite digit_starts_number by done. change (String c (d +:+ rest)) with (String c d +:+ rest).
  by rewrite scan_number_digits.
Qed.

Lemma parses_Z z : 0 <= z -> parses (string_of_Z z) (JNum (string_of_Z z)).
Proof. intros H. unfold string_of_Z. replace (z <? 0) with false by lia. apply parses_N. Qed.

(** ** Objects *)
Lemma skip_ws_indent n s : skip_ws (indent n +:+ s) = skip_ws s.
Proof. unfold indent. induction n as [|n IH]; [done|]. simpl. by rewrite IH. Qed.

(** Texts of members: name, text and value. *)
Definition member_ok (m : string * string * json) : Prop := parses (snd (fst m)) (snd m).
Definition texts (ms : list (string * string * json)) : list (string * string) := fst <$> ms.
Definition values (ms : list (string * string * json)) : list (string * json) :=
  (fun m => (escape_str (fst (fst m)), snd m)) <$> ms.

Definition render_members (depth : nat) (ms : list (string * string)) : string :=
  join ("," +:+ nl) (render_member depth <$> ms).

Lemma render_members_cons depth m m' ms :
  render_members depth (m :: m' :: ms) = render_member depth m +:+ "," +:+ nl +:+ render_members depth (m' :: ms).
Proof. unfold render_members, join. cbn [fmap list_fmap String.concat]. by rewrite str_app_assoc. Qed.

Lemma render_member_length depth m :
  (String.length (snd m) + 4 <= String.length (render_member depth m))%nat.
Proof.
  unfold render_member, quote, quoted. rewrite !str_length_app. cbn [String.length].
  rewrite !str_length_app. cbn [String.length str1]. lia.
Qed.

(** White space before a value or a member is skipped. *)
Lemma parse_value_space fuel s : parse_value fuel (String " " s) = parse_value fuel s.
Proof. by destruct fuel. Qed.
Lemma parse_members_nl fuel s : parse_members fuel (nl +:+ s) = parse_members fuel s.
Proof. by destruct fuel. Qed.

(** One member, read up to the byte after its value. *)
Lemma parse_member depth m rest fuel : member_ok m -> ends_value rest ->
  (2 * String.length (render_member depth (fst m)) < S fuel)%nat ->
  parse_members (S fuel) (render_member depth (fst m) +:+ rest) =
    match skip_ws rest with
    | String c r =>
        if Ascii.eqb c "," then '(ms, r) ← parse_members fuel r; Some ((escape_str (fst (fst m)), snd m) :: ms, r)
        else if Ascii.eqb c "}" then Some ([(escape_str (fst (fst m)), snd m)], r)
        else None
    | EmptyString => None
    end.
Proof.
  intros Hm Hr Hf. pose proof (render_member_length depth (fst m)) as Hl.
  cbn [parse_members]. unfold render_member at 1. rewrite !str_app_assoc, skip_ws_indent.
  unfold quote, quoted. cbn [String.append]. rewrite !str_app_assoc. fold (escape_str (fst (fst m))).
  change (skip_ws (String dquote ?x)) with (String dquote x).
  change (expect_byte dquote (String dquote ?x)) with (Some x). cbn [mbind option_bind].
  rewrite scan_escape_str. cbn [str1 String.append].
  change (scan_string (String dquote ?x)) with (Some (""%stdpp, x)).
  cbn [prepend mbind option_bind]. rewrite str_app_nil_r.
  change (expect_byte ":" (skip_ws (String ":" ?x))) with (Some x). cbn [mbind option_bind].
  rewrite parse_value_space, Hm by (done || lia). done.
Qed.

Lemma parse_render_members depth ms rest fuel : ms <> [] -> Forall member_ok ms ->
  (2 * String.length (render_members depth (texts ms)) < fuel)%nat ->
  parse_members fuel (render_members depth (texts ms) +:+ nl +:+ indent depth +:+ "}" +:+ rest) =
    Some (values ms, rest).
Proof.
  intros Hne Hms. revert fuel. induction Hms as [|m ms Hm Hms IH]; [done|]. intros [|fuel] Hf; [lia|].
  destruct ms as [|m' ms].
  - unfold texts, render_members, join in *. cbn [fmap list_fmap String.concat] in *.
    rewrite parse_member; [|done|by repeat split|lia].
    change (skip_ws (nl +:+ ?x)) with (skip_ws x). by rewrite skip_ws_indent.
  - change (texts (m :: m' :: ms)) with (fst m :: texts (m' :: ms)) in *.
    change (texts (m' :: ms)) with (fst m' :: texts ms) in *.
    rewrite render_members_cons in *. rewrite !str_app_assoc. rewrite !str_length_app in Hf.
    pose proof (render_member_length depth (fst m)).
    rewrite parse_member; [|done|by repeat split|lia].
    change (skip_ws ("," +:+ ?x)) with (String "," x). cbv iota. rewrite Ascii.eqb_refl.
    rewrite parse_members_nl. rewrite IH; [done..|lia].
Qed.

Lemma parses_object depth ms : ms <> [] -> Forall member_ok ms ->
  parses (render_object depth (texts ms)) (JObj (values ms)).
Proof.
  intros Hne Hms [|fuel] rest Hf _; [lia|]. unfold render_object in *. rewrite !str_length_app in Hf.
  cbn [String.append parse_value]. change (skip_ws (String "{" ?x)) with (String "{" x). cbv iota.
  change (Ascii.eqb "{" dquote) with false. change (Ascii.eqb "{" "{") with true. cbv iota.
  rewrite !str_app_assoc. change (join (String "," nl) ?l) with (join ("," +:+ nl) l).
  fold (render_members depth (texts ms)).
  change (skip_ws (nl +:+ ?x)) with (skip_ws x).
  destruct ms as [|m ms]; [done|].
  assert (expect_byte "}" (skip_ws (render_members depth (texts (m :: ms)) +:+ nl +:+ indent depth +:+ "}" +:+ rest)) = None) as ->.
  { change (texts (m :: ms)) with (fst m :: texts ms).
    destruct ms as [|m' ms]; [unfold texts, render_members, join; cbn [fmap list_fmap String.concat]
      |change (texts (m' :: ms)) with (fst m' :: texts ms); rewrite render_members_cons, !str_app_assoc];
    unfold render_member at 1; rewrite !str_app_assoc, skip_ws_indent; done. }
  rewrite parse_members_nl, parse_render_members; [done..|].
  unfold render_members. cbn [String.length] in Hf. lia.
Qed.

(** ** Guarantees *)

(** Any byte string written as a JSON string parses as that one value, and decodes to the
    string itself, with U+FFFD for the bytes that are no UTF-8. *)
Theorem json_string_roundtrip s :
  parse_json (quote s) = Some (JStr (escape_str s), "") /\ unquote (escape_str s) = sanitize s /\
  (valid_utf8 s = true -> sanitize s = s).
Proof.
  split; [|split; [apply unquote_escape_str|apply sanitize_valid]].
  unfold parse_json. rewrite <- (str_app_nil_r (quote s)) at 2. apply parses_quote; [lia|done].
Qed.
