(* ===== verification/TimeRoundTrip.v ===== *)
(** * Reading back a timestamp

    [parse_rfc3339] inverts [marshal_time] for every timestamp whose zone offset is a number of
    minutes.  The conversion between dates and days is checked on one era of 400 years and
    extended by periodicity. *)

From Stdlib Require Import Ascii.
From S2P Require Import Prelude GoString Utf8 GoTime Json JsonRoundTrip.

Local Open Scope Z_scope.

(** ** Dates *)
Definition era_days : Z := 146097.

Definition valid_date (t : date) : bool :=
  (1 <=? date_month t) && (date_month t <=? 12) && (1 <=? date_day t) &&
  (date_day t <=? days_in (date_month t) (date_year t)).

(** Years of an era start on March 1: the first day of a year, and the year of a day. *)
Definition year_start (yoe : Z) : Z := 365 * yoe + yoe / 4 - yoe / 100 + yoe / 400.
Definition year_of (doe : Z) : Z := (doe - doe / 1460 + doe / 36524 - doe / 146096) / 365.

(** The month and the day of a day of the year, counted from March 1. *)
Definition month_of (doy : Z) : Z := (5 * doy + 2) / 153.
Definition day_of (doy : Z) : Z := doy - (153 * month_of doy + 2) / 5 + 1.
Definition calendar_month (mp : Z) : Z := if mp <? 10 then mp + 3 else mp - 9.

Definition year_check (yoe : Z) : bool :=
  (year_of (year_start yoe) =? yoe) && (year_of (year_start (yoe + 1) - 1) =? yoe) &&
  (year_start (yoe + 1) =? year_start yoe + (if is_leap (yoe + 1) then 366 else 365)).

Definition day_check (doy : Z) : bool :=
  let mp := month_of doy in
  (0 <=? mp) && (mp <=? 11) && (1 <=? day_of doy) && (day_of doy <=? days_in (calendar_month mp) 2000) &&
  ((day_of doy <=? days_in (calendar_month mp) 2001) || (doy =? 365)) &&
  ((153 * mp + 2) / 5 + day_of doy - 1 =? doy).

Lemma year_checks : forallb year_check (seqZ 0 400) = true.
Proof. vm_compute. reflexivity. Qed.
Lemma day_checks : forallb day_check (seqZ 0 366) = true.
Proof. vm_compute. reflexivity. Qed.

Lemma checked f n z : forallb f (seqZ 0 n) = true -> 0 <= z < n -> f z = true.
Proof. intros H Hz. rewrite forallb_forall in H. apply H, list_elem_of_In, elem_of_seqZ. lia. Qed.

Lemma year_of_mono a b : 0 <= a <= b -> b < era_days -> year_of a <= year_of b.
Proof.
  intros [H0 H] Hb. unfold era_days in Hb. unfold year_of. apply Z.div_le_mono; [lia|].
  enough (forall n, 0 <= n -> a + n < 146097 ->
    a - a / 1460 + a / 36524 - a / 146096 <= (a + n) - (a + n) / 1460 + (a + n) / 36524 - (a + n) / 146096) as Hn.
  { specialize (Hn (b - a)). replace (a + (b - a)) with b in Hn by lia. apply Hn; lia. }
  intros n Hn. pattern n. apply natlike_ind; [rewrite Z.add_0_r; lia| |done].
  intros x Hx IH Hlt. specialize (IH ltac:(lia)). replace (a + Z.succ x) with (a + x + 1) by lia.
  clear -IH Hx H0 Hlt. set (c := a + x) in *. assert (0 <= c < 146096) by lia.
  enough (c - c / 1460 + c / 36524 - c / 146096 <= c + 1 - (c + 1) / 1460 + (c + 1) / 36524 - (c + 1) / 146096) by lia.
  clear IH. clearbody c. divmod.
Qed.

(** A day of an era lies in the year that is computed for it. *)
Lemma year_of_spec doe : 0 <= doe < era_days ->
  0 <= year_of doe < 400 /\ year_start (year_of doe) <= doe < year_start (year_of doe + 1).
Proof.
  intros H.
  assert (exists yoe, 0 <= yoe < 400 /\ year_start yoe <= doe < year_start (yoe + 1)) as (yoe & Hy & Hs).
  { assert (forall n, 0 <= n -> n <= 400 -> year_start 0 <= doe < year_start n ->
      exists yoe, 0 <= yoe < n /\ year_start yoe <= doe < year_start (yoe + 1)) as Hn.
    { intros n Hn. pattern n. apply natlike_ind; [lia| |done]. intros x Hx IH Hle Hd.
      replace (Z.succ x) with (x + 1) in * by lia.
      destruct (Z_lt_dec doe (year_start x)) as [Hlt|Hge].
      - destruct IH as (yoe & ? & ?); [lia..|]. exists yoe. lia.
      - exists x. lia. }
    apply (Hn 400); [lia..|]. exact H. }
  pose proof (checked _ _ yoe year_checks Hy) as Hc. unfold year_check in Hc. reflect_bools.
  assert (Hend : year_start (yoe + 1) <= era_days) by (unfold year_start, era_days; divmod).
  assert (Hstart : 0 <= year_start yoe) by (unfold year_start; divmod).
  pose proof (year_of_mono (year_start yoe) doe ltac:(lia) ltac:(lia)).
  pose proof (year_of_mono doe (year_start (yoe + 1) - 1) ltac:(lia) ltac:(lia)).
  replace (year_of doe) with yoe by lia. done.
Qed.

Lemma is_leap_period y k : is_leap (y + 400 * k) = is_leap y.
Proof.
  unfold is_leap. assert ((y + 400 * k) mod 4 = y mod 4) as -> by divmod.
  assert ((y + 400 * k) mod 100 = y mod 100) as -> by divmod.
  by assert ((y + 400 * k) mod 400 = y mod 400) as -> by divmod.
Qed.

Lemma days_in_year m y : days_in m y = if is_leap y then days_in m 2000 else days_in m 2001.
Proof. unfold days_in. by destruct (m =? 2), (is_leap y). Qed.

Lemma days_in_not_february m y : m <> 2 -> days_in m y = days_in m 2000.
Proof. intros H. unfold days_in. by replace (m =? 2) with false by lia. Qed.

(** A date as computed: its era, its year in the era and its day in the year. *)
Lemma date_roundtrip d : days_of_date (date_of_days d) = d /\ valid_date (date_of_days d) = true.
Proof.
  set (doe := (d + 719468) mod era_days). set (k := (d + 719468) / era_days).
  assert (Hd : d + 719468 = era_days * k + doe) by (subst doe k; unfold era_days; divmod).
  destruct (year_of_spec doe) as [Hy Hs]; [subst doe; unfold era_days; divmod|].
  set (yoe := year_of doe) in *. set (doy := doe - (365 * yoe + yoe / 4 - yoe / 100)).
  assert (Hstart : year_start yoe = 365 * yoe + yoe / 4 - yoe / 100) by (unfold year_start; divmod).
  pose proof (checked _ _ yoe year_checks Hy) as Hc. unfold year_check in Hc. reflect_bools.
  assert (Hdoy : 0 <= doy < if is_leap (yoe + 1) then 366 else 365) by (subst doy; lia).
  assert (Hdc : day_check doy = true) by (apply (checked _ 366 _ day_checks); case_match; lia).
  unfold day_check in Hdc. set (mp := month_of doy) in *.
  apply andb_true_iff in Hdc as [Hdc Hback]. apply andb_true_iff in Hdc as [Hdc H2001]. reflect_bools.
  assert (Hdate : date_of_days d =
    Date (if calendar_month mp <=? 2 then yoe + k * 400 + 1 else yoe + k * 400) (calendar_month mp) (day_of doy)).
  { unfold date_of_days. fold era_days. fold doe k. fold (year_of doe). fold yoe. fold doy.
    fold (month_of doy). fold mp. done. }
  rewrite Hdate. unfold days_of_date, valid_date. cbn [date_year date_month date_day].
  assert (Hera : (yoe + k * 400) mod 400 = yoe /\ (yoe + k * 400) / 400 = k) by (clear -Hy; clearbody yoe; divmod).
  destruct Hera as [Hmod Hdiv].
  unfold calendar_month in *. destruct (mp <? 10) eqn:Emp; reflect_bools.
  - replace (mp + 3 <=? 2) with false by lia. rewrite Hmod, Hdiv. replace (mp + 3 - 3) with mp by lia.
    rewrite days_in_not_february by lia. split; [unfold era_days in *; subst doy; lia|lia].
  - replace (mp - 9 <=? 2) with true by lia. replace (yoe + k * 400 + 1 - 1) with (yoe + k * 400) by lia.
    rewrite Hmod, Hdiv. replace (mp - 9 + 9) with mp by lia. split; [unfold era_days in *; subst doy; lia|].
    rewrite days_in_year. replace (yoe + k * 400 + 1) with (yoe + 1 + 400 * k) by lia. rewrite is_leap_period.
    destruct (is_leap (yoe + 1)); [lia|]. apply orb_true_iff in H2001 as [?|?]; lia.
Qed.

(** ** Digits *)
Lemma digit_of_digit n : 0 <= n <= 9 -> digit_of (digit n) = Some n.
Proof.
  intros H. unfold digit_of, digit. rewrite code_chr by lia. decide_tests. f_equal. lia.
Qed.

Lemma take2_pad2 lo hi n s : 0 <= n <= 99 -> lo <= n <= hi -> take2 lo hi (pad2 n +:+ s) = Some (n, s).
Proof.
  intros Hn Hr. unfold pad2. cbn [String.append str1 take2]. rewrite !digit_of_digit by divmod.
  replace (10 * (n / 10) + n mod 10) with n by divmod. decide_tests. done.
Qed.

(** ** Fractions *)
Lemma take_fraction_digits j : forall k acc n s, 0 <= n < 10 ^ Z.of_nat j ->
  take_fraction (j + k) acc (digits j n +:+ s) = take_fraction k (acc * 10 ^ Z.of_nat j + n) s.
Proof.
  induction j as [|j IH]; intros k acc n s Hn.
  { cbn [digits String.append Nat.add]. f_equal. simpl in *. lia. }
  cbn [digits]. rewrite str_app_assoc. cbn [str1 String.append].
  rewrite Nat2Z.inj_succ, Z.pow_succ_r in Hn |- * by lia.
  replace (S j + k)%nat with (j + S k)%nat by lia. rewrite IH by divmod. cbn [take_fraction].
  rewrite digit_of_digit by divmod. f_equal. divmod.
Qed.

Lemma rev_app_spec s t : String.rev_app s t = String.rev s +:+ t.
Proof.
  unfold String.rev. revert t. induction s as [|c s IH]; intros t; [done|]. simpl.
  rewrite IH, (IH (String c "")). by rewrite str_app_assoc.
Qed.

Lemma rev_str_snoc s c : rev_str (s +:+ str1 c) = String c (rev_str s).
Proof.
  unfold rev_str, String.rev. generalize ""%stdpp. induction s as [|d s IH]; intros t; [done|]. simpl. apply IH.
Qed.

Lemma rev_str_cons s c : rev_str (String c s) = rev_str s +:+ str1 c.
Proof. unfold rev_str at 1, String.rev. simpl. apply rev_app_spec. Qed.

Lemma rev_str_involutive s : rev_str (rev_str s) = s.
Proof. induction s as [|c s IH]; [done|]. by rewrite rev_str_cons, rev_str_snoc, IH. Qed.

Lemma trim_zeros_snoc s n : 0 <= n <= 9 ->
  trim_zeros (s +:+ str1 (digit n)) = if n =? 0 then trim_zeros s else s +:+ str1 (digit n).
Proof.
  intros H. unfold trim_zeros. rewrite rev_str_snoc. cbn [drop_zeros].
  destruct (n =? 0) eqn:E; reflect_bools; [by subst|].
  assert (Ascii.eqb (digit n) "0" = false) as ->.
  { apply Ascii.eqb_neq. intros Hd. apply (f_equal code) in Hd. unfold digit in Hd. rewrite code_chr in Hd by lia.
    unfold code in Hd; simpl in Hd. lia. }
  by rewrite <- rev_str_snoc, rev_str_involutive.
Qed.

(** The digits of a fraction, without its trailing zeros. *)
Lemma trim_zeros_digits k n : 0 < n < 10 ^ Z.of_nat k ->
  exists j m i, trim_zeros (digits k n) = digits (S j) m /\ 0 <= m < 10 ^ Z.of_nat (S j) /\
    n = m * 10 ^ Z.of_nat i /\ k = (S j + i)%nat.
Proof.
  revert n. induction k as [|k IH]; intros n Hn; [simpl in Hn; lia|].
  cbn [digits]. rewrite trim_zeros_snoc by divmod.
  pose proof Hn as Hn'. rewrite Nat2Z.inj_succ, Z.pow_succ_r in Hn' by lia.
  destruct (n mod 10 =? 0) eqn:E; reflect_bools.
  - destruct (IH (n / 10)) as (j & m & i & H1 & H2 & H3 & H4); [divmod|].
    exists j, m, (S i). split_and!; [done|lia|lia| |lia].
    rewrite Nat2Z.inj_succ, Z.pow_succ_r by lia. divmod.
  - exists k, n, O. split_and!; [done|lia|lia|simpl; lia|lia].
Qed.

Definition no_fraction (s : string) : Prop :=
  match s with
  | EmptyString => True
  | String c _ => Ascii.eqb c "." = false /\ digit_of c = None
  end.

Lemma parse_format_fraction ns s : 0 <= ns < second -> no_fraction s ->
  parse_fraction (format_fraction ns +:+ s) = (ns, s).
Proof.
  intros Hn Hs. unfold format_fraction. destruct (ns =? 0) eqn:E; reflect_bools.
  { subst ns. destruct s as [|c [|d s]]; [done..|]. destruct Hs as [Hc _]. cbn. by rewrite Hc. }
  unfold second in Hn. destruct (trim_zeros_digits 9 ns) as (j & m & i & -> & Hm & -> & Hk); [simpl; lia|].
  rewrite str_app_assoc.
  assert (Htake : take_fraction 9 0 (digits (S j) m +:+ s) = (m * 10 ^ Z.of_nat i, s)).
  { rewrite Hk, take_fraction_digits by lia. rewrite Z.mul_0_l, Z.add_0_l.
    destruct s as [|c s]; [done|]. destruct Hs as [_ Hd]. cbn [take_fraction]. by rewrite Hd. }
  assert (Hhead : exists x r, digits (S j) m +:+ s = String (digit x) r /\ 0 <= x <= 9).
  { clear -Hm. revert m s Hm. induction j as [|j IH]; intros m s Hm.
    - cbn [digits]. exists (m mod 10), s. split; [done|divmod].
    - rewrite Nat2Z.inj_succ, Z.pow_succ_r in Hm by lia.
      change (digits (S (S j)) m) with (digits (S j) (m / 10) +:+ str1 (digit (m mod 10))).
      rewrite str_app_assoc. apply IH. divmod. }
  destruct Hhead as (x & r & Hx & Hr). rewrite Hx in *. cbn [String.append]. cbn [parse_fraction].
  rewrite digit_of_digit by done. done.
Qed.

(** ** Zones *)
Lemma expect_eq c s : expect c (String c s) = Some s.
Proof. unfold expect. by rewrite Ascii.eqb_refl. Qed.

Lemma no_fraction_zone z : no_fraction (format_zone z).
Proof. unfold format_zone. destruct (z =? 0); [done|]. by destruct (z <? 0). Qed.

Lemma parse_format_zone z : wf_zone z -> parse_zone (format_zone z) = Some z.
Proof.
  unfold wf_zone, seconds_per_day. intros [Hm Ha]. unfold format_zone. destruct (z =? 0) eqn:E0; reflect_bools; [by subst|].
  assert (Hparse : forall sg, Ascii.eqb sg "-" = (z <? 0) -> Ascii.eqb sg "+" = negb (z <? 0) ->
    parse_zone (String sg (pad2 (Z.abs z / 3600) +:+ ":" +:+ pad2 (Z.abs z / 60 mod 60))) = Some z).
  { intros sg H1 H2. unfold parse_zone.
    assert ((String sg (pad2 (Z.abs z / 3600) +:+ ":" +:+ pad2 (Z.abs z / 60 mod 60)) =? "Z")%string = false) as -> by
      (apply String.eqb_neq; unfold pad2; by intros [=]).
    rewrite H1, H2. destruct (z <? 0) eqn:Ez; cbn [negb mbind option_bind]; reflect_bools;
      (rewrite take2_pad2 by divmod; cbn [mbind option_bind String.append]; rewrite expect_eq;
       cbn [mbind option_bind]; rewrite <- (str_app_nil_r (pad2 (Z.abs z / 60 mod 60))), take2_pad2 by divmod;
       cbn [mbind option_bind]; rewrite String.eqb_refl; f_equal; divmod). }
  destruct (z <? 0) eqn:Ez; apply Hparse; done.
Qed.

(** ** Timestamps *)
Lemma parse_marshal_time t text : wf_zone (zone_seconds t) -> marshal_time t = Some text ->
  parse_rfc3339 text = Some t.
Proof.
  intros Hz. unfold marshal_time. destruct (_ && _) eqn:E; [|done]. reflect_bools. intros [= <-].
  unfold format_rfc3339nano, format_year. set (s := local_seconds t mod seconds_per_day).
  pose proof (date_roundtrip (local_seconds t / seconds_per_day)) as [Hdays Hvalid].
  change (date_of_days (local_seconds t / seconds_per_day)) with (local_date t) in *.
  unfold valid_date in Hvalid. reflect_bools.
  assert (Hdim : days_in (date_month (local_date t)) (date_year (local_date t)) <= 31)
    by (unfold days_in; repeat case_match; lia).
  assert (Hs : 0 <= s < 86400) by (subst s; unfold seconds_per_day; divmod).
  replace ((0 <=? date_year (local_date t)) && (date_year (local_date t) <=? 9999)) with true by lia.
  unfold pad4. rewrite !str_app_assoc. unfold parse_rfc3339.
  do 2 (rewrite take2_pad2 by divmod; cbn [mbind option_bind]).
  replace (100 * (date_year (local_date t) / 100) + date_year (local_date t) mod 100)
    with (date_year (local_date t)) by divmod.
  cbn [String.append]. rewrite expect_eq. cbn [mbind option_bind].
  rewrite take2_pad2 by lia. cbn [mbind option_bind String.append]. rewrite expect_eq. cbn [mbind option_bind].
  rewrite take2_pad2 by lia. cbn [mbind option_bind String.append]. rewrite expect_eq. cbn [mbind option_bind].
  rewrite take2_pad2 by divmod. cbn [mbind option_bind String.append]. rewrite expect_eq. cbn [mbind option_bind].
  rewrite take2_pad2 by divmod. cbn [mbind option_bind String.append]. rewrite expect_eq. cbn [mbind option_bind].
  rewrite take2_pad2 by divmod. cbn [mbind option_bind].
  rewrite parse_format_fraction; [|unfold second; divmod|apply no_fraction_zone].
  rewrite parse_format_zone by done. cbn [mbind option_bind]. do 2 f_equal.
  replace (Date _ _ _) with (local_date t) by (by destruct (local_date t)). rewrite Hdays.
  clear -Hs. subst s. unfold local_seconds, seconds_per_day, second in *. destruct t as [n z]. cbn in *. f_equal. divmod.
Qed.

(** ** Guarantees *)

(** Every timestamp that can be written, in any zone of whole minutes, is read back as the
    same instant in the same zone, to the nanosecond. *)
Theorem timestamp_roundtrip t text :
  wf_zone (zone_seconds t) -> marshal_time t = Some text -> parse_rfc3339 text = Some t.
Proof. apply parse_marshal_time. Qed.

Lemma timestamp_roundtrip_witness :
  parse_rfc3339 "2023-11-14T17:43:20.000000001-04:30" = Some (GoTime 1700000000000000001 (-16200)).
Proof. apply timestamp_roundtrip; [vm_compute; split; reflexivity|vm_compute; reflexivity]. Defined.
