(* ===== verification/StateFile.v ===== *)
(** * The text of a state file ([syncstate.go]: [encodeSyncFile], [decodeSyncFile])

    Encoding and decoding of [syncFileData], with the checks the decoder adds to the JSON
    types, and the identifiers found in other texts: [newRepositoryID] and [responseETag]. *)

From Stdlib Require Import Ascii.
From S2P Require Import Prelude GoString GoTime Host SyncData Json.

Local Open Scope Z_scope.
Local Open Scope go_scope.

(** ** Encoding *)
Definition bool_text (b : bool) : string := if b then "true" else "false".

(** The members of an encoded lock; [omitempty] drops a zero TTL. *)
Definition lock_members (l : syncFileLock) : option (list (string * string)) :=
  t ← marshal_time (Timestamp l);
  Some ([("owner", quote (Owner l)); ("timestamp", quoted t)] ++
        (if TTL l =? 0 then [] else [("ttl", string_of_Z (TTL l))])).

Definition lock_member (l : option syncFileLock) : result error (list (string * string)) :=
  match l with
  | None => Ok []
  | Some l =>
      match lock_members l with
      | Some ms => Ok [("lock", render_object 1 ms)]
      | None => Err (Errorf "json: error calling MarshalJSON for type time.Time")
      end
  end.

Definition head_members (d : syncFileData) : list (string * string) :=
  [("repository_id", quote (RepositoryID d)); ("generation", string_of_Z (Generation d))] ++
  (if (SyncID d =? "")%string then [] else [("sync_id", quote (SyncID d))]) ++
  [("syncing", bool_text (Syncing d))].

Definition encodeSyncFile (d : syncFileData) : result error string :=
  guard? negb (RepositoryID d =? "")%string else Errorf "repository ID must be set" in
  let? lock := lock_member (Lock d) in
  Ok (render_object 0 (head_members d ++ (if Active d then [("active", "true")] else []) ++ lock) +:+ nl).

(** The text [writeLocalSyncFile] stores: the marker is always there, after the lock. *)
Definition encodeLocalSyncFile (d : syncFileData) : result error string :=
  let? lock := lock_member (Lock d) in
  Ok (render_object 0 (head_members d ++ lock ++ [("active", bool_text (Active d))]) +:+ nl).

(** ** Decoding *)
Definition type_error : error := Errorf "json: cannot unmarshal value".
Definition unknown_field : error := Errorf "json: unknown field".

(** A JSON [null] leaves the destination as it is. *)
Definition decode_string (j : json) (old : string) : result error string :=
  match j with JStr raw => Ok (unquote raw) | JNull => Ok old | _ => Err type_error end.
Definition decode_bool (j : json) (old : bool) : result error bool :=
  match j with JBool b => Ok b | JNull => Ok old | _ => Err type_error end.
Definition decode_number (parse : string -> option Z) (j : json) (old : Z) : result error Z :=
  match j with
  | JNum lit => match parse lit with Some z => Ok z | None => Err type_error end
  | JNull => Ok old
  | _ => Err type_error
  end.
Definition decode_time (j : json) (old : gotime) : result error gotime :=
  match j with
  | JStr raw => match parse_rfc3339 raw with Some t => Ok t | None => Err type_error end
  | JNull => Ok old
  | _ => Err type_error
  end.

Definition lock_names : list string := ["owner"; "timestamp"; "ttl"].

Definition decode_lock_member (l : syncFileLock) (m : string * json) : result error syncFileLock :=
  match match_name lock_names (unquote (fst m)) with
  | None => Err unknown_field
  | Some n =>
      if (n =? "owner")%string then
        let? o := decode_string (snd m) (Owner l) in Ok (SyncFileLock o (Timestamp l) (TTL l))
      else if (n =? "timestamp")%string then
        let? t := decode_time (snd m) (Timestamp l) in Ok (SyncFileLock (Owner l) t (TTL l))
      else
        let? t := decode_number parse_int64 (snd m) (TTL l) in Ok (SyncFileLock (Owner l) (Timestamp l) t)
  end.

(** Members are decoded in order into the value built so far. *)
Fixpoint decode_members {A} (f : A -> string * json -> result error A) (a : A) (ms : list (string * json)) :
    result error A :=
  match ms with
  | [] => Ok a
  | m :: ms => let? a' := f a m in decode_members f a' ms
  end.

Definition zero_lock : syncFileLock := SyncFileLock "" (GoTime time_zero 0) 0.

Definition decode_lock (j : json) (old : option syncFileLock) : result error (option syncFileLock) :=
  match j with
  | JNull => Ok None
  | JObj ms =>
      let? l := decode_members decode_lock_member (default zero_lock old) ms in Ok (Some l)
  | _ => Err type_error
  end.

Definition data_names : list string :=
  ["repository_id"; "generation"; "sync_id"; "syncing"; "active"; "lock"].

Definition decode_data_member (d : syncFileData) (m : string * json) : result error syncFileData :=
  let j := snd m in
  match match_name data_names (unquote (fst m)) with
  | None => Err unknown_field
  | Some n =>
      if (n =? "repository_id")%string then
        let? s := decode_string j (RepositoryID d) in Ok (set_RepositoryID s d)
      else if (n =? "generation")%string then
        let? g := decode_number parse_uint64 j (Generation d) in Ok (set_upload g (SyncID d) (Syncing d) d)
      else if (n =? "sync_id")%string then
        let? s := decode_string j (SyncID d) in Ok (set_upload (Generation d) s (Syncing d) d)
      else if (n =? "syncing")%string then
        let? b := decode_bool j (Syncing d) in Ok (set_Syncing b d)
      else if (n =? "active")%string then
        let? b := decode_bool j (Active d) in Ok (set_Active b d)
      else
        let? l := decode_lock j (Lock d) in Ok (set_Lock l d)
  end.

(** [json.Decoder.Decode] into a [syncFileData] with [DisallowUnknownFields]: the first value
    of the text, whatever follows it. *)
Definition unmarshal_data (contents : string) : result error syncFileData :=
  match parse_json contents with
  | None => Err (Errorf "invalid JSON")
  | Some (JObj ms, _) => decode_members decode_data_member no_data ms
  | Some (JNull, _) => Ok no_data
  | Some _ => Err type_error
  end.

Definition lock_complete (l : syncFileLock) : bool :=
  negb ((Owner l =? "")%string || is_zero_time (Timestamp l)).

Definition decodeSyncFile (contents : string) : result error syncFileData :=
  let? d := unmarshal_data contents in
  guard? negb (RepositoryID d =? "")%string else Errorf "repository ID must be set" in
  guard? match Lock d with Some l => lock_complete l | None => true end
    else Errorf "lock owner and timestamp must be set" in
  guard? match Lock d with Some l => 0 <=? TTL l | None => true end
    else Errorf "lock TTL must not be negative" in
  Ok d.

(** ** Repository identifiers: random UUIDs of version 4 *)
Definition hex_byte (b : Z) : string := String (hex_digit (b / 16)) (str1 (hex_digit (b mod 16))).
Definition hex_bytes (bs : list Z) : string := concat_str (hex_byte <$> bs).

(** [newRepositoryID] on its sixteen random bytes. *)
Definition newRepositoryID (id : list Z) : string :=
  let id := alter (fun b => Z.lor (Z.land b 15) 64) 6%nat id in
  let id := alter (fun b => Z.lor (Z.land b 63) 128) 8%nat id in
  let part a b := hex_bytes (take (b - a) (drop a id)) in
  part 0%nat 4%nat +:+ "-" +:+ part 4%nat 6%nat +:+ "-" +:+ part 6%nat 8%nat +:+ "-" +:+
  part 8%nat 10%nat +:+ "-" +:+ part 10%nat 16%nat.

(** ** Response headers *)
Fixpoint response_etag_go (lines : list string) : string :=
  match lines with
  | [] => ""
  | line :: lines =>
      let line := trim_space line in
      let '(key, value, found) := cut ":"%char line in
      if found && equal_fold_ascii key "etag" then trim_byte dquote (trim_space value)
      else response_etag_go lines
  end.
Definition responseETag (output : string) : string := response_etag_go (split_on newline output).

(** ** Lemmas *)
Lemma lock_member_plain l : plain (lock_member l).
Proof. unfold lock_member. plain_steps. Qed.
Lemma encodeSyncFile_plain d : plain (encodeSyncFile d).
Proof. unfold encodeSyncFile. plain_steps. apply lock_member_plain. Qed.
Lemma encodeLocalSyncFile_plain d : plain (encodeLocalSyncFile d).
Proof. unfold encodeLocalSyncFile. plain_steps. apply lock_member_plain. Qed.

Lemma decode_members_plain {A} (f : A -> string * json -> result error A) a ms :
  (forall a m, plain (f a m)) -> plain (decode_members f a ms).
Proof. intros Hf. revert a. induction ms; intros; simpl; plain_steps; auto. Qed.

Lemma decode_string_plain j old : plain (decode_string j old).
Proof. by destruct j. Qed.
Lemma decode_bool_plain j old : plain (decode_bool j old).
Proof. by destruct j. Qed.
Lemma decode_number_plain p j old : plain (decode_number p j old).
Proof. unfold decode_number. plain_steps. Qed.
Lemma decode_time_plain j old : plain (decode_time j old).
Proof. unfold decode_time. plain_steps. Qed.
#[export] Hint Resolve lock_member_plain encodeSyncFile_plain encodeLocalSyncFile_plain
  decode_string_plain decode_bool_plain decode_number_plain decode_time_plain : go.

Lemma decode_lock_member_plain l m : plain (decode_lock_member l m).
Proof. unfold decode_lock_member. plain_steps. Qed.
#[export] Hint Resolve decode_lock_member_plain : go.

Lemma decode_lock_plain j old : plain (decode_lock j old).
Proof. unfold decode_lock. plain_steps. apply decode_members_plain; auto with go. Qed.
#[export] Hint Resolve decode_lock_plain : go.

Lemma decode_data_member_plain d m : plain (decode_data_member d m).
Proof. unfold decode_data_member. plain_steps. Qed.

Lemma decodeSyncFile_plain contents : plain (decodeSyncFile contents).
Proof.
  unfold decodeSyncFile, unmarshal_data. plain_steps.
  apply decode_members_plain; auto using decode_data_member_plain.
Qed.
#[export] Hint Resolve decodeSyncFile_plain : go.

(** ** The type invariant of decoded data

    Generations and TTLs fit their Go types, a repository ID is set, and a lock has an owner,
    a timestamp in a zone of RFC 3339 and a TTL that is not negative. *)
Definition wf_lock (l : syncFileLock) : Prop :=
  Owner l <> "" /\ is_zero_time (Timestamp l) = false /\ wf_zone (zone_seconds (Timestamp l)) /\
  0 <= TTL l <= int64_max.

Definition wf_data (d : syncFileData) : Prop :=
  RepositoryID d <> "" /\ 0 <= Generation d <= uint64_max /\
  match Lock d with Some l => wf_lock l | None => True end.

(** What the JSON types alone give, before the decoder's own checks. *)
Definition typed_lock (l : syncFileLock) : Prop :=
  TTL l <= int64_max /\ wf_zone (zone_seconds (Timestamp l)).
Definition typed_data (d : syncFileData) : Prop :=
  0 <= Generation d <= uint64_max /\
  match Lock d with Some l => typed_lock l | None => True end.

Lemma parse_uint64_range t z : parse_uint64 t = Some z -> 0 <= z <= uint64_max.
Proof.
  unfold parse_uint64. destruct (parse_N t); [|done]. case_goal; [|done]. intros [= <-]. reflect_bools. lia.
Qed.

Lemma parse_int64_range t z : parse_int64 t = Some z -> int64_min <= z <= int64_max.
Proof.
  unfold parse_int64, int64_min, int64_max. destruct t as [|c t]; [done|].
  destruct (Ascii.eqb c "-").
  - destruct (parse_N t); [|done]. case_goal; [done|]. intros [= <-]. reflect_bools. lia.
  - destruct (parse_N (String c t)); [|done]. case_goal; [|done]. intros [= <-]. reflect_bools. lia.
Qed.

Lemma result_bind_Ok {A B} (r : result error A) (f : A -> result error B) b :
  result_bind r f = Ok b -> exists a, r = Ok a /\ f a = Ok b.
Proof. destruct r; simpl; [eauto|done..]. Qed.

(** An invariant of the members decoded so far holds of the whole object. *)
Lemma decode_members_inv {A} (I : A -> Prop) (f : A -> string * json -> result error A) a ms a' :
  (forall a m a', I a -> f a m = Ok a' -> I a') ->
  I a -> decode_members f a ms = Ok a' -> I a'.
Proof.
  intros Hf. revert a. induction ms as [|m ms IH]; simpl; intros a Ha; [by intros [= <-]|].
  intros (b & Hb & Hr)%result_bind_Ok. eauto.
Qed.

Lemma decode_number_range p j old z (lo hi : Z) :
  (forall t z, p t = Some z -> lo <= z <= hi) -> lo <= old <= hi ->
  decode_number p j old = Ok z -> lo <= z <= hi.
Proof.
  intros Hp Ho. destruct j; simpl; try done; [by intros [= <-]|].
  destruct (p literal) eqn:E; [|done]. intros [= <-]. eauto.
Qed.

Lemma decode_lock_member_typed l m l' :
  typed_lock l -> decode_lock_member l m = Ok l' -> typed_lock l'.
Proof.
  unfold decode_lock_member, typed_lock. intros [H1 H2].
  destruct (match_name _ _) as [n|]; [|done]. repeat case_goal; intros (z & Hz & [= <-])%result_bind_Ok; simpl; try done.
  - split; [done|]. destruct (snd m); simpl in Hz; try done; [by injection Hz as <-|].
    destruct (parse_rfc3339 raw) eqn:Ep; [|done]. injection Hz as <-. by eapply parse_rfc3339_wf.
  - split; [|done]. destruct (snd m); simpl in Hz; try done; [by injection Hz as <-|].
    destruct (parse_int64 literal) eqn:Ep; [|done]. injection Hz as <-. apply parse_int64_range in Ep. lia.
Qed.

Lemma decode_data_member_typed d m d' :
  typed_data d -> decode_data_member d m = Ok d' -> typed_data d'.
Proof.
  unfold decode_data_member, typed_data. intros [Hg Hl].
  destruct (match_name _ _) as [n|]; [|done].
  repeat match goal with |- context [if ?b then _ else _] => destruct b end;
    intros (z & Hz & [= <-])%result_bind_Ok; simpl; try done.
  - split; [|done]. eapply decode_number_range; [apply parse_uint64_range| |done]. done.
  - split; [done|]. destruct (snd m); simpl in Hz; try done; [by injection Hz as <-|].
    apply result_bind_Ok in Hz as (l & Hd & [= <-]).
    revert Hd. apply decode_members_inv; [exact decode_lock_member_typed|].
    destruct (Lock d); simpl; [done|]. split; [done|by split].
Qed.

Lemma decodeSyncFile_wf contents d : decodeSyncFile contents = Ok d -> wf_data d.
Proof.
  unfold decodeSyncFile, lock_complete, wf_data, wf_lock. intros (d' & Hu & H)%result_bind_Ok.
  assert (Ht : typed_data d').
  { unfold unmarshal_data in Hu. destruct (parse_json contents) as [[j r]|]; [|done].
    assert (H0 : typed_data no_data) by (split; [unfold uint64_max; simpl; lia|done]).
    destruct j; try done; [by injection Hu as <-|].
    revert Hu. by apply decode_members_inv; [exact decode_data_member_typed|]. }
  revert H. destruct Ht as [Hg Hl]. unfold typed_lock in Hl.
  destruct (RepositoryID d' =? "")%string eqn:E; simpl; [done|].
  destruct (Lock d') as [l|] eqn:El; [|intros [= <-]; reflect_bools; by rewrite El].
  case_goal; [|done]. case_goal; [|done]. intros [= <-]. rewrite El. reflect_bools. naive_solver.
Qed.
