(* ===== verification/StateFileRoundTrip.v ===== *)
(** * Reading back a state file

    What [encodeSyncFile] and [encodeLocalSyncFile] write, [decodeSyncFile] reads back, up to
    the stray bytes that [encoding/json] replaces by U+FFFD. *)

From Stdlib Require Import Ascii.
From S2P Require Import Prelude GoString Utf8 GoTime Host SyncData Json JsonRoundTrip TimeRoundTrip StateFile.

Local Open Scope Z_scope.

(** ** What is left of the texts of a state *)
Definition sanitize_lock (l : syncFileLock) : syncFileLock :=
  SyncFileLock (sanitize (Owner l)) (Timestamp l) (TTL l).
Definition sanitize_data (d : syncFileData) : syncFileData :=
  SyncFileData (sanitize (RepositoryID d)) (Generation d) (sanitize (SyncID d)) (Syncing d) (Active d)
    (sanitize_lock <$> Lock d).

Definition utf8_data (d : syncFileData) : Prop :=
  valid_utf8 (RepositoryID d) = true /\ valid_utf8 (SyncID d) = true /\
  match Lock d with Some l => valid_utf8 (Owner l) = true | None => True end.

Lemma sanitize_utf8 d : utf8_data d -> sanitize_data d = d.
Proof.
  intros (H1 & H2 & H3). unfold sanitize_data. rewrite !sanitize_valid by done.
  destruct d as [r g i s a [[o t l]|]]; [|done]. simpl in *. unfold sanitize_lock. simpl.
  by rewrite sanitize_valid by done.
Qed.

(** ** Timestamps hold no byte that JSON escapes *)
Lemma plain_digit n : 0 <= n <= 9 -> plain_byte (digit n) = true.
Proof. intros H. apply plain_chr; lia. Qed.

Lemma plain_pad2 n : 0 <= n <= 99 -> str_forallb plain_byte (pad2 n) = true.
Proof. intros H. unfold pad2. cbn [str_forallb str1]. by rewrite !plain_digit by divmod. Qed.

Lemma plain_digits k n : 0 <= n -> str_forallb plain_byte (digits k n) = true.
Proof.
  revert n. induction k as [|k IH]; intros n H; [done|]. cbn [digits].
  rewrite str_forallb_app, IH by divmod. cbn [str_forallb str1]. by rewrite plain_digit by divmod.
Qed.

Lemma plain_fraction n : 0 <= n < second -> str_forallb plain_byte (format_fraction n) = true.
Proof.
  intros H. unfold format_fraction. destruct (n =? 0) eqn:E; [done|]. reflect_bools.
  unfold second in H. destruct (trim_zeros_digits 9 n) as (j & m & i & -> & Hm & _); [simpl; lia|].
  rewrite str_forallb_app, plain_digits by lia. done.
Qed.

Lemma plain_marshal_time t text : wf_zone (zone_seconds t) -> marshal_time t = Some text ->
  str_forallb plain_byte text = true.
Proof.
  intros [Hz1 Hz2]. unfold marshal_time. destruct (_ && _) eqn:E; [|done]. reflect_bools. intros [= <-].
  pose proof (date_roundtrip (local_seconds t / seconds_per_day)) as [_ Hvalid].
  change (date_of_days (local_seconds t / seconds_per_day)) with (local_date t) in *.
  unfold valid_date in Hvalid. reflect_bools.
  assert (Hdim : days_in (date_month (local_date t)) (date_year (local_date t)) <= 31)
    by (unfold days_in; repeat case_match; lia).
  unfold format_rfc3339nano, format_year, format_zone, pad4, seconds_per_day in *.
  replace ((0 <=? date_year (local_date t)) && (date_year (local_date t) <=? 9999)) with true by lia.
  rewrite !str_forallb_app, !plain_pad2 by divmod. rewrite plain_fraction by (unfold second; divmod).
  destruct (_ =? 0); [done|]. destruct (_ <? 0); rewrite !str_forallb_app, !plain_pad2 by divmod; done.
Qed.

(** ** Numbers *)
Lemma parse_uint64_string z : 0 <= z <= uint64_max -> parse_uint64 (string_of_Z z) = Some z.
Proof.
  intros H. unfold parse_uint64, string_of_Z. replace (z <? 0) with false by lia.
  rewrite parse_string_of_N, Z2N.id by lia. by replace (z <=? uint64_max) with true by lia.
Qed.

Lemma parse_int64_string z : 0 <= z <= int64_max -> parse_int64 (string_of_Z z) = Some z.
Proof.
  intros H. unfold parse_int64, string_of_Z. replace (z <? 0) with false by lia.
  pose proof (parse_string_of_N (Z.to_N z)) as Hp.
  destruct (string_of_N_head (Z.to_N z)) as (c & d & Hs & Hd & _). rewrite Hs in *.
  assert (Ascii.eqb c "-" = false) as ->.
  { apply andb_true_iff in Hd as [Hd _]. apply Ascii.eqb_neq. intros ->. done. }
  rewrite Hp, Z2N.id by lia. by replace (z <=? int64_max) with true by lia.
Qed.

(** ** The members of a state file, with the values they are read as *)
Definition num (z : Z) : json := JNum (string_of_Z z).
Definition str (s : string) : json := JStr (escape_str s).

Definition lock_values (l : syncFileLock) (time : string) : list (string * string * json) :=
  [("owner", quote (Owner l), str (Owner l)); ("timestamp", quoted time, JStr time)] ++
  (if TTL l =? 0 then [] else [("ttl", string_of_Z (TTL l), num (TTL l))]).

Definition head_values (d : syncFileData) : list (string * string * json) :=
  [("repository_id", quote (RepositoryID d), str (RepositoryID d));
   ("generation", string_of_Z (Generation d), num (Generation d))] ++
  (if (SyncID d =? "")%string then [] else [("sync_id", quote (SyncID d), str (SyncID d))]) ++
  [("syncing", bool_text (Syncing d), JBool (Syncing d))].

Lemma lock_values_ok l time : 0 <= TTL l -> str_forallb plain_byte time = true -> Forall member_ok (lock_values l time).
Proof.
  intros Ht Hp. unfold lock_values. apply Forall_app. split.
  - repeat constructor; [apply parses_quote|by apply parses_quoted].
  - case_goal; [done|]. repeat constructor. by apply parses_Z.
Qed.

Lemma head_values_ok d : 0 <= Generation d -> Forall member_ok (head_values d).
Proof.
  intros Hg. unfold head_values. apply Forall_app. split; [|apply Forall_app; split].
  - repeat constructor; [apply parses_quote|by apply parses_Z].
  - case_goal; [done|]. repeat constructor. apply parses_quote.
  - repeat constructor. apply parses_bool.
Qed.

Lemma texts_app a b : texts (a ++ b) = texts a ++ texts b.
Proof. apply fmap_app. Qed.
Lemma values_app a b : values (a ++ b) = values a ++ values b.
Proof. apply fmap_app. Qed.
Lemma texts_lock_values l time : texts (lock_values l time) =
  [("owner", quote (Owner l)); ("timestamp", quoted time)] ++
  (if TTL l =? 0 then [] else [("ttl", string_of_Z (TTL l))]).
Proof. unfold lock_values. rewrite texts_app. by destruct (TTL l =? 0). Qed.
Lemma texts_head_values d : texts (head_values d) = head_members d.
Proof. unfold head_values, head_members. rewrite !texts_app. by destruct (SyncID d =? "")%string. Qed.

Lemma decode_members_app {A} (f : A -> string * json -> result error A) a l1 l2 :
  decode_members f a (l1 ++ l2) = result_bind (decode_members f a l1) (fun a' => decode_members f a' l2).
Proof. revert a. induction l1 as [|m l1 IH]; intros a; simpl; [done|]. destruct (f a m); simpl; auto. Qed.

(** One member each. *)
Lemma decode_owner l s : decode_lock_member l (escape_str "owner", str s) = Ok (SyncFileLock (sanitize s) (Timestamp l) (TTL l)).
Proof. rewrite <- unquote_escape_str. reflexivity. Qed.
Lemma decode_timestamp l raw t : parse_rfc3339 raw = Some t ->
  decode_lock_member l (escape_str "timestamp", JStr raw) = Ok (SyncFileLock (Owner l) t (TTL l)).
Proof.
  intros H. transitivity (result_bind (decode_time (JStr raw) (Timestamp l))
    (fun t => Ok (SyncFileLock (Owner l) t (TTL l)))); [reflexivity|]. simpl. by rewrite H.
Qed.
Lemma decode_ttl l z : 0 <= z <= int64_max ->
  decode_lock_member l (escape_str "ttl", num z) = Ok (SyncFileLock (Owner l) (Timestamp l) z).
Proof.
  intros H. transitivity (result_bind (decode_number parse_int64 (num z) (TTL l))
    (fun t => Ok (SyncFileLock (Owner l) (Timestamp l) t))); [reflexivity|]. simpl. by rewrite parse_int64_string.
Qed.

Lemma decode_repository_id d s : decode_data_member d (escape_str "repository_id", str s) = Ok (set_RepositoryID (sanitize s) d).
Proof. rewrite <- unquote_escape_str. reflexivity. Qed.
Lemma decode_generation d z : 0 <= z <= uint64_max ->
  decode_data_member d (escape_str "generation", num z) = Ok (set_upload z (SyncID d) (Syncing d) d).
Proof.
  intros H. transitivity (result_bind (decode_number parse_uint64 (num z) (Generation d))
    (fun g => Ok (set_upload g (SyncID d) (Syncing d) d))); [reflexivity|]. simpl. by rewrite parse_uint64_string.
Qed.
Lemma decode_sync_id d s : decode_data_member d (escape_str "sync_id", str s) = Ok (set_upload (Generation d) (sanitize s) (Syncing d) d).
Proof. rewrite <- unquote_escape_str. reflexivity. Qed.
Lemma decode_syncing d b : decode_data_member d (escape_str "syncing", JBool b) = Ok (set_Syncing b d).
Proof. reflexivity. Qed.
Lemma decode_active d b : decode_data_member d (escape_str "active", JBool b) = Ok (set_Active b d).
Proof. reflexivity. Qed.
Lemma decode_lock_object d ms : decode_data_member d (escape_str "lock", JObj ms) =
  result_bind (decode_lock (JObj ms) (Lock d)) (fun l => Ok (set_Lock l d)).
Proof. reflexivity. Qed.

(** Unfolds the members of a list up to their decoding. *)
Ltac member_steps := unfold values; cbn [fmap list_fmap app decode_members result_bind fst snd].

Lemma decode_lock_values l time : 0 <= TTL l <= int64_max -> parse_rfc3339 time = Some (Timestamp l) ->
  decode_members decode_lock_member zero_lock (values (lock_values l time)) = Ok (sanitize_lock l).
Proof.
  intros Ht Hp. unfold lock_values. rewrite values_app, decode_members_app.
  member_steps. rewrite decode_owner. cbn [result_bind]. rewrite (decode_timestamp _ _ _ Hp). cbn [result_bind].
  destruct (TTL l =? 0) eqn:E; reflect_bools; member_steps.
  - unfold sanitize_lock. by rewrite E.
  - by rewrite decode_ttl.
Qed.

Lemma decode_head_values d : 0 <= Generation d <= uint64_max ->
  decode_members decode_data_member no_data (values (head_values d)) =
    Ok (SyncFileData (sanitize (RepositoryID d)) (Generation d) (sanitize (SyncID d)) (Syncing d) false None).
Proof.
  intros Hg. unfold head_values. rewrite !values_app, !decode_members_app. member_steps.
  rewrite decode_repository_id. cbn [result_bind]. rewrite decode_generation by done. cbn [result_bind].
  destruct (SyncID d =? "")%string eqn:E; reflect_bools; member_steps.
  - rewrite E. by rewrite decode_syncing.
  - rewrite decode_sync_id. cbn [result_bind]. by rewrite decode_syncing.
Qed.

(** ** Whole files *)

(** The member of the lock, if there is one. *)
Definition lock_value (l : option syncFileLock) (time : string) : list (string * string * json) :=
  match l with
  | None => []
  | Some l => [("lock", render_object 1 (texts (lock_values l time)), JObj (values (lock_values l time)))]
  end.

(** What the encoding needs of a state to be read back: its numbers fit their types, and its
    timestamp is in a zone of RFC 3339. A lock with an empty owner is written all the same. *)
Definition encodable_lock (l : syncFileLock) : Prop :=
  wf_zone (zone_seconds (Timestamp l)) /\ 0 <= TTL l <= int64_max.
Definition encodable (d : syncFileData) : Prop :=
  RepositoryID d <> "" /\ 0 <= Generation d <= uint64_max /\
  match Lock d with Some l => encodable_lock l | None => True end.

Lemma wf_encodable d : wf_data d -> encodable d.
Proof.
  intros (Hr & Hg & Hl). split; [done|]. split; [done|]. destruct (Lock d); [|done]. by destruct Hl as (_ & _ & Hz & Ht).
Qed.
#[export] Hint Resolve wf_encodable : core.

Lemma lock_member_value l ms : match l with Some l => encodable_lock l | None => True end -> lock_member l = Ok ms ->
  exists time, ms = texts (lock_value l time) /\ Forall member_ok (lock_value l time) /\
    forall d, Lock d = None ->
      decode_members decode_data_member d (values (lock_value l time)) = Ok (set_Lock (sanitize_lock <$> l) d).
Proof.
  destruct l as [l|]; cbn [lock_member].
  2: { intros _ [= <-]. exists "". split; [done|]. split; [done|]. intros d Hd. simpl. by destruct d; simpl in *; subst. }
  intros (Hz & Httl). unfold lock_members.
  destruct (marshal_time (Timestamp l)) as [time|] eqn:Em; cbn [mbind option_bind]; [|done]. intros [= <-]. exists time.
  pose proof (plain_marshal_time _ _ Hz Em) as Hplain. pose proof (parse_marshal_time _ _ Hz Em) as Hparse.
  split.
  { transitivity [("lock"%stdpp, render_object 1 (texts (lock_values l time)))]; [by rewrite texts_lock_values|done]. }
  split.
  - apply Forall_singleton, (parses_object 1 (lock_values l time)); [done|]. apply lock_values_ok; [lia|done].
  - intros d Hd.
    change (values (lock_value (Some l) time)) with [(escape_str "lock", JObj (values (lock_values l time)))].
    cbn [decode_members]. rewrite decode_lock_object, Hd. cbn [decode_lock default].
    rewrite decode_lock_values by done. done.
Qed.

Lemma parse_json_object ms rest : ms <> [] -> Forall member_ok ms -> ends_value rest ->
  parse_json (render_object 0 (texts ms) +:+ rest) = Some (JObj (values ms), rest).
Proof. intros. unfold parse_json. apply parses_object; [done..| |done]. rewrite str_length_app. lia. Qed.

(** What is parsed from an encoding, before the decoder's checks. *)
Lemma unmarshal_object d ms rest : ms <> [] -> Forall member_ok ms -> ends_value rest ->
  decode_members decode_data_member no_data (values ms) = Ok (sanitize_data d) ->
  unmarshal_data (render_object 0 (texts ms) +:+ rest) = Ok (sanitize_data d).
Proof. intros Hn Hok Hr Hd. unfold unmarshal_data. by rewrite parse_json_object. Qed.

Lemma unmarshal_encode d contents : encodable d -> encodeSyncFile d = Ok contents ->
  unmarshal_data contents = Ok (sanitize_data d).
Proof.
  intros (Hr & Hg & Hl). unfold encodeSyncFile.
  destruct (negb _); [|done]. destruct (lock_member (Lock d)) as [lock| |] eqn:El; cbn [result_bind]; [|done..]. intros <-%Ok_inj.
  destruct (lock_member_value _ _ Hl El) as (time & -> & Hok & Hdec).
  set (active := if Active d then [("active"%stdpp, "true"%stdpp, JBool true)] else [] : list (string * string * json)).
  assert (Hact : Forall member_ok active) by (subst active; destruct (Active d); repeat constructor; apply (parses_bool true)).
  rewrite <- texts_head_values.
  replace (if Active d then [("active"%stdpp, "true"%stdpp)] else []) with (texts active) by (subst active; by destruct (Active d)).
  rewrite <- !texts_app. apply unmarshal_object; [by unfold head_values| |done|].
  - rewrite !Forall_app. split; [|by split]. apply head_values_ok. lia.
  - rewrite !values_app, !decode_members_app, decode_head_values by done. cbn [result_bind].
    subst active. destruct (Active d) eqn:Ea; member_steps.
    + rewrite decode_active. cbn [result_bind]. rewrite Hdec by done. unfold sanitize_data. by rewrite Ea.
    + rewrite Hdec by done. unfold sanitize_data. by rewrite Ea.
Qed.

Lemma unmarshal_encode_local d contents : encodable d -> encodeLocalSyncFile d = Ok contents ->
  unmarshal_data contents = Ok (sanitize_data d).
Proof.
  intros (Hr & Hg & Hl). unfold encodeLocalSyncFile.
  destruct (lock_member (Lock d)) as [lock| |] eqn:El; cbn [result_bind]; [|done..]. intros <-%Ok_inj.
  destruct (lock_member_value _ _ Hl El) as (time & -> & Hok & Hdec).
  set (active := [("active"%stdpp, bool_text (Active d), JBool (Active d))]).
  assert (Hact : Forall member_ok active) by (repeat constructor; apply parses_bool).
  change [("active"%stdpp, bool_text (Active d))] with (texts active).
  rewrite <- texts_head_values, <- !texts_app. apply unmarshal_object; [by unfold head_values| |done|].
  - rewrite !Forall_app. split; [|by split]. apply head_values_ok. lia.
  - rewrite !values_app, !decode_members_app, decode_head_values by done. cbn [result_bind].
    rewrite decode_members_app, Hdec by done. cbn [result_bind]. unfold active. member_steps. rewrite decode_active. done.
Qed.

(** The checks of the decoder leave the data alone, and hold of well-formed data. *)
Lemma decode_unmarshal contents d d' : unmarshal_data contents = Ok d' -> decodeSyncFile contents = Ok d -> d = d'.
Proof.
  unfold decodeSyncFile. intros ->. cbn [result_bind].
  destruct (negb _); [|done]. destruct (match Lock d' with Some l => lock_complete l | None => true end); [|done].
  destruct (match Lock d' with Some l => 0 <=? TTL l | None => true end); [|done]. by intros [= <-].
Qed.

Lemma decode_checks contents d : wf_data d ->
  unmarshal_data contents = Ok (sanitize_data d) -> decodeSyncFile contents = Ok (sanitize_data d).
Proof.
  intros (Hr & Hg & Hl) Hd. unfold decodeSyncFile. rewrite Hd. cbn [result_bind].
  apply sanitize_nonempty, String.eqb_neq in Hr. cbn [sanitize_data RepositoryID Lock]. rewrite Hr. cbn [negb].
  destruct (Lock d) as [l|]; cbn [fmap option_fmap option_map]; [|done].
  destruct Hl as (Ho & Ht & _ & Httl). unfold lock_complete. cbn [sanitize_lock Owner Timestamp TTL].
  apply sanitize_nonempty, String.eqb_neq in Ho. rewrite Ho, Ht. cbn [orb negb].
  by replace (0 <=? TTL l) with true by lia.
Qed.

Lemma decode_encode d contents : wf_data d -> encodeSyncFile d = Ok contents ->
  decodeSyncFile contents = Ok (sanitize_data d).
Proof. intros Hwf Hc. apply decode_checks; [done|]. apply unmarshal_encode; auto. Qed.

Lemma decode_encode_local d contents : wf_data d -> encodeLocalSyncFile d = Ok contents ->
  decodeSyncFile contents = Ok (sanitize_data d).
Proof. intros Hwf Hc. apply decode_checks; [done|]. apply unmarshal_encode_local; auto. Qed.

(** What an encoding is read as, if it is accepted. *)
Lemma decode_encode_inv d d' contents : encodable d -> encodeSyncFile d = Ok contents ->
  decodeSyncFile contents = Ok d' -> d' = sanitize_data d.
Proof. intros He Hc. apply decode_unmarshal. by apply unmarshal_encode. Qed.

Lemma decode_encode_local_inv d d' contents : encodable d -> encodeLocalSyncFile d = Ok contents ->
  decodeSyncFile contents = Ok d' -> d' = sanitize_data d.
Proof. intros He Hc. apply decode_unmarshal. by apply unmarshal_encode_local. Qed.

(** ** Guarantees *)
Lemma lock_member_some l : match l with Some l => marshal_time (Timestamp l) <> None | None => True end ->
  exists ms, lock_member l = Ok ms.
Proof.
  destruct l as [l|]; cbn; [|by eexists]. unfold lock_members. destruct (marshal_time (Timestamp l)); [by eexists|done].
Qed.

(** C17: a well-formed state whose lock, if any, has a timestamp in the years 0 to 9999 can be
    written in the remote and in the local format, and both read back as the same state, up to
    the stray bytes JSON replaces; a state of valid UTF-8 texts comes back unchanged. *)
Theorem state_file_roundtrip d :
  wf_data d -> match Lock d with Some l => marshal_time (Timestamp l) <> None | None => True end ->
  (exists c, encodeSyncFile d = Ok c /\ decodeSyncFile c = Ok (sanitize_data d)) /\
  (exists c, encodeLocalSyncFile d = Ok c /\ decodeSyncFile c = Ok (sanitize_data d)) /\
  (utf8_data d -> sanitize_data d = d).
Proof.
  intros Hwf Hm. pose proof Hwf as (Hr & _ & _). apply lock_member_some in Hm as [ms Hms]. apply String.eqb_neq in Hr.
  split; [|split; [|apply sanitize_utf8]].
  - assert (exists c, encodeSyncFile d = Ok c) as [c Hc] by (unfold encodeSyncFile; rewrite Hr, Hms; by eexists).
    exists c. split; [done|by apply decode_encode].
  - assert (exists c, encodeLocalSyncFile d = Ok c) as [c Hc] by (unfold encodeLocalSyncFile; rewrite Hms; by eexists).
    exists c. split; [done|by apply decode_encode_local].
Qed.

Definition sample_state : syncFileData :=
  SyncFileData "repo" 7 "ID" true false (Some (SyncFileLock "me" (GoTime 1700000000123000000 3600) (2 * minute))).

Lemma state_file_roundtrip_witness :
  (exists c, encodeSyncFile sample_state = Ok c /\ decodeSyncFile c = Ok sample_state) /\
  exists c, encodeLocalSyncFile sample_state = Ok c /\ decodeSyncFile c = Ok sample_state.
Proof.
  destruct (state_file_roundtrip sample_state) as (H1 & H2 & _).
  - split; [done|]. split; [vm_compute; split; discriminate|]. cbn. split; [done|]. split; [done|]. split; [|vm_compute; split; discriminate].
    vm_compute. repeat split; discriminate.
  - vm_compute. discriminate.
  - split; [exact H1|exact H2].
Defined.

(** C31: whatever bytes a state file holds, a state that is accepted is well formed: a
    repository ID is set, the generation fits 64 bits, and a lock has an owner, a timestamp and
    a TTL that is not negative; and the decoder returns for every text. *)
Theorem decoded_state_well_formed contents :
  match decodeSyncFile contents with Ok d => wf_data d | Err e => ordinary e | OutOfFuel => False end.
Proof.
  pose proof (decodeSyncFile_plain contents) as Hp. destruct (decodeSyncFile contents) eqn:E; [by eapply decodeSyncFile_wf|exact Hp..].
Qed.

(** ** Repository identifiers *)
Definition is_hex_low (c : ascii) : bool := is_digit c || ((97 <=? code c) && (code c <=? 102)).

Lemma hex_digit_low n : 0 <= n < 16 -> is_hex_low (hex_digit n) = true.
Proof.
  intros Hn. assert (Hall : Forall (fun n => is_hex_low (hex_digit n) = true) (seqZ 0 16)) by (vm_compute; repeat constructor).
  rewrite Forall_forall in Hall. apply Hall, elem_of_seqZ. lia.
Qed.

Definition is_byte (b : Z) : Prop := 0 <= b < 256.
Definition hex_part (n : nat) (s : string) : Prop := String.length s = n /\ str_forallb is_hex_low s = true.

(** A random UUID: groups of 8, 4, 4, 4 and 12 hexadecimal digits, version 4, variant 10. *)
Definition uuid_v4 (s : string) : Prop := exists a b c d e v,
  s = a +:+ "-" +:+ b +:+ "-" +:+ String "4" c +:+ "-" +:+ String v d +:+ "-" +:+ e /\
  hex_part 8 a /\ hex_part 4 b /\ hex_part 3 c /\ hex_part 3 d /\ hex_part 12 e /\
  v ∈ ["8"; "9"; "a"; "b"]%char.

Lemma hex_bytes_cons b bs : hex_bytes (b :: bs) = String (hex_digit (b / 16)) (String (hex_digit (b mod 16)) (hex_bytes bs)).
Proof. done. Qed.

Lemma hex_bytes_part bs : Forall is_byte bs -> hex_part (2 * length bs) (hex_bytes bs).
Proof.
  unfold hex_part. induction 1 as [|b bs Hb Hbs [IH1 IH2]]; [done|]. rewrite hex_bytes_cons. cbn [String.length length str_forallb].
  rewrite IH1, !hex_digit_low, IH2 by (unfold is_byte in Hb; Z.to_euclidean_division_equations; lia). split; [lia|done].
Qed.

Lemma hex_part_cons z b : is_byte b -> hex_part 3 (String (hex_digit (z mod 16)) (hex_bytes [b])).
Proof.
  intros Hb. destruct (hex_bytes_part [b]) as [Hl1 Hl2]; [by rewrite Forall_cons|]. split; cbn [String.length str_forallb]; [by rewrite Hl1|].
  by rewrite Hl2, hex_digit_low by (Z.to_euclidean_division_equations; lia).
Qed.

(** The two masked bytes. *)
Definition version_byte (b : Z) : Z := Z.lor (Z.land b 15) 64.
Definition variant_byte (b : Z) : Z := Z.lor (Z.land b 63) 128.
Definition mask_check (b : Z) : bool :=
  (version_byte b / 16 =? 4) && (8 <=? variant_byte b / 16) && (variant_byte b / 16 <? 12).

Lemma mask_checks : forallb mask_check (seqZ 0 256) = true.
Proof. vm_compute. reflexivity. Qed.

Lemma masked b : is_byte b -> version_byte b / 16 = 4 /\ 8 <= variant_byte b / 16 < 12.
Proof. intros Hb. pose proof (checked _ _ _ mask_checks Hb) as H. unfold mask_check in H. reflect_bools. lia. Qed.

(** The identifier of a new repository is a random UUID of version 4, for any sixteen
    random bytes. *)
Theorem newRepositoryID_uuid id : length id = 16%nat -> Forall is_byte id -> uuid_v4 (newRepositoryID id).
Proof.
  intros Hl Hid. do 16 (destruct id as [|? id]; [done|]). destruct id; [|done].
  repeat match goal with H : Forall is_byte (_ :: _) |- _ => inversion H; subst; clear H end.
  match goal with |- uuid_v4 (newRepositoryID [?b0; ?b1; ?b2; ?b3; ?b4; ?b5; ?b6; ?b7; ?b8; ?b9; ?b10; ?b11; ?b12; ?b13; ?b14; ?b15]) =>
    change (newRepositoryID _) with (hex_bytes [b0; b1; b2; b3] +:+ "-" +:+ hex_bytes [b4; b5] +:+ "-" +:+ hex_bytes [version_byte b6; b7] +:+
      "-" +:+ hex_bytes [variant_byte b8; b9] +:+ "-" +:+ hex_bytes [b10; b11; b12; b13; b14; b15]);
    destruct (masked b6) as [Hver _]; [done|]; destruct (masked b8) as [_ Hvar]; [done|];
    exists (hex_bytes [b0; b1; b2; b3]), (hex_bytes [b4; b5]), (String (hex_digit (version_byte b6 mod 16)) (hex_bytes [b7])),
      (String (hex_digit (variant_byte b8 mod 16)) (hex_bytes [b9])), (hex_bytes [b10; b11; b12; b13; b14; b15]),
      (hex_digit (variant_byte b8 / 16));
    rewrite !(hex_bytes_cons (version_byte b6)), !(hex_bytes_cons (variant_byte b8)), Hver;
    split; [done|]; split_and!;
    [apply (hex_bytes_part [b0; b1; b2; b3]); by rewrite !Forall_cons
    |apply (hex_bytes_part [b4; b5]); by rewrite !Forall_cons
    | | |apply (hex_bytes_part [b10; b11; b12; b13; b14; b15]); by rewrite !Forall_cons|]
  end.
  - by apply hex_part_cons.
  - by apply hex_part_cons.
  - match type of Hvar with _ <= ?v < _ => assert (v = 8 \/ v = 9 \/ v = 10 \/ v = 11) as Hv by lia end.
    destruct Hv as [->|[->|[->| ->]]]; set_solver.
Qed.

Lemma newRepositoryID_uuid_witness : uuid_v4 (newRepositoryID (seqZ 240 16)).
Proof. apply newRepositoryID_uuid; [reflexivity|]. repeat constructor; intros H; discriminate H. Defined.
