(* ===== verification/SyncPath.v ===== *)
(** * State-file paths and remote names ([syncpath.go])

    [parseRemote] finds the colon that ends a remote's name in a destination, past quoted
    connection-string options; the [resolve] functions turn a state-file path relative to a
    payload root into the file's path and the name payload filters protect it by. *)

From Stdlib Require Import Ascii.
From S2P Require Import Prelude GoString Host.

Local Open Scope go_scope.

Definition defaultStateFile : string := ".rcw-state".

Record syncFilePaths := SyncFilePaths {
  local : string;
  remote : string;
  localFilter : string;
  remoteFilter : string
}.

(** ** Remote names and connection strings *)

(** A parsed destination. [colon] is the index of the colon that ends the remote part, [None]
    for a local path (the source's -1). *)
Record remoteSpec := RemoteSpec {
  name : string;
  options : gmap string string;
  colon : option nat
}.

(** The text before the first byte that is one of [stops], and the rest from that byte on. *)
Fixpoint take_until (stops s : string) : string * string :=
  match s with
  | EmptyString => (EmptyString, EmptyString)
  | String c s' =>
      if contains_byte c stops then (EmptyString, s)
      else let '(a, b) := take_until stops s' in (String c a, b)
  end.

(** The text of a quoted option value; a doubled quote stands for one. *)
Fixpoint scan_quoted (quote : ascii) (s : string) : option (string * string) :=
  match s with
  | EmptyString => None
  | String c s1 =>
      if Ascii.eqb c quote then
        match s1 with
        | String d s2 =>
            if Ascii.eqb d quote then '(t, r) ← scan_quoted quote s2; Some (String quote t, r)
            else Some (EmptyString, s1)
        | EmptyString => Some (EmptyString, EmptyString)
        end
      else '(t, r) ← scan_quoted quote s1; Some (String c t, r)
  end.

(** The value after an equals sign. *)
Definition scan_option_value (s : string) : result error (string * string) :=
  match s with
  | String q s' =>
      if Ascii.eqb q "'" || Ascii.eqb q dquote then
        match scan_quoted q s' with
        | Some r => Ok r
        | None => Err (Errorf "unterminated remote connection-string quote")
        end
      else Ok (take_until ",:" s)
  | EmptyString => Ok (EmptyString, EmptyString)
  end.

(** The options after a remote's name; [s] starts at the byte that ended the name or the
    previous option. The result's text starts at the closing colon. *)
Fixpoint parse_options (fuel : nat) (opts : gmap string string) (s : string) :
    result error (gmap string string * string) :=
  match fuel with
  | O => OutOfFuel
  | S fuel =>
      match s with
      | String c s1 =>
          if Ascii.eqb c "," then
            let '(key, s2) := take_until "=,:" s1 in
            guard? negb ((key =? "")%string || (s2 =? "")%string)
              else Errorf "invalid remote connection-string option" in
            let? (option, s3) :=
              match s2 with
              | String e s3 => if Ascii.eqb e "=" then scan_option_value s3 else Ok ("true"%stdpp, s2)
              | EmptyString => Ok ("true"%stdpp, s2)
              end in
            guard? match s3 with
                   | String d _ => Ascii.eqb d "," || Ascii.eqb d ":"
                   | EmptyString => false
                   end
              else Errorf "remote connection string needs a trailing colon" in
            parse_options fuel (<[key := option]> opts) s3
          else Ok (opts, s)
      | EmptyString => Ok (opts, s)
      end
  end.

Definition no_remote_spec : remoteSpec := RemoteSpec "" ∅ None.

Definition parseRemote (value : string) : result error remoteSpec :=
  if negb (contains_byte ":" value) then Ok no_remote_spec
  else
    let '(start, rest) :=
      match value with
      | String c s => if Ascii.eqb c ":" then (":"%stdpp, s) else ("", value)
      | EmptyString => ("", value)
      end in
    let '(body, tail) := take_until (":,/" +:+ str1 backslash) rest in
    match tail with
    | EmptyString => Ok no_remote_spec
    | String c _ =>
        if Ascii.eqb c "/" || Ascii.eqb c backslash then Ok no_remote_spec
        else
          let? (opts, at_colon) := parse_options (S (String.length tail)) ∅ tail in
          Ok (RemoteSpec (start +:+ body) opts (Some (String.length value - String.length at_colon)%nat))
    end.

(** ** Relative names *)
Definition line_breaks : string := String "013" nl.

(** The name of [target] under [root], [""] when it lies outside: the payload filters then
    have nothing to protect. *)
Definition relativeLocalPath (root target : string) : string :=
  match rel root target with
  | None => ""
  | Some r => if (r =? "..")%string || has_prefix "../" r then "" else r
  end.

Definition relativeSlashPath (root target : string) : string :=
  match rel root target with
  | None => ""
  | Some r => if (r =? "..")%string || has_prefix "../" r then "" else r
  end.

(** ** Resolution *)
Section Resolve.
(** The process's working directory, which [filepath.Abs] prepends to relative paths. *)
Variable cwd : string.

Definition filepath_abs (p : string) : string :=
  if is_abs p then clean p else path_join [cwd; p].

Definition resolveLocalSyncFile (root relative : string) : result error (string * string) :=
  guard? negb (contains_any line_breaks relative)
    else Errorf "state file paths must not contain line breaks" in
  guard? negb ((relative =? "")%string || is_abs relative)
    else Errorf "local state file path must be a non-empty relative path" in
  let resolved := filepath_abs (path_join [root; relative]) in
  guard? negb (resolved =? clean root)%string
    else Errorf "local state file path resolves to the source directory" in
  Ok (resolved, relativeLocalPath root resolved).

Definition resolveRemoteSyncFile (root relative : string) : result error (string * string) :=
  guard? negb (contains_any line_breaks relative)
    else Errorf "state file paths must not contain line breaks" in
  guard? negb ((relative =? "")%string || is_abs relative)
    else Errorf "remote state file path must be a non-empty relative path" in
  let? r := parseRemote root in
  match colon r with
  | None =>
      let resolved := clean (path_join [root; relative]) in
      guard? negb (resolved =? clean root)%string
        else Errorf "remote state file path resolves to the destination directory" in
      Ok (resolved, relativeLocalPath root resolved)
  | Some c =>
      let prefix := String.substring 0 (S c) root in
      let remoteRoot := drop_str (S c) root in
      let rootPath := clean ("/" +:+ remoteRoot) in
      let resolvedPath := clean (path_join [rootPath; relative]) in
      guard? negb (resolvedPath =? rootPath)%string
        else Errorf "remote state file path resolves to the destination directory" in
      let filter := relativeSlashPath rootPath resolvedPath in
      if has_prefix "/" remoteRoot then Ok (prefix +:+ resolvedPath, filter)
      else Ok (prefix +:+ trim_prefix "/" resolvedPath, filter)
  end.

Definition resolveSyncFilePaths (source destination localRelative remoteRelative : string) :
    result error syncFilePaths :=
  let? (local, localFilter) := resolveLocalSyncFile source localRelative in
  let? (remote, remoteFilter) := resolveRemoteSyncFile destination remoteRelative in
  Ok (SyncFilePaths local remote localFilter remoteFilter).
End Resolve.

(** ** Lemmas *)
Lemma take_until_app stops s :
  let '(a, b) := take_until stops s in s = a +:+ b.
Proof.
  induction s as [|c s IH]; simpl; [done|].
  destruct (contains_byte c stops); [done|]. destruct (take_until stops s). simpl. by f_equal.
Qed.

Lemma take_until_length stops s a b : take_until stops s = (a, b) -> (String.length b <= String.length s)%nat.
Proof.
  intros H. pose proof (take_until_app stops s) as Ha. rewrite H in Ha. subst s.
  rewrite str_length_app. lia.
Qed.

Lemma scan_quoted_length q s t r :
  scan_quoted q s = Some (t, r) -> (String.length r <= String.length s)%nat.
Proof.
  revert t r. induction s as [s IH] using (induction_ltof1 _ String.length); unfold ltof in IH.
  intros t r. destruct s as [|c s1]; simpl; [done|].
  destruct (Ascii.eqb c q).
  - destruct s1 as [|d s2]; [intros [= <- <-]; simpl; lia|].
    destruct (Ascii.eqb d q); [|intros [= <- <-]; simpl; lia].
    destruct (scan_quoted q s2) as [[t' r']|] eqn:E; simpl; [|done]. intros [= <- <-].
    apply IH in E; simpl; lia.
  - destruct (scan_quoted q s1) as [[t' r']|] eqn:E; simpl; [|done]. intros [= <- <-].
    apply IH in E; simpl; lia.
Qed.

Lemma scan_option_value_plain s : plain (scan_option_value s).
Proof. unfold scan_option_value. plain_steps. Qed.

Lemma scan_option_value_length s t r :
  scan_option_value s = Ok (t, r) -> (String.length r <= String.length s)%nat.
Proof.
  destruct s as [|q s]; cbn [scan_option_value]; [by intros [= <- <-]|].
  destruct (_ || _).
  - destruct (scan_quoted q s) as [[t' r']|] eqn:E; [|done]. intros [= <- <-].
    apply scan_quoted_length in E. simpl. lia.
  - intros E. apply (take_until_length ",:" (String q s) t r). congruence.
Qed.

(** Every round takes at least the comma, so the length of the text is enough fuel. *)
Lemma parse_options_plain fuel opts s :
  (String.length s < fuel)%nat -> plain (parse_options fuel opts s).
Proof.
  revert opts s. induction fuel as [|fuel IH]; intros opts s Hf; simpl; [lia|].
  destruct s as [|c s1]; [done|]. destruct (Ascii.eqb c ","); [|done]. simpl in Hf.
  destruct (take_until "=,:" s1) as [key s2] eqn:Hk. apply take_until_length in Hk.
  apply plain_if; [|done]. apply plain_bind.
  - plain_steps; apply scan_option_value_plain.
  - intros [option s3] Ho. apply plain_if; [|done]. apply IH.
    assert (String.length s3 <= String.length s2)%nat; [|lia].
    destruct s2 as [|e s2]; [by injection Ho as <- <-|].
    destruct (Ascii.eqb e "="); [|by injection Ho as <- <-].
    apply scan_option_value_length in Ho. simpl. lia.
Qed.

Lemma parseRemote_plain value : plain (parseRemote value).
Proof.
  unfold parseRemote. plain_steps. all: apply parse_options_plain; lia.
Qed.

Lemma resolveRemoteSyncFile_plain root relative : plain (resolveRemoteSyncFile root relative).
Proof. unfold resolveRemoteSyncFile. plain_steps. apply parseRemote_plain. Qed.

Lemma resolveLocalSyncFile_plain cwd root relative : plain (resolveLocalSyncFile cwd root relative).
Proof. unfold resolveLocalSyncFile. plain_steps. Qed.

#[export] Hint Resolve parseRemote_plain resolveRemoteSyncFile_plain : go.
