(* ===== verification/SyncPathSpec.v ===== *)
(** * Reading back a destination

    A destination put together from a remote name, connection-string options and a path is
    taken apart into the same parts: quoted values with any bytes, plain values and options
    without one. *)

From Stdlib Require Import Ascii.
From S2P Require Import Prelude GoString Host SyncPath.

Local Open Scope go_scope.

(** ** Destinations *)

(** A connection-string option as a user may write it. *)
Inductive option_text :=
| Bare (key : string)
| Plain (key value : string)
| Quoted (quote : ascii) (key value : string).

Fixpoint double_quotes (quote : ascii) (s : string) : string :=
  match s with
  | EmptyString => EmptyString
  | String c s =>
      if Ascii.eqb c quote then String quote (String quote (double_quotes quote s))
      else String c (double_quotes quote s)
  end.

Definition option_string (o : option_text) : string :=
  match o with
  | Bare k => "," +:+ k
  | Plain k v => "," +:+ k +:+ "=" +:+ v
  | Quoted q k v => "," +:+ k +:+ "=" +:+ String q (double_quotes q v) +:+ str1 q
  end.

(** The key and the value it stands for. *)
Definition option_entry (o : option_text) : string * string :=
  match o with Bare k => (k, "true"%stdpp) | Plain k v | Quoted _ k v => (k, v) end.

Definition has_none (stops s : string) : Prop := str_forallb (fun c => negb (contains_byte c stops)) s = true.
Definition good_key (k : string) : Prop := k <> "" /\ has_none "=,:" k.
Definition quote_byte (q : ascii) : Prop := q = "'"%char \/ q = dquote.
Definition unquoted (v : string) : Prop := match v with String c _ => ~ quote_byte c | EmptyString => True end.

Definition good_option (o : option_text) : Prop :=
  match o with
  | Bare k => good_key k
  | Plain k v => good_key k /\ has_none ",:" v /\ unquoted v
  | Quoted q k _ => good_key k /\ quote_byte q
  end.

Definition options_string (l : list option_text) : string := concat_str (option_string <$> l).
Definition options_map (m : gmap string string) (l : list option_text) : gmap string string :=
  foldl (fun m o => <[fst (option_entry o) := snd (option_entry o)]> m) m l.

(** The text goes on with a byte that ends an option. *)
Definition ends_option (s : string) : Prop :=
  match s with String c _ => c = ","%char \/ c = ":"%char | EmptyString => False end.

(** ** Scanning *)
Lemma take_until_stop stops a c s : has_none stops a -> contains_byte c stops = true ->
  take_until stops (a +:+ String c s) = (a, String c s).
Proof.
  unfold has_none. intros Ha Hc. induction a as [|d a IH]; cbn [String.append take_until]; [by rewrite Hc|].
  cbn [str_forallb] in Ha. apply andb_true_iff in Ha as [Hd Ha]. apply negb_true_iff in Hd.
  by rewrite Hd, IH.
Qed.

Lemma take_until_ends stops a s : has_none stops a -> ends_option s -> contains_byte "," stops = true ->
  contains_byte ":" stops = true -> take_until stops (a +:+ s) = (a, s).
Proof. intros Ha Hs Hc1 Hc2. destruct s as [|c s]; [done|]. apply take_until_stop; [done|]. by destruct Hs as [->| ->]. Qed.

Lemma scan_quoted_doubled q v s : quote_byte q -> ends_option s ->
  scan_quoted q (double_quotes q v +:+ String q s) = Some (v, s).
Proof.
  intros Hq Hs. induction v as [|c v IH]; cbn [double_quotes].
  - cbn [String.append scan_quoted]. rewrite Ascii.eqb_refl. destruct s as [|d s]; [done|].
    replace (Ascii.eqb d q) with false; [done|]. symmetry. by destruct Hq as [->| ->], Hs as [->| ->].
  - destruct (Ascii.eqb c q) eqn:E; cbn [String.append scan_quoted].
    + apply Ascii.eqb_eq in E as ->. by rewrite !Ascii.eqb_refl, IH.
    + by rewrite E, IH.
Qed.

Lemma scan_option_value_unquoted v s : unquoted v -> has_none ",:" v -> ends_option s ->
  scan_option_value (v +:+ s) = Ok (v, s).
Proof.
  intros Hu Hn Hs. pose proof (take_until_ends ",:" v s Hn Hs eq_refl eq_refl) as Ht.
  unfold scan_option_value. destruct (v +:+ s) as [|c r] eqn:E.
  { destruct v; [|done]. cbn in E. by rewrite E in Hs. }
  replace (Ascii.eqb c "'" || Ascii.eqb c dquote) with false; [by rewrite Ht|].
  symmetry. apply orb_false_iff. destruct v as [|d v]; [|injection E as -> _].
  - cbn in E. subst s. by destruct Hs as [->| ->].
  - split; apply Ascii.eqb_neq; intros ->; apply Hu; [by left|by right].
Qed.

(** ** One option *)
Lemma negb_contains_none k s : k <> "" -> s <> "" -> negb ((k =? "")%string || (s =? "")%string) = true.
Proof. intros Hk%String.eqb_neq Hs%String.eqb_neq. by rewrite Hk, Hs. Qed.

(** What is left of an option after its key, and how its value is scanned. *)
Definition after_key (o : option_text) (s : string) : string :=
  match o with
  | Bare _ => s
  | Plain _ v => String "=" (v +:+ s)
  | Quoted q _ v => String "=" (String q (double_quotes q v +:+ String q s))
  end.

Lemma option_string_key o s : option_string o +:+ s = String "," (fst (option_entry o) +:+ after_key o s).
Proof. destruct o; cbn [option_string option_entry fst after_key]; by rewrite ?str_app_assoc. Qed.

Lemma take_key o s : good_option o -> ends_option s ->
  take_until "=,:" (fst (option_entry o) +:+ after_key o s) = (fst (option_entry o), after_key o s).
Proof.
  intros Ho Hs. destruct o as [k|k v|q k v]; cbn [option_entry fst after_key].
  - by apply take_until_ends; [apply Ho|..].
  - by apply take_until_stop; [apply Ho|].
  - by apply take_until_stop; [apply Ho|].
Qed.

Lemma parse_option fuel m o s : good_option o -> ends_option s ->
  parse_options (S fuel) m (option_string o +:+ s) =
  parse_options fuel (<[fst (option_entry o) := snd (option_entry o)]> m) s.
Proof.
  intros Ho Hs. rewrite option_string_key. cbn [parse_options]. rewrite Ascii.eqb_refl, take_key by done.
  assert (Hk : fst (option_entry o) <> "") by (by destruct o as [k|k v|q k v]; apply Ho).
  assert (Hend : match s with String d _ => Ascii.eqb d "," || Ascii.eqb d ":" | EmptyString => false end = true).
  { destruct s as [|d s']; [done|]. by destruct Hs as [->| ->]. }
  rewrite negb_contains_none; [|done|by destruct o, s].
  assert (Hv : match after_key o s with
               | String e s3 => if Ascii.eqb e "=" then scan_option_value s3 else Ok ("true"%stdpp, after_key o s)
               | EmptyString => Ok ("true"%stdpp, after_key o s)
               end = Ok (snd (option_entry o), s)).
  { destruct o as [k|k v|q k v]; cbn [after_key option_entry snd].
    - destruct s as [|d s']; [done|]. by destruct Hs as [->| ->].
    - rewrite Ascii.eqb_refl. by apply scan_option_value_unquoted; [apply Ho..|].
    - rewrite Ascii.eqb_refl. unfold scan_option_value. destruct Ho as [_ Hq].
      replace (Ascii.eqb q "'" || Ascii.eqb q dquote) with true by (by destruct Hq as [->| ->]).
      by rewrite scan_quoted_doubled. }
  rewrite Hv. cbn [result_bind]. by rewrite Hend.
Qed.

(** ** The options and the destination *)
Lemma parse_options_render l path : Forall good_option l -> forall fuel m, (length l < fuel)%nat ->
  parse_options fuel m (options_string l +:+ String ":" path) = Ok (options_map m l, String ":" path).
Proof.
  induction 1 as [|o l Ho Hl IH]; intros fuel m Hf; (destruct fuel as [|fuel]; [simpl in Hf; lia|]); [done|].
  unfold options_string. cbn [fmap list_fmap concat_str]. rewrite str_app_assoc, parse_option; [|done|].
  - rewrite IH; [done|]. simpl in Hf. lia.
  - destruct l as [|o' l]; [by right|]. cbn [fmap list_fmap concat_str]. destruct o'; by left.
Qed.

(** A remote's name: configured, or a backend on the fly, which starts with a colon. *)
Definition good_name (on_the_fly : bool) (base : string) : Prop :=
  has_none (":,/" +:+ str1 backslash) base /\ (on_the_fly = true \/ base <> "").
Definition remote_name (on_the_fly : bool) (base : string) : string :=
  (if on_the_fly then ":" else "") +:+ base.

Lemma options_string_head l path : exists c s, options_string l +:+ String ":" path = String c s /\
  (c = ","%char \/ c = ":"%char).
Proof.
  destruct l as [|o l]; [by eexists _, _; split; [|right]|].
  destruct o; eexists _, _; (split; [reflexivity|by left]).
Qed.

Lemma contains_byte_app c a b : contains_byte c (a +:+ b) = contains_byte c a || contains_byte c b.
Proof. induction a as [|d a IH]; [done|]. cbn [String.append contains_byte]. by rewrite IH, orb_assoc. Qed.

Lemma parseRemote_render b base l path : good_name b base -> Forall good_option l ->
  parseRemote (remote_name b base +:+ options_string l +:+ String ":" path) =
    Ok (RemoteSpec (remote_name b base) (options_map ∅ l)
          (Some (String.length (remote_name b base +:+ options_string l)))).
Proof.
  intros [Hbase Hb] Hl. set (tail := options_string l +:+ String ":" path).
  destruct (options_string_head l path) as (c & s & Htail & Hc). fold tail in Htail.
  assert (Hcut : take_until (":,/" +:+ str1 backslash) (base +:+ tail) = (base, tail)).
  { rewrite Htail. apply take_until_stop; [done|]. by destruct Hc as [->| ->]. }
  assert (Hp : parse_options (S (String.length tail)) ∅ tail = Ok (options_map ∅ l, String ":" path)).
  { apply parse_options_render; [done|]. subst tail. clear. induction l as [|o l IH]; [simpl; lia|].
    unfold options_string in *. cbn [fmap list_fmap concat_str length]. rewrite str_app_assoc, str_length_app.
    assert (1 <= String.length (option_string o))%nat by (destruct o; simpl; lia). lia. }
  assert (Hlen : (String.length (remote_name b base +:+ tail) - String.length (String ":" path))%nat =
                 String.length (remote_name b base +:+ options_string l)).
  { subst tail. rewrite !str_length_app. lia. }
  unfold parseRemote. replace (contains_byte ":" (remote_name b base +:+ tail)) with true.
  2: { subst tail. rewrite !contains_byte_app. cbn. by rewrite !orb_true_r. }
  cbn [negb]. rewrite Htail in Hcut, Hp, Hlen |- *. clearbody tail.
  assert (Hstart : match remote_name b base +:+ String c s with
                   | String d r => if Ascii.eqb d ":" then (":"%stdpp, r) else ("", remote_name b base +:+ String c s)
                   | EmptyString => ("", remote_name b base +:+ String c s)
                   end = (if b then ":"%stdpp else "", base +:+ String c s)).
  { unfold remote_name. destruct b; [done|]. destruct Hb as [|Hb]; [done|]. destruct base as [|d base]; [done|].
    cbn [String.append]. destruct (Ascii.eqb d ":") eqn:E; [|done]. apply Ascii.eqb_eq in E as ->. done. }
  rewrite Hstart, Hcut. destruct Hc as [->| ->]; cbn [Ascii.eqb orb]; rewrite Hp; cbn [result_bind]; by rewrite Hlen.
Qed.

(** C37: a destination written as a remote name (configured, or a backend on the fly), with any
    connection-string options, and a path, is taken apart into that name, the value of every
    option (the last one of a key counts, quoted values may hold any byte, and an option
    without a value is "true") and the index of the colon before the path. *)
Theorem destination_taken_apart b base l path : good_name b base -> Forall good_option l ->
  parseRemote (remote_name b base +:+ options_string l +:+ String ":" path) =
    Ok (RemoteSpec (remote_name b base) (options_map ∅ l)
          (Some (String.length (remote_name b base +:+ options_string l)))).
Proof. apply parseRemote_render. Qed.

Lemma destination_taken_apart_witness :
  parseRemote ":s3,env_auth,region='a:b,''c':bucket/dir" =
    Ok (RemoteSpec ":s3" (<["region"%stdpp := "a:b,'c"%stdpp]> (<["env_auth"%stdpp := "true"%stdpp]> ∅)) (Some 29%nat)).
Proof.
  apply (destination_taken_apart true "s3" [Bare "env_auth"; Quoted "'" "region" "a:b,'c"] "bucket/dir").
  - split; [done|by left].
  - rewrite !Forall_cons. repeat split; try done. by left.
Defined.
