(* ===== verification/Options.v ===== *)
(** * Option values ([options.go])

    The [flag.Value] implementations [excludePatterns] and [lockWait], and Go's
    [time.ParseDuration], whose fractions go through binary64 arithmetic. *)

From Stdlib Require Import Ascii Floats.SpecFloat.
From S2P Require Import Prelude GoString GoTime Host.

Local Open Scope Z_scope.

(** ** [time.ParseDuration] *)
Definition sf_of_Z (z : Z) : spec_float := binary_normalize 53 1024 z 0 false.
Definition sf_trunc (x : spec_float) : Z :=
  match x with
  | S754_finite false m e => Z.shiftl (Zpos m) e
  | S754_finite true m e => - Z.shiftl (Zpos m) e
  | _ => 0
  end.

(** [uint64(float64(f) * (float64(unit) / scale))]. *)
Definition fraction_of_unit (f unit scale : Z) : Z :=
  sf_trunc (SFmul 53 1024 (sf_of_Z f) (SFdiv 53 1024 (sf_of_Z unit) (sf_of_Z scale))).

Fixpoint leadingInt (x : Z) (s : string) : option (Z * string) :=
  match s with
  | String c s' =>
      match digit_of c with
      | None => Some (x, s)
      | Some d =>
          if 2 ^ 63 / 10 <? x then None
          else if 2 ^ 63 <? x * 10 + d then None
          else leadingInt (x * 10 + d) s'
      end
  | EmptyString => Some (x, s)
  end.

Fixpoint leadingFraction (x scale : Z) (overflow : bool) (s : string) : Z * Z * string :=
  match s with
  | String c s' =>
      match digit_of c with
      | None => (x, scale, s)
      | Some d =>
          if overflow || ((2 ^ 63 - 1) / 10 <? x) || (2 ^ 63 <? x * 10 + d)
          then leadingFraction x scale true s'
          else leadingFraction (x * 10 + d) (scale * 10) false s'
      end
  | EmptyString => (x, scale, s)
  end.

(** The longest prefix without a period or digit. *)
Fixpoint leading_unit (s : string) : string * string :=
  match s with
  | String c s' =>
      if Ascii.eqb c "." then (EmptyString, s)
      else match digit_of c with
           | Some _ => (EmptyString, s)
           | None => let '(u, r) := leading_unit s' in (String c u, r)
           end
  | EmptyString => (EmptyString, EmptyString)
  end.

Definition unit_of (u : string) : option Z :=
  if (u =? "ns")%string then Some nanosecond
  else if (u =? "us")%string || (u =? rune_str 181 +:+ "s")%string || (u =? rune_str 956 +:+ "s")%string
  then Some microsecond
  else if (u =? "ms")%string then Some millisecond
  else if (u =? "s")%string then Some second
  else if (u =? "m")%string then Some minute
  else if (u =? "h")%string then Some hour
  else None.

(** One number with its unit: its value and the text after it. *)
Definition parse_term (s : string) : option (Z * string) :=
  '(v, s1) ← leadingInt 0 s;
  let pre := negb (String.length s1 =? String.length s)%nat in
  let '(f, scale, s2, post) :=
    match s1 with
    | String c s' =>
        if Ascii.eqb c "." then
          let '(f, scale, s2) := leadingFraction 0 1 false s' in
          (f, scale, s2, negb (String.length s2 =? String.length s')%nat)
        else (0, 1, s1, false)
    | EmptyString => (0, 1, s1, false)
    end in
  if negb pre && negb post then None
  else
    let '(u, s3) := leading_unit s2 in
    if (u =? "")%string then None
    else
      unit ← unit_of u;
      if 2 ^ 63 / unit <? v then None
      else
        let v := v * unit in
        let v := if 0 <? f then v + fraction_of_unit f unit scale else v in
        if 2 ^ 63 <? v then None else Some (v, s3).

Fixpoint parse_terms (fuel : nat) (d : Z) (s : string) : option Z :=
  match fuel with
  | O => None
  | S fuel =>
      match s with
      | EmptyString => Some d
      | _ =>
          '(v, s) ← parse_term s;
          let d := add_uint64 d v in
          if 2 ^ 63 <? d then None else parse_terms fuel d s
      end
  end.

(** Every term takes at least one byte, so the length of the text is enough fuel. *)
Definition ParseDuration (s : string) : option Z :=
  let '(neg, s) :=
    match s with
    | String c s' => if Ascii.eqb c "-" || Ascii.eqb c "+" then (Ascii.eqb c "-", s') else (false, s)
    | EmptyString => (false, s)
    end in
  if (s =? "0")%string then Some 0
  else if (s =? "")%string then None
  else
    d ← parse_terms (S (String.length s)) 0 s;
    if neg then Some (- d) else if 2 ^ 63 - 1 <? d then None else Some d.

(** ** Repeatable exclude patterns *)
Definition excludePatterns_Set (patterns : list string) (value : string) : result error (list string) :=
  if (value =? "")%string then Err (Errorf "exclude pattern must not be empty")
  else Ok (patterns ++ [value]).

Definition excludePatterns_String (patterns : option (list string)) : string :=
  match patterns with None => "" | Some ps => join "," ps end.

(** ** The lock wait *)
Record lockWait := LockWait { duration : Z; infinite : bool; explicit : bool }.

Definition zero_wait : lockWait := LockWait 0 false false.

Definition wait_byte (c : ascii) : bool :=
  ((48 <=? code c) && (code c <=? 57)) ||
  Ascii.eqb c "." || Ascii.eqb c "s" || Ascii.eqb c "m" || Ascii.eqb c "h".

(** [(w *lockWait) Set]: the receiver it leaves and its error. *)
Definition lockWait_Set (w : lockWait) (value : string) : lockWait * option error :=
  let w := LockWait (duration w) (infinite w) true in
  if (value =? "inf")%string then (LockWait 0 true true, None)
  else if (value =? "0")%string then (LockWait 0 false true, None)
  else if (value =? "")%string then (w, Some (Errorf "lock wait must be 0, a duration, or inf"))
  else if contains_str "ms" value then
    (w, Some (Errorf "invalid lock wait: use only s, m, and h duration units"))
  else if negb (str_forallb wait_byte value) then
    (w, Some (Errorf "invalid lock wait: use only s, m, and h duration units"))
  else
    match ParseDuration value with
    | Some d =>
        if d <=? 0 then (w, Some (Errorf "invalid lock wait: use 0, a positive duration with s/m/h units, or inf"))
        else (LockWait d false true, None)
    | None => (w, Some (Errorf "invalid lock wait: use 0, a positive duration with s/m/h units, or inf"))
    end.

Definition lockWait_String (w : option lockWait) : string :=
  match w with
  | None => "default"
  | Some w =>
      if infinite w then "inf"
      else if duration w =? 0 then (if explicit w then "0" else "default")
      else trim_space (duration_string (duration w))
  end.
