(* ===== verification/Filters.v ===== *)
(** * Payload filters and rclone argument lists ([payload.go], [syncstate.go])

    How file names become rclone filter patterns, which names the state files reserve, and
    the arguments of a payload sync. *)

From Stdlib Require Import Ascii.
From S2P Require Import Prelude GoString SyncPath.

Local Open Scope Z_scope.

(** ** Literal patterns *)
Definition glob_meta : string := str1 backslash +:+ "*?[]{}".

(** [strings.ContainsRune(`\*?[]{}`, c)]: the metacharacters are ASCII. *)
Definition is_glob_meta (r : Z) : bool := (r <? 128) && contains_byte (chr r) glob_meta.

Definition literal_rune (r : rune) : string :=
  (if is_glob_meta (rune_value r) then str1 backslash else "") +:+ encode_rune (rune_value r).

Definition literalFilterPath (path : string) : string :=
  concat_str (literal_rune <$> runes path).

(** ** Arguments of a payload transfer *)
Definition exclude_args (patterns : list string) : list string :=
  patterns ≫= (fun p => ["--exclude"; p]).

Definition payloadSyncArgs (source destination : string) (stateFilters excludes : list string) :
    list string :=
  ["sync"; source; destination; "--create-empty-src-dirs"; "--delete-before"; "--ignore-times"] ++
  exclude_args ((fun filter => "/" +:+ filter) <$> stateFilters) ++ exclude_args excludes.

(** ** Names reserved for the state files *)
Definition localStateTempPrefix : string := ".rcw-tmp-".

Definition payloadFilters (paths : syncFilePaths) : list string :=
  (if (localFilter paths =? "")%string then []
   else [literalFilterPath (localFilter paths +:+ localStateTempPrefix) +:+ "*";
         literalFilterPath (localFilter paths)]) ++
  (if negb (remoteFilter paths =? "")%string && negb (remoteFilter paths =? localFilter paths)%string
   then [literalFilterPath (remoteFilter paths)] else []).

(** The loop of [protects] over the two state-file names: [(exact, ancestor)]. *)
Fixpoint protects_go (path : string) (filters : list string) (ancestor : bool) : bool * bool :=
  match filters with
  | [] => (false, ancestor)
  | filter :: filters =>
      if (filter =? "")%string then protects_go path filters ancestor
      else if (path =? filter)%string then (true, false)
      else protects_go path filters (ancestor || has_prefix (path +:+ "/") filter)
  end.

Definition protects (paths : syncFilePaths) (path : string) : bool * bool :=
  if negb (localFilter paths =? "")%string &&
     has_prefix (localFilter paths +:+ localStateTempPrefix) path
  then (true, false)
  else protects_go path [localFilter paths; remoteFilter paths] false.

(** ** Patterns of a scoped sync *)

(** Rclone filters see Standard-encoded names. A control character or DEL is encoded as its
    control picture, a literal control picture is quoted with U+201B, and a run of U+201B
    before another rune is made even. *)
Definition quote_rune : Z := 8219.        (* U+201B *)
Definition symbol_nul : Z := 9216.        (* U+2400 *)
Definition symbol_us : Z := 9247.         (* U+241F *)
Definition symbol_del : Z := 9249.        (* U+2421 *)
Definition fullwidth_slash : Z := 65295.  (* U+FF0F *)
Definition fullwidth_stop : Z := 65294.   (* U+FF0E *)

Definition dot_encodings : list string :=
  let dot := rune_str fullwidth_stop in
  let q := rune_str quote_rune in
  [dot; dot +:+ dot; q +:+ dot; q +:+ dot +:+ q +:+ dot].

Definition quotes (n : nat) : string := repeat_str (rune_str quote_rune) n.
Definition round_up (n : nat) : nat := (n + n mod 2)%nat.

Definition standard_rune (c : Z) : string :=
  if (0 <? c) && (c <? 32) then encode_rune (symbol_nul + c)
  else if c =? 127 then encode_rune symbol_del
  else if ((symbol_nul <? c) && (c <=? symbol_us)) || (c =? symbol_del)
  then rune_str quote_rune +:+ encode_rune c
  else encode_rune c.

(** The loop over the runes of one path element; [n] counts the pending quote runes. *)
Fixpoint standard_go (n : nat) (l : list Z) : string :=
  match l with
  | [] => quotes (round_up n)
  | c :: l =>
      if c =? quote_rune then standard_go (S n) l
      else
        let n := if negb (c =? symbol_nul) && negb (c =? fullwidth_slash) then round_up n else n in
        quotes n +:+ standard_rune c +:+ standard_go O l
  end.

Definition standard_element (name : string) : string :=
  if bool_decide (name ∈ dot_encodings) then name
  else standard_go O (rune_value <$> runes name).

Definition standardLocalPath (relative : string) : string :=
  join "/" (standard_element <$> split_on slash relative).

Definition hex_low (n : Z) : ascii := if n <? 10 then chr (48 + n) else chr (87 + n).

Definition scope_rune (c : Z) : string :=
  if (c <? 128) && (is_space c || contains_byte (chr c) glob_meta) then
    str1 backslash +:+ "x" +:+ String (hex_low (c / 16)) (str1 (hex_low (c mod 16)))
  else if is_space c then "[" +:+ encode_rune c +:+ "]"
  else encode_rune c.

Definition scopeFilterPath (relative : string) : string :=
  concat_str ((fun r => scope_rune (rune_value r)) <$> runes (standardLocalPath relative)).
