(* ===== verification/FiltersSpec.v ===== *)
(** * What filter patterns match

    Every pattern the program writes stands for one text: reading it back, escape by escape,
    gives the path it was made of, whatever bytes the path holds. *)

From Stdlib Require Import Ascii.
From S2P Require Import Prelude GoString Utf8 SyncPath Filters.

Local Open Scope Z_scope.

(** ** Reading a pattern

    The runes a pattern stands for when no wildcard is in it: a class of one rune, a
    hexadecimal or other escape, or a rune that means itself. *)
Definition hex_digit (c : Z) : option Z :=
  if (48 <=? c) && (c <=? 57) then Some (c - 48)
  else if (97 <=? c) && (c <=? 102) then Some (c - 87) else None.

Fixpoint pattern_text (l : list Z) : option (list Z) :=
  match l with
  | [] => Some []
  | 92 :: 120 :: a :: b :: l =>
      h ← hex_digit a; d ← hex_digit b; cons (16 * h + d) <$> pattern_text l
  | 92 :: c :: l => if is_glob_meta c then cons c <$> pattern_text l else None
  | 91 :: c :: 93 :: l => cons c <$> pattern_text l
  | c :: l => if is_glob_meta c then None else cons c <$> pattern_text l
  end.

Definition rune_values (s : string) : list Z := rune_value <$> runes s.

(** ** The pieces of a pattern *)

Lemma rune_values_encode l : Forall scalar l -> rune_values (concat_str (encode_rune <$> l)) = l.
Proof.
  intros Hl. unfold rune_values. rewrite <- (str_app_nil_r (concat_str _)), runes_encode_all by done.
  change (runes "") with (@nil rune). rewrite app_nil_r, <- list_fmap_compose. apply list_fmap_id.
Qed.

Lemma encode_ascii c : 0 <= c < 128 -> encode_rune c = str1 (chr c).
Proof.
  intros Hc. rewrite encode_rune_scalar by (split; lia). by replace (c <? 128) with true by lia.
Qed.

(** A pattern made rune by rune of texts that each stand for their rune. *)
Lemma pattern_text_pieces (piece : Z -> list Z) l :
  (forall c rest, scalar c -> pattern_text (piece c ++ rest) = cons c <$> pattern_text rest) ->
  Forall scalar l -> pattern_text (l ≫= piece) = Some l.
Proof.
  intros Hpiece. induction 1 as [|c l Hc Hl IH]; [done|]. cbn [mbind list_bind].
  by rewrite Hpiece, IH.
Qed.

Definition literal_piece (c : Z) : list Z := if is_glob_meta c then [92; c] else [c].
Definition hex_rune (n : Z) : Z := if n <? 10 then 48 + n else 87 + n.
Definition scope_piece (c : Z) : list Z :=
  if (c <? 128) && (is_space c || contains_byte (chr c) glob_meta)
  then [92; 120; hex_rune (c / 16); hex_rune (c mod 16)]
  else if is_space c then [91; c; 93] else [c].

Lemma hex_digit_rune n : 0 <= n < 16 -> hex_digit (hex_rune n) = Some n.
Proof.
  intros Hn. unfold hex_digit, hex_rune. destruct (n <? 10) eqn:E; reflect_bools.
  - replace ((48 <=? 48 + n) && (48 + n <=? 57)) with true by lia. f_equal. lia.
  - replace ((48 <=? 87 + n) && (87 + n <=? 57)) with false by lia.
    replace ((97 <=? 87 + n) && (87 + n <=? 102)) with true by lia. f_equal. lia.
Qed.

Lemma contains_byte_in c s : contains_byte c s = true -> c ∈ String.list_ascii_of_string s.
Proof.
  induction s as [|d s IH]; [done|]. cbn [contains_byte String.list_ascii_of_string].
  rewrite elem_of_cons. intros [H|H]%orb_true_iff; [left|right; auto]. by apply Ascii.eqb_eq in H.
Qed.

Lemma is_glob_meta_inv c : scalar c -> is_glob_meta c = true -> c ∈ [92; 42; 63; 91; 93; 123; 125].
Proof.
  intros [Hc _]. unfold is_glob_meta. intros [Hlt Hin]%andb_true_iff. apply Z.ltb_lt in Hlt.
  rewrite <- (code_chr c) by lia. apply contains_byte_in in Hin.
  apply (list_elem_of_fmap_2 code) in Hin. exact Hin.
Qed.

Lemma pattern_text_plain c l : is_glob_meta c = false ->
  pattern_text (c :: l) = cons c <$> pattern_text l.
Proof.
  intros Hc. assert (H1 : c <> 92) by (intros ->; done). assert (H2 : c <> 91) by (intros ->; done).
  cbn [pattern_text]. rewrite Hc.
  destruct c as [|p|p]; [done| |done]. do 7 (destruct p as [p|p|]; try done).
Qed.

Lemma literal_piece_reads c rest : scalar c ->
  pattern_text (literal_piece c ++ rest) = cons c <$> pattern_text rest.
Proof.
  intros Hs. unfold literal_piece. destruct (is_glob_meta c) eqn:E; [|by apply pattern_text_plain].
  pose proof (is_glob_meta_inv c Hs E) as Hin. rewrite !elem_of_cons, elem_of_nil in Hin.
  by destruct_or! Hin; subst.
Qed.

Lemma scope_piece_reads c rest : scalar c ->
  pattern_text (scope_piece c ++ rest) = cons c <$> pattern_text rest.
Proof.
  intros [Hs _]. unfold scope_piece. destruct ((c <? 128) && _) eqn:E.
  - apply andb_true_iff in E as [E _]. apply Z.ltb_lt in E. cbn [app pattern_text].
    rewrite !hex_digit_rune by divmod. cbn [mbind option_bind].
    by replace (16 * (c / 16) + c mod 16) with c by divmod.
  - destruct (is_space c); [done|]. apply pattern_text_plain. exact E.
Qed.

(** ** Both kinds of pattern *)

Lemma concat_str_app l1 l2 : concat_str (l1 ++ l2) = concat_str l1 +:+ concat_str l2.
Proof. induction l1 as [|s l1 IH]; [done|]. cbn [app concat_str]. by rewrite IH, str_app_assoc. Qed.

Lemma encode_pieces (piece : Z -> list Z) (text : Z -> string) l :
  (forall c, scalar c -> text c = concat_str (encode_rune <$> piece c)) -> Forall scalar l ->
  concat_str (text <$> l) = concat_str (encode_rune <$> (l ≫= piece)).
Proof.
  intros Ht. induction 1 as [|c l Hc Hl IH]; [done|]. csimpl.
  by rewrite fmap_app, concat_str_app, Ht, IH.
Qed.

Lemma pieces_scalar (piece : Z -> list Z) l :
  (forall c, scalar c -> Forall scalar (piece c)) -> Forall scalar l -> Forall scalar (l ≫= piece).
Proof.
  intros Hp Hl. rewrite Forall_forall in *. intros v (c & Hv & Hc)%list_elem_of_bind.
  specialize (Hp c (Hl c Hc)). rewrite Forall_forall in Hp. auto.
Qed.

Lemma reads_back (piece : Z -> list Z) (text : Z -> string) l :
  (forall c, scalar c -> text c = concat_str (encode_rune <$> piece c)) ->
  (forall c, scalar c -> Forall scalar (piece c)) ->
  (forall c rest, scalar c -> pattern_text (piece c ++ rest) = cons c <$> pattern_text rest) ->
  Forall scalar l -> pattern_text (rune_values (concat_str (text <$> l))) = Some l.
Proof.
  intros Ht Hp Hr Hl. rewrite (encode_pieces piece text), rune_values_encode; [|by apply pieces_scalar|done..].
  by apply pattern_text_pieces.
Qed.

Lemma rune_values_scalar s : Forall scalar (rune_values s).
Proof. apply Forall_fmap, runes_scalar. Qed.

Lemma small_scalar c : 0 <= c < 128 -> scalar c.
Proof. intros ?. split; lia. Qed.

#[local] Ltac each_scalar :=
  repeat first [apply Forall_nil_2|apply Forall_cons_2]; try assumption; try (apply small_scalar; lia).

Lemma literalFilterPath_reads_back p : pattern_text (rune_values (literalFilterPath p)) = Some (rune_values p).
Proof.
  unfold literalFilterPath. pose proof (rune_values_scalar p) as Hs.
  replace (literal_rune <$> runes p)
    with ((fun c => (if is_glob_meta c then str1 backslash else "") +:+ encode_rune c) <$> rune_values p)
    by (unfold rune_values; by rewrite <- list_fmap_compose).
  apply (reads_back literal_piece); [| |apply literal_piece_reads|done].
  - intros c Hc. unfold literal_piece. by destruct (is_glob_meta c); csimpl; rewrite ?str_app_nil_r.
  - intros c Hc. unfold literal_piece. by destruct (is_glob_meta c); each_scalar.
Qed.

Lemma hex_rune_range n : 0 <= n < 16 -> 0 <= hex_rune n < 128.
Proof. intros Hn. unfold hex_rune. case_goal; reflect_bools; lia. Qed.

Lemma hex_low_rune n : 0 <= n < 16 -> str1 (hex_low n) = encode_rune (hex_rune n).
Proof.
  intros Hn. rewrite encode_ascii by (by apply hex_rune_range).
  unfold hex_low, hex_rune. by case_goal.
Qed.

Lemma scope_rune_piece c : scalar c -> scope_rune c = concat_str (encode_rune <$> scope_piece c).
Proof.
  intros [Hs _]. unfold scope_rune, scope_piece. destruct ((c <? 128) && _) eqn:E.
  - apply andb_true_iff in E as [E _]. apply Z.ltb_lt in E. 
    cbn [fmap list_fmap concat_str]. rewrite <- !hex_low_rune by divmod. done.
  - destruct (is_space c); csimpl; by rewrite ?str_app_nil_r.
Qed.

Lemma scopeFilterPath_reads_back p :
  pattern_text (rune_values (scopeFilterPath p)) = Some (rune_values (standardLocalPath p)).
Proof.
  unfold scopeFilterPath. set (q := standardLocalPath p).
  replace ((fun r => scope_rune (rune_value r)) <$> runes q) with (scope_rune <$> rune_values q)
    by (unfold rune_values; by rewrite <- list_fmap_compose).
  apply (reads_back scope_piece); [apply scope_rune_piece| |apply scope_piece_reads|apply rune_values_scalar].
  intros c Hc. unfold scope_piece. destruct ((c <? 128) && _) eqn:E; [|by destruct (is_space c); each_scalar].
  apply andb_true_iff in E as [E _]. apply Z.ltb_lt in E. destruct Hc as [Hc _].
  each_scalar; apply small_scalar, hex_rune_range; divmod.
Qed.

(** ** Guarantees *)

(** C36: a pattern for a file name matches that name literally: read back with its escapes, it
    has no wildcard and gives the runes of the name (an invalid byte as the replacement rune),
    for any bytes; a pattern of a scope gives the runes of the Standard-encoded path. *)
Theorem patterns_are_literal (p : string) :
  pattern_text (rune_values (literalFilterPath p)) = Some (rune_values p) /\
  pattern_text (rune_values (scopeFilterPath p)) = Some (rune_values (standardLocalPath p)).
Proof. split; [apply literalFilterPath_reads_back|apply scopeFilterPath_reads_back]. Qed.
