(* ===== verification/SyncState.v ===== *)
(** * The sync state and the state files it reads and writes ([syncstate.go])

    The struct [syncState] is split into its configuration [syncState], which the program
    never changes after start-up, and the variables [syncVars].  This file holds the
    operations on the two state files: reading and writing the local one, reading the remote
    one, writing it (conditionally on S3), and [replaceOwnedRemote], the guarded
    read-write-verify step on which every update of the remote state rests. *)

From Stdlib Require Import Ascii.
From S2P Require Import Prelude GoString GoTime Host SyncData Json StateFile SyncPath Options Filters.

Local Open Scope Z_scope.

(** ** State *)
Record syncState := SyncState {
  paths : syncFilePaths;
  source : string;
  dest : string;
  timeout : Z;
  wait : lockWait;
  pollInterval : Z;
  consistentWrites : bool;
  failOnIncomplete : bool;
  logs : bool;
  owner : string;
  repositoryID : string;
  persistent : bool;
  excludes : list string;
  forceDeleteUntrackedRemote : bool;
  has_cancelCommands : bool;     (* the callback is set *)
  has_releaseRunner : bool       (* the runner of the final release is set *)
}.

(** [runner_cancelled]: the main runner's context is done. [on_releaseRunner]: [Close] has
    replaced the runner. *)
Record syncVars := SyncVars {
  remote_ : remoteSyncFile;
  lockExpiry : Z;
  pending : option syncFileData;
  pendingExpiry : Z;
  closed : bool;
  releaseErr : option error;
  runner_cancelled : bool;
  on_releaseRunner : bool
}.

Definition initial_vars : syncVars :=
  SyncVars no_remote time_zero None time_zero false None false false.

Definition set_remote (r : remoteSyncFile) (e : Z) (v : syncVars) : syncVars :=
  SyncVars r e (pending v) (pendingExpiry v) (closed v) (releaseErr v) (runner_cancelled v) (on_releaseRunner v).
Definition set_pending (p : option syncFileData) (e : Z) (v : syncVars) : syncVars :=
  SyncVars (remote_ v) (lockExpiry v) p e (closed v) (releaseErr v) (runner_cancelled v) (on_releaseRunner v).
Definition set_closed (v : syncVars) : syncVars :=
  SyncVars (remote_ v) (lockExpiry v) (pending v) (pendingExpiry v) true (releaseErr v) (runner_cancelled v) (on_releaseRunner v).
Definition set_releaseErr (e : option error) (v : syncVars) : syncVars :=
  SyncVars (remote_ v) (lockExpiry v) (pending v) (pendingExpiry v) (closed v) e (runner_cancelled v) (on_releaseRunner v).
Definition set_cancelled (v : syncVars) : syncVars :=
  SyncVars (remote_ v) (lockExpiry v) (pending v) (pendingExpiry v) (closed v) (releaseErr v) true (on_releaseRunner v).
Definition set_releaseRunner (v : syncVars) : syncVars :=
  SyncVars (remote_ v) (lockExpiry v) (pending v) (pendingExpiry v) (closed v) (releaseErr v) (runner_cancelled v) true.

Section Operations.
Context {W : Type} `{!Host W}.
#[local] Abbreviation P := (M W syncVars).

Variable s : syncState.

(** ** Running rclone *)

(** [rcloneCommand.Run]: a command of a cancelled runner does not start. *)
Definition runner_Run (args : list string) : P cmd_output :=
  v ← get;
  if runner_cancelled v && negb (on_releaseRunner v)
  then ret (CmdOutput "" "" (Some ContextCanceled))
  else sys (Rclone (args ++ ["--s3-no-check-bucket"])).

Definition run (args : list string) : P unit :=
  out ← runner_Run args;
  match cmd_err out with
  | None => ret tt
  | Some e => if logs s then throw (ErrSys e) else throw (commandError (ErrSys e) (cmd_stderr out))
  end.

(** ** The local state file *)
Definition readLocalSyncFile (path : string) : P (syncFileData * bool) :=
  r ← sys (ReadFile path);
  match r with
  | inr e =>
      if is_not_exist (ErrSys e) then ret (no_data, false)
      else throw (Wrapf "read local state file" (ErrSys e))
  | inl contents =>
      d ← wrap "invalid local state file" (lift (decodeSyncFile contents));
      fail_if (Generation d =? 0) (Errorf "invalid local state file: generation must be at least 1");;
      ret (d, true)
  end.

(** [defer parent.Close()] of the directory handle has no effect the model shows. *)
Definition writeLocalSyncFile (path : string) (d : syncFileData) : P unit :=
  fail_if (RepositoryID d =? "")%string (Errorf "repository ID must be set");;
  fail_if (Generation d =? 0) (Errorf "generation must be at least 1");;
  contents ← lift (encodeLocalSyncFile d);
  let directory := dir path in
  check (MkdirAll directory);;
  file ← obtain (CreateTemp directory (base path +:+ localStateTempPrefix +:+ "*"));
  finally
    (finally
      (check (WriteFile file contents);;
       check (SyncFile file);;
       check (CloseFile file);;
       check (Rename file path);;
       check (OpenDir directory);;
       check (SyncDir directory))
      (sys (CloseFile file);; ret tt))
    (sys (Remove file)).

(** ** The remote state file *)
Definition decode_entries (what text : string) : result error (list json) :=
  match parse_json text with
  | Some (JArr es, r) => if (skip_ws r =? "")%string then Ok es else Err (Wrapf what type_error)
  | Some (JNull, r) => if (skip_ws r =? "")%string then Ok [] else Err (Wrapf what type_error)
  | _ => Err (Wrapf what type_error)
  end.

(** The member [Path] of a listing entry; other members are ignored. *)
Definition entry_member (p : string) (m : string * json) : result error string :=
  match match_name ["Path"] (unquote (fst m)) with
  | Some _ => decode_string (snd m) p
  | None => Ok p
  end.
Definition entry_path (j : json) : result error string :=
  match j with
  | JObj ms => decode_members entry_member "" ms
  | JNull => Ok ""
  | _ => Err type_error
  end.
Fixpoint entry_paths (what : string) (es : list json) : result error (list string) :=
  match es with
  | [] => Ok []
  | e :: es =>
      match entry_path e with
      | Ok p => result_bind (entry_paths what es) (fun ps => Ok (p :: ps))
      | _ => Err (Wrapf what type_error)
      end
  end.

Definition remoteStateExists : P bool :=
  '(parent, _) ← lift (resolveRemoteSyncFile (remote (paths s)) "..");
  r ← lift (parseRemote (remote (paths s)));
  let name := base (match colon r with
                    | Some c => drop_str (S c) (remote (paths s))
                    | None => remote (paths s)
                    end) in
  out ← runner_Run ["lsjson"; parent; "--max-depth"; "1"; "--include"; "/" +:+ literalFilterPath name];
  match cmd_err out with
  | Some e => if isRcloneNotFound (ErrSys e) then ret false else throw (commandError (ErrSys e) (cmd_stderr out))
  | None =>
      entries ← lift (decode_entries "decode remote state listing" (cmd_stdout out));
      names ← lift (entry_paths "decode remote state listing" entries);
      ret (bool_decide (name ∈ names))
  end.

Definition readRemote : P remoteSyncFile :=
  out ← runner_Run (["cat"; remote (paths s)] ++
    (if consistentWrites s then ["--dump"; "headers"; "--log-level"; "DEBUG"] else []));
  match cmd_err out with
  | Some e => if isRcloneNotFound (ErrSys e) then ret no_remote else throw (commandError (ErrSys e) (cmd_stderr out))
  | None =>
      present ← (if (cmd_stdout out =? "")%string
                 then wrap "check empty remote state file" remoteStateExists
                 else ret true);
      if negb present then ret no_remote
      else
        d ← wrap "invalid remote state file" (lift (decodeSyncFile (cmd_stdout out)));
        let tag := if consistentWrites s then responseETag (cmd_stderr out) else "" in
        fail_if (consistentWrites s && (tag =? "")%string)
          (Errorf "S3 response did not include an ETag; use --no-consistent-writes if this provider cannot supply one");;
        ret (RemoteSyncFile d tag true)
  end.

(** The condition of a write: the object must not exist, or must be the one that was read. *)
Definition condition_args (previousETag : string) : list string :=
  if consistentWrites s then
    ["--header-upload";
     if (previousETag =? "")%string then "If-None-Match: *"
     else "If-Match: " +:+ str1 dquote +:+ previousETag +:+ str1 dquote]
  else [].

Definition writeRemote (d : syncFileData) (previousETag : string) : P unit :=
  let d := set_Active false d in
  contents ← lift (encodeSyncFile d);
  name ← obtain (CreateTemp "" "rclonewatch-sync-*");
  finally
    (w ← try (check (WriteFile name contents));
     match w with
     | inr e => sys (CloseFile name);; throw e
     | inl _ =>
         check (CloseFile name);;
         run (["copyto"; name; remote (paths s)] ++ condition_args previousETag)
     end)
    (sys (Remove name)).

(** ** Owned updates of the remote state *)
Definition getRemote : P remoteSyncFile := v ← get; ret (remote_ v).
Definition getLockExpiry : P Z := v ← get; ret (lockExpiry v).
Definition setOwnedRemote (r : remoteSyncFile) (expires : Z) : P unit := modify (set_remote r expires).

Definition forget_pending : P unit := modify (set_pending None time_zero).

Definition newLock : P (option syncFileLock) :=
  now ← sys Now;
  ret (Some (SyncFileLock (owner s) (utc now) (timeout s))).

Definition is_pending (d : syncFileData) (p : option syncFileData) : bool :=
  match p with Some q => sameSyncFileData d q | None => false end.

(** What is written: a candidate that keeps the previous lock takes the lock of a pending
  write that turns out to have happened. *)
Definition adopt_lock (latestIsPending : bool) (latest previous : remoteSyncFile) (candidate : syncFileData) :
    syncFileData :=
  if latestIsPending && sameLock (Lock candidate) (Lock (data previous))
  then set_Lock (Lock (data latest)) candidate else candidate.

Definition replaceOwnedRemote (previous : remoteSyncFile) (candidate0 : syncFileData) : P unit :=
  latest ← readRemote;
  v ← get;
  let latestIsPrevious := sameSyncFileData (data latest) (data previous) in
  let latestIsPending := is_pending (data latest) (pending v) in
  if negb (ownedBy latest (owner s)) || (negb latestIsPrevious && negb latestIsPending) then
    forget_pending;; throw ErrLockOwnershipLost
  else
    let expires := if latestIsPending then pendingExpiry v else lockExpiry v in
    let candidate := adopt_lock latestIsPending latest previous candidate0 in
    writtenAt ← sys Now;
    let expires :=
      match Lock candidate with
      | None => time_zero
      | Some _ =>
          if negb (sameLock (Lock candidate) (Lock (data latest)))
          then writtenAt + ttl (Lock candidate) (timeout s) else expires
      end in
    modify (set_pending (Some candidate) expires);;
    writeRemote candidate (etag latest);;
    verified ← readRemote;
    if negb (sameSyncFileData (data verified) candidate) then
      if sameSyncFileData (data verified) (data latest)
      then throw (Errorf "remote state file changed while updating it")
      else forget_pending;; throw ErrLockOwnershipLost
    else
      if match Lock candidate with Some _ => true | None => false end && negb (ownedBy verified (owner s))
      then forget_pending;; throw ErrLockOwnershipLost
      else forget_pending;; setOwnedRemote verified expires.

(** ** Payload commands *)
Definition syncFromRemote : P unit :=
  run (payloadSyncArgs (dest s) (source s) (payloadFilters (paths s)) (excludes s)).

Definition syncToRemote : P unit :=
  run (payloadSyncArgs (source s) (dest s) (payloadFilters (paths s)) (excludes s)).

Definition ignore_not_found (m : P unit) : P bool :=
  r ← try m;
  match r with
  | inl _ => ret true
  | inr e => if isRcloneNotFound e then ret false else throw e
  end.

Definition deleteRemotePayload : P unit :=
  found ← ignore_not_found (run (["delete"; dest s] ++
    (if (remoteFilter (paths s) =? "")%string then []
     else ["--exclude"; "/" +:+ literalFilterPath (remoteFilter (paths s))])));
  if (found : bool)
  then ignore_not_found (run ["rmdirs"; dest s; "--leave-root"]);; ret tt
  else ret tt.

Definition remotePayloadEmpty : P bool :=
  out ← runner_Run ["lsjson"; dest s; "--max-depth"; "1"];
  match cmd_err out with
  | Some e => if isRcloneNotFound (ErrSys e) then ret true else throw (commandError (ErrSys e) (cmd_stderr out))
  | None =>
      entries ← lift (decode_entries "decode remote listing" (cmd_stdout out));
      ret (bool_decide (entries = []))
  end.
End Operations.
