(* ===== verification/SyncStateSpec.v ===== *)
(** * What the state-file operations do

    One rule of the program logic per operation of [SyncState], for every host: the results it
    can have, the variables it changes and the actions it performs.  [replace_outcome] is the
    contract of [replaceOwnedRemote], branch by branch. *)

From S2P Require Import Prelude GoString GoTime Host HostLogic SyncData Json StateFile SyncPath Options Filters SyncState.

Local Open Scope Z_scope.

(** ** Traces of single operations *)
Lemma quiet_now a : quiet [Event Now a]. Proof. done. Qed.
Lemma quiet_rand a : quiet [Event RandText a]. Proof. done. Qed.
Lemma quiet_await d a : quiet [Event (AwaitTimer d) a]. Proof. done. Qed.
Lemma quiet_watchdog d a : quiet [Event (StopWatchdog d) a]. Proof. done. Qed.
Lemma quiet_read p a : quiet [Event (ReadFile p) a]. Proof. done. Qed.
#[export] Hint Resolve quiet_now quiet_rand quiet_await quiet_watchdog quiet_read : acts.

(** Commands that neither publish nor transfer. *)
Definition query (args : list string) : Prop := forall f b, command_action f args b = None.

Lemma quiet_query args out : query args -> quiet [Event (Rclone args) out].
Proof. intros H f. simpl. unfold event_action; simpl. by rewrite H. Qed.

Lemma query_cat l : query ("cat"%stdpp :: l). Proof. done. Qed.
Lemma query_lsjson l : query ("lsjson"%stdpp :: l). Proof. done. Qed.

(** Commands that transfer, delete or prune payload. *)
Definition transfer (args : list string) : Prop :=
  forall f b, command_action f args b = Some (Transfer args).

Lemma transfer_sync l : transfer ("sync"%stdpp :: l). Proof. done. Qed.
Lemma transfer_delete l : transfer ("delete"%stdpp :: l). Proof. done. Qed.
Lemma transfer_rmdirs l : transfer ("rmdirs"%stdpp :: l). Proof. done. Qed.

Lemma acts_transfer args out : transfer args -> acts [Event (Rclone args) out] [Transfer args].
Proof. intros H f. simpl. unfold event_action; simpl. by rewrite H. Qed.
#[export] Hint Resolve query_cat query_lsjson quiet_query transfer_sync transfer_delete transfer_rmdirs
  acts_transfer : acts.

(** The flag that every command gets. *)
Definition with_flag (args : list string) : list string := args ++ ["--s3-no-check-bucket"].

Section Spec.
Context {W : Type} `{!Host W}.
Variable s : syncState.
Implicit Types (x : st W syncVars) (v : syncVars).

(** [Q] holds whatever state the host is in. *)
Definition forallW {A} (Q : post (W := W) (V := syncVars) A) r v t : Prop := forall w, Q r (St w v) t.

Lemma runner_Run_wp args (Q : post cmd_output) x :
  (forall out, forallW Q (Ok out) (vars x) [Event (Rclone (with_flag args)) out]) ->
  Q (Ok (CmdOutput "" "" (Some ContextCanceled))) x [] ->
  wp (runner_Run args) Q x.
Proof.
  intros H1 H2. unfold runner_Run. wp_run; simpl; auto. apply H1.
Qed.

(** A payload command: it succeeds, or fails having run or not. *)
Lemma run_wp args (Q : post unit) x :
  transfer (with_flag args) ->
  (forall t, acts t [Transfer (with_flag args)] -> forallW Q (Ok tt) (vars x) t) ->
  (forall e l t, ordinary e -> (l = [] \/ l = [Transfer (with_flag args)]) -> acts t l ->
     forallW Q (Err e) (vars x) t) ->
  wp (run s args) Q x.
Proof.
  intros Ht H1 H2. destruct x as [w0 v0]. unfold run. apply wp_bind, runner_Run_wp.
  - intros out w. cbn [after].
    destruct (cmd_err out) as [e|].
    + destruct (logs s); apply wp_throw; simpl;
        (eapply H2; [|by right|]; auto with go acts).
    + apply wp_ret. apply H1. rewrite app_nil_r. auto with acts.
  - cbn [after cmd_err cmd_stderr].
    destruct (logs s); apply wp_throw; eapply (H2 _ []); auto with go acts.
Qed.

(** ** The local state file *)
Lemma readLocalSyncFile_wp path (Q : post (syncFileData * bool)) x :
  (forall d b t, quiet t ->
     (b = false /\ d = no_data) \/ (b = true /\ wf_data d /\ Generation d <> 0) ->
     forallW Q (Ok (d, b)) (vars x) t) ->
  (forall e t, ordinary e -> quiet t -> forallW Q (Err e) (vars x) t) ->
  wp (readLocalSyncFile path) Q x.
Proof.
  intros H1 H2. unfold readLocalSyncFile. apply wp_bind, wp_sys. intros [contents|e] w; cbn [after].
  - apply wp_bind, wp_wrap, wp_lift. pose proof (decodeSyncFile_plain contents) as Hp.
    destruct (decodeSyncFile contents) as [d|e|] eqn:E; cbn [after]; [|apply H2; auto with acts go|done].
    apply wp_bind, wp_fail_if; intros Hg; cbn [after].
    + apply H2; simpl; auto with acts go.
    + apply wp_ret. apply H1; simpl; auto with acts. right. apply decodeSyncFile_wf in E. reflect_bools. auto.
  - destruct (is_not_exist _); [apply wp_ret, H1|apply wp_throw, H2]; simpl; auto with acts go.
Qed.

(** The trace of [writeLocalSyncFile] ends with the removal of its temporary file. *)
Lemma writeLocalSyncFile_wp path d (Q : post unit) x :
  (forall contents t, RepositoryID d <> "" -> Generation d <> 0 -> encodeLocalSyncFile d = Ok contents ->
     acts t [SaveLocal path contents] -> forallW Q (Ok tt) (vars x) t) ->
  (forall e l t, ordinary e ->
     (l = [] \/ exists contents, encodeLocalSyncFile d = Ok contents /\ l = [SaveLocal path contents]) ->
     acts t l -> forallW Q (Err e) (vars x) t) ->
  wp (writeLocalSyncFile path d) Q x.
Proof.
  intros H1 H2. unfold writeLocalSyncFile.
  apply wp_bind, wp_fail_if; intros Hr; cbn [after]; [destruct x; eapply (H2 _ []); auto with go acts|].
  apply wp_bind, wp_fail_if; intros Hg; cbn [after]; [destruct x; eapply (H2 _ []); simpl; auto with go acts|].
  apply wp_bind, wp_lift. pose proof (encodeLocalSyncFile_plain d) as Hp.
  destruct (encodeLocalSyncFile d) as [contents|e|] eqn:Ec; cbn [after];
    [|destruct x; eapply (H2 _ []); simpl; auto with go acts|done].
  reflect_bools.
  assert (Hs : forall f (a b : string), default ""%stdpp ((<[a := b]> f : gmap string string) !! a) = b)
    by (intros; by rewrite lookup_insert_eq).
  wp_run.
  all: first
    [ (* before the rename, or a rename that failed *)
      apply (H2 _ []); [by auto with go|by left|]; intros f; reflexivity
    | (* after it *)
      eapply (H2 _ [_]); [by auto with go|right; by eauto|];
        intros f; cbn; unfold event_action; cbn; by rewrite Hs
    | eapply H1; eauto; intros f; cbn; unfold event_action; cbn; by rewrite Hs ].
Qed.

(** ** Reading the remote state file *)
Definition remote_reading (r : remoteSyncFile) : Prop :=
  r = no_remote \/
  exists_ r = true /\ wf_data (data r) /\ (etag r = "" <-> consistentWrites s = false).

Lemma decode_entries_plain what text : plain (decode_entries what text).
Proof. unfold decode_entries. plain_steps. Qed.

Lemma entry_path_plain j : plain (entry_path j).
Proof.
  unfold entry_path. plain_steps. apply decode_members_plain.
  intros a m. unfold entry_member. plain_steps.
Qed.

Lemma entry_paths_plain what es : plain (entry_paths what es).
Proof.
  induction es as [|e es IH]; simpl; [done|]. pose proof (entry_path_plain e).
  destruct (entry_path e); [|done..]. plain_steps.
Qed.

Lemma remoteStateExists_wp (Q : post bool) x :
  (forall b t, quiet t -> forallW Q (Ok b) (vars x) t) ->
  (forall e t, ordinary e -> quiet t -> forallW Q (Err e) (vars x) t) ->
  wp (remoteStateExists s) Q x.
Proof.
  intros H1 H2. destruct x as [w0 v0]. unfold remoteStateExists.
  apply wp_bind, wp_lift. pose proof (resolveRemoteSyncFile_plain (remote (paths s)) "..") as Hp.
  destruct (resolveRemoteSyncFile _ _) as [[parent f]| |]; cbn [after]; [|apply H2; auto with acts|done].
  apply wp_bind, wp_lift. pose proof (parseRemote_plain (remote (paths s))) as Hq.
  destruct (parseRemote _) as [r| |]; cbn [after]; [|apply H2; auto with acts|done].
  apply wp_bind, runner_Run_wp; cbn [after cmd_err cmd_stderr].
  - intros out w. cbn [after]. destruct (cmd_err out) as [e|].
    + destruct (isRcloneNotFound _); [apply wp_ret, H1|apply wp_throw, H2]; auto 8 with acts go.
    + apply wp_bind, wp_lift. pose proof (decode_entries_plain "decode remote state listing" (cmd_stdout out)) as He.
      destruct (decode_entries _ _) as [es| |]; cbn [after]; [|apply H2; auto 8 with acts|done].
      apply wp_bind, wp_lift. pose proof (entry_paths_plain "decode remote state listing" es) as Hn.
      destruct (entry_paths _ _) as [ns| |]; cbn [after]; [|apply H2; auto 8 with acts|done].
      apply wp_ret, H1. auto 8 with acts.
  - apply wp_throw, H2; auto 8 with acts go.
Qed.

(** The reading [r] is what a command of the trace printed. *)
Definition cat_args : list string :=
  with_flag (["cat"; remote (paths s)] ++
    (if consistentWrites s then ["--dump"; "headers"; "--log-level"; "DEBUG"] else [])).

Definition read_event (r : remoteSyncFile) (e : event) : Prop :=
  exists out, e = Event (Rclone cat_args) out /\ cmd_err out = None /\
    decodeSyncFile (cmd_stdout out) = Ok (data r) /\
    etag r = (if consistentWrites s then responseETag (cmd_stderr out) else "").

Definition read_from (t : list event) (r : remoteSyncFile) : Prop :=
  r = no_remote \/ exists e, e ∈ t /\ read_event r e.

Lemma read_from_app_l t t' r : read_from t r -> read_from (t ++ t') r.
Proof. intros [H|(e & He & H)]; [by left|right]. exists e. split; [set_solver|done]. Qed.
Lemma read_from_app_r t t' r : read_from t' r -> read_from (t ++ t') r.
Proof. intros [H|(e & He & H)]; [by left|right]. exists e. split; [set_solver|done]. Qed.

Lemma readRemote_seen (Q : post remoteSyncFile) x :
  (forall r t, quiet t -> remote_reading r -> read_from t r -> forallW Q (Ok r) (vars x) t) ->
  (forall e t, ordinary e -> quiet t -> forallW Q (Err e) (vars x) t) ->
  wp (readRemote s) Q x.
Proof.
  intros H1 H2. destruct x as [w0 v0]. unfold readRemote.
  apply wp_bind, runner_Run_wp; cbn [after cmd_err cmd_stderr]; [|apply wp_throw, H2; auto 8 with acts go].
  intros out w. cbn [after]. fold cat_args.
  assert (Hq : quiet [Event (Rclone cat_args) out]) by apply quiet_query, query_cat.
  assert (Hno : forall t, read_from t no_remote) by (intros; by left).
  destruct (cmd_err out) as [e|] eqn:Eout.
  { destruct (isRcloneNotFound _); [apply wp_ret, H1|apply wp_throw, H2]; auto 8 with acts go. by left. }
  apply wp_bind.
  assert (Hpresent : forall Q' : post bool,
    (forall b t, quiet t -> forallW Q' (Ok b) v0 t) ->
    (forall e t, ordinary e -> quiet t -> forallW Q' (Err e) v0 t) ->
    wp (if (cmd_stdout out =? "")%string then wrap "check empty remote state file" (remoteStateExists s)
        else ret true) Q' (St w v0)).
  { intros Q' H3 H4. destruct (cmd_stdout out =? "")%string; [|apply wp_ret, H3; auto with acts].
    apply wp_wrap, remoteStateExists_wp; intros; intros ?; [apply H3|apply H4]; auto with go. }
  apply Hpresent; intros b t Ht; [intros w'|intros Ht' w']; cbn [after].
  2: { apply H2; auto with acts. }
  destruct b; simpl; [|apply wp_ret, H1; [auto 8 with acts|by left|done]].
  apply wp_bind, wp_wrap, wp_lift. pose proof (decodeSyncFile_plain (cmd_stdout out)) as Hp.
  destruct (decodeSyncFile (cmd_stdout out)) as [d|e|] eqn:Ed; cbn [after]; [|apply H2; auto with acts|done].
  pose proof (decodeSyncFile_wf _ _ Ed) as Hd.
  apply wp_bind, wp_fail_if; intros Hc; cbn [after]; [apply H2; auto 8 with acts go|].
  apply wp_ret, H1; [auto 8 with acts|..]; right.
  - split; [done|]. split; [done|]. simpl.
    destruct (consistentWrites s); simpl in Hc; reflect_bools; naive_solver.
  - eexists. split; [by left|]. by exists out.
Qed.

Lemma readRemote_wp (Q : post remoteSyncFile) x :
  (forall r t, quiet t -> remote_reading r -> forallW Q (Ok r) (vars x) t) ->
  (forall e t, ordinary e -> quiet t -> forallW Q (Err e) (vars x) t) ->
  wp (readRemote s) Q x.
Proof. intros H1 H2. apply readRemote_seen; auto. Qed.

(** ** Writing the remote state file *)

(** The upload of a temporary file that was just written. *)
Lemma acts_publish t name contents dest cond out :
  quiet t -> (forall f, foldl track f t !! name = Some contents) ->
  acts (t ++ [Event (Rclone (with_flag (["copyto"; name; dest] ++ cond))) out])
    [Publish contents cond (match cmd_err out with None => true | Some _ => false end)].
Proof.
  intros Hq Hf f. rewrite actions_app, Hq. cbn. unfold event_action; cbn. rewrite Hf; cbn.
  unfold upload_condition; cbn. by rewrite removelast_last.
Qed.

Lemma writeRemote_wp d tag (Q : post unit) x :
  (forall contents t, encodeSyncFile (set_Active false d) = Ok contents ->
     acts t [Publish contents (condition_args s tag) true] -> forallW Q (Ok tt) (vars x) t) ->
  (forall e l t, ordinary e ->
     (l = [] \/ exists contents, encodeSyncFile (set_Active false d) = Ok contents /\
                                 l = [Publish contents (condition_args s tag) false]) ->
     acts t l -> forallW Q (Err e) (vars x) t) ->
  wp (writeRemote s d tag) Q x.
Proof.
  intros H1 H2. destruct x as [w0 v0]. unfold writeRemote.
  apply wp_bind, wp_lift. pose proof (encodeSyncFile_plain (set_Active false d)) as Hp.
  destruct (encodeSyncFile _) as [contents|e|]; cbn [after]; [|eapply (H2 _ []); auto with acts|done].
  apply wp_bind, wp_obtain; [intros name w|intros e w]; cbn [after vars].
  2: { eapply (H2 _ []); auto with go. done. }
  apply wp_finally, wp_bind, wp_try, wp_check; [intros w1|intros e w1]; cbn [after vars].
  2: { wp_run. eapply (H2 _ []); auto with go. done. }
  apply wp_bind, wp_check; [intros w2|intros e w2]; cbn [after vars].
  2: { wp_run. eapply (H2 _ []); auto with go. done. }
  unfold run. apply wp_bind, runner_Run_wp; cbn [after cmd_err cmd_stderr vars].
  - intros out w3. cbn [after].
    pose proof (acts_publish [Event (CreateTemp "" "rclonewatch-sync-*") (inl name);
      Event (WriteFile name contents) None; Event (CloseFile name) None] name contents
      (remote (paths s)) (condition_args s tag) out) as Hpub.
    assert (Hrm : quiet [Event (Remove name) tt]) by done.
    destruct (cmd_err out) as [e|].
    + destruct (logs s); apply wp_throw, wp_sys; intros [] w4; cbn [vars];
        (eapply (H2 _ [_]);
         [|right; eexists; split; [done|reflexivity]
          |apply (quiet_app_r _ [Event (Remove name) tt] [_] (Hpub ltac:(done) ltac:(intros; apply lookup_insert_eq)) Hrm)];
         auto with go).
    + apply wp_ret, wp_sys. intros [] w4. eapply H1; [done|].
      exact (quiet_app_r _ [Event (Remove name) tt] [_] (Hpub ltac:(done) ltac:(intros; apply lookup_insert_eq)) Hrm).
  - destruct (logs s); apply wp_throw, wp_sys; intros [] w4; cbn [vars];
      (eapply (H2 _ []); [|by left|done]); auto with go.
Qed.

(** ** Owned updates *)

(** May [latest], the state just read, be replaced by an owner that last saw [previous]? *)
Definition replaceable v (previous latest : remoteSyncFile) : bool :=
  ownedBy latest (owner s) &&
  (sameSyncFileData (data latest) (data previous) || is_pending (data latest) (pending v)).

(** What is written over [latest], and the expiry the write gives the lock. *)
Definition written v (previous latest : remoteSyncFile) (candidate : syncFileData) : syncFileData :=
  adopt_lock (is_pending (data latest) (pending v)) latest previous candidate.

Definition written_expiry v (previous latest : remoteSyncFile) (candidate : syncFileData) (now : Z) : Z :=
  let c := written v previous latest candidate in
  match Lock c with
  | None => time_zero
  | Some _ =>
      if negb (sameLock (Lock c) (Lock (data latest))) then now + ttl (Lock c) (timeout s)
      else if is_pending (data latest) (pending v) then pendingExpiry v else lockExpiry v
  end.

(** The publication of a candidate over [latest]. *)
Definition publishes (latest : remoteSyncFile) (c : syncFileData) (accepted : bool) (l : list action) : Prop :=
  exists contents, encodeSyncFile (set_Active false c) = Ok contents /\
                   l = [Publish contents (condition_args s (etag latest)) accepted].

Definition still_owned (c : syncFileData) (verified : remoteSyncFile) : bool :=
  match Lock c with None => true | Some _ => ownedBy verified (owner s) end.

(** The branches of [replaceOwnedRemote]: result, variables afterwards and actions. *)
Inductive replace_outcome (previous : remoteSyncFile) (candidate : syncFileData) (v : syncVars) :
  result error unit -> syncVars -> list action -> Prop :=
| RO_unread e :
  ordinary e -> replace_outcome previous candidate v (Err e) v []
| RO_lost latest :
  remote_reading latest -> replaceable v previous latest = false ->
  replace_outcome previous candidate v (Err ErrLockOwnershipLost) (set_pending None time_zero v) []
| RO_unwritten latest now e l :
  remote_reading latest -> replaceable v previous latest = true -> ordinary e ->
  (l = [] \/ publishes latest (written v previous latest candidate) false l) ->
  replace_outcome previous candidate v (Err e)
    (set_pending (Some (written v previous latest candidate)) (written_expiry v previous latest candidate now) v) l
| RO_unverified latest now e l :
  remote_reading latest -> replaceable v previous latest = true -> ordinary e ->
  publishes latest (written v previous latest candidate) true l ->
  replace_outcome previous candidate v (Err e)
    (set_pending (Some (written v previous latest candidate)) (written_expiry v previous latest candidate now) v) l
| RO_unchanged latest verified now l :
  remote_reading latest -> replaceable v previous latest = true -> remote_reading verified ->
  publishes latest (written v previous latest candidate) true l ->
  sameSyncFileData (data verified) (written v previous latest candidate) = false ->
  sameSyncFileData (data verified) (data latest) = true ->
  replace_outcome previous candidate v (Err (Errorf "remote state file changed while updating it"))
    (set_pending (Some (written v previous latest candidate)) (written_expiry v previous latest candidate now) v) l
| RO_overwritten latest verified l :
  remote_reading latest -> replaceable v previous latest = true -> remote_reading verified ->
  publishes latest (written v previous latest candidate) true l ->
  sameSyncFileData (data verified) (written v previous latest candidate) && still_owned (written v previous latest candidate) verified = false ->
  replace_outcome previous candidate v (Err ErrLockOwnershipLost) (set_pending None time_zero v) l
| RO_replaced latest verified now l :
  remote_reading latest -> replaceable v previous latest = true -> remote_reading verified ->
  publishes latest (written v previous latest candidate) true l ->
  sameSyncFileData (data verified) (written v previous latest candidate) = true ->
  still_owned (written v previous latest candidate) verified = true ->
  replace_outcome previous candidate v (Ok tt)
    (set_remote verified (written_expiry v previous latest candidate now) (set_pending None time_zero v)) l.

Lemma replaceOwnedRemote_wp previous candidate (Q : post unit) x :
  (forall r v l t, replace_outcome previous candidate (vars x) r v l -> acts t l -> forallW Q r v t) ->
  wp (replaceOwnedRemote s previous candidate) Q x.
Proof.
  intros HQ. destruct x as [w0 v0]. unfold replaceOwnedRemote, forget_pending, setOwnedRemote.
  apply wp_bind, readRemote_wp; [intros latest t1 Ht1 Hlatest w1|intros e t1 He Ht1 w1]; cbn [after vars].
  2: { eapply HQ; [by constructor|done]. }
  apply wp_bind, wp_get; cbn [after vars].
  assert (Hr : negb (ownedBy latest (owner s)) ||
               (negb (sameSyncFileData (data latest) (data previous)) && negb (is_pending (data latest) (pending v0)))
               = negb (replaceable v0 previous latest)).
  { unfold replaceable. by rewrite negb_andb, negb_orb. }
  rewrite Hr. destruct (replaceable v0 previous latest) eqn:Hok; cbn [negb].
  2: { wp_run. eapply HQ; [by eapply RO_lost|]. auto with acts. }
  apply wp_bind, wp_sys. intros now w2. cbn [after vars].
  apply wp_bind, wp_modify. cbn [after vars host].
  change (adopt_lock (is_pending (data latest) (pending v0)) latest previous candidate)
    with (written v0 previous latest candidate).
  change (match Lock (written v0 previous latest candidate) with Some _ => _ | None => time_zero end)
    with (written_expiry v0 previous latest candidate now).
  apply wp_bind, writeRemote_wp; [intros contents t2 Hc Ht2 w3|intros e l t2 He Hl Ht2 w3]; cbn [after vars].
  2: { eapply (HQ _ _ l); [eapply RO_unwritten; eauto; by destruct Hl; [left|right]|auto 8 with acts]. }
  assert (Hpub : publishes latest (written v0 previous latest candidate) true
    [Publish contents (condition_args s (etag latest)) true]) by (by eexists).
  apply wp_bind, readRemote_wp; [intros verified t3 Ht3 Hverified w4|intros e t3 He Ht3 w4]; cbn [after vars].
  2: { eapply HQ; [eapply RO_unverified; eauto|auto 8 with acts]. }
  destruct (sameSyncFileData (data verified) (written v0 previous latest candidate)) eqn:Hsame; cbn [negb].
  - assert (Hs : match Lock (written v0 previous latest candidate) with Some _ => true | None => false end
                 && negb (ownedBy verified (owner s)) = negb (still_owned (written v0 previous latest candidate) verified)).
    { unfold still_owned. by destruct (Lock _). }
    rewrite Hs. destruct (still_owned _ verified) eqn:Ho; cbn [negb]; wp_run; cbn [vars host];
      try change (set_pending None time_zero (set_pending _ _ v0)) with (set_pending None time_zero v0).
    + eapply HQ; [eapply RO_replaced; eauto|auto 10 with acts].
    + eapply HQ; [eapply (RO_overwritten _ _ _ latest verified); eauto; by simpl; rewrite Hsame, Ho|auto 10 with acts].
  - destruct (sameSyncFileData (data verified) (data latest)) eqn:Hsame'; wp_run; cbn [vars host];
      try change (set_pending None time_zero (set_pending _ _ v0)) with (set_pending None time_zero v0).
    + eapply HQ; [eapply RO_unchanged; eauto|auto 10 with acts].
    + eapply HQ; [eapply (RO_overwritten _ _ _ latest verified); eauto; by simpl; rewrite Hsame|auto 10 with acts].
Qed.
End Spec.

(** ** Guarantees *)

(** C6: an update of the remote state refines the contract [replace_outcome], whatever the
    host answers: it publishes at most once, only over a state that carries this owner's lock
    and is the one it last saw or the one it last tried to write, and it succeeds only after
    reading back exactly what it wrote. *)
Theorem replaceOwnedRemote_refines (W : Type) (H : Host W) s previous candidate (x : st W syncVars) :
  exists l, acts (trace (replaceOwnedRemote s previous candidate x)) l /\
    replace_outcome s previous candidate (vars x) (res (replaceOwnedRemote s previous candidate x))
      (vars (out_state (replaceOwnedRemote s previous candidate x))) l.
Proof.
  apply (replaceOwnedRemote_wp s previous candidate (fun r x' t =>
    exists l, acts t l /\ replace_outcome s previous candidate (vars x) r (vars x') l)).
  intros r v l t Ho Hl w. by exists l.
Qed.

(** The renames of a trace. *)
Definition event_rename (e : event) : option (string * string) :=
  match ev_op e with Rename a b => Some (a, b) | _ => None end.

(** The operations of a write up to the rename, and from the rename on. *)
Definition before_rename (path tmp c : string) : list event :=
  [Event (MkdirAll (dir path)) None;
   Event (CreateTemp (dir path) (base path +:+ localStateTempPrefix +:+ "*")) (inl tmp);
   Event (WriteFile tmp c) None; Event (SyncFile tmp) None; Event (CloseFile tmp) None].
Definition after_rename (path tmp : string) (closed : option sys_error) : list event :=
  [Event (OpenDir (dir path)) None; Event (SyncDir (dir path)) None; Event (CloseFile tmp) closed; Event (Remove tmp) tt].

Definition replaced_atomically (path : string) (d : syncFileData) (r : result error unit) (t : list event) : Prop :=
  (forall tmp target, (tmp, target) ∈ omap event_rename t ->
     target = path /\ exists c ans rest, encodeLocalSyncFile d = Ok c /\
       t = before_rename path tmp c ++ Event (Rename tmp path) ans :: rest) /\
  (r = Ok tt -> exists tmp c closed, encodeLocalSyncFile d = Ok c /\
     t = before_rename path tmp c ++ Event (Rename tmp path) None :: after_rename path tmp closed).

(** C33: the local state file is only ever replaced by a rename of a temporary file in its
    directory that holds the complete encoding and has been synced and closed, and a write
    that succeeds has also synced the directory. *)
Theorem local_state_replaced_atomically (W : Type) (H : Host W) path d (x : st W syncVars) :
  replaced_atomically path d (res (writeLocalSyncFile path d x)) (trace (writeLocalSyncFile path d x)).
Proof.
  change (wp (writeLocalSyncFile path d) (fun r _ t => replaced_atomically path d r t) x).
  unfold writeLocalSyncFile. destruct (encodeLocalSyncFile d) as [c|e|] eqn:Ec; wp_run;
    (split; [intros tmp target Hin; cbn in Hin|intros Hr; try done]).
  all: try (by apply not_elem_of_nil in Hin).
  all: try (apply list_elem_of_singleton in Hin; injection Hin as -> ->; split; [done|]; by eexists _, _, _).
  repeat match goal with u : unit |- _ => destruct u end. by eexists _, _, _.
Qed.
