(* ===== verification/Acquire.v ===== *)
(** * Acquiring the remote lock ([syncstate.go]: [Acquire] and what it calls)

    Start-up reads both states, refuses combinations that need an operator, continues a
    persistent lock it owns, waits for an active lock to expire, writes its own lock and reads
    it back. *)

From S2P Require Import Prelude GoString GoTime Host SyncData StateFile SyncPath Options Filters SyncState.

Local Open Scope Z_scope.

(** Does start-up have to download?  Generation 0 is a remote whose initialization was
    interrupted. *)
Definition needsSyncFromRemote (local : syncFileData) (localExists : bool) (remote : syncFileData) : bool :=
  if Generation remote =? 0 then false
  else negb localExists || (Generation local <? Generation remote) ||
       ((Generation local =? Generation remote) && negb (SyncID local =? SyncID remote)%string).

(** [refreshSafetyWindow] and the time left for the verification of a written lock. *)
Definition refreshSafetyWindow (timeout : Z) : Z := Z.max (Z.min (timeout ÷ 20) second) nanosecond.

Section Acquire.
Context {W : Type} `{!Host W}.
#[local] Abbreviation P := (M W syncVars).
Variable s : syncState.

Definition validateAcquisition (local : syncFileData) (localExists : bool) (remote : remoteSyncFile) : P unit :=
  fail_if (localExists && exists_ remote && negb (RepositoryID local =? RepositoryID (data remote))%string)
    (Errorf "local repository ID does not match remote repository ID");;
  fail_if (failOnIncomplete s && exists_ remote && Syncing (data remote) &&
           needsSyncFromRemote local localExists (data remote))
    (Errorf "remote state indicates an incomplete sync requiring remote-to-local reconciliation");;
  (if negb (exists_ remote) && negb (forceDeleteUntrackedRemote s) then
     empty ← wrap "inspect untracked remote destination" (remotePayloadEmpty s);
     fail_if (negb empty)
       (Errorf "remote destination has no state file and is not empty; use --force-delete-untracked-remote to delete its contents and initialize it")
   else ret tt);;
  let localIncompleteAdvance :=
    localExists && exists_ remote && Syncing local &&
    (Generation local =? add_uint64 (Generation (data remote)) 1) in
  fail_if (exists_ remote && (0 <? Generation (data remote)) && localExists &&
           (Generation (data remote) <? Generation local) && negb localIncompleteAdvance)
    (Errorf "local generation is ahead of remote generation").

(** Reads the remote until a read succeeds or the lock's verification deadline passes. *)
Fixpoint verifyAcquiredLock (fuel : nat) (deadline : Z) : P remoteSyncFile :=
  match fuel with
  | O => out_of_fuel
  | S fuel =>
      r ← try (readRemote s);
      match r with
      | inl remote => ret remote
      | inr lastErr =>
          now ← sys Now;
          let remaining := until deadline now in
          if remaining <=? 0 then throw (Wrapf "verify acquired lock before expiry" lastErr)
          else
            sig ← sys (AwaitTimer (Z.min (pollInterval s) remaining));
            match sig with
            | Some sig => throw (ErrInterrupted sig "verifying the acquired lock")
            | None => verifyAcquiredLock fuel deadline
            end
      end
  end.

Definition defaultWait : bool :=
  negb (explicit (wait s)) && negb (infinite (wait s)) && (duration (wait s) =? 0).
Definition canWait : bool := defaultWait || infinite (wait s) || (0 <? duration (wait s)).

(** The lock that is being waited for and when it was first seen. *)
Record observation := Observation { observedLock : string; observedAt : Z }.

(** The inner loop: waits while the remote carries an unexpired lock. [deadline] is
  [time_zero] without one. *)
Fixpoint awaitLock (fuel : nat) (deadline : Z) (o : observation) (remote : remoteSyncFile) :
    P (observation * remoteSyncFile) :=
  match fuel with
  | O => out_of_fuel
  | S fuel =>
      match Lock (data remote) with
      | None => ret (o, remote)
      | Some _ =>
          let identity := lockIdentity remote in
          o ← (if (observedLock o =? identity)%string then ret o
               else
                 fail_if (defaultWait && negb (observedLock o =? "")%string)
                   (Errorf "remote lock was refreshed while waiting");;
                 now ← sys Now;
                 ret (Observation identity now));
          let expires := observedAt o + lockTTL remote (timeout s) in
          now ← sys Now;
          if negb (now <? expires) then ret (o, remote)
          else
            fail_if (negb canWait) (Errorf "remote lock is active");;
            (if deadline =? time_zero then ret tt
             else
               now ← sys Now;
               fail_if (negb (now <? deadline)) (Errorf "timed out waiting for remote lock"));;
            now ← sys Now;
            let wakeAt := now + pollInterval s in
            let wakeAt := if expires <? wakeAt then expires else wakeAt in
            let wakeAt := if negb (deadline =? time_zero) && (deadline <? wakeAt) then deadline else wakeAt in
            now ← sys Now;
            sig ← sys (AwaitTimer (Z.max (until wakeAt now) 0));
            match sig with
            | Some sig => throw (ErrInterrupted sig "waiting for remote lock")
            | None =>
                remote ← readRemote s;
                awaitLock fuel deadline o remote
            end
      end
  end.

(** What an acquisition attempt leads to: the lock is held, or the loop goes on with the
  state that was read. *)
Inductive attempt := Acquired | Retry (remote : remoteSyncFile).

(** The lock a candidate state is written with, over what was observed. *)
Definition acquisition_candidate (local : syncFileData) (localExists : bool) (remote : remoteSyncFile) :
    syncFileData :=
  if exists_ remote then data remote
  else set_RepositoryID (if localExists then RepositoryID local else repositoryID s) (data remote).

(** Whether a wait is allowed and the lock just read is the one that was waited for. *)
Definition refreshed_meanwhile (o : observation) (current : remoteSyncFile) : bool :=
  defaultWait && negb (observedLock o =? "")%string && negb (lockIdentity current =? observedLock o)%string.

(** What the reading after a write says about the attempt. *)
Definition judge_attempt (o : observation) (remote current : remoteSyncFile) (candidate : syncFileData)
    (writeErr : option error) (expires : Z) : P attempt :=
  if sameSyncFileData (data current) candidate then
    setOwnedRemote current expires;; ret Acquired
  else
    match writeErr with
    | Some e =>
        if consistentWrites s && canWait && negb (lockIdentity current =? lockIdentity remote)%string then
          fail_if (refreshed_meanwhile o current) (Errorf "remote lock was refreshed while waiting");;
          ret (Retry current)
        else throw e
    | None =>
        if negb (ownedBy current (owner s)) ||
           negb (RepositoryID (data current) =? RepositoryID candidate)%string ||
           negb (Generation (data current) =? Generation candidate) ||
           negb (SyncID (data current) =? SyncID candidate)%string ||
           negb (Bool.eqb (Syncing (data current)) (Syncing candidate))
        then
          if canWait && match Lock (data current) with Some _ => true | None => false end then
            fail_if (refreshed_meanwhile o current) (Errorf "remote lock was refreshed while waiting");;
            ret (Retry current)
          else throw (Errorf "remote state file changed while acquiring lock")
        else throw ErrLockOwnershipLost
    end.

Definition cancelCommands : P unit :=
  if has_cancelCommands s then modify set_cancelled else ret tt.

(** One attempt: write the lock, read it back before a watchdog gives up. *)
Definition try_acquire (fuel : nat) (local : syncFileData) (localExists : bool) (o : observation)
    (remote : remoteSyncFile) : P attempt :=
  validateAcquisition local localExists remote;;
  lock ← newLock s;
  let candidate := set_Lock lock (acquisition_candidate local localExists remote) in
  writtenAt ← sys Now;
  let verifyDeadline := writtenAt + (timeout s - refreshSafetyWindow (timeout s)) in
  now ← sys Now;
  written ← try (writeRemote s candidate (etag remote));
  let writeErr := match written with inl _ => None | inr e => Some e end in
  current ← try (verifyAcquiredLock fuel verifyDeadline);
  w ← sys (StopWatchdog (now + Z.max (until verifyDeadline now) 0));
  match w with
  | Fired _ => cancelCommands;; throw (Errorf "could not verify acquired lock before expiry")
  | StoppedInTime =>
      match current with
      | inr e => throw (default e writeErr)
      | inl current => judge_attempt o remote current candidate writeErr (writtenAt + timeout s)
      end
  end.

(** The outer loop. *)
Fixpoint acquireLoop (fuel : nat) (deadline : Z) (local : syncFileData) (localExists : bool)
    (o : observation) (remote : remoteSyncFile) : P unit :=
  match fuel with
  | O => out_of_fuel
  | S fuel =>
      '(o, remote) ← awaitLock fuel deadline o remote;
      a ← try_acquire fuel local localExists o remote;
      match a with
      | Acquired => ret tt
      | Retry current => acquireLoop fuel deadline local localExists o current
      end
  end.

Definition Acquire (fuel : nat) : P unit :=
  '(local, localExists) ← readLocalSyncFile (SyncPath.local (paths s));
  remote ← readRemote s;
  validateAcquisition local localExists remote;;
  if persistent s && ownedBy remote (owner s) then
    lock ← newLock s;
    wrap "refresh persistent lock" (replaceOwnedRemote s remote (set_Lock lock (data remote)))
  else
    deadline ← (if negb (infinite (wait s)) && (0 <? duration (wait s))
                then now ← sys Now; ret (now + duration (wait s))
                else ret time_zero);
    acquireLoop fuel deadline local localExists (Observation "" 0) remote.
End Acquire.
