(* ===== verification/Session.v ===== *)
(** * A session's updates of the sync state ([syncstate.go])

    Initialization and reconciliation at start-up, the two updates around every outgoing
    batch, and the end of a session: [InitializeRemote], [InitializeGeneration],
    [BeforeRemoteChange], [AfterRemoteChange], [FinishSession] and [Close].  Each runs under
    [updateMu], so it is atomic for the other updates of the process; other processes act
    between its operations through the host's answers. *)

From S2P Require Import Prelude GoString GoTime Host SyncData StateFile SyncPath Options Filters SyncState Acquire.

Local Open Scope Z_scope.

(** The contents of the local state file that goes with a remote state. *)
Definition local_state (repo : string) (gen : Z) (id : string) (syncing active : bool) : syncFileData :=
  SyncFileData repo gen id syncing active None.

Section Session.
Context {W : Type} `{!Host W}.
#[local] Abbreviation P := (M W syncVars).
Variable s : syncState.

Definition local_path : string := SyncPath.local (paths s).

Definition InitializeRemote : P unit :=
  remote ← getRemote;
  if negb (Generation (data remote) =? 0) then ret tt
  else
    wrap "clear untracked remote payload" (deleteRemotePayload s);;
    wrap "initial local-to-remote sync" (syncToRemote s);;
    remote ← getRemote;
    bytes ← sys RandText;
    let id := rand_text bytes in
    let candidate := set_upload 1 id false (data remote) in
    wrap "complete remote initialization" (replaceOwnedRemote s remote candidate);;
    wrap "write initial local state"
      (writeLocalSyncFile local_path (local_state (RepositoryID candidate) 1 (SyncID candidate) false true)).

Definition BeforeRemoteChange : P unit :=
  remote ← getRemote;
  fail_if (Generation (data remote) =? 0) (Errorf "remote repository is not initialized");;
  fail_if (Generation (data remote) =? uint64_max) (Errorf "generation number cannot be incremented");;
  let next := add_uint64 (Generation (data remote)) 1 in
  bytes ← sys RandText;
  let syncID := rand_text bytes in
  wrap "increment local generation"
    (writeLocalSyncFile local_path (local_state (RepositoryID (data remote)) next syncID true true));;
  let candidate := set_upload next syncID true (data remote) in
  wrap "publish generation" (replaceOwnedRemote s remote candidate).

Definition AfterRemoteChange : P unit :=
  remote ← getRemote;
  let candidate := set_Syncing false (data remote) in
  wrap "clear remote syncing flag" (replaceOwnedRemote s remote candidate);;
  wrap "clear local syncing flag"
    (writeLocalSyncFile local_path
       (local_state (RepositoryID candidate) (Generation candidate) (SyncID candidate) false true)).

Definition InitializeGeneration : P unit :=
  '(local, localExists) ← readLocalSyncFile local_path;
  (if localExists : bool
   then wrap "mark local session active" (writeLocalSyncFile local_path (set_Active true local))
   else ret tt);;
  remote ← getRemote;
  let r := data remote in
  if Generation r =? 0 then InitializeRemote
  else if needsSyncFromRemote local localExists r then
    syncFromRemote s;;
    writeLocalSyncFile local_path (local_state (RepositoryID r) (Generation r) (SyncID r) (Syncing r) true)
  else
    let localIncompleteAdvance := Syncing local && (Generation local =? add_uint64 (Generation r) 1) in
    fail_if ((Generation r <? Generation local) && negb localIncompleteAdvance)
      (Errorf "local generation is ahead of remote generation");;
    let incomplete := Syncing local || Syncing r in
    if incomplete || Active local then
      fail_if (incomplete && (Generation local =? Generation r) && (SyncID local =? "")%string)
        (Errorf "cannot recover incomplete sync at equal generations without sync IDs; reconcile local and remote payloads manually");;
      BeforeRemoteChange;;
      wrap "recover incomplete local-to-remote sync" (syncToRemote s);;
      AfterRemoteChange
    else ret tt.

Definition FinishSession : P unit :=
  '(local, exists_) ← readLocalSyncFile local_path;
  fail_if (negb exists_) (Errorf "local state file is missing at session completion");;
  writeLocalSyncFile local_path (set_Active false local).

(** [Close] runs once; a second call returns the first one's error. The refresh loop has
  stopped when the release starts. *)
Definition Close : P unit :=
  v ← get;
  (if closed v then ret tt
   else
     modify set_closed;;
     (if has_releaseRunner s then modify set_releaseRunner else ret tt);;
     if persistent s then ret tt
     else
       remote ← getRemote;
       released ← try (replaceOwnedRemote s remote (set_Lock None (data remote)));
       modify (set_releaseErr (match released with inl _ => None | inr e => Some e end)));;
  v ← get;
  match releaseErr v with None => ret tt | Some e => throw e end.
End Session.
