(* ===== verification/Payload.v ===== *)
(** * The payload of a batch ([payload.go], the [syncer] of [main.go])

    From the changed paths of a batch to the rclone commands: normalization and collapse of
    the paths into scopes, the filter rules of a scoped sync, and [Sync], the whole batch
    with its updates of the sync state. *)

From Stdlib Require Import Ascii.
From S2P Require Import Prelude GoString GoTime Host SyncData StateFile SyncPath Options Filters SyncState Acquire Session.

Local Open Scope Z_scope.

Record change := Change { change_path : string; change_isDir : bool; change_removed : bool }.
#[export] Instance change_eq_dec : EqDecision change.
Proof. solve_decision. Defined.

(** A batch is listed in the order in which [range] visits it. *)
Definition batch : Type := list (string * change).

Record syncer := Syncer {
  sy_source : string;
  sy_dest : string;
  sy_logs : bool;
  sy_state : option syncState;   (* [state], and [trackState] when it is there *)
  sy_excludes : list string
}.

(** ** Paths *)

(** The proper ancestors of a relative path, nearest first: the loops over [path.Dir] up to
    ".". *)
Fixpoint parents_from (fuel : nat) (p : string) : list string :=
  match fuel with
  | O => []
  | S fuel => if (p =? ".")%string then [] else p :: parents_from fuel (dir p)
  end.
Definition parents (p : string) : list string := parents_from (String.length p) (dir p).

(** The nearest ancestor-or-self that is valid UTF-8. *)
Fixpoint representable (fuel : nat) (p : string) : string :=
  match fuel with
  | O => p
  | S fuel => if valid_utf8 p then p else representable fuel (dir p)
  end.

Definition valid_change (relative : string) : bool :=
  negb ((relative =? "")%string || is_abs relative || negb (clean relative =? relative)%string ||
        (relative =? "..")%string || has_prefix "../" relative).

(** ** Collapsing overlapping scopes *)
Definition covered (selected : gset string) (relative : string) : bool :=
  bool_decide (relative ∈ selected) || existsb (fun p => bool_decide (p ∈ selected)) (parents relative).

Fixpoint collapse_go (selected : gset string) (paths : list string) : list string :=
  match paths with
  | [] => []
  | p :: paths =>
      if covered selected p then collapse_go selected paths
      else p :: collapse_go ({[p]} ∪ selected) paths
  end.

Definition collapse (normalized : list string) : list string :=
  collapse_go ∅ (merge_sort String.le normalized).

(** ** The rules of a scoped sync *)
Definition rule (pattern : string) : string := "+ /" +:+ pattern +:+ nl.

(** The patterns a scope asks for, before duplicates are dropped. *)
Definition scope_patterns (createDirectories : bool) (relative : string) : list string :=
  let literal := scopeFilterPath relative in
  [literal; literal +:+ "/**"] ++
  (if createDirectories then scopeFilterPath <$> parents relative else []).

(** [include] writes a pattern the first time it comes up. *)
Fixpoint include_all (written : gset string) (patterns : list string) : list string :=
  match patterns with
  | [] => []
  | p :: patterns =>
      if bool_decide (p ∈ written) then include_all written patterns
      else p :: include_all ({[p]} ∪ written) patterns
  end.

Definition scope_rules (scopes : list string) (createDirectories : bool) : list string :=
  include_all ∅ (scopes ≫= scope_patterns createDirectories).

Definition scope_file (scopes : list string) (createDirectories : bool) : string :=
  concat_str (rule <$> scope_rules scopes createDirectories) +:+ "- /**" +:+ nl.

(** ** Batches *)
Definition addPending (pending : gmap string change) (item : change) : gmap string change :=
  <[change_path item := item]> pending.

Definition queueChange (state : option syncState) (pending : gmap string change) (item : change) :
    gmap string change :=
  match state with
  | Some s => if fst (protects (paths s) (change_path item)) then pending else addPending pending item
  | None => addPending pending item
  end.

Fixpoint mergeFailedBatch (pending : gmap string change) (failed : batch) : gmap string change :=
  match failed with
  | [] => pending
  | (path, item) :: failed =>
      mergeFailedBatch (match pending !! path with None => <[path := item]> pending | Some _ => pending end) failed
  end.

Section Syncer.
Context {W : Type} `{!Host W}.
#[local] Abbreviation P := (M W syncVars).
Variable s : syncer.

Definition syncer_run (args : list string) : P unit :=
  out ← runner_Run args;
  match cmd_err out with
  | None => ret tt
  | Some e => if sy_logs s then throw (ErrSys e) else throw (commandError (ErrSys e) (cmd_stdout out +:+ cmd_stderr out))
  end.

Definition state_filters : list string :=
  match sy_state s with Some st => payloadFilters (paths st) | None => [] end.

Definition is_protected (path : string) : bool :=
  match sy_state s with Some st => fst (protects (paths st) path) | None => false end.

Definition local_file (relative : string) : string := path_join [sy_source s; relative].

(** The loop over the ancestors of [relative]: up to the first one that is a directory,
  [relative] becomes each one that is not. *)
Fixpoint promote (relative : string) (ancestors : list string) : P string :=
  match ancestors with
  | [] => ret relative
  | parent :: ancestors =>
      info ← sys (Lstat (local_file parent));
      match info with
      | inl true => ret relative
      | inl false => promote parent ancestors
      | inr e =>
          if is_not_exist (ErrSys e) || is_not_dir (ErrSys e) then promote parent ancestors
          else throw (Wrapf "inspect changed ancestor" (ErrSys e))
      end
  end.

(** The first loop of [reconciliationScopes]: [None] is the whole tree. *)
Fixpoint normalize (paths : list string) : P (option (list string)) :=
  match paths with
  | [] => ret (Some [])
  | relative :: paths =>
      if (relative =? ".")%string then ret None
      else
        fail_if (negb (valid_change relative)) (Errorf "invalid changed path");;
        let relative := representable (String.length relative) relative in
        if (relative =? ".")%string then ret None
        else
          relative ← promote relative (parents relative);
          rest ← normalize paths;
          ret (match rest with
               | None => None
               | Some l => Some (if is_protected relative then l else relative :: l)
               end)
  end.

Definition reconciliationScopes (paths : list string) : P (list string) :=
  normalized ← normalize paths;
  ret (match normalized with None => ["."] | Some l => collapse l end).

(** The first loop of [syncScopes]: existing and deleted scopes. *)
Fixpoint classify (scopes : list string) : P (list string * list string) :=
  match scopes with
  | [] => ret ([], [])
  | relative :: scopes =>
      info ← sys (Lstat (local_file relative));
      gone ← match info with
             | inl _ => ret false
             | inr e =>
                 if is_not_exist (ErrSys e) || is_not_dir (ErrSys e) then ret true
                 else throw (Wrapf "inspect changed path" (ErrSys e))
             end;
      '(existing, deleted) ← classify scopes;
      ret (if (gone : bool) then (existing, relative :: deleted) else (relative :: existing, deleted))
  end.

Definition scoped_args (createDirectories : bool) (file : string) : list string :=
  payloadSyncArgs (sy_source s) (sy_dest s) state_filters (sy_excludes s) ++
  (if createDirectories then [] else ["--create-empty-src-dirs=false"]) ++
  ["--filter-from"; file].

(** The buffered writes of the rules are one write of the file. *)
Definition syncScopeGroup (scopes : list string) (createDirectories : bool) : P unit :=
  file ← obtain (CreateTemp "" "rclonewatch-scopes-*");
  finally
    (finally
      (check (WriteFile file (scope_file scopes createDirectories));;
       check (CloseFile file);;
       wrap "sync changed paths" (syncer_run (scoped_args createDirectories file)))
      (sys (CloseFile file);; ret tt))
    (sys (Remove file)).

Definition syncScopes (scopes : list string) : P unit :=
  '(existing, deleted) ← classify scopes;
  (if bool_decide (deleted = []) then ret tt else syncScopeGroup deleted false);;
  if bool_decide (existing = []) then ret tt else syncScopeGroup existing true.

Definition fullSync : P unit :=
  wrap "full sync" (syncer_run (payloadSyncArgs (sy_source s) (sy_dest s) state_filters (sy_excludes s))).

Definition upload (scopes : list string) : P unit :=
  match scopes with
  | p :: _ => if (p =? ".")%string then fullSync else syncScopes scopes
  | [] => ret tt
  end.

Definition unprotected (b : batch) : list string := List.filter (fun p => negb (is_protected p)) (fst <$> b).

Definition Sync (b : batch) : P unit :=
  match b with
  | [] => ret tt
  | _ =>
      scopes ← reconciliationScopes (unprotected b);
      if bool_decide (scopes = []) then ret tt
      else
        match sy_state s with
        | Some st =>
            wrap "advance generation" (BeforeRemoteChange st);;
            upload scopes;;
            AfterRemoteChange st
        | None => upload scopes
        end
  end.
End Syncer.
