(* ===== verification/Fixtures.v ===== *)
(** * A session on the concrete host

    A configuration and some states of the host of [MemHost], for witnesses and scenarios. *)

From S2P Require Import Prelude GoString GoTime Host MemHost SyncData StateFile SyncPath Options SyncState Acquire Session Payload.

Local Open Scope Z_scope.

Definition demo_paths : syncFilePaths := SyncFilePaths "/src/.rcw-state" "r:dst/.rcw-state" ".rcw-state" ".rcw-state".

Definition demo : syncState :=
  SyncState demo_paths "/src" "r:dst" (2 * minute) zero_wait second true false false
    "0123456789abcdef" "00000000-0000-4000-8000-000000000000" false [] false true true.

(** The same with an explicit wait of 0: no waiting for an active lock. *)
Definition demo_no_wait : syncState :=
  SyncState demo_paths "/src" "r:dst" (2 * minute) (LockWait 0 false true) second true false false
    "0123456789abcdef" "00000000-0000-4000-8000-000000000000" false [] false true true.

Definition start_in (m : mem) : st mem syncVars := St m initial_vars.

(** Nothing on either side. *)
Definition empty_host : mem := fresh_mem ∅ None false.

(** The start of a program: the lock, then the reconciliation. *)
Definition session_start (s : syncState) : M mem syncVars unit := Acquire s 10;; InitializeGeneration s.

(** The state after a first start: both sides at generation 1. *)
Definition demo_started : st mem syncVars := Eval vm_compute in out_state (session_start demo (start_in empty_host)).

Example demo_starts : res (session_start demo (start_in empty_host)) = Ok tt.
Proof. vm_compute. reflexivity. Qed.

(** A syncer of that session and a batch of one deleted file. *)
Definition demo_syncer : syncer := Syncer "/src" "r:dst" false (Some demo) [].
Definition demo_batch : batch := [("docs/a.txt"%stdpp, Change "docs/a.txt" false true)].
