(* ===== verification/SessionSpec.v ===== *)
(** * The session's contracts

    Every update of a session, as a contract over the actions it performs: which local states
    it saves, what it publishes and what it transfers, in which order, whatever the host
    answers.  Start-up is specified by [startup_plan], the decision table of the reconciliation
    rules. *)

From S2P Require Import Prelude GoString GoTime Host HostLogic SyncData Json StateFile SyncPath Options Filters SyncState SyncStateSpec Acquire Session.

Local Open Scope Z_scope.

(** ** Building blocks *)

(** Saving [d] as the local state: refused or failed before the rename, or renamed. *)
Definition saves (path : string) (d : syncFileData) : contract syncVars :=
  c_or c_fail (c_exists (fun c => fun v r v' l =>
    encodeLocalSyncFile d = Ok c /\ c_action (SaveLocal path c) v r v' l)).

Definition transfers (args : list string) : contract syncVars := c_action (Transfer (with_flag args)).

Definition replaces (s : syncState) (previous : remoteSyncFile) (candidate : syncFileData) : contract syncVars :=
  replace_outcome s previous candidate.

(** A reading of the local state file: absent, or well formed and initialized. *)
Definition local_reading (d : syncFileData) (b : bool) : Prop :=
  (b = false /\ d = no_data) \/ (b = true /\ wf_data d /\ Generation d <> 0).

Definition c_local (C : syncFileData -> bool -> contract syncVars) : contract syncVars :=
  c_or c_fail (c_exists (fun d => c_exists (fun b => fun v r v' l => local_reading d b /\ C d b v r v' l))).

Lemma saves_not_fuel path d v v' l : ~ saves path d v OutOfFuel v' l.
Proof. intros [[[? [? ?]] ?]|(c & ? & ? & [[? ?]|[[? [? ?]] ?]])]; done. Qed.
Lemma transfers_not_fuel args v v' l : ~ transfers args v OutOfFuel v' l.
Proof. intros (? & [[? ?]|[[? [? ?]] ?]]); done. Qed.
Lemma replaces_not_fuel s p c v v' l : ~ replaces s p c v OutOfFuel v' l.
Proof. intros H. inversion H. Qed.
Lemma skip_not_fuel (v v' : syncVars) l : ~ c_skip v OutOfFuel v' l.
Proof. by intros [? _]. Qed.
#[export] Hint Resolve saves_not_fuel transfers_not_fuel replaces_not_fuel skip_not_fuel c_wrap_not_fuel : go.

Section Blocks.
Context {W : Type} `{!Host W}.
Variable s : syncState.

Lemma satisfies_save path d : satisfies (W := W) (writeLocalSyncFile path d) (saves path d).
Proof.
  apply wp_satisfies. intros x. apply writeLocalSyncFile_wp.
  - intros c t _ _ Hc Ht w. exists [SaveLocal path c]. split; [done|]. right. exists c.
    split; [done|]. split; [done|]. by left.
  - intros e l t He Hl Ht w. exists l. split; [done|]. destruct Hl as [->|(c & Hc & ->)].
    + left. split; [by exists e|done].
    + right. exists c. split; [done|]. split; [done|]. right. split; [by exists e|by right].
Qed.

Lemma satisfies_run args :
  transfer (with_flag args) -> satisfies (W := W) (run s args) (transfers args).
Proof.
  intros Ht. apply wp_satisfies. intros x. apply run_wp; [done|..].
  - intros t Hl w. eexists. split; [done|]. split; [done|]. by left.
  - intros e l t He Hl Hl' w. exists l. split; [done|]. split; [done|]. right. split; [by exists e|done].
Qed.

Lemma satisfies_replace previous candidate :
  satisfies (W := W) (replaceOwnedRemote s previous candidate) (replaces s previous candidate).
Proof.
  apply wp_satisfies. intros x. apply replaceOwnedRemote_wp. intros r v l t H Hl w. by exists l.
Qed.

Lemma satisfies_getRemote (f : remoteSyncFile -> M W syncVars unit) (C : remoteSyncFile -> contract syncVars) :
  (forall r, satisfies (f r) (C r)) -> satisfies (getRemote ≫= f) (fun v => C (remote_ v) v).
Proof. intros Hf x. destruct (Hf (remote_ (vars x)) x) as (l & Hl & HC). by exists l. Qed.

Lemma satisfies_readLocal path (f : syncFileData * bool -> M W syncVars unit) C :
  (forall d b, local_reading d b -> satisfies (f (d, b)) (C d b)) ->
  satisfies (readLocalSyncFile path ≫= f) (c_local C).
Proof.
  intros Hf. apply wp_satisfies. intros x. apply wp_bind, readLocalSyncFile_wp.
  - intros d b t Ht Hr w. cbn [after]. eapply satisfies_wp; [by apply Hf|].
    intros r w' v l t' HC Hl. exists l. split; [by apply quiet_app_l|]. right. by exists d, b.
  - intros e t He Ht w. exists []. split; [done|]. left. split; [by exists e|done].
Qed.
End Blocks.

(** ** The two updates around a batch *)
Section Batch.
Variable s : syncState.

(** The local state saved before a batch, and the remote one published for it. *)
Definition batch_local (r : syncFileData) (id : string) : syncFileData :=
  local_state (RepositoryID r) (add_uint64 (Generation r) 1) id true true.
Definition batch_remote (r : syncFileData) (id : string) : syncFileData :=
  set_upload (add_uint64 (Generation r) 1) id true r.

(** First the local state of the next generation, then its publication. *)
Definition c_before : contract syncVars := fun v =>
  let r := remote_ v in
  if (Generation (data r) =? 0) || (Generation (data r) =? uint64_max) then c_fail v
  else c_exists (fun bytes =>
    c_seq (c_wrap "increment local generation" (saves (local_path s) (batch_local (data r) (rand_text bytes))))
          (c_wrap "publish generation" (replaces s r (batch_remote (data r) (rand_text bytes))))) v.

(** The local state of a completed generation. *)
Definition settled (r : syncFileData) : syncFileData :=
  local_state (RepositoryID r) (Generation r) (SyncID r) false true.

(** First the remote flag, then the local one. *)
Definition c_after : contract syncVars := fun v =>
  let r := remote_ v in
  c_seq (c_wrap "clear remote syncing flag" (replaces s r (set_Syncing false (data r))))
        (c_wrap "clear local syncing flag" (saves (local_path s) (settled (data r)))) v.

Definition c_upload_args : list string :=
  payloadSyncArgs (source s) (dest s) (payloadFilters (paths s)) (excludes s).
Definition c_download_args : list string :=
  payloadSyncArgs (dest s) (source s) (payloadFilters (paths s)) (excludes s).

Definition c_recover : contract syncVars :=
  c_seq c_before (c_seq (c_wrap "recover incomplete local-to-remote sync" (transfers c_upload_args)) c_after).

Lemma c_before_not_fuel v v' l : ~ c_before v OutOfFuel v' l.
Proof.
  unfold c_before. case_goal; [by intros [[? [? ?]] ?]|].
  intros (id & [(e & ? & ?)|(v1 & l1 & l2 & _ & H & _)]); [done|]. by apply replaces_not_fuel in H.
Qed.
Lemma c_after_not_fuel v v' l : ~ c_after v OutOfFuel v' l.
Proof.
  intros [(e & ? & ?)|(v1 & l1 & l2 & _ & H & _)]; [done|]. by apply saves_not_fuel in H.
Qed.

Context {W : Type} `{!Host W}.

Lemma BeforeRemoteChange_satisfies : satisfies (W := W) (BeforeRemoteChange s) c_before.
Proof.
  unfold BeforeRemoteChange. eapply satisfies_weaken.
  - apply satisfies_getRemote. intros r. apply satisfies_fail_if; [done|]. apply satisfies_fail_if; [done|].
    apply (satisfies_sys RandText); [done|]. intros bytes.
    apply satisfies_seq; [apply satisfies_wrap, satisfies_save|apply satisfies_wrap, satisfies_replace|auto with go].
  - intros v r v' l. unfold c_before. destruct (_ =? 0); [done|]. destruct (_ =? uint64_max); done.
Qed.

Lemma AfterRemoteChange_satisfies : satisfies (W := W) (AfterRemoteChange s) c_after.
Proof.
  unfold AfterRemoteChange. eapply satisfies_weaken.
  - apply satisfies_getRemote. intros r.
    apply satisfies_seq; [apply satisfies_wrap, satisfies_replace|apply satisfies_wrap, satisfies_save|].
    auto with go.
  - done.
Qed.

Lemma recover_satisfies :
  satisfies (W := W)
    (BeforeRemoteChange s;; wrap "recover incomplete local-to-remote sync" (syncToRemote s);; AfterRemoteChange s)
    c_recover.
Proof.
  apply satisfies_seq; [apply BeforeRemoteChange_satisfies| |apply c_before_not_fuel].
  apply satisfies_seq; [apply satisfies_wrap, (satisfies_run s c_upload_args (transfer_sync _))|apply AfterRemoteChange_satisfies|].
  auto with go.
Qed.
End Batch.

(** ** Start-up *)

(** The reconciliation rules: what start-up does with a local and a remote state. *)
Inductive plan := Initialize | Download | Recover | Ahead | Manual | Current.
#[export] Instance plan_eq_dec : EqDecision plan.
Proof. solve_decision. Defined.

Definition startup_plan (local : option syncFileData) (remote : syncFileData) : plan :=
  if Generation remote =? 0 then Initialize
  else match local with
  | None => Download
  | Some l =>
      match Generation l ?= Generation remote with
      | Lt => Download
      | Gt => if Syncing l && (Generation l =? Generation remote + 1) then Recover else Ahead
      | Eq =>
          if negb (SyncID l =? SyncID remote)%string then Download
          else if Syncing l || Syncing remote then if (SyncID l =? "")%string then Manual else Recover
          else if Active l then Recover else Current
      end
  end.

Definition reading (local : syncFileData) (localExists : bool) : option syncFileData :=
  if localExists then Some local else None.

Definition generation_ok (d : syncFileData) : Prop := 0 <= Generation d <= uint64_max.

(** The conditions of the code, in its order, are the table's. *)
Lemma startup_plan_needs local b remote :
  generation_ok remote ->
  needsSyncFromRemote local b remote = bool_decide (startup_plan (reading local b) remote = Download).
Proof.
  unfold needsSyncFromRemote, startup_plan, reading, generation_ok. intros Hr.
  destruct (Generation remote =? 0) eqn:E0; [done|]. destruct b; [|done]. simpl negb. rewrite orb_false_l.
  destruct (Z.compare_spec (Generation local) (Generation remote)) as [Hg|Hg|Hg].
  - rewrite Hg, Z.ltb_irrefl, Z.eqb_refl. simpl. repeat case_goal; done.
  - by replace (Generation local <? Generation remote) with true by lia.
  - replace (Generation local <? Generation remote) with false by lia.
    replace (Generation local =? Generation remote) with false by lia. simpl. by case_goal.
Qed.

(** The tests of [InitializeGeneration], in its order. *)
Definition incomplete (local remote : syncFileData) : bool := Syncing local || Syncing remote.
Definition ahead (local remote : syncFileData) : bool :=
  (Generation remote <? Generation local) &&
  negb (Syncing local && (Generation local =? add_uint64 (Generation remote) 1)).
Definition unidentified (local remote : syncFileData) : bool :=
  incomplete local remote && (Generation local =? Generation remote) && (SyncID local =? "")%string.

Lemma startup_plan_code local b remote :
  generation_ok remote -> local_reading local b ->
  startup_plan (reading local b) remote =
    if Generation remote =? 0 then Initialize
    else if needsSyncFromRemote local b remote then Download
    else if ahead local remote then Ahead
    else if incomplete local remote || Active local
         then if unidentified local remote then Manual else Recover
    else Current.
Proof.
  unfold generation_ok, local_reading, unidentified, incomplete, ahead, needsSyncFromRemote, startup_plan, reading.
  intros Hr Hl. destruct (Generation remote =? 0) eqn:E0; [done|]. reflect_bools.
  destruct Hl as [[-> ->]|(-> & (_ & Hg & _) & _)]; [done|]. simpl negb. rewrite orb_false_l.
  destruct (Z.compare_spec (Generation local) (Generation remote)) as [He|He|He].
  - rewrite He, Z.ltb_irrefl, Z.eqb_refl. simpl.
    destruct (SyncID local =? SyncID remote)%string; [|done]. simpl. rewrite andb_true_r.
    by destruct (Syncing local), (Syncing remote), (Active local), (SyncID local =? "")%string.
  - by replace (Generation local <? Generation remote) with true by lia.
  - rewrite add_uint64_small by (unfold uint64_max in *; lia).
    replace (Generation local <? Generation remote) with false by lia.
    replace (Generation local =? Generation remote) with false by lia.
    replace (Generation remote <? Generation local) with true by lia. rewrite andb_false_r. simpl.
    by destruct (Syncing local), (_ =? _).
Qed.

Section Startup.
Variable s : syncState.

Definition c_clear : contract syncVars := fun v r v' l =>
  v' = v /\ r <> OutOfFuel /\ (forall e, r = Err e -> ordinary e) /\
  l `prefix_of` [Transfer (with_flag (["delete"; dest s] ++
                   (if (remoteFilter (paths s) =? "")%string then []
                    else ["--exclude"; "/" +:+ literalFilterPath (remoteFilter (paths s))])));
                 Transfer (with_flag ["rmdirs"; dest s; "--leave-root"])].

(** Clear the remote, upload everything, publish generation 1, save it locally. *)
Definition c_initialize : contract syncVars :=
  c_seq (c_wrap "clear untracked remote payload" c_clear)
  (c_seq (c_wrap "initial local-to-remote sync" (transfers (c_upload_args s)))
  (fun v => c_exists (fun bytes => let id := rand_text bytes in
     c_seq (c_wrap "complete remote initialization"
              (replaces s (remote_ v) (set_upload 1 id false (data (remote_ v)))))
           (c_wrap "write initial local state"
              (saves (local_path s) (local_state (RepositoryID (data (remote_ v))) 1 id false true)))) v)).

Definition c_download (remote : syncFileData) : contract syncVars :=
  c_seq (transfers (c_download_args s))
        (saves (local_path s)
           (local_state (RepositoryID remote) (Generation remote) (SyncID remote) (Syncing remote) true)).

Definition c_plan (p : plan) : contract syncVars := fun v =>
  match p with
  | Initialize => c_initialize v
  | Download => c_download (data (remote_ v)) v
  | Recover => c_recover s v
  | Ahead | Manual => c_fail v
  | Current => c_skip v
  end.

(** What the answer to reading the local state file says: there is none, there is one, or the
    reading fails. *)
Definition local_answer (answer : string + sys_error) : option (option syncFileData) :=
  match answer with
  | inr NotExist => Some None
  | inr _ => None
  | inl contents =>
      match decodeSyncFile contents with
      | Ok d => if Generation d =? 0 then None else Some (Some d)
      | _ => None
      end
  end.

(** A state that was found is saved with the session marked active, then the plan is carried
    out. *)
Definition c_start (local : option syncFileData) : contract syncVars :=
  c_seq (match local with
         | Some d => c_wrap "mark local session active" (saves (local_path s) (set_Active true d))
         | None => c_skip
         end)
        (fun v r v' l => generation_ok (data (remote_ v)) ->
           c_plan (startup_plan local (data (remote_ v))) v r v' l).

(** The first operation reads the local state file; the rest follows what it answered. *)
Definition starts_from (C : option syncFileData -> contract syncVars) (v : syncVars) (r : result error unit)
    (v' : syncVars) (t : list event) : Prop :=
  exists answer rest l, t = Event (ReadFile (local_path s)) answer :: rest /\ acts t l /\
    match local_answer answer with
    | None => (exists e, r = Err e /\ ordinary e) /\ v' = v /\ rest = []
    | Some local => C local v r v' l
    end.
End Startup.

Section StartupSpec.
Context {W : Type} `{!Host W}.
Variable s : syncState.

Lemma ignore_not_found_wp args (Q : post (W := W) bool) x :
  transfer (with_flag args) ->
  (forall b l t, (l = [] \/ l = [Transfer (with_flag args)]) -> (b = true -> l = [Transfer (with_flag args)]) ->
     acts t l -> forallW Q (Ok b) (vars x) t) ->
  (forall e l t, ordinary e -> (l = [] \/ l = [Transfer (with_flag args)]) -> acts t l ->
     forallW Q (Err e) (vars x) t) ->
  wp (ignore_not_found (run s args)) Q x.
Proof.
  intros Ht H1 H2. unfold ignore_not_found. apply wp_bind, wp_try, run_wp; [done|..].
  - intros t Hl w. cbn [after]. apply wp_ret. apply (H1 _ [Transfer (with_flag args)]); auto with acts.
  - intros e l t He Hl Ha w. cbn [after]. destruct (isRcloneNotFound e).
    + apply wp_ret. apply (H1 _ l); [done|done|auto with acts].
    + apply wp_throw. apply (H2 _ l); [done|done|auto with acts].
Qed.

Lemma deleteRemotePayload_satisfies : satisfies (W := W) (deleteRemotePayload s) (c_clear s).
Proof.
  apply wp_satisfies. intros x. unfold deleteRemotePayload, c_clear.
  set (A := ["delete"; dest s] ++ _). set (B := ["rmdirs"; _; _]).
  assert (HA : transfer (with_flag A)) by apply transfer_delete.
  assert (HB : transfer (with_flag B)) by apply transfer_rmdirs. clearbody A B.
  assert (Hpre : forall l l', (l = [] \/ l = [Transfer (with_flag A)]) -> l' `prefix_of` l ->
    l' `prefix_of` [Transfer (with_flag A); Transfer (with_flag B)]).
  { intros l l' [-> | ->] H; [apply prefix_nil_inv in H as ->; apply prefix_nil|].
    etransitivity; [done|]. by eexists. }
  apply wp_bind, ignore_not_found_wp; [done|intros b l t Hl Hb Ha w|intros e l t He Hl Ha w]; cbn [after].
  2: { exists l. split; [done|]. split_and!; [done|done|by intros ? [= <-]|by eapply Hpre]. }
  destruct b.
  - rewrite (Hb eq_refl) in *. apply wp_bind, ignore_not_found_wp; [done|..].
    + intros b l' t' Hl' _ Ha' w'. cbn [after]. apply wp_ret. exists ([Transfer (with_flag A)] ++ l').
      split; [apply acts_app; [done|by rewrite app_nil_r]|].
      split_and!; [done|done|done|]. destruct Hl' as [-> | ->]; [by eexists|reflexivity].
    + intros e l' t' He Hl' Ha' w'. cbn [after]. exists ([Transfer (with_flag A)] ++ l').
      split; [by apply acts_app|].
      split_and!; [done|done|by intros ? [= <-]|]. destruct Hl' as [-> | ->]; [by eexists|reflexivity].
  - apply wp_ret. exists l. split; [auto with acts|]. split_and!; [done|done|done|by eapply Hpre].
Qed.

Lemma InitializeRemote_satisfies :
  satisfies (W := W) (InitializeRemote s)
    (fun v => if Generation (data (remote_ v)) =? 0 then c_initialize s v else c_skip v).
Proof.
  unfold InitializeRemote. eapply satisfies_weaken.
  - apply satisfies_getRemote. intros r.
    apply (satisfies_if (negb (Generation (data r) =? 0))); [apply satisfies_ret|].
    apply satisfies_seq; [apply satisfies_wrap, deleteRemotePayload_satisfies| |].
    + apply satisfies_seq; [apply satisfies_wrap, (satisfies_run s (c_upload_args s) (transfer_sync _))| |auto with go].
      apply satisfies_getRemote. intros r'. apply (satisfies_sys RandText); [done|]. intros bytes.
      apply satisfies_seq; [apply satisfies_wrap, satisfies_replace|apply satisfies_wrap, satisfies_save|auto with go].
    + intros v v' l (_ & H & _). done.
  - intros v r v' l. simpl. by destruct (Generation _ =? 0).
Qed.

Lemma readLocal_answer path (Q : post (W := W) (syncFileData * bool)) x :
  (forall answer local, local_answer answer = Some local ->
     local_reading (default no_data local) (bool_decide (is_Some local)) ->
     forallW Q (Ok (default no_data local, bool_decide (is_Some local))) (vars x) [Event (ReadFile path) answer]) ->
  (forall answer e, local_answer answer = None -> ordinary e ->
     forallW Q (Err e) (vars x) [Event (ReadFile path) answer]) ->
  wp (readLocalSyncFile path) Q x.
Proof.
  intros H1 H2. unfold readLocalSyncFile. apply wp_bind, wp_sys. intros [contents|e] w; cbn [after].
  2: { destruct e; cbn [is_not_exist]; first
         [ by apply wp_throw, H2 | apply wp_ret, (H1 (inr NotExist) None); [done|by left] ]. }
  apply wp_bind, wp_wrap, wp_lift. pose proof (decodeSyncFile_plain contents) as Hp.
  destruct (decodeSyncFile contents) as [d|e|] eqn:E; cbn [after]; [| |done].
  2: { apply (H2 (inl contents)); [by cbn; rewrite E|auto with go]. }
  apply wp_bind, wp_fail_if; intros Hg; cbn [after].
  - apply (H2 (inl contents)); [cbn; by rewrite E, Hg|done].
  - apply wp_ret, (H1 (inl contents) (Some d)); [cbn; by rewrite E, Hg|].
    right. apply decodeSyncFile_wf in E. cbn. by reflect_bools.
Qed.

Lemma readLocal_starts (f : syncFileData * bool -> M W syncVars unit) C x :
  (forall local, local_reading (default no_data local) (bool_decide (is_Some local)) ->
     satisfies (f (default no_data local, bool_decide (is_Some local))) (C local)) ->
  wp (readLocalSyncFile (local_path s) ≫= f) (fun r x' t => starts_from s C (vars x) r (vars x') t) x.
Proof.
  intros Hf. apply wp_bind, readLocal_answer; [intros answer local Ha Hr w|intros answer e Ha He w]; cbn [after].
  - eapply satisfies_wp; [by apply Hf|]. intros r w' v l t HC Hl.
    exists answer, t, l. split; [done|]. split; [by apply quiet_op_cons|]. by rewrite Ha.
  - exists answer, [], []. rewrite Ha. split_and!; [done|auto with acts| |done..]. by exists e.
Qed.

Lemma InitializeGeneration_starts x :
  wp (InitializeGeneration s) (fun r x' t => starts_from s (c_start s) (vars x) r (vars x') t) (x : st W syncVars).
Proof.
  unfold InitializeGeneration. apply readLocal_starts. intros local Hread. cbv beta iota. unfold c_start.
  apply satisfies_seq.
  - destruct local; [apply satisfies_wrap, satisfies_save|apply satisfies_ret].
  - eapply satisfies_weaken.
    + apply satisfies_getRemote. intros r. cbv zeta.
      apply satisfies_if; [apply InitializeRemote_satisfies|].
      apply satisfies_if.
      { apply satisfies_seq; [apply (satisfies_run s (c_download_args s) (transfer_sync _))|apply satisfies_save|auto with go]. }
      apply satisfies_fail_if; [done|]. apply satisfies_if; [|apply satisfies_ret].
      apply satisfies_fail_if; [done|]. apply recover_satisfies.
    + intros v r v' l H Hok.
      replace local with (reading (default no_data local) (bool_decide (is_Some local))) by by destruct local.
      rewrite startup_plan_code by done. revert H. unfold ahead, unidentified, incomplete.
      destruct (Generation (data (remote_ v)) =? 0) eqn:E0; [by rewrite E0|].
      case_goal; [done|]. case_goal; [done|]. case_goal; [by case_goal|done].
  - intros v v' l. destruct local; [apply c_wrap_not_fuel; auto with go|auto with go].
Qed.
End StartupSpec.

(** ** The end of a session *)
Section Ending.
Context {W : Type} `{!Host W}.
Variable s : syncState.

Definition c_finish : contract syncVars := c_local (fun local b =>
  if b then saves (local_path s) (set_Active false local) else c_fail).

Lemma FinishSession_satisfies : satisfies (W := W) (FinishSession s) c_finish.
Proof.
  unfold FinishSession, c_finish. apply satisfies_readLocal. intros d b Hread. cbv beta iota.
  eapply satisfies_weaken; [apply satisfies_fail_if; [done|apply satisfies_save]|]. by destruct b.
Qed.

(** What [Close] reports: the error of the release it made, the first time it ran. *)
Definition report (e : option error) : result error unit := match e with None => Ok tt | Some e => Err e end.

Definition c_close : contract syncVars := fun v r v' l =>
  r = report (releaseErr v') /\
  if closed v then v' = v /\ l = []
  else
    let v1 := if has_releaseRunner s then set_releaseRunner (set_closed v) else set_closed v in
    if persistent s then v' = v1 /\ l = []
    else exists r2 v2,
      replaces s (remote_ v1) (set_Lock None (data (remote_ v1))) v1 r2 v2 l /\
      v' = set_releaseErr (match r2 with Err e => Some e | _ => None end) v2.

Lemma report_wp (Q : post (W := W) unit) x :
  Q (report (releaseErr (vars x))) x [] ->
  wp (v ← get; match releaseErr v with None => ret tt | Some e => throw e end) Q x.
Proof.
  intros H. apply wp_bind, wp_get. cbn [after]. destruct (releaseErr (vars x)); wp_run; exact H.
Qed.

Lemma Close_satisfies : satisfies (W := W) (Close s) c_close.
Proof.
  apply wp_satisfies. intros [w v]. unfold Close, c_close. cbn [vars].
  apply wp_bind, wp_get. cbn [after vars]. apply wp_bind.
  destruct (closed v) eqn:Ec.
  { apply wp_ret. cbn [after]. apply report_wp. exists []. split; [auto with acts|done]. }
  apply wp_bind, wp_modify. cbn [after vars host]. apply wp_bind.
  set (v1 := if has_releaseRunner s then set_releaseRunner (set_closed v) else set_closed v).
  assert (Hrun : forall Q : post (W := W) unit, Q (Ok tt) (St w v1) [] ->
    wp (if has_releaseRunner s then modify set_releaseRunner else ret tt) Q (St w (set_closed v)))
    by (intros Q HQ; subst v1; by destruct (has_releaseRunner s)).
  apply Hrun. cbn [after]. destruct (persistent s).
  { apply wp_ret. cbn [after]. apply report_wp. exists []. split; [auto with acts|done]. }
  unfold getRemote. apply wp_bind, wp_bind, wp_get. cbn [after vars]. apply wp_ret. cbn [after].
  apply wp_bind, wp_try, replaceOwnedRemote_wp. intros r v2 l t H Ha w'. cbn [vars] in H.
  destruct r as [[]|e|]; [..|by apply replaces_not_fuel in H]; cbn [after];
    apply wp_modify; cbn [after vars host]; apply report_wp; cbn [vars releaseErr];
    exists l; (split; [rewrite ?app_nil_l, ?app_nil_r; auto with acts|]); split; [done| |done|]; by eexists _, v2.
Qed.

Lemma Close_closes (x : st W syncVars) : closed (vars (out_state (Close s x))) = true.
Proof.
  destruct (Close_satisfies x) as (l & _ & _ & Hc). destruct (closed (vars x)) eqn:E; [by destruct Hc as [-> _]|].
  destruct (persistent s); [destruct Hc as [-> _]; by destruct (has_releaseRunner s)|].
  destruct Hc as (r2 & v2 & H & ->). cbn [closed set_releaseErr].
  inversion H; subst; by destruct (has_releaseRunner s).
Qed.

(** A second call answers what the first one did and performs nothing. *)
Lemma Close_again (x : st W syncVars) :
  let o := Close s x in Close s (out_state o) = Outcome (res o) (out_state o) [].
Proof.
  intros o. destruct (Close_satisfies x) as (l & _ & Hr & _). pose proof (Close_closes x) as Hclosed. fold o in Hr, Hclosed.
  generalize dependent (out_state o). generalize dependent (res o). clear o. intros r [w v] Hr Hclosed.
  cbn [vars] in *. unfold Close, bind, mbind, M_bind, get, ret, bind. cbn. rewrite Hclosed. cbn. rewrite Hr.
  by destruct (releaseErr v).
Qed.
End Ending.

(** ** Guarantees *)

(** C4: start-up refines the reconciliation table [startup_plan] for every host. Its first
    operation reads the local state file. If that fails or the file is no valid state, nothing
    else happens. Otherwise the state found there is saved with the session marked active, and
    the plan of the table for this state and the remote one is carried out: initialize,
    download, recover by uploading, refuse, or do nothing, with the plan's actions in their
    order. *)
Theorem startup_follows_plan (W : Type) (H : Host W) s (x : st W syncVars) :
  starts_from s (c_start s) (vars x) (res (InitializeGeneration s x))
    (vars (out_state (InitializeGeneration s x))) (trace (InitializeGeneration s x)).
Proof. apply InitializeGeneration_starts. Qed.

(** C10: before a batch, the local state of the next generation is saved before that generation
    is published, with the same fresh identifier, and nothing is published if the save fails or
    the generation cannot be incremented. *)
Theorem generation_saved_before_published (W : Type) (H : Host W) s :
  satisfies (W := W) (BeforeRemoteChange s) (c_before s).
Proof. apply BeforeRemoteChange_satisfies. Qed.

(** After a batch, the remote flag is cleared before the local one, and the local one is
    left set when clearing the remote one fails. *)
Theorem flags_cleared_in_order (W : Type) (H : Host W) s : satisfies (W := W) (AfterRemoteChange s) (c_after s).
Proof. apply AfterRemoteChange_satisfies. Qed.

(** The end of a session writes the local state back with nothing but the session marker
    cleared, and fails when the state file has gone missing. *)
Theorem session_end_clears_marker (W : Type) (H : Host W) s : satisfies (W := W) (FinishSession s) (c_finish s).
Proof. apply FinishSession_satisfies. Qed.

(** C18: [Close] releases the lock exactly once: the first call publishes the remote state
    without its lock (never for a persistent lock, and only while the lock is still owned); a
    second call performs nothing and answers the same. *)
Theorem Close_releases_once (W : Type) (H : Host W) s :
  satisfies (W := W) (Close s) (c_close s) /\
  forall x : st W syncVars,
    Close s (out_state (Close s x)) = Outcome (res (Close s x)) (out_state (Close s x)) [].
Proof. split; [apply Close_satisfies|intros x; apply Close_again]. Qed.
