(* ===== verification/Readings.v ===== *)
(** * What a run has read, and what it performs on that ground

    The trace of a run holds the readings of the remote state file. [last_reading] is the state
    that the last of them shows, and [performs] states of every action of a trace a condition
    on the events before it: together they say from which reading a published state comes. *)

From S2P Require Import Prelude GoString GoTime Host HostLogic SyncData Json StateFile SyncPath Options Filters SyncState SyncStateSpec.

Local Open Scope Z_scope.

(** ** Actions and what came before them *)

(** The contents of the files that the events of a trace wrote. *)
Definition written_files (t : list event) : gmap string string := foldl track ∅ t.

(** Every action of [t] satisfies [J] with the events before it. *)
Fixpoint performs (J : list event -> action -> Prop) (pre t : list event) : Prop :=
  match t with
  | [] => True
  | e :: t => (forall a, event_action (written_files pre) e = Some a -> J pre a) /\ performs J (pre ++ [e]) t
  end.

Lemma performs_app J pre t1 t2 : performs J pre (t1 ++ t2) <-> performs J pre t1 /\ performs J (pre ++ t1) t2.
Proof.
  revert pre. induction t1 as [|e t1 IH]; intros pre; cbn [performs app].
  - rewrite app_nil_r. naive_solver.
  - rewrite IH, <- (app_assoc pre). cbn [app]. naive_solver.
Qed.

Lemma written_files_snoc pre e : written_files (pre ++ [e]) = track (written_files pre) e.
Proof. unfold written_files. by rewrite foldl_app. Qed.

Lemma quiet_performs J t pre : quiet t -> performs J pre t.
Proof.
  intros Hq. specialize (Hq (written_files pre)). revert pre Hq.
  induction t as [|e t IH]; intros pre H; cbn [performs]; [done|]. cbn [actions] in H.
  apply app_eq_nil in H as [He Ht]. split.
  - intros a Ha. by rewrite Ha in He.
  - apply IH. by rewrite written_files_snoc.
Qed.

Lemma performs_mono (J J' : list event -> action -> Prop) pre t :
  (forall pre a, J pre a -> J' pre a) -> performs J pre t -> performs J' pre t.
Proof. intros HJ. revert pre. induction t as [|e t IH]; intros pre; cbn [performs]; [done|]. naive_solver. Qed.

(** ** Readings *)
Section Readings.
Variable s : syncState.

(** The answers to the commands that print the remote state file. *)
Definition reading_answer (e : event) : option cmd_output :=
  match ev_op e in op A return A -> _ with
  | Rclone args => fun out => if bool_decide (args = cat_args s) then Some out else None
  | _ => fun _ => None
  end (ev_answer e).

(** The state such an answer shows: absent, or what its text decodes to with the ETag of the
    response. *)
Definition shown (out : cmd_output) : option remoteSyncFile :=
  match cmd_err out with
  | Some e => if isRcloneNotFound (ErrSys e) then Some no_remote else None
  | None =>
      if (cmd_stdout out =? "")%string then Some no_remote
      else match decodeSyncFile (cmd_stdout out) with
           | Ok d => Some (RemoteSyncFile d (if consistentWrites s then responseETag (cmd_stderr out) else "") true)
           | _ => None
           end
  end.

Definition last_reading (t : list event) : option remoteSyncFile := last (omap reading_answer t) ≫= shown.

(** Nothing of [t] reads the remote state file. *)
Definition unread (t : list event) : Prop := omap reading_answer t = [].

Lemma unread_app t1 t2 : unread t1 -> unread t2 -> unread (t1 ++ t2).
Proof. unfold unread. intros H1 H2. by rewrite omap_app, H1, H2. Qed.

Lemma last_reading_unread t t' : unread t' -> last_reading (t ++ t') = last_reading t.
Proof. unfold unread, last_reading. intros H. by rewrite omap_app, H, app_nil_r. Qed.

Lemma unread_command args out : head args <> Some "cat"%stdpp -> unread [Event (Rclone args) out].
Proof.
  intros H. unfold unread. cbn. rewrite bool_decide_false; [done|]. intros ->. by apply H.
Qed.

Lemma last_reading_cat t out r t' :
  shown out = Some r -> unread t' -> last_reading (t ++ Event (Rclone (cat_args s)) out :: t') = Some r.
Proof.
  intros Hs Hu. change (Event (Rclone (cat_args s)) out :: t') with ([Event (Rclone (cat_args s)) out] ++ t').
  rewrite app_assoc, last_reading_unread by done. unfold last_reading. rewrite omap_app. cbn.
  rewrite bool_decide_true by done. by rewrite last_snoc.
Qed.

Section Operations.
Context {W : Type} `{!Host W}.
Implicit Types (x : st W syncVars).

Lemma remoteStateExists_unread x : wp (remoteStateExists s) (fun _ _ t => unread t) x.
Proof.
  unfold remoteStateExists. apply wp_bind, wp_lift.
  destruct (resolveRemoteSyncFile _ _) as [[parent f]| |]; cbn [after]; [|done..].
  apply wp_bind, wp_lift. destruct (parseRemote _); cbn [after]; [|done..].
  apply wp_bind, runner_Run_wp; cbn [after]; [|by apply wp_throw].
  intros out w. cbn [after]. destruct (cmd_err out).
  - destruct (isRcloneNotFound _); wp_run; rewrite app_nil_r; by apply unread_command.
  - apply wp_bind, wp_lift. destruct (decode_entries _ _); cbn [after]; [|rewrite app_nil_r; by apply unread_command..].
    apply wp_bind, wp_lift. destruct (entry_paths _ _); cbn [after]; [apply wp_ret|..];
      rewrite ?app_nil_r; by apply unread_command.
Qed.

(** What [readRemote] returns is what the trace shows last. *)
Lemma readRemote_last x :
  wp (readRemote s) (fun r _ t => forall a, r = Ok a -> forall pre, last_reading (pre ++ t) = Some a) x.
Proof.
  unfold readRemote. apply wp_bind, runner_Run_wp; [|by apply wp_throw].
  intros out w. cbn [after]. fold (cat_args s).
  destruct (cmd_err out) as [e|] eqn:Eo.
  { destruct (isRcloneNotFound _) eqn:En; [|by apply wp_throw].
    apply wp_ret. intros a [= <-] pre. apply last_reading_cat; [|done]. unfold shown. by rewrite Eo, En. }
  apply wp_bind.
  eapply (wp_mono _ (fun r _ t => unread t /\ ((cmd_stdout out =? "")%string = false -> r = Ok true))).
  { destruct (cmd_stdout out =? "")%string; [|by apply wp_ret]. apply wp_wrap.
    eapply wp_mono; [apply remoteStateExists_unread|]. cbn beta. by intros [] ? ? ?. }
  intros [b|e|] x1 t [Hu Hb]; cbn [after]; [|done..]. destruct b; cbn [negb].
  2: { apply wp_ret. intros a [= <-] pre. rewrite app_nil_r. apply last_reading_cat; [|done].
       unfold shown. rewrite Eo. destruct (cmd_stdout out =? "")%string; [done|]. by specialize (Hb eq_refl). }
  apply wp_bind, wp_wrap, wp_lift. destruct (decodeSyncFile (cmd_stdout out)) as [d|e|] eqn:Ed; cbn [after]; [|done..].
  apply wp_bind, wp_fail_if; intros _; cbn [after]; [done|].
  apply wp_ret. intros a [= <-] pre. rewrite !app_nil_r. apply last_reading_cat; [|done].
  unfold shown. rewrite Eo, Ed. destruct (cmd_stdout out =? "")%string eqn:E; [|done].
  exfalso. reflect_bools. rewrite E in Ed. by vm_compute in Ed.
Qed.

Lemma readRemote_reads (Q : post (W := W) remoteSyncFile) x :
  (forall r t, quiet t -> remote_reading s r -> (forall pre, last_reading (pre ++ t) = Some r) -> forallW Q (Ok r) (vars x) t) ->
  (forall e t, ordinary e -> quiet t -> forallW Q (Err e) (vars x) t) ->
  wp (readRemote s) Q x.
Proof.
  intros H1 H2.
  eapply wp_mono; [apply wp_and; [apply readRemote_last|apply (readRemote_wp s (fun r x' t =>
    vars x' = vars x /\ quiet t /\ match r with Ok r => remote_reading s r | Err e => ordinary e | OutOfFuel => False end))]|].
  - intros r t Ht Hr w. done.
  - intros e t He Ht w. done.
  - intros r [w v] t [Hl (Hv & Ht & Hr)]. cbn [vars] in Hv. subst v.
    destruct r; [apply H1|apply H2|]; auto; done.
Qed.

(** The upload of a state: the contents are its encoding, and nothing else happens. *)
Lemma writeRemote_performs J d tag pre x :
  (forall t contents acc, encodeSyncFile (set_Active false d) = Ok contents -> unread t ->
     J (pre ++ t) (Publish contents (condition_args s tag) acc)) ->
  wp (writeRemote s d tag) (fun _ x' t => vars x' = vars x /\ performs J pre t /\ unread t) x.
Proof.
  intros HJ. destruct x as [w0 v0]. unfold writeRemote, run.
  assert (Hq : forall v t, v = v0 -> quiet t -> unread t -> v = v0 /\ performs J pre t /\ unread t)
    by (intros; split_and!; auto using quiet_performs).
  apply wp_bind, wp_lift. destruct (encodeSyncFile _) as [contents|e|]; cbn [after]; [|by split..].
  apply wp_bind, wp_obtain; [intros name w|intros e w]; cbn [after vars]; [|by apply Hq].
  apply wp_finally, wp_bind, wp_try, wp_check; [intros w1|intros e w1]; cbn [after vars]; [|by wp_run; apply Hq].
  apply wp_bind, wp_check; [intros w2|intros e w2]; cbn [after vars]; [|by wp_run; apply Hq].
  apply wp_bind, runner_Run_wp; cbn [after cmd_err cmd_stderr vars].
  2: { destruct (logs s); wp_run; by apply Hq. }
  intros out w3. cbn [after].
  set (t0 := [Event (CreateTemp "" "rclonewatch-sync-*") (inl name); Event (WriteFile name contents) None; Event (CloseFile name) None]).
  set (up := Event (Rclone _) out).
  assert (Hdone : vars (St w0 v0) = v0 /\ performs J pre (t0 ++ [up; Event (Remove name) tt]) /\ unread (t0 ++ [up; Event (Remove name) tt])).
  { split; [done|]. split.
    - apply performs_app. split; [apply quiet_performs; by intros ?|]. cbn [performs]. split; [|by split].
      intros a Ha. unfold event_action in Ha. cbn in Ha. unfold written_files in Ha. rewrite foldl_app in Ha. cbn in Ha.
      rewrite lookup_insert_eq in Ha. cbn in Ha. injection Ha as <-. unfold upload_condition. cbn. rewrite removelast_last.
      by apply HJ.
    - apply (unread_app t0); [done|]. apply (unread_app [up]); [by apply unread_command|done]. }
  destruct (cmd_err out); [destruct (logs s)|]; wp_run; destruct a; exact Hdone.
Qed.
End Operations.
End Readings.
