(* ===== verification/AcquireSpec.v ===== *)
(** * What acquiring the lock does

    [Acquire] publishes nothing until the two states have passed validation, publishes
    nothing but lock changes, waits for an active lock until its TTL has passed since it was
    first seen, and succeeds only with its own lock read back.  With a clock that advances,
    the verification loop ends. *)

From S2P Require Import Prelude GoString GoTime Host HostLogic SyncData Json StateFile SyncPath Options Filters SyncState SyncStateSpec Acquire Session SessionSpec Readings MemHost Fixtures.

Local Open Scope Z_scope.

(** ** Validation *)

(** The two states may go on to the plan of [startup_plan]. *)
Definition validated (s : syncState) (local : option syncFileData) (remote : remoteSyncFile) : Prop :=
  (exists_ remote = true -> forall d, local = Some d -> RepositoryID d = RepositoryID (data remote)) /\
  (exists_ remote = true -> startup_plan local (data remote) <> Ahead) /\
  (failOnIncomplete s = true -> exists_ remote = true -> Syncing (data remote) = true ->
     startup_plan local (data remote) <> Download).

Section Spec.
Context {W : Type} `{!Host W}.
Variable s : syncState.

Lemma remotePayloadEmpty_wp (Q : post (W := W) bool) x :
  (forall b t, quiet t -> forallW Q (Ok b) (vars x) t) ->
  (forall e t, ordinary e -> quiet t -> forallW Q (Err e) (vars x) t) ->
  wp (remotePayloadEmpty s) Q x.
Proof.
  intros H1 H2. destruct x as [w0 v0]. unfold remotePayloadEmpty.
  apply wp_bind, runner_Run_wp; cbn [after cmd_err cmd_stderr]; [|apply wp_throw, H2; auto 8 with acts go].
  intros out w. cbn [after]. destruct (cmd_err out) as [e|].
  - destruct (isRcloneNotFound _); [apply wp_ret, H1|apply wp_throw, H2]; auto 8 with acts go.
  - apply wp_bind, wp_lift. pose proof (decode_entries_plain "decode remote listing" (cmd_stdout out)) as He.
    destruct (decode_entries _ _) as [es| |]; cbn [after]; [|apply H2; auto 8 with acts|done].
    apply wp_ret, H1. auto 8 with acts.
Qed.

Lemma remote_reading_generation r : remote_reading s r -> generation_ok (data r).
Proof. intros [->|(_ & (_ & H & _) & _)]; [|done]. unfold generation_ok, uint64_max. simpl. lia. Qed.

(** The tests of the code amount to the plan not being refused. *)
Lemma validated_spec local b remote :
  remote_reading s remote -> local_reading local b ->
  b && exists_ remote && negb (RepositoryID local =? RepositoryID (data remote))%string = false ->
  failOnIncomplete s && exists_ remote && Syncing (data remote) && needsSyncFromRemote local b (data remote) = false ->
  exists_ remote && (0 <? Generation (data remote)) && b && (Generation (data remote) <? Generation local) &&
    negb (b && exists_ remote && Syncing local && (Generation local =? add_uint64 (Generation (data remote)) 1)) = false ->
  validated s (reading local b) remote.
Proof.
  intros Hr Hl H1 H2 H3. pose proof (remote_reading_generation _ Hr) as Hg. split; [|split].
  - intros He d Hd. destruct b; [|done]. injection Hd as ->. rewrite He in H1. simpl in H1. by reflect_bools.
  - intros He. rewrite He in H3. rewrite startup_plan_code by done.
    destruct (Generation (data remote) =? 0) eqn:E0; [done|].
    destruct (needsSyncFromRemote _ _ _) eqn:En; [done|].
    unfold ahead. reflect_bools. unfold generation_ok in Hg.
    replace (0 <? Generation (data remote)) with true in H3 by lia.
    destruct b; [|by unfold needsSyncFromRemote in En; destruct (_ =? 0) eqn:E1; [lia|]].
    simpl in H3. rewrite H3. by repeat case_goal.
  - intros Hf He Hs. rewrite Hf, He, Hs in H2. simpl in H2.
    rewrite startup_plan_needs in H2 by done. by reflect_bools.
Qed.

Lemma validateAcquisition_wp local b remote (Q : post (W := W) unit) x :
  remote_reading s remote -> local_reading local b ->
  (forall t, quiet t -> validated s (reading local b) remote -> forallW Q (Ok tt) (vars x) t) ->
  (forall e t, ordinary e -> quiet t -> forallW Q (Err e) (vars x) t) ->
  wp (validateAcquisition s local b remote) Q x.
Proof.
  intros Hr Hl H1 H2. destruct x as [w0 v0]. unfold validateAcquisition.
  apply wp_bind, wp_fail_if; intros Hrepo; cbn [after]; [apply H2; auto with go acts|].
  apply wp_bind, wp_fail_if; intros Hinc; cbn [after]; [apply H2; simpl; auto with go acts|].
  apply wp_bind.
  assert (Hm : forall Q' : post (W := W) unit,
    (forall t, quiet t -> forallW Q' (Ok tt) v0 t) ->
    (forall e t, ordinary e -> quiet t -> forallW Q' (Err e) v0 t) ->
    wp (if negb (exists_ remote) && negb (forceDeleteUntrackedRemote s) then
          empty ← wrap "inspect untracked remote destination" (remotePayloadEmpty s);
          fail_if (negb empty) (Errorf "remote destination has no state file and is not empty; use --force-delete-untracked-remote to delete its contents and initialize it")
        else ret tt) Q' (St w0 v0)).
  { intros Q' H3 H4. case_goal; [|apply wp_ret, H3; auto with acts].
    apply wp_bind, wp_wrap, remotePayloadEmpty_wp; [intros e t Ht w|intros e t He Ht w]; cbn [after].
    - apply wp_fail_if; intros _; [apply H4|apply H3]; auto with go acts.
    - apply H4; auto with go. }
  apply Hm; [intros t Ht w|intros e t He Ht w]; cbn [after]; [|by apply H2].
  apply wp_fail_if; intros Hahead; simpl.
  - apply H2; auto with go acts.
  - apply H1; [auto with acts|]. by apply validated_spec.
Qed.
End Spec.

(** ** The loops *)
Section Loops.
Context {W : Type} `{!Host W}.
Variable s : syncState.

Lemma verifyAcquiredLock_wp fuel deadline (Q : post (W := W) remoteSyncFile) x :
  (forall r t, quiet t -> remote_reading s r -> forallW Q (Ok r) (vars x) t) ->
  (forall e t, quiet t -> forallW Q (Err e) (vars x) t) ->
  (forall t, quiet t -> forallW Q OutOfFuel (vars x) t) ->
  wp (verifyAcquiredLock s fuel deadline) Q x.
Proof.
  revert Q x. induction fuel as [|fuel IH]; intros Q [w v] H1 H2 H3; cbn [verifyAcquiredLock].
  { apply wp_out_of_fuel, H3. auto with acts. }
  apply wp_bind, wp_try, readRemote_wp; [intros r t Ht Hr w1|intros e t He Ht w1]; cbn [after vars].
  { apply wp_ret, H1; auto with acts. }
  apply wp_bind, wp_sys. intros now w2. cbn [after vars]. destruct (_ <=? 0).
  { apply wp_throw, H2. auto 8 with acts. }
  apply wp_bind, wp_sys. intros [g|] w3; cbn [after vars].
  { apply wp_throw, H2. auto 8 with acts. }
  apply IH; cbn [vars]; intros; intros w4; [apply H1|apply H2|apply H3]; auto 8 with acts.
Qed.

(** The lock of [remote] may be replaced: there is none, or the clock has read an instant
  past the one at which the lock's TTL, counted from when it was first seen, is over. *)
Definition expired_lock (o : observation) (remote : remoteSyncFile) (t : list event) : Prop :=
  Lock (data remote) = None \/
  observedLock o = lockIdentity remote /\
  exists t0 now, t = t0 ++ [Event Now now] /\ observedAt o + lockTTL remote (timeout s) <= now.

(** The observation was made by reading the clock, or was there before. *)
Definition observed (o o' : observation) (t : list event) : Prop :=
  o' = o \/ exists t0 t1, t = t0 ++ [Event Now (observedAt o')] ++ t1.

Definition await_post (o : observation) (remote : remoteSyncFile) (v0 : syncVars) :
    post (W := W) (V := syncVars) (observation * remoteSyncFile) := fun r x t =>
  quiet t /\ vars x = v0 /\
  match r with
  | Ok (o', r') => (r' = remote \/ remote_reading s r') /\ expired_lock o' r' t /\ observed o o' t
  | _ => True
  end.

Lemma expired_lock_app o remote t0 t : expired_lock o remote t -> expired_lock o remote (t0 ++ t).
Proof.
  intros [H|(H & t1 & now & -> & Hn)]; [by left|right]. split; [done|]. exists (t0 ++ t1), now. by rewrite app_assoc.
Qed.

Lemma observed_app_l o o' t0 t : observed o o' t -> observed o o' (t0 ++ t).
Proof.
  intros [H|(t1 & t2 & ->)]; [by left|right]. exists (t0 ++ t1), t2. by rewrite <- app_assoc.
Qed.

Lemma observed_trans o o1 o2 t0 t : observed o o1 t0 -> observed o1 o2 t -> observed o o2 (t0 ++ t).
Proof.
  intros H0 [->|H]; [|apply observed_app_l; by right].
  destruct H0 as [->|(t1 & t2 & ->)]; [by left|right]. exists t1, (t2 ++ t). by rewrite <- !app_assoc.
Qed.

Lemma awaitLock_wp fuel deadline o remote x :
  wp (awaitLock s fuel deadline o remote) (await_post o remote (vars x)) x.
Proof.
  revert o remote x. induction fuel as [|fuel IH]; intros o remote [w v]; cbn [awaitLock].
  { apply wp_out_of_fuel. split; [auto with acts|done]. }
  destruct (Lock (data remote)) as [lk|] eqn:El; [|apply wp_ret].
  2: { split; [auto with acts|]. split; [done|]. split; [by left|]. split; by left. }
  apply wp_bind.
  set (P := fun (r : result error observation) (x' : st W syncVars) (t : list event) =>
    quiet t /\ vars x' = v /\
    match r with Ok o' => observedLock o' = lockIdentity remote /\ observed o o' t | _ => True end).
  assert (Hobs : wp (if (observedLock o =? lockIdentity remote)%string then ret o
    else fail_if (defaultWait s && negb (observedLock o =? "")%string) (Errorf "remote lock was refreshed while waiting");;
         now ← sys Now; ret (Observation (lockIdentity remote) now)) P (St w v)).
  { destruct (observedLock o =? lockIdentity remote)%string eqn:Eo; reflect_bools.
    - apply wp_ret. split; [auto with acts|]. split; [done|]. split; [done|by left].
    - apply wp_bind, wp_fail_if; intros _; cbn [after]; [split; [auto with acts|done]|].
      apply wp_bind, wp_sys. intros now w1. cbn [after vars]. apply wp_ret.
      split; [auto with acts|]. split; [done|]. split; [done|right]. by exists [], []. }
  eapply wp_mono; [exact Hobs|]. clear Hobs. intros [o1|e|] [w1 v1] t (Ht & Hv & Ho); cbn [vars] in Hv; subst v1; cbn [after].
  2,3: by split.
  destruct Ho as [Hid Ho]. apply wp_bind, wp_sys. intros now w2. cbn [after vars].
  destruct (now <? _) eqn:En; cbn [negb].
  2: { apply wp_ret. reflect_bools. split; [auto with acts|]. split; [done|]. split; [by left|].
       split; [right; split; [done|]; by exists t, now|].
       destruct Ho as [->|(t0 & t1 & ->)]; [by left|right].
       exists t0, (t1 ++ [Event Now now]). by rewrite <- !app_assoc. }
  apply wp_bind, wp_fail_if; intros _; cbn [after]; [split; [auto with acts|done]|].
  apply wp_bind.
  set (C := fun (r : result error unit) (x' : st W syncVars) (t : list event) => quiet t /\ vars x' = v).
  assert (Hdl : wp (if deadline =? time_zero then ret tt
    else now ← sys Now; fail_if (negb (now <? deadline)) (Errorf "timed out waiting for remote lock")) C (St w2 v)).
  { case_goal; [apply wp_ret; split; auto with acts|]. apply wp_bind, wp_sys. intros n1 w3. cbn [after].
    apply wp_fail_if; intros _; split; auto with acts. }
  eapply wp_mono; [exact Hdl|]. clear Hdl. intros [[]|e|] [w3 v3] t3 [Ht3 Hv3]; cbn [vars] in Hv3; subst v3; cbn [after].
  2,3: split; [auto 8 with acts|done].
  apply wp_bind, wp_sys. intros n1 w4. cbn [after vars]. apply wp_bind, wp_sys. intros n2 w5. cbn [after vars].
  apply wp_bind, wp_sys. intros [g|] w6; cbn [after vars]; [apply wp_throw; split; [auto 10 with acts|done]|].
  apply wp_bind, readRemote_wp; [intros r' t6 Ht6 Hr' w7|intros e t6 He Ht6 w7]; cbn [after vars].
  2: { split; [auto 10 with acts|done]. }
  eapply wp_mono; [apply IH|]. intros r x' t7 (Ht7 & Hv7 & Hr). split; [auto 12 with acts|]. split; [done|].
  destruct r as [[o' r2]|e|]; [|done..]. destruct Hr as (H1 & H2 & H3). split; [|split].
  - destruct H1 as [->|H1]; by right.
  - repeat first [done | apply expired_lock_app].
  - eapply observed_trans; [exact Ho|]. repeat first [done | apply observed_app_l].
Qed.
End Loops.

(** ** The whole acquisition *)

(** The state that acquiring the lock publishes: the one that was read with nothing but its
    lock replaced, or, where there is none, an initialization in progress. *)
Definition locked_state (s : syncState) (local : option syncFileData) (remote : remoteSyncFile)
    (lock : syncFileLock) : syncFileData :=
  if exists_ remote
  then SyncFileData (RepositoryID (data remote)) (Generation (data remote)) (SyncID (data remote))
         (Syncing (data remote)) false (Some lock)
  else SyncFileData (match local with Some d => RepositoryID d | None => repositoryID s end) 0 "" false false
         (Some lock).

(** [remote] is what the last reading in [pre] showed, it passed validation, and [c] is it with
    this owner's lock, of the configured TTL and from an instant the clock has shown. *)
Definition lock_candidate (s : syncState) (local : option syncFileData) (pre : list event) (remote : remoteSyncFile)
    (c : syncFileData) : Prop :=
  last_reading s pre = Some remote /\ validated s local remote /\
  exists now, Event Now now ∈ pre /\ c = locked_state s local remote (SyncFileLock (owner s) (utc now) (timeout s)).

(** The upload of a candidate, on the condition that the state that was read is still there. *)
Definition publishes_candidate (s : syncState) (local : option syncFileData) (pre : list event) (a : action) : Prop :=
  exists remote c contents accepted, lock_candidate s local pre remote c /\ encodeSyncFile c = Ok contents /\
    a = Publish contents (condition_args s (etag remote)) accepted.

(** The last reading of [t] is the state [v] holds, it carries this owner's lock, and it is the
    candidate written over an earlier reading. *)
Definition lock_obtained (s : syncState) (local : option syncFileData) (t : list event) (v : syncVars) : Prop :=
  exists t1 t2 remote c, t = t1 ++ t2 /\ lock_candidate s local t1 remote c /\
    last_reading s t = Some (remote_ v) /\ same_data (data (remote_ v)) c /\ ownedBy (remote_ v) (owner s) = true.

Section Whole.
Context {W : Type} `{!Host W}.
Variable s : syncState.

Lemma same_data_owned current local remote l :
  remote_reading s current -> Owner l = owner s -> same_data (data current) (locked_state s local remote l) ->
  ownedBy current (owner s) = true.
Proof.
  intros Hc Hl H%sameSyncFileData_spec. unfold data_view in H.
  assert (Hlock : lock_view <$> Lock (data current) = Some (lock_view l)) by (unfold locked_state in H; case_match; by simplify_eq/=).
  destruct Hc as [->|(He & _)]; [done|]. unfold ownedBy. rewrite He.
  destruct (Lock (data current)) as [l'|]; [|done]. cbn in Hlock. unfold lock_view in Hlock. simplify_eq/=.
  apply String.eqb_eq. congruence.
Qed.

(** The candidate of the code is [locked_state], up to the session marker. *)
Lemma candidate_locked local b remote l :
  remote_reading s remote -> local_reading local b ->
  set_Active false (set_Lock (Some l) (acquisition_candidate s local b remote)) = locked_state s (reading local b) remote l.
Proof.
  intros Hr Hl. unfold acquisition_candidate, locked_state. destruct Hr as [->|(-> & _)]; [|done].
  by destruct b.
Qed.

(** What follows the write of a lock: reading it back in time. *)
Definition read_back (fuel : nat) (o : observation) (remote : remoteSyncFile) (cand : syncFileData)
    (deadline timer expires : Z) (writeErr : option error) : M W syncVars attempt :=
  current ← try (verifyAcquiredLock s fuel deadline);
  w ← sys (StopWatchdog timer);
  match w with
  | Fired _ => cancelCommands s;; throw (Errorf "could not verify acquired lock before expiry")
  | StoppedInTime =>
      match current with
      | inr e => throw (default e writeErr)
      | inl current => judge_attempt s o remote current cand writeErr expires
      end
  end.

Section Attempt.
Variables (local : syncFileData) (b : bool).
Hypothesis Hlocal : local_reading local b.
#[local] Set Default Proof Using "Type*".

#[local] Abbreviation loc := (reading local b).

Definition attempt_post (pre : list event) : post (W := W) (V := syncVars) attempt := fun r x t =>
  performs (publishes_candidate s loc) pre t /\
  match r with
  | Ok Acquired => lock_obtained s loc (pre ++ t) (vars x)
  | Ok (Retry r') => remote_reading s r' /\ last_reading s (pre ++ t) = Some r'
  | _ => True
  end.

Lemma attempt_post_app pre t0 r x t :
  performs (publishes_candidate s loc) pre t0 -> attempt_post (pre ++ t0) r x t -> attempt_post pre r x (t0 ++ t).
Proof using Type.
  intros H0 [H1 H2]. split; [by apply performs_app|]. rewrite <- app_assoc in H2. exact H2.
Qed.

Lemma validateAcquisition_unread remote x : wp (W := W) (validateAcquisition s local b remote) (fun _ _ t => unread s t) x.
Proof using Type.
  unfold validateAcquisition, remotePayloadEmpty.
  apply wp_bind, wp_fail_if; intros _; cbn [after]; [done|].
  apply wp_bind, wp_fail_if; intros _; cbn [after]; [done|].
  apply wp_bind. eapply (wp_mono _ (fun _ _ t => unread s t)).
  - case_goal; [|by apply wp_ret]. apply wp_bind, wp_wrap, wp_bind, runner_Run_wp; cbn [after].
    + intros out w. cbn [after].
      destruct (cmd_err out); wp_run; [..|destruct (decode_entries _ _); cbn [after]; wp_run]; by apply unread_command.
    + by apply wp_throw.
  - intros [[]|e|] x1 t Ht; cbn [after]; [|done..].
    apply wp_fail_if; intros _; by rewrite app_nil_r.
Qed.

Lemma verifyAcquiredLock_last fuel deadline pre x :
  wp (W := W) (verifyAcquiredLock s fuel deadline)
    (fun r x' t => quiet t /\ vars x' = vars x /\
       match r with Ok r => remote_reading s r /\ last_reading s (pre ++ t) = Some r | _ => True end) x.
Proof using Type.
  revert pre x. induction fuel as [|fuel IH]; intros pre x; cbn [verifyAcquiredLock].
  { apply wp_out_of_fuel. split; [auto with acts|done]. }
  apply wp_bind, wp_try, readRemote_reads; [intros r t Hq Hr Hs w1|intros e t _ Hq w1]; cbn [after].
  { apply wp_ret. rewrite app_nil_r. by split_and!. }
  apply wp_bind, wp_sys. intros now w2. cbn [after vars]. destruct (_ <=? 0).
  { apply wp_throw. split; [auto with acts|done]. }
  apply wp_bind, wp_sys. intros [g|] w3; cbn [after vars]; [apply wp_throw; split; [auto 8 with acts|done]|].
  eapply wp_mono; [eapply IH|]. cbn [vars]. intros r x' t' (Hq' & Hv & H). split; [auto 8 with acts|]. split; [done|].
  destruct r; [|done..]. rewrite !app_assoc. exact H.
Qed.

(** The wait leaves the state that was read last. *)
Lemma awaitLock_last fuel deadline o remote pre x :
  remote_reading s remote -> last_reading s pre = Some remote ->
  wp (W := W) (awaitLock s fuel deadline o remote)
    (fun r _ t => match r with
                  | Ok (_, r) => remote_reading s r /\ last_reading s (pre ++ t) = Some r
                  | _ => True
                  end) x.
Proof using Type.
  revert o remote pre x. induction fuel as [|fuel IH]; intros o remote pre x Hr Hs; cbn [awaitLock];
    [by apply wp_out_of_fuel|].
  destruct (Lock (data remote)) as [lk|]; [|apply wp_ret; by rewrite app_nil_r].
  apply wp_bind. eapply (wp_mono _ (fun _ _ t => unread s t)).
  { destruct (_ =? _)%string; wp_run; done. }
  intros [o1|e|] x1 t1 Hu1; cbn [after]; [|done..].
  apply wp_bind, wp_sys. intros now w2. cbn [after]. destruct (now <? _); cbn [negb].
  2: { apply wp_ret. rewrite app_nil_r. by rewrite last_reading_unread by by apply unread_app. }
  apply wp_bind, wp_fail_if; intros _; cbn [after]; [done|].
  apply wp_bind. eapply (wp_mono _ (fun _ _ t => unread s t)).
  { destruct (deadline =? time_zero); wp_run; done. }
  intros [[]|e|] x3 t3 Hu3; cbn [after]; [|done..].
  apply wp_bind, wp_sys. intros n1 w4. cbn [after]. apply wp_bind, wp_sys. intros n2 w5. cbn [after].
  apply wp_bind, wp_sys. intros [g|] w6; cbn [after]; [by apply wp_throw|].
  apply wp_bind, readRemote_reads; [intros r t _ Hr' Hs' w7|intros e t _ _ w7]; cbn [after]; [|done].
  eapply wp_mono; [eapply (IH o1 r); [done|apply Hs']|]. intros [[o' r']| |] x' t' H; [|done..].
  rewrite !app_assoc. exact H.
Qed.

Lemma judge_attempt_post o remote current c we expires pre x :
  remote_reading s current -> last_reading s pre = Some current ->
  (exists t1 t2, pre = t1 ++ t2 /\ lock_candidate s loc t1 remote (set_Active false c)) ->
  wp (judge_attempt s o remote current c we expires)
    (fun r x' t => t = [] /\ attempt_post pre r x' []) (x : st W syncVars).
Proof using Type.
  intros Hr Hs (t1 & t2 & Ht & Hc). unfold judge_attempt.
  assert (Hq : forall r x', match r with
    | Ok Acquired => lock_obtained s loc pre (vars x') | Ok (Retry r') => r' = current | _ => True end ->
    [] = ([] : list event) /\ attempt_post pre r x' []).
  { intros r x' H. split; [done|]. split; [done|]. rewrite app_nil_r. destruct r as [[|r']| |]; [done|by subst r'|done..]. }
  destruct (sameSyncFileData (data current) c) eqn:Esame.
  { unfold setOwnedRemote. apply wp_bind, wp_modify. cbn [after vars]. apply wp_ret, Hq.
    assert (Hsame : same_data (data current) (set_Active false c))
      by (transitivity c; [exact Esame|symmetry; apply same_data_inactive]).
    exists t1, t2, remote, (set_Active false c). split_and!; [done..|].
    destruct Hc as (_ & _ & now & _ & Hc). rewrite Hc in Hsame. eapply same_data_owned; [done| |exact Hsame]. done. }
  destruct we; wp_run; by apply Hq.
Qed.

Lemma read_back_post fuel o remote c deadline timer expires we pre x :
  (exists t1 t2, pre = t1 ++ t2 /\ lock_candidate s loc t1 remote (set_Active false c)) ->
  wp (read_back fuel o remote c deadline timer expires we) (attempt_post pre) x.
Proof using Type.
  intros (p1 & p2 & Hpre & Hc). unfold read_back. apply wp_bind, wp_try.
  eapply wp_mono; [apply (verifyAcquiredLock_last fuel deadline pre)|]. cbn beta. intros r x1 t (Hq & _ & Hr).
  assert (Hcancel : forall t0 x2, quiet t0 -> wp (A := attempt)
    (cancelCommands s;; throw (Errorf "could not verify acquired lock before expiry"))
    (fun r x' t' => attempt_post pre r x' (t0 ++ t')) x2).
  { intros t0 x2 Ht0. unfold cancelCommands. destruct (has_cancelCommands s); wp_run;
      (split; [apply quiet_performs; by rewrite ?app_nil_r|done]). }
  assert (Hgo : forall r', (forall cur, r' = inl cur -> remote_reading s cur /\ last_reading s (pre ++ t) = Some cur) ->
    after (fun current => w ← sys (StopWatchdog timer);
      match w with
      | Fired _ => cancelCommands s;; throw (Errorf "could not verify acquired lock before expiry")
      | StoppedInTime => match current with
          | inr e => throw (default e we)
          | inl current => judge_attempt s o remote current c we expires
          end
      end) (attempt_post pre) (Ok r') x1 t).
  { intros r' Hr'. cbn [after]. apply wp_bind, wp_sys. intros [|bu] w2; cbn [after].
    2: { eapply wp_mono; [apply (Hcancel (t ++ [Event (StopWatchdog timer) (Fired bu)])); auto with acts|].
         cbn beta. intros r2 x2 t2 H2. by rewrite <- app_assoc in H2. }
    destruct r' as [cur|e]; [|apply wp_throw; split; [apply quiet_performs; auto with acts|done]].
    destruct (Hr' _ eq_refl) as [H1 H2].
    eapply wp_mono; [apply (judge_attempt_post o remote cur c we expires (pre ++ t ++ [Event (StopWatchdog timer) StoppedInTime]));
      [done|rewrite app_assoc, last_reading_unread by done; exact H2|exists p1; eexists; rewrite Hpre, <- app_assoc; by split]|].
    intros r2 x2 t2 [-> [_ H3]]. split; [apply quiet_performs; rewrite app_nil_r; auto with acts|].
    by rewrite !app_nil_r in H3 |- *. }
  destruct r as [cur|e|].
  - apply (Hgo (inl cur)). by intros ? [= <-].
  - by apply (Hgo (inr e)).
  - split; [by apply quiet_performs|done].
Qed.

Lemma try_acquire_post fuel o remote pre x :
  remote_reading s remote -> last_reading s pre = Some remote ->
  wp (try_acquire s fuel local b o remote) (attempt_post pre) x.
Proof.
  intros Hr Hs. unfold try_acquire, newLock.
  assert (Hval : wp (validateAcquisition s local b remote) (fun r _ t => (quiet t /\ (r = Ok tt -> validated s loc remote)) /\ unread s t) x).
  { apply wp_and; [|apply validateAcquisition_unread].
    apply validateAcquisition_wp; [done..|intros t Ht Hv w|intros e t He Ht w]; by split. }
  apply wp_bind. eapply wp_mono; [exact Hval|]. cbn beta.
  intros [[]|e|] x1 t1 [[Hq1 Hv] Hu1]; cbn [after]; [|by split; [apply quiet_performs|]..]. specialize (Hv eq_refl).
  apply wp_bind, wp_bind, wp_sys. intros now w2. cbn [after]. apply wp_ret. cbn [after].
  apply wp_bind, wp_sys. intros writtenAt w3. cbn [after]. apply wp_bind, wp_sys. intros now' w4. cbn [after].
  set (c := set_Lock _ _).
  set (t2 := t1 ++ [Event Now now] ++ [Event Now writtenAt] ++ [Event Now now']).
  assert (Hu2 : unread s t2) by (by repeat apply unread_app).
  assert (Hq2 : quiet t2) by (unfold t2; auto 10 with acts).
  assert (Hc : forall t, unread s t -> lock_candidate s loc (pre ++ t2 ++ t) remote (set_Active false c)).
  { intros t Hu. split_and!; [by rewrite last_reading_unread by by apply unread_app|done|].
    exists now. split; [unfold t2; set_solver|]. by apply candidate_locked. }
  apply wp_bind, wp_try. eapply wp_mono; [apply (writeRemote_performs s (publishes_candidate s loc) c (etag remote) (pre ++ t2))|].
  { intros t contents acc Henc Hu. exists remote, (set_Active false c), contents, acc.
    rewrite <- app_assoc. split; [by apply Hc|done]. }
  cbn beta. intros r x2 t3 (_ & Hp3 & Hu3).
  assert (Hgo : forall we, wp (read_back fuel o remote c (writtenAt + (timeout s - refreshSafetyWindow (timeout s)))
      (now' + Z.max (until (writtenAt + (timeout s - refreshSafetyWindow (timeout s))) now') 0) (writtenAt + timeout s) we)
      (fun r' x' t' => attempt_post pre r' x' (t1 ++ [Event Now now] ++ [Event Now writtenAt] ++ [Event Now now'] ++ t3 ++ t')) x2).
  { intros we. eapply wp_mono; [apply (read_back_post fuel o remote c _ _ _ we ((pre ++ t2) ++ t3))|].
    - exists (pre ++ t2), t3. split; [done|]. specialize (Hc [] eq_refl). by rewrite app_nil_r in Hc.
    - intros r' x' t' H'. replace (t1 ++ _) with (t2 ++ t3 ++ t') by (unfold t2; by rewrite <- !app_assoc).
      apply attempt_post_app; [by apply quiet_performs|]. by apply attempt_post_app. }
  destruct r as [[]|e|]; cbn [after]; [apply (Hgo None)|apply (Hgo (Some e))|].
  split; [|done]. replace (t1 ++ _) with (t2 ++ t3) by (unfold t2; by rewrite <- !app_assoc).
  apply performs_app. split; [by apply quiet_performs|exact Hp3].
Qed.

(** The whole acquisition after [pre]. *)
Definition acquire_post (pre : list event) : post (W := W) (V := syncVars) unit := fun r x t =>
  performs (publishes_candidate s loc) pre t /\ (r = Ok tt -> lock_obtained s loc (pre ++ t) (vars x)).

Lemma acquire_post_app pre t0 r x t :
  performs (publishes_candidate s loc) pre t0 -> acquire_post (pre ++ t0) r x t -> acquire_post pre r x (t0 ++ t).
Proof using Type. intros H0 [H1 H2]. split; [by apply performs_app|]. by rewrite <- app_assoc in H2. Qed.

Lemma acquireLoop_post fuel deadline o remote pre x :
  remote_reading s remote -> last_reading s pre = Some remote ->
  wp (acquireLoop s fuel deadline local b o remote) (acquire_post pre) x.
Proof.
  revert o remote pre x. induction fuel as [|fuel IH]; intros o remote pre x Hr Hs; cbn [acquireLoop].
  { by apply wp_out_of_fuel. }
  apply wp_bind. eapply wp_mono; [apply wp_and; [apply awaitLock_wp|by apply (awaitLock_last fuel deadline o remote pre)]|].
  intros [[o1 r1]|e|] x1 t1 [[Hq _] Ha]; cbn [after]; [|by split; [apply quiet_performs|]..].
  destruct Ha as [Hr1 Hs1]. apply wp_bind. eapply wp_mono; [by apply (try_acquire_post _ o1 r1 (pre ++ t1))|].
  intros a x2 t2 [Hp2 Ha].
  assert (H12 : performs (publishes_candidate s loc) pre (t1 ++ t2)) by (apply performs_app; split; [by apply quiet_performs|done]).
  destruct a as [[|r2]|e|]; cbn [after].
  - apply wp_ret. rewrite app_nil_r. split; [done|]. intros _. by rewrite <- app_assoc in Ha.
  - destruct Ha as [Hr2 Hs2]. eapply wp_mono; [by apply (IH o1 r2 ((pre ++ t1) ++ t2))|].
    intros r x3 t3 H3. rewrite app_assoc. apply acquire_post_app; [done|]. by rewrite app_assoc.
  - by split.
  - by split.
Qed.

(** Validation looks at nothing that two readings of the same state differ in. *)
Lemma validated_same r1 r2 :
  same_data (data r1) (data r2) -> exists_ r1 = true -> validated s loc r1 -> validated s loc r2.
Proof using Type.
  intros Hd He (H1 & H2 & H3). specialize (H1 He). specialize (H2 He).
  assert (Hplan : startup_plan loc (data r2) = startup_plan loc (data r1))
    by (unfold startup_plan; rewrite (same_data_Generation _ _ Hd), (same_data_SyncID _ _ Hd), (same_data_Syncing _ _ Hd); done).
  split_and!; rewrite ?Hplan; [|done|].
  - intros _ d Hl. rewrite (H1 d Hl). by rewrite Hd.
  - intros Hf _ Hsync. apply H3; [done..|]. by rewrite Hd.
Qed.

(** Continuing a persistent lock. *)
Lemma replace_lock_post remote now pre x :
  validated s loc remote -> ownedBy remote (owner s) = true -> Event Now now ∈ pre -> pending (vars x) = None ->
  wp (W := W) (replaceOwnedRemote s remote (set_Lock (Some (SyncFileLock (owner s) (utc now) (timeout s))) (data remote)))
    (acquire_post pre) x.
Proof.
  set (c := set_Lock _ _). intros Hv Ho Hnow Hp. unfold replaceOwnedRemote, forget_pending, setOwnedRemote.
  assert (Hquiet : forall r x' t, quiet t -> r <> Ok tt -> acquire_post pre r x' t)
    by (intros; split; [by apply quiet_performs|done]).
  apply wp_bind, readRemote_reads; [intros latest t1 Hq1 Hr1 Hs1 w1|intros e t1 He Hq1 w1]; cbn [after]; [|by apply Hquiet].
  apply wp_bind, wp_get. cbn [after vars]. rewrite Hp. cbn [is_pending negb andb]. rewrite andb_true_r.
  destruct (_ || _) eqn:Eok; [wp_run; apply Hquiet; auto with acts|].
  apply orb_false_iff in Eok as [Eown%negb_false_iff Esame%negb_false_iff].
  apply wp_bind, wp_sys. intros now2 w2. cbn [after vars]. apply wp_bind, wp_modify. cbn [after vars host adopt_lock andb].
  set (t2 := t1 ++ [Event Now now2]). assert (Hq2 : quiet t2) by (unfold t2; auto with acts).
  assert (Hcand : forall t, unread s t -> lock_candidate s loc (pre ++ t2 ++ t) latest (set_Active false c)).
  { intros t Hu. unfold ownedBy in Ho, Eown. apply andb_true_iff in Ho as [Hex _], Eown as [Hexl _]. split_and!.
    - unfold t2. rewrite <- app_assoc, app_assoc, last_reading_unread by by apply (unread_app s [_]). apply Hs1.
    - eapply validated_same; [|exact Hex|exact Hv]. symmetry. exact Esame.
    - exists now. split; [set_solver|]. unfold locked_state. rewrite Hexl.
      assert (Hsd : same_data (data latest) (data remote)) by exact Esame. by rewrite Hsd. }
  apply wp_bind. eapply wp_mono; [apply (writeRemote_performs s (publishes_candidate s loc) c (etag latest) (pre ++ t2))|].
  { intros t contents acc Henc Hu. exists latest, (set_Active false c), contents, acc.
    rewrite <- app_assoc. split; [by apply Hcand|done]. }
  intros r x3 t3 (_ & Hp3 & Hu3).
  assert (Hend : forall r x' t, quiet t -> (r = Ok tt -> lock_obtained s loc (pre ++ t2 ++ t3 ++ t) (vars x')) ->
    acquire_post pre r x' (t2 ++ t3 ++ t)).
  { intros r' x' t Hq Hr. split; [|done]. apply performs_app. split; [by apply quiet_performs|].
    apply performs_app. split; [done|by apply quiet_performs]. }
  assert (Hfail : forall r x' t, quiet t -> r <> Ok tt -> acquire_post pre r x' (t1 ++ [Event Now now2] ++ t3 ++ t))
    by (intros; rewrite (app_assoc t1); by apply Hend).
  destruct r as [[]|e|]; cbn [after]; [|specialize (Hfail (Err e) x3 [])|specialize (Hfail OutOfFuel x3 [])];
    [|rewrite app_nil_r in Hfail; apply Hfail; auto with acts..].
  apply wp_bind, readRemote_reads; [intros verified t4 Hq4 Hr4 Hs4 w4|intros e t4 _ Hq4 w4]; cbn [after]; [|by apply Hfail].
  destruct (sameSyncFileData (data verified) c) eqn:Ever; cbn [negb].
  2: { wp_run; apply Hfail; auto with acts. }
  destruct (_ && _) eqn:Eo; [wp_run; apply Hfail; auto with acts|].
  wp_run. rewrite !app_nil_r. change (t1 ++ _) with (t1 ++ [Event Now now2] ++ t3 ++ t4).
  rewrite (app_assoc t1). apply Hend; [done|]. intros _.
  exists (pre ++ t2), (t3 ++ t4), latest, (set_Active false c). split; [by rewrite <- app_assoc|].
  split; [specialize (Hcand [] eq_refl); by rewrite app_nil_r in Hcand|].
  cbn [vars remote_ set_remote]. split; [rewrite !app_assoc; apply Hs4|]. split.
  - transitivity c; [exact Ever|symmetry; apply same_data_inactive].
  - cbn in Eo. by apply negb_false_iff in Eo.
Qed.

End Attempt.

Lemma Acquire_post fuel x :
  pending (vars x) = None ->
  wp (Acquire s fuel) (fun r x' t =>
    exists answer rest, t = Event (ReadFile (local_path s)) answer :: rest /\
      match local_answer answer with
      | None => rest = [] /\ r <> Ok tt
      | Some local => acquire_post (default no_data local) (bool_decide (is_Some local)) [] r x' t
      end) x.
Proof.
  destruct x as [w v]. intros Hp. cbn [vars] in Hp. unfold Acquire. fold (local_path s).
  apply wp_bind, readLocal_answer; [intros answer local Ha Hl w1|intros answer e Ha _ w1]; cbn [after vars].
  2: { exists answer, []. by rewrite Ha. }
  set (d := default no_data local) in *. set (b := bool_decide (is_Some local)) in *.
  set (rd := Event (ReadFile (local_path s)) answer).
  eapply (wp_mono _ (acquire_post d b [rd])).
  2: { intros r x' t [H1 H2]. exists answer, t. rewrite Ha. split; [done|]. split; [|exact H2].
       apply (performs_app _ [] [rd]). split; [by apply quiet_performs|done]. }
  assert (Hq : forall r x' t, quiet t -> r <> Ok tt -> acquire_post d b [rd] r x' t)
    by (intros; split; [by apply quiet_performs|done]).
  apply wp_bind, readRemote_reads; [intros remote t2 Ht2 Hr Hs w2|intros e t2 He Ht2 w2]; cbn [after vars]; [|by apply Hq].
  apply wp_bind.
  set (V := fun (r : result error unit) (x' : st W syncVars) t =>
    vars x' = v /\ quiet t /\ (r = Ok tt -> validated s (reading d b) remote)).
  eapply wp_mono; [apply (wp_and _ V); [|apply validateAcquisition_unread]|].
  { apply validateAcquisition_wp; [done..|intros t Ht Hv w3|intros e t He Ht w3]; by split_and!. }
  cbn beta. intros r3 [w3 v3] t3 [(Hv3 & Ht3 & Hv) Hu3]. cbn [vars] in Hv3. subst v3.
  destruct r3 as [[]|e|]; cbn [after]; [|apply Hq; [auto with acts|done]..]. specialize (Hv eq_refl).
  assert (Hpre : forall t4 r x' t, quiet t4 -> acquire_post d b ([rd] ++ t2 ++ t3 ++ t4) r x' t ->
    acquire_post d b [rd] r x' (t2 ++ t3 ++ t4 ++ t)).
  { intros t4 r x' t Hq4 H. rewrite (app_assoc t3), (app_assoc t2). apply acquire_post_app; [|done].
    apply quiet_performs. auto with acts. }
  destruct (persistent s && ownedBy remote (owner s)) eqn:Ep.
  - apply andb_true_iff in Ep as [_ Ho]. unfold newLock.
    apply wp_bind, wp_bind, wp_sys. intros now w4. cbn [after vars]. apply wp_ret. cbn [after].
    apply wp_wrap. eapply wp_mono; [apply (replace_lock_post d b Hl remote now ([rd] ++ t2 ++ t3 ++ [Event Now now])); try done; set_solver|].
    intros r x' t H. destruct r as [[]|e|]; apply (Hpre [Event Now now]); try done; by destruct H as [H _].
  - apply wp_bind. eapply (wp_mono _ (fun r x' t => quiet t /\ unread s t /\ is_ok r = true)).
    { case_goal; wp_run; split_and!; by auto with acts. }
    intros [dl|e|] x4 t4 (Ht4 & Hu4 & Hok); cbn [after]; [|done..].
    eapply wp_mono; [apply (acquireLoop_post d b Hl _ _ _ remote ([rd] ++ t2 ++ t3 ++ t4)); [done|]|].
    + rewrite app_assoc, last_reading_unread by by apply unread_app. apply Hs.
    + intros r x' t H. by apply Hpre.
Qed.
End Whole.

(** ** Guarantees *)

(** C11: acquiring the lock first reads the local state file. Then every action it performs is
    the upload of the state that the last reading of the remote file before it showed, with
    only its lock replaced by this owner's (where that reading showed no file, of an
    initialization in progress under the local state's repository ID or the program's own), on
    the condition of the ETag of that reading, and after that state passed validation. It
    succeeds only when the last reading shows such a state, as it was to be written. Nothing
    may be pending from an earlier update. *)
Theorem Acquire_publishes_lock_only (W : Type) (H : Host W) s fuel (x : st W syncVars) :
  pending (vars x) = None ->
  let o := Acquire s fuel x in
  exists answer rest, trace o = Event (ReadFile (local_path s)) answer :: rest /\
    match local_answer answer with
    | None => rest = [] /\ res o <> Ok tt
    | Some local => performs (publishes_candidate s local) [] (trace o) /\
                    (res o = Ok tt -> lock_obtained s local (trace o) (vars (out_state o)))
    end.
Proof.
  intros Hp o. destruct (Acquire_post s fuel x Hp) as (answer & rest & Ht & Hr). exists answer, rest. split; [done|].
  destruct (local_answer answer) as [local|]; [|done]. destruct Hr as [H1 H2]. cbn [app] in *.
  by replace (reading (default no_data local) (bool_decide (is_Some local))) with local in * by by destruct local.
Qed.

Lemma Acquire_publishes_lock_only_witness :
  exists answer rest, trace (Acquire demo 10 (start_in empty_host)) = Event (ReadFile (local_path demo)) answer :: rest /\
    match local_answer answer with
    | None => rest = [] /\ res (Acquire demo 10 (start_in empty_host)) <> Ok tt
    | Some local => performs (publishes_candidate demo local) [] (trace (Acquire demo 10 (start_in empty_host))) /\
                    (res (Acquire demo 10 (start_in empty_host)) = Ok tt ->
                     lock_obtained demo local (trace (Acquire demo 10 (start_in empty_host)))
                       (vars (out_state (Acquire demo 10 (start_in empty_host)))))
    end.
Proof. apply (Acquire_publishes_lock_only mem mem_host demo 10 (start_in empty_host)). reflexivity. Defined.

(** Waiting for a lock changes nothing, and it ends only when there is no lock or when the
    clock has shown that the lock's TTL has passed since that lock was first observed. *)
Theorem wait_outlasts_lock (W : Type) (H : Host W) s fuel deadline o remote (x : st W syncVars) :
  let w := awaitLock s fuel deadline o remote x in
  quiet (trace w) /\ vars (out_state w) = vars x /\
  forall o' remote', res w = Ok (o', remote') ->
    (remote' = remote \/ remote_reading s remote') /\ expired_lock s o' remote' (trace w) /\ observed o o' (trace w).
Proof.
  pose proof (awaitLock_wp s fuel deadline o remote x) as (H1 & H2 & H3). cbv zeta. split; [done|]. split; [done|].
  intros o' r' Hr. by rewrite Hr in H3.
Qed.

(** *** Untracked payload *)

(** The listing of the destination shows nothing. *)
Definition lists_nothing (s : syncState) (e : event) : Prop :=
  exists out, e = Event (Rclone (with_flag ["lsjson"; dest s; "--max-depth"; "1"])) out /\
    match cmd_err out with
    | Some err => isRcloneNotFound (ErrSys err) = true
    | None => decode_entries "decode remote listing" (cmd_stdout out) = Ok []
    end.

Lemma remotePayloadEmpty_listing {W : Type} `{!Host W} s (Q : post (W := W) bool) x :
  (forall e w, lists_nothing s e -> Q (Ok true) (St w (vars x)) [e]) ->
  (forall t w, Q (Ok false) (St w (vars x)) t) -> (forall err t w, Q (Err err) (St w (vars x)) t) ->
  wp (remotePayloadEmpty s) Q x.
Proof.
  intros H1 H2 H3. destruct x as [w0 v0]. unfold remotePayloadEmpty.
  apply wp_bind, runner_Run_wp; cbn [after cmd_err cmd_stderr]; [|by apply wp_throw].
  intros out w. cbn [after]. destruct (cmd_err out) as [err|] eqn:Eo.
  - destruct (isRcloneNotFound _) eqn:En; [|by apply wp_throw]. apply wp_ret, H1. exists out. by rewrite Eo.
  - apply wp_bind, wp_lift. pose proof (decode_entries_plain "decode remote listing" (cmd_stdout out)) as Hp.
    destruct (decode_entries _ _) as [es| |] eqn:Ed; cbn [after]; [|apply H3|done].
    apply wp_ret. case_bool_decide as Hes; [|done]. apply H1. exists out. rewrite Eo, Ed. by subst.
Qed.

(** C32: without the option to delete it, a destination that has payload but no state file is
    never accepted: validation succeeds on an absent state only after a listing that shows the
    destination empty or missing. *)
Theorem untracked_payload_refused (W : Type) (H : Host W) s local b remote (x : st W syncVars) :
  exists_ remote = false -> forceDeleteUntrackedRemote s = false ->
  res (validateAcquisition s local b remote x) = Ok tt ->
  exists e, e ∈ trace (validateAcquisition s local b remote x) /\ lists_nothing s e.
Proof.
  intros He Hf. change (wp (validateAcquisition s local b remote) (fun r _ t => r = Ok tt -> exists e, e ∈ t /\ lists_nothing s e) x).
  unfold validateAcquisition. rewrite He, Hf, !andb_false_r. cbn [andb negb fail_if].
  apply wp_bind, wp_ret. cbn [after]. apply wp_bind, wp_ret. cbn [after]. apply wp_bind, wp_bind, wp_wrap, remotePayloadEmpty_listing.
  - intros e w Hl. cbn [after]. apply wp_ret. cbn [after]. intros _.
    exists e. split; [|done]. by left.
  - intros t w. by cbn [after].
  - intros err t w. by cbn [after].
Qed.

Lemma untracked_payload_refused_witness :
  exists e, e ∈ trace (validateAcquisition demo no_data false no_remote (start_in empty_host)) /\ lists_nothing demo e.
Proof. apply untracked_payload_refused; [reflexivity|reflexivity|vm_compute; reflexivity]. Defined.
