(* ===== verification/Lease.v ===== *)
(** * Locks of several instances

    The remote state file is shared: other instances read and replace it while this one runs.
    Here its contents over time are a list of versions, and the operations of a run carry the
    interval in which they were performed.  With conditional writes, [Acquire] replaces the
    state of another owner only when that owner's lock has been there for its whole TTL, so
    the time for which an owner counts on its lock is over. *)

From S2P Require Import Prelude GoString GoTime Host HostLogic MemHost SyncData Json StateFile SyncPath Options Filters SyncState SyncStateSpec Acquire Session SessionSpec AcquireSpec Fixtures.

Local Open Scope Z_scope.

(** ** Uploads of a trace *)

(** The arguments of an upload of the state file. *)
Definition upload_args (e : event) : option (list string) :=
  match event_args e with
  | Some (cmd :: rest) => if (cmd =? "copyto")%string then Some rest else None
  | _ => None
  end.

(** Every upload has arguments that [J] allows after the events before it. *)
Fixpoint uploads (J : list event -> list string -> Prop) (pre t : list event) : Prop :=
  match t with
  | [] => True
  | e :: t => (forall l, upload_args e = Some l -> J pre l) /\ uploads J (pre ++ [e]) t
  end.

Lemma uploads_app J pre t1 t2 : uploads J pre (t1 ++ t2) <-> uploads J pre t1 /\ uploads J (pre ++ t1) t2.
Proof.
  revert pre. induction t1 as [|e t1 IH]; intros pre; cbn [uploads app].
  - rewrite app_nil_r. naive_solver.
  - rewrite IH, <- (app_assoc pre). cbn [app]. naive_solver.
Qed.

Lemma uploads_mono (J J' : list event -> list string -> Prop) pre t :
  (forall pre l, J pre l -> J' pre l) -> uploads J pre t -> uploads J' pre t.
Proof. intros HJ. revert pre. induction t as [|e t IH]; intros pre; cbn [uploads]; [done|]. naive_solver. Qed.

Lemma upload_acts f e l : upload_args e = Some l -> event_action f e <> None.
Proof.
  destruct e as [A o a]. unfold upload_args, event_args, event_action. cbn. destruct o; try done.
  unfold command_action. destruct args as [|c args]; [done|]. destruct (c =? "copyto")%string; done.
Qed.

Lemma quiet_uploads J t pre : quiet t -> uploads J pre t.
Proof.
  intros Hq. specialize (Hq ∅). revert pre Hq. generalize (∅ : gmap string string).
  induction t as [|e t IH]; intros f pre H; cbn [uploads]; [done|]. cbn [actions] in H.
  apply app_eq_nil in H as [He Ht]. split; [|by eapply IH].
  intros l Hl. destruct (event_action f e) eqn:E; [done|]. by apply upload_acts with (f := f) in Hl.
Qed.

(** At one upload of the trace. *)
Lemma uploads_at J pre t1 e t2 l :
  uploads J pre (t1 ++ e :: t2) -> upload_args e = Some l -> J (pre ++ t1) l.
Proof. rewrite uploads_app. cbn [uploads]. intros (_ & H & _) Hl. by apply H. Qed.

(** ** What an instance has seen when it uploads *)
Section Seen.
Context {W : Type} `{!Host W}.
Variable s : syncState.
Implicit Types (r : remoteSyncFile) (pre t : list event).

(** The lock of [r] was read, then the clock at [a], and later the clock showed that the lock's
    TTL had passed since [a]. *)
Definition waited pre r : Prop :=
  exists r0 e0 a n, read_event s r0 e0 /\ lockIdentity r0 = lockIdentity r /\
    sublist [e0; Event Now a; Event Now n] pre /\ a + lockTTL r (timeout s) <= n.

(** The state [r] was read and may be replaced: it has no lock, it has this owner's, or its lock
    was waited for. *)
Definition ripe pre r : Prop :=
  read_from s pre r /\ (Lock (data r) = None \/ ownedBy r (owner s) = true \/ waited pre r).

(** The upload is conditional on such a state. *)
Definition justified pre (l : list string) : Prop :=
  exists name r, l = with_flag ([name; remote (paths s)] ++ condition_args s (etag r)) /\
    (etag r = "" <-> r = no_remote) /\ ripe pre r.

Lemma waited_app pre t r : waited pre r -> waited (pre ++ t) r.
Proof.
  intros (r0 & e0 & a & n & H1 & H2 & H3 & H4). exists r0, e0, a, n. split_and!; try done.
  by apply sublist_inserts_r.
Qed.

Lemma ripe_app pre t r : ripe pre r -> ripe (pre ++ t) r.
Proof. intros [H1 H2]. split; [by apply read_from_app_l|]. naive_solver auto using waited_app. Qed.

(** The lock that is being waited for was read before the clock was. *)
Definition observation_seen pre (o : observation) : Prop :=
  observedLock o = "" \/
  exists r0 e0, read_event s r0 e0 /\ lockIdentity r0 = observedLock o /\
    sublist [e0; Event Now (observedAt o)] pre.

Lemma observation_seen_app pre t o : observation_seen pre o -> observation_seen (pre ++ t) o.
Proof.
  intros [H|(r0 & e0 & H1 & H2 & H3)]; [by left|right]. exists r0, e0. split_and!; try done.
  by apply sublist_inserts_r.
Qed.

Lemma lockIdentity_nonempty r : Lock (data r) <> None -> lockIdentity r <> "".
Proof. unfold lockIdentity. destruct (Lock (data r)) as [l|]; [|done]. by destruct (Owner l). Qed.

Lemma observation_seen_fresh pre r now :
  read_from s pre r -> Lock (data r) <> None ->
  observation_seen (pre ++ [Event Now now]) (Observation (lockIdentity r) now).
Proof.
  intros [->|(e & He & Hr)] Hl; [done|right]. exists r, e. split_and!; try done. cbn.
  apply (sublist_app [e] pre [Event Now now] [Event Now now]); [|done]. by apply singleton_sublist_l.
Qed.

Lemma observation_waited pre o r now :
  observation_seen pre o -> observedLock o = lockIdentity r -> Lock (data r) <> None ->
  observedAt o + lockTTL r (timeout s) <= now -> waited (pre ++ [Event Now now]) r.
Proof.
  intros [H|(r0 & e0 & H1 & H2 & H3)] Ho Hl Hn.
  - exfalso. apply (lockIdentity_nonempty r Hl). congruence.
  - exists r0, e0, (observedAt o), now. split_and!; [done|congruence| |done].
    by apply (sublist_app [_; _] pre [Event Now now] [Event Now now]).
Qed.
End Seen.

(** ** Uploads of the operations *)
Section Runs.
Context {W : Type} `{!Host W}.
Variable s : syncState.

Lemma writeRemote_uploads d tag pre x :
  (forall t name, justified s (pre ++ t) (with_flag ([name; remote (paths s)] ++ condition_args s tag))) ->
  wp (writeRemote s d tag) (fun _ x' t => vars x' = vars x /\ uploads (justified s) pre t) x.
Proof.
  intros HJ. destruct x as [w0 v0]. unfold writeRemote, run.
  assert (Hno : forall (e : event) p, upload_args e = None -> forall l, upload_args e = Some l -> justified s p l) by congruence.
  apply wp_bind, wp_lift. destruct (encodeSyncFile _) as [contents|e|]; cbn [after]; [|by split..].
  apply wp_bind, wp_obtain; [intros name w|intros e w]; cbn [after vars].
  2: { cbn [uploads app]. split_and!; first [done | by apply Hno]. }
  apply wp_finally, wp_bind, wp_try, wp_check; [intros w1|intros e w1]; cbn [after vars].
  2: { wp_run. cbn [uploads app vars]. split_and!; first [done | by apply Hno]. }
  apply wp_bind, wp_check; [intros w2|intros e w2]; cbn [after vars].
  2: { wp_run. cbn [uploads app vars]. split_and!; first [done | by apply Hno]. }
  apply wp_bind, runner_Run_wp; cbn [after cmd_err cmd_stderr vars].
  - intros out w3. cbn [after].
    assert (Hup : forall p, (exists t, p = pre ++ t) -> forall l, upload_args (Event (Rclone (with_flag (["copyto"; name; remote (paths s)] ++ condition_args s tag))) out) = Some l ->
      justified s p l).
    { intros p [t ->] l [= <-]. apply HJ. }
    destruct (cmd_err out) as [e|]; [destruct (logs s)|]; wp_run; cbn [uploads app vars];
      split_and!; first [done | by apply Hno | apply Hup; eexists; by rewrite <- ?app_assoc].
  - destruct (logs s); wp_run; cbn [uploads app vars]; split_and!; first [done | by apply Hno].
Qed.

Hypothesis Hcond : consistentWrites s = true.
#[local] Set Default Proof Using "Type*".

Lemma reading_etag r : remote_reading s r -> (etag r = "" <-> r = no_remote).
Proof.
  intros [->|(He & _ & Ht)]; [done|]. rewrite Ht, Hcond. split; [done|]. intros ->. done.
Qed.

Lemma justified_ripe pre r : remote_reading s r -> ripe s pre r ->
  forall t name, justified s (pre ++ t) (with_flag ([name; remote (paths s)] ++ condition_args s (etag r))).
Proof.
  intros Hr Hripe t name. exists name, r. split_and!; [done|by apply reading_etag..|by apply ripe_app].
Qed.

Lemma verifyAcquiredLock_seen fuel deadline pre x :
  wp (verifyAcquiredLock s fuel deadline)
    (fun r _ t => match r with Ok r => remote_reading s r /\ read_from s (pre ++ t) r | _ => True end) x.
Proof.
  revert pre x. induction fuel as [|fuel IH]; intros pre x; cbn [verifyAcquiredLock]; [by apply wp_out_of_fuel|].
  apply wp_bind, wp_try, readRemote_seen; [intros r t _ Hr Hs w1|intros e t _ _ w1]; cbn [after].
  { apply wp_ret. split; [done|]. rewrite app_nil_r. by apply read_from_app_r. }
  apply wp_bind, wp_sys. intros now w2. cbn [after]. destruct (_ <=? 0); [by apply wp_throw|].
  apply wp_bind, wp_sys. intros [g|] w3; cbn [after]; [by apply wp_throw|].
  eapply wp_mono; [eapply IH|].
  intros [r| |] x' t' H; [|done..]. rewrite !app_assoc. exact H.
Qed.

(** What the inner loop leaves: a state that may be replaced. *)
Definition await_seen (pre : list event) : post (W := W) (V := syncVars) (observation * remoteSyncFile) :=
  fun r _ t =>
    match r with
    | Ok (o, r) => remote_reading s r /\ ripe s (pre ++ t) r /\ observation_seen s (pre ++ t) o
    | _ => True
    end.

Lemma awaitLock_seen fuel deadline o remote pre x :
  remote_reading s remote -> read_from s pre remote -> observation_seen s pre o ->
  wp (awaitLock s fuel deadline o remote) (await_seen pre) x.
Proof.
  revert o remote pre x. induction fuel as [|fuel IH]; intros o remote pre x Hr Hs Ho; cbn [awaitLock];
    [by apply wp_out_of_fuel|].
  destruct (Lock (data remote)) as [lk|] eqn:El; [|apply wp_ret].
  2: { unfold await_seen. rewrite app_nil_r. split_and!; [done| |done]. split; [done|by left]. }
  assert (Hlock : Lock (data remote) <> None) by congruence.
  apply wp_bind.
  set (P := fun (r : result error observation) (x' : st W syncVars) (t : list event) =>
    match r with Ok o' => observedLock o' = lockIdentity remote /\ observation_seen s (pre ++ t) o' | _ => True end).
  assert (Hobs : wp (if (observedLock o =? lockIdentity remote)%string then ret o
    else fail_if (defaultWait s && negb (observedLock o =? "")%string) (Errorf "remote lock was refreshed while waiting");;
         now ← sys Now; ret (Observation (lockIdentity remote) now)) P x).
  { destruct (observedLock o =? lockIdentity remote)%string eqn:Eo; reflect_bools.
    - apply wp_ret. split; [done|by rewrite app_nil_r].
    - apply wp_bind, wp_fail_if; intros _; cbn [after]; [done|].
      apply wp_bind, wp_sys. intros now w1. cbn [after]. apply wp_ret. split; [done|].
      by apply observation_seen_fresh. }
  eapply wp_mono; [exact Hobs|]. clear Hobs. intros [o1|e|] x1 t HP; cbn [after]; [destruct HP as [Hid Ho1]|done..].
  apply wp_bind, wp_sys. intros now w2. cbn [after].
  destruct (now <? _) eqn:En; cbn [negb].
  2: { apply wp_ret. reflect_bools. unfold await_seen. split_and!; [done| |].
       - split; [by apply read_from_app_l|]. right. right. rewrite app_nil_r, app_assoc. by eapply observation_waited.
       - rewrite app_assoc. by apply observation_seen_app. }
  apply wp_bind, wp_fail_if; intros _; cbn [after]; [done|].
  apply wp_bind. eapply (wp_mono _ (fun _ _ _ => True)); [done|].
  intros [[]|e|] x3 t3 _; cbn [after]; [|done..].
  apply wp_bind, wp_sys. intros n1 w4. cbn [after]. apply wp_bind, wp_sys. intros n2 w5. cbn [after].
  apply wp_bind, wp_sys. intros [g|] w6; cbn [after]; [by apply wp_throw|].
  apply wp_bind, readRemote_seen; [intros r' t6 _ Hr' Hs' w7|intros e t6 _ _ w7]; cbn [after]; [|done].
  eapply wp_mono; [eapply (IH o1 r'); [done|..]|].
  3: { intros [[]| |] x' t7 H; [|done..]. cbv beta iota delta [await_seen]. rewrite !app_assoc. exact H. }
  - by repeat apply read_from_app_r.
  - repeat first [exact Ho1 | apply observation_seen_app].
Qed.

(** An attempt replaces a state that may be replaced; a retry goes on with a state it read. *)
Definition attempt_seen (pre : list event) : post (W := W) (V := syncVars) attempt := fun r _ t =>
  uploads (justified s) pre t /\
  match r with Ok (Retry r) => remote_reading s r /\ read_from s (pre ++ t) r | _ => True end.

(** Nothing but justified uploads. *)
Definition ups {A} (pre : list event) : post (W := W) (V := syncVars) A := fun _ _ t => uploads (justified s) pre t.

Lemma wp_quiet_ups {A} (m : M W syncVars A) pre x : wp m (fun _ _ t => quiet t) x -> wp m (ups pre) x.
Proof using Type. intros Hm. eapply wp_mono; [exact Hm|]. intros r x' t Ht. by apply quiet_uploads. Qed.

Lemma judge_attempt_seen o remote current cand we expires (x : st W syncVars) :
  wp (judge_attempt s o remote current cand we expires)
    (fun r _ t => t = [] /\ match r with Ok (Retry r) => r = current | _ => True end) x.
Proof using Type.
  unfold judge_attempt, setOwnedRemote. destruct (sameSyncFileData _ _); [by wp_run|].
  destruct we; wp_run; done.
Qed.

Lemma verifyAcquiredLock_quiet fuel deadline (x : st W syncVars) :
  wp (verifyAcquiredLock s fuel deadline) (fun _ _ t => quiet t) x.
Proof using Type. apply verifyAcquiredLock_wp; intros; by intros ?. Qed.

Lemma cancelCommands_quiet (x : st W syncVars) : wp (cancelCommands s) (fun _ _ t => quiet t) x.
Proof using Type. unfold cancelCommands. destruct (has_cancelCommands s); by wp_run. Qed.

Lemma validateAcquisition_quiet local b remote (x : st W syncVars) : remote_reading s remote -> local_reading local b ->
  wp (validateAcquisition s local b remote) (fun _ _ t => quiet t) x.
Proof using Type. intros Hr Hl. apply validateAcquisition_wp; try done; intros; by intros ?. Qed.

Lemma read_back_seen fuel o remote cand deadline timer expires we pre x :
  wp (read_back s fuel o remote cand deadline timer expires we) (attempt_seen pre) x.
Proof.
  unfold read_back. apply wp_bind, wp_try.
  eapply wp_mono; [apply wp_and; [apply verifyAcquiredLock_quiet|apply (verifyAcquiredLock_seen fuel deadline pre)]|].
  cbn beta. intros r x1 t [Hq Hr].
  assert (Hgo : forall r', (forall c, r' = inl c -> remote_reading s c /\ read_from s (pre ++ t) c) ->
    after (fun current => w ← sys (StopWatchdog timer);
      match w with
      | Fired _ => cancelCommands s;; throw (Errorf "could not verify acquired lock before expiry")
      | StoppedInTime => match current with
          | inr e => throw (default e we)
          | inl current => judge_attempt s o remote current cand we expires
          end
      end) (attempt_seen pre) (Ok r') x1 t).
  { intros r' Hr'. cbn [after]. apply wp_bind, wp_sys. intros [|bu] w2; cbn [after].
    - destruct r' as [c|e]; [|apply wp_throw; split; [|done]; apply quiet_uploads; auto 8 with acts].
      eapply wp_mono; [apply judge_attempt_seen|]. intros r2 x2 t2 [-> H2].
      split; [apply quiet_uploads; auto 8 with acts|]. destruct r2 as [[|r2]|e|]; [done| |done..]. subst r2.
      destruct (Hr' _ eq_refl). split; [done|]. rewrite app_assoc. by apply read_from_app_l.
    - apply wp_bind. eapply wp_mono; [apply cancelCommands_quiet|]. intros [[]|e|] x3 t3 Ht3; cbn [after];
        [apply wp_throw|..]; (split; [apply quiet_uploads; auto 10 with acts|done]). }
  destruct r as [c|e|].
  - apply (Hgo (inl c)). by intros ? [= <-].
  - by apply (Hgo (inr e)).
  - split; [by apply quiet_uploads|done].
Qed.

Lemma try_acquire_seen fuel local b o remote pre x :
  remote_reading s remote -> local_reading local b -> ripe s pre remote ->
  wp (try_acquire s fuel local b o remote) (attempt_seen pre) x.
Proof.
  intros Hr Hl Hripe. unfold try_acquire, newLock.
  apply wp_bind. eapply wp_mono; [by apply validateAcquisition_quiet|].
  intros [[]|e|] x1 t1 Ht1; cbn [after]; [|by split; [apply quiet_uploads|]..].
  apply wp_bind, wp_bind, wp_sys. intros now w2. cbn [after]. apply wp_ret. cbn [after].
  apply wp_bind, wp_sys. intros writtenAt w3. cbn [after]. apply wp_bind, wp_sys. intros now' w4. cbn [after].
  set (pre2 := pre ++ t1 ++ [Event Now now] ++ [Event Now writtenAt] ++ [Event Now now']).
  assert (H2 : ripe s pre2 remote) by by apply ripe_app.
  apply wp_bind, wp_try. eapply wp_mono; [apply writeRemote_uploads with (pre := pre2); by apply justified_ripe|].
  cbn beta. intros r x2 t2 [_ Ht2].
  assert (Hq : quiet (t1 ++ [Event Now now] ++ [Event Now writtenAt] ++ [Event Now now'])) by auto 10 with acts.
  assert (Hgo : forall we, wp (read_back s fuel o remote
      (set_Lock (Some (SyncFileLock (owner s) (utc now) (timeout s))) (acquisition_candidate s local b remote))
      (writtenAt + (timeout s - refreshSafetyWindow (timeout s)))
      (now' + Z.max (GoTime.until (writtenAt + (timeout s - refreshSafetyWindow (timeout s))) now') 0)
      (writtenAt + timeout s) we)
      (fun r' x' t' => attempt_seen pre r' x' (t1 ++ [Event Now now] ++ [Event Now writtenAt] ++ [Event Now now'] ++ t2 ++ t')) x2).
  { intros we. eapply wp_mono; [apply read_back_seen with (pre := pre2 ++ t2)|]. intros r' x' t' [Hu Hr'].
    replace (t1 ++ _) with ((t1 ++ [Event Now now] ++ [Event Now writtenAt] ++ [Event Now now']) ++ t2 ++ t')
      by by rewrite <- !app_assoc.
    split.
    - apply uploads_app. split; [by apply quiet_uploads|]. by apply uploads_app.
    - destruct r' as [[|r']|e|]; [done| |done..]. destruct Hr' as [H3 H4]. split; [done|].
      subst pre2. rewrite !app_assoc in H4. by rewrite !app_assoc. }
  destruct r as [[]|e|]; cbn [after]; [apply (Hgo None)|apply (Hgo (Some e))|].
  split; [|done]. assert (Hu : uploads (justified s) pre
    ((t1 ++ [Event Now now] ++ [Event Now writtenAt] ++ [Event Now now']) ++ t2))
    by (apply uploads_app; split; [by apply quiet_uploads|exact Ht2]).
  rewrite <- !app_assoc in Hu. exact Hu.
Qed.

Lemma acquireLoop_uploads fuel deadline local b o remote pre x :
  remote_reading s remote -> local_reading local b -> read_from s pre remote -> observation_seen s pre o ->
  wp (acquireLoop s fuel deadline local b o remote) (ups pre) x.
Proof.
  revert o remote pre x. induction fuel as [|fuel IH]; intros o remote pre x Hr Hl Hs Ho; cbn [acquireLoop];
    [by apply wp_out_of_fuel|].
  apply wp_bind. eapply wp_mono; [apply wp_and; [apply awaitLock_wp|by apply (awaitLock_seen _ _ o remote pre)]|].
  intros [[o1 r1]|e|] x1 t1 [(Hq & _) Ha]; cbn [after]; [|by apply quiet_uploads..].
  destruct Ha as (Hr1 & Hripe & Ho1).
  apply wp_bind. eapply wp_mono; [by apply (try_acquire_seen _ local b o1 r1 (pre ++ t1))|].
  intros a x2 t2 [Hu Ha].
  assert (Hu2 : uploads (justified s) pre (t1 ++ t2)) by (apply uploads_app; split; [by apply quiet_uploads|done]).
  destruct a as [[|r2]|e|]; cbn [after]; [apply wp_ret; unfold ups; by rewrite app_nil_r| |done..].
  destruct Ha as [Hr2 Hs2].
  eapply wp_mono; [apply (IH o1 r2 ((pre ++ t1) ++ t2)); try done; by apply observation_seen_app|].
  intros r x3 t3 H3. unfold ups in *. apply uploads_app. split; [by apply quiet_uploads|]. by apply uploads_app.
Qed.

(** An owned update replaces a state with this owner's lock. *)
Lemma replaceOwnedRemote_uploads previous candidate pre x :
  wp (replaceOwnedRemote s previous candidate) (ups pre) x.
Proof.
  unfold replaceOwnedRemote, forget_pending, setOwnedRemote.
  apply wp_bind, readRemote_seen; [intros latest t1 Ht1 Hr Hs w1|intros e t1 He Ht1 w1]; cbn [after];
    [|by apply quiet_uploads].
  apply wp_bind, wp_get. cbn [after vars].
  destruct (_ || _) eqn:Eok; [wp_run; apply quiet_uploads; auto with acts|].
  apply orb_false_iff in Eok as [Eown _]. apply negb_false_iff in Eown.
  apply wp_bind, wp_sys. intros now w2. cbn [after vars]. apply wp_bind, wp_modify. cbn [after vars host].
  assert (Hripe : ripe s (pre ++ t1 ++ [Event Now now]) latest)
    by (split; [rewrite app_assoc; by apply read_from_app_l, read_from_app_r|by right; left]).
  set (cand := adopt_lock _ _ _ _). clearbody cand.
  apply wp_bind. eapply wp_mono; [apply writeRemote_uploads with (pre := pre ++ t1 ++ [Event Now now]); by apply justified_ripe|].
  cbn beta. intros r x3 t3 [_ Ht3].
  assert (Hgo : forall t, quiet t -> uploads (justified s) pre (t1 ++ [Event Now now] ++ t3 ++ t)).
  { intros t Ht. rewrite (app_assoc t1). apply uploads_app. split; [apply quiet_uploads; auto with acts|].
    apply uploads_app. split; [done|by apply quiet_uploads]. }
  assert (Hend : uploads (justified s) pre (t1 ++ [Event Now now] ++ t3))
    by (specialize (Hgo [] ltac:(auto with acts)); by rewrite app_nil_r in Hgo).
  destruct r as [[]|e|]; cbn [after]; [|exact Hend..].
  apply wp_bind, readRemote_wp; [intros verified t4 Ht4 Hv w4|intros e t4 _ Ht4 w4]; cbn [after]; [|by apply Hgo].
  repeat case_match; wp_run; apply Hgo; auto with acts.
Qed.

Lemma Acquire_uploads fuel x : wp (Acquire s fuel) (ups []) x.
Proof.
  unfold Acquire, newLock.
  apply wp_bind, readLocalSyncFile_wp; [intros local b t Ht Hl w1|intros e t He Ht w1]; cbn [after];
    [|by apply quiet_uploads].
  apply wp_bind, readRemote_seen; [intros remote t2 Ht2 Hr Hs w2|intros e t2 He Ht2 w2]; cbn [after];
    [|apply quiet_uploads; auto with acts].
  apply wp_bind. eapply wp_mono; [by apply validateAcquisition_quiet|].
  intros [[]|e|] x3 t3 Ht3; cbn [after]; [|apply quiet_uploads; auto 8 with acts..].
  assert (Hpre : forall t4 {A} (r : result error A) x' t', quiet t4 -> ups (t ++ t2 ++ t3 ++ t4) r x' t' ->
    ups [] r x' (t ++ t2 ++ t3 ++ t4 ++ t')).
  { intros t4 A r x' t' Ht4 H. unfold ups in *. replace (t ++ _) with ((t ++ t2 ++ t3 ++ t4) ++ t') by by rewrite <- !app_assoc.
    apply uploads_app. split; [apply quiet_uploads; auto 8 with acts|exact H]. }
  destruct (persistent s && ownedBy remote (owner s)).
  - apply wp_bind, wp_bind, wp_sys. intros now w4. cbn [after]. apply wp_ret. cbn [after].
    apply wp_wrap. eapply wp_mono; [apply (replaceOwnedRemote_uploads _ _ (t ++ t2 ++ t3 ++ [Event Now now]))|].
    intros r x' t' H. destruct r; apply (Hpre [Event Now now] _ _ _ t'); done.
  - apply wp_bind.
    assert (Hdl : wp (if negb (infinite (wait s)) && (0 <? duration (wait s)) then now ← sys Now; ret (now + duration (wait s))
          else ret time_zero) (fun r _ t => quiet t /\ exists d, r = Ok d) x3).
    { case_goal; wp_run; split; eauto with acts. }
    eapply wp_mono; [exact Hdl|]. clear Hdl. cbn beta. intros r x4 t4 [Ht4 [d ->]]. cbn [after].
    eapply wp_mono; [apply (acquireLoop_uploads _ _ local b _ remote (t ++ t2 ++ t3 ++ t4)); [done|done| |by left]|].
    + apply read_from_app_r. by apply read_from_app_l.
    + intros r x' t' H. by apply Hpre.
Qed.
End Runs.

(** ** The shared state file over time *)

(** Contents the remote state file has had: since when, and the ETag they are served with. *)
Record version := Version { put_at : Z; contents : string; tag : string }.

(** Equal ETags mean equal contents. *)
Definition tags_faithful (h : list version) : Prop :=
  forall v v', v ∈ h -> v' ∈ h -> tag v = tag v' -> contents v = contents v'.

(** The state an instance reads from a version. *)
Definition state_in (v : version) : remoteSyncFile :=
  match decodeSyncFile (contents v) with
  | Ok d => RemoteSyncFile d (tag v) true
  | _ => no_remote
  end.

(** The header an upload is given. *)
Fixpoint upload_header (args : list string) : option string :=
  match args with
  | flag :: rest => if (flag =? "--header-upload")%string then head rest else upload_header rest
  | [] => None
  end.

(** Whether the server lets the upload replace [prev]. *)
Definition accepts (args : list string) (prev : option version) : bool :=
  match upload_header (tail (tail args)) with
  | None => true
  | Some h =>
      if (h =? "If-None-Match: *")%string then match prev with None => true | Some _ => false end
      else match prev with
           | None => false
           | Some v => (h =? "If-Match: " +:+ in_quotes (tag v))%string
           end
  end.

(** An operation and the interval in which it was performed. *)
Record timed := Timed { from : Z; til : Z; what : event }.

Section Timeline.
Variable s : syncState.
Variable h : list version.

(** The clock reads an instant of the interval, and what a reading of the state file prints is
    a version that had been put there by its end. *)
Definition explained (te : timed) : bool :=
  (from te <=? til te) &&
  match ev_op (what te) in op A return A -> bool with
  | Now => fun a => (from te <=? a) && (a <=? til te)
  | Rclone args => fun out =>
      if bool_decide (args = cat_args s) && bool_decide (cmd_err out = None) && negb (cmd_stdout out =? "")%string
      then existsb (fun v => (contents v =? cmd_stdout out)%string &&
                             (tag v =? responseETag (cmd_stderr out))%string && (put_at v <=? til te)) h
      else true
  | _ => fun _ => true
  end (ev_answer (what te)).

(** The run of one instance: its operations one after the other. *)
Definition timeline (l : list timed) : Prop :=
  StronglySorted (fun a b => til a <= from b) l /\ Forall (fun te => explained te = true) l.

Lemma sublist_fmap_inv {A B} (f : A -> B) l k : sublist l (f <$> k) -> exists k', sublist k' k /\ f <$> k' = l.
Proof.
  revert l. induction k as [|a k IH]; intros l H; cbn in H.
  - apply sublist_nil_r in H as ->. by exists [].
  - inversion H as [|? l' ? H'|? ? ? H']; subst.
    + apply IH in H' as (k' & Hk & <-). exists (a :: k'). split; [by apply sublist_skip|done].
    + apply IH in H' as (k' & Hk & <-). exists k'. split; [by apply sublist_cons|done].
Qed.

Lemma StronglySorted_sublist {A} (R : A -> A -> Prop) l k : sublist l k -> StronglySorted R k -> StronglySorted R l.
Proof.
  induction 1 as [|x l k Hs IH|x l k Hs IH]; intros H; [constructor| |].
  - inversion H as [|? ? Hk Hx]; subst. constructor; [by apply IH|].
    rewrite Forall_forall in Hx |- *. intros y Hy. apply Hx. by apply (elem_of_sublist l k).
  - apply IH. by inversion H.
Qed.
Lemma read_event_version r te :
  consistentWrites s = true -> explained te = true -> read_event s r (what te) ->
  exists v, v ∈ h /\ contents v <> "" /\ decodeSyncFile (contents v) = Ok (data r) /\ tag v = etag r /\ put_at v <= til te.
Proof.
  intros Hcond He (out & Hev & Herr & Hdec & Htag). unfold explained in He. rewrite Hev in He. cbn in He.
  rewrite bool_decide_true in He by done. rewrite bool_decide_true in He by done.
  assert (Hne : cmd_stdout out <> ""%stdpp) by (intros E; rewrite E in Hdec; vm_compute in Hdec; done).
  apply andb_true_iff in He as [_ He]. destruct (cmd_stdout out =? "")%string eqn:E; reflect_bools; [done|].
  cbn in He. apply existsb_exists in He as (v & Hv & Hm). reflect_bools. rewrite Hcond in Htag.
  exists v. split; [by apply list_elem_of_In|]. split_and!; congruence || done.
Qed.

(** The lock of a state that was waited for had been there for its TTL. *)
Lemma waited_time (t1 : list timed) te r t2 :
  consistentWrites s = true -> timeline (t1 ++ te :: t2) -> waited s (what <$> t1) r ->
  exists v, v ∈ h /\ lockIdentity (state_in v) = lockIdentity r /\ put_at v + lockTTL r (timeout s) <= from te.
Proof.
  intros Hcond [Hord Hex] (r0 & e0 & a & n & Hr0 & Hid & Hsub & Hle).
  apply sublist_fmap_inv in Hsub as (k & Hk & Hwhat).
  destruct k as [|te0 [|te1 [|te2 [|]]]]; cbn in Hwhat; try done. injection Hwhat as H0 H1 H2. subst e0.
  assert (Hs : sublist [te0; te1; te2; te] (t1 ++ te :: t2))
    by (apply (sublist_app [te0; te1; te2] t1 [te]); [done|apply sublist_skip, sublist_nil_l]).
  assert (Hin : forall y, y ∈ [te0; te1; te2; te] -> explained y = true).
  { intros y Hy. rewrite Forall_forall in Hex. apply Hex. by eapply elem_of_sublist. }
  assert (Hnow : forall y z, y ∈ [te0; te1; te2; te] -> what y = Event Now z -> from y <= z <= til y).
  { intros y z Hy Hw. specialize (Hin y Hy). unfold explained in Hin. rewrite Hw in Hin. cbn in Hin. by reflect_bools. }
  pose proof (StronglySorted_sublist _ _ _ Hs Hord) as Hsort.
  inversion Hsort as [|? ? Hs1 Hf1]; subst. inversion Hs1 as [|? ? Hs2 Hf2]; subst. inversion Hs2 as [|? ? _ Hf3]; subst.
  rewrite !Forall_cons in Hf1, Hf2, Hf3.
  destruct (read_event_version r0 te0) as (v & Hv & _ & Hdec & _ & Hput); [done|apply Hin; set_solver|done|].
  exists v. split; [done|]. split.
  - rewrite <- Hid. unfold state_in. by rewrite Hdec.
  - specialize (Hnow te1 a ltac:(set_solver) H1) as Ha. specialize (Hnow te2 n ltac:(set_solver) H2) as Hn. lia.
Qed.
End Timeline.

Lemma append_inj_l (a b c : string) : a +:+ c = b +:+ c -> a = b.
Proof.
  revert b. induction a as [|x a IH]; intros [|y b] H; cbn in H; [done|..].
  - apply (f_equal String.length) in H. cbn in H. rewrite str_length_app in H. lia.
  - apply (f_equal String.length) in H. cbn in H. rewrite str_length_app in H. lia.
  - injection H as -> H. f_equal. by apply IH.
Qed.

(** A conditional upload replaces the version whose ETag was read. *)
Lemma accepts_read s name dest t prev :
  consistentWrites s = true -> accepts (with_flag ([name; dest] ++ condition_args s t)) (Some prev) = true ->
  t <> "" /\ tag prev = t.
Proof.
  intros Hcond. unfold accepts, with_flag, condition_args. rewrite Hcond. cbn.
  destruct (t =? "")%string eqn:E; cbn; [done|]. reflect_bools. intros H%String.eqb_eq. split; [done|].
  symmetry. by apply append_inj_l in H.
Qed.

(** ** The time an owner counts on its lock *)
Section Leased.
Context {W : Type} `{!Host W}.
Variable s : syncState.

(** The lock that is held has the configured TTL and is counted from a reading of the clock. *)
Definition leased (v : syncVars) (t : list event) : Prop :=
  exists w l, Event Now w ∈ t /\ lockExpiry v = w + timeout s /\
    Lock (data (remote_ v)) = Some l /\ TTL l = timeout s /\ Owner l = owner s.

Lemma leased_app_r v t t' : leased v t' -> leased v (t ++ t').
Proof. intros (w & l & Hw & H). exists w, l. split; [set_solver|done]. Qed.

Lemma judge_attempt_leased o remote current d now we w (x : st W syncVars) :
  wp (judge_attempt s o remote current (set_Lock (Some (SyncFileLock (owner s) (utc now) (timeout s))) d) we (w + timeout s))
    (fun r x' _ => r = Ok Acquired -> forall t, Event Now w ∈ t -> leased (vars x') t) x.
Proof.
  unfold judge_attempt, setOwnedRemote. destruct (sameSyncFileData _ _) eqn:Es.
  - apply wp_bind, wp_modify. cbn [after]. apply wp_ret. intros _ t Ht.
    apply sameSyncFileData_spec in Es. unfold data_view in Es. cbn in Es. simplify_eq.
    destruct (Lock (data current)) as [l|] eqn:El; [|done]. unfold lock_view in *. simplify_eq/=.
    exists w, l. by split_and!.
  - destruct we; wp_run; done.
Qed.

Lemma try_acquire_leased fuel local b o remote (x : st W syncVars) :
  wp (try_acquire s fuel local b o remote) (fun r x' t => r = Ok Acquired -> leased (vars x') t) x.
Proof.
  unfold try_acquire, newLock.
  apply wp_bind. eapply (wp_mono _ (fun _ _ _ => True)); [done|]. intros [[]|e|] x1 t1 _; cbn [after]; [|done..].
  apply wp_bind, wp_bind, wp_sys. intros now w2. cbn [after]. apply wp_ret. cbn [after].
  apply wp_bind, wp_sys. intros writtenAt w3. cbn [after]. apply wp_bind, wp_sys. intros now' w4. cbn [after].
  apply wp_bind. eapply (wp_mono _ (fun _ _ _ => True)); [done|]. intros [we|e|] x5 t5 _; cbn [after]; [|done..].
  apply wp_bind. eapply (wp_mono _ (fun _ _ _ => True)); [done|]. intros [cur|e|] x6 t6 _; cbn [after]; [|done..].
  apply wp_bind, wp_sys. intros [|bu] w7; cbn [after].
  - destruct cur as [cur|e]; [|by apply wp_throw].
    eapply wp_mono; [apply judge_attempt_leased|]. cbn beta. intros r x' t Hr ->. apply Hr; [done|]. set_solver.
  - apply wp_bind. eapply (wp_mono _ (fun _ _ _ => True)); [done|]. intros [[]|e|] x8 t8 _; cbn [after]; [by apply wp_throw|done..].
Qed.

Lemma acquireLoop_leased fuel deadline local b o remote (x : st W syncVars) :
  wp (acquireLoop s fuel deadline local b o remote) (fun r x' t => r = Ok tt -> leased (vars x') t) x.
Proof.
  revert o remote x. induction fuel as [|fuel IH]; intros o remote x; cbn [acquireLoop]; [by apply wp_out_of_fuel|].
  apply wp_bind. eapply (wp_mono _ (fun _ _ _ => True)); [done|]. intros [[o1 r1]|e|] x1 t1 _; cbn [after]; [|done..].
  apply wp_bind. eapply wp_mono; [apply try_acquire_leased|]. intros [[|r2]|e|] x2 t2 Ht; cbn [after]; [| |done..].
  - apply wp_ret. intros _. rewrite app_nil_r. apply leased_app_r. by apply Ht.
  - eapply wp_mono; [apply IH|]. intros r x3 t3 H3 Hr. by apply leased_app_r, leased_app_r, H3.
Qed.

Lemma Acquire_leased fuel (x : st W syncVars) : persistent s = false ->
  res (Acquire s fuel x) = Ok tt -> leased (vars (out_state (Acquire s fuel x))) (trace (Acquire s fuel x)).
Proof.
  intros Hp. change (wp (Acquire s fuel) (fun r x' t => r = Ok tt -> leased (vars x') t) x). unfold Acquire. rewrite Hp. cbn [andb].
  apply wp_bind. eapply (wp_mono _ (fun _ _ _ => True)); [done|]. intros [[local b]|e|] x1 t1 _; cbn [after]; [|done..].
  apply wp_bind. eapply (wp_mono _ (fun _ _ _ => True)); [done|]. intros [remote|e|] x2 t2 _; cbn [after]; [|done..].
  apply wp_bind. eapply (wp_mono _ (fun _ _ _ => True)); [done|]. intros [[]|e|] x3 t3 _; cbn [after]; [|done..].
  apply wp_bind. eapply (wp_mono _ (fun _ _ _ => True)); [done|]. intros [d|e|] x4 t4 _; cbn [after]; [|done..].
  eapply wp_mono; [apply acquireLoop_leased|]. intros r x5 t5 H5 Hr. by do 4 apply leased_app_r; apply H5.
Qed.
End Leased.

(** The version [prev] is free for the owner at an instant: it has no lock or this owner's, or a
    version with the same lock had been put at least the lock's TTL before. *)
Definition free_for (s : syncState) (h : list version) (prev : version) (now : Z) : Prop :=
  Lock (data (state_in prev)) = None \/ ownedBy (state_in prev) (owner s) = true \/
  exists first, first ∈ h /\ lockIdentity (state_in first) = lockIdentity (state_in prev) /\
    put_at first + lockTTL (state_in prev) (timeout s) <= now.

Lemma lock_taken_over_after_ttl_at {W : Type} `{!Host W} s fuel (x : st W syncVars) h t1 te t2 l prev :
  consistentWrites s = true -> tags_faithful h -> timeline s h (t1 ++ te :: t2) ->
  what <$> (t1 ++ te :: t2) = trace (Acquire s fuel x) ->
  upload_args (what te) = Some l -> prev ∈ h -> accepts l (Some prev) = true ->
  free_for s h prev (from te).
Proof.
  intros Hcond Htags Htl Htr Hl Hprev Hacc.
  pose proof (Acquire_uploads s Hcond fuel x) as Hup. unfold wp, ups in Hup. rewrite <- Htr, fmap_app in Hup. cbn in Hup.
  apply (uploads_at _ _ _ _ _ l) in Hup as (name & r & -> & Hr & Hseen & Hripe); [|done]. cbn in Hseen, Hripe.
  apply accepts_read in Hacc as [Hne Htag]; [|done].
  destruct Hseen as [->|(e & He & Hread)]; [done|].
  apply list_elem_of_fmap in He as (te0 & -> & He).
  destruct Htl as [Hord Hex]. pose proof (proj1 (Forall_forall _ _) Hex te0 ltac:(set_solver)) as Hte0.
  destruct (read_event_version s h r te0 Hcond Hte0 Hread) as (v & Hv & _ & Hdec & Hvt & _).
  assert (Hsame : state_in prev = RemoteSyncFile (data r) (tag prev) true).
  { unfold state_in. rewrite (Htags prev v) by (done || congruence). by rewrite Hdec. }
  unfold free_for. rewrite Hsame. destruct Hripe as [Hn|[Ho|Hw]]; [by left| |].
  - right. left. unfold ownedBy in *. cbn. by destruct (exists_ r).
  - right. right. destruct (waited_time s h t1 te r t2 Hcond (conj Hord Hex) Hw) as (first & H1 & H2 & H3).
    by exists first.
Qed.

(** ** Guarantees *)

(** C19: with conditional writes, whatever other instances do to the remote state meanwhile, an
    upload of [Acquire] that the server accepts replaces a version without a lock, one with
    this owner's lock, or one whose lock had then been in the remote state for at least its
    TTL. *)
Theorem lock_taken_over_after_ttl (W : Type) (H : Host W) s fuel (x : st W syncVars) h t1 te t2 l prev :
  consistentWrites s = true -> tags_faithful h -> timeline s h (t1 ++ te :: t2) ->
  what <$> (t1 ++ te :: t2) = trace (Acquire s fuel x) ->
  upload_args (what te) = Some l -> prev ∈ h -> accepts l (Some prev) = true ->
  free_for s h prev (from te).
Proof.
  intros. by eapply lock_taken_over_after_ttl_at.
Qed.

(** C5: an instance that acquired the lock counts on it until the TTL has passed since a reading
    of its clock. If no version with that lock is older than this reading, no other instance's
    acquisition replaces the lock before that time is over, when writes are conditional. *)
Theorem leases_do_not_overlap (W V : Type) (HA : Host W) (HB : Host V) sA fuelA (xA : st W syncVars)
    sB fuelB (xB : st V syncVars) h t1 te t2 l prev :
  persistent sA = false -> 0 < timeout sA -> res (Acquire sA fuelA xA) = Ok tt ->
  let expiry := lockExpiry (vars (out_state (Acquire sA fuelA xA))) in
  let lock := Lock (data (remote_ (vars (out_state (Acquire sA fuelA xA))))) in
  Event Now (expiry - timeout sA) ∈ trace (Acquire sA fuelA xA) /\
  (consistentWrites sB = true -> owner sA <> owner sB -> tags_faithful h ->
   timeline sB h (t1 ++ te :: t2) -> what <$> (t1 ++ te :: t2) = trace (Acquire sB fuelB xB) ->
   upload_args (what te) = Some l -> prev ∈ h -> accepts l (Some prev) = true ->
   Lock (data (state_in prev)) = lock ->
   (forall v, v ∈ h -> lockIdentity (state_in v) = lockIdentity (state_in prev) -> expiry - timeout sA <= put_at v) ->
   expiry <= from te).
Proof.
  intros Hp Ht Hok expiry lock. subst expiry lock. destruct (Acquire_leased sA fuelA xA Hp Hok) as (w & lk & Hw & He & Hl & Httl & Hown).
  rewrite He, Hl. split; [by replace (w + timeout sA - timeout sA) with w by lia|].
  intros Hcond Hne Htags Htl Htr Hargs Hprev Hacc Hlock Hfresh.
  pose proof (lock_taken_over_after_ttl_at sB fuelB xB h t1 te t2 l prev Hcond Htags Htl Htr Hargs Hprev Hacc) as Hcase.
  destruct Hcase as [Hn|[Ho|(first & Hf & Hid & Hle)]].
  - congruence.
  - exfalso. unfold ownedBy in Ho. rewrite Hlock, Hown in Ho. reflect_bools. congruence.
  - specialize (Hfresh first Hf Hid). unfold lockTTL, ttl in Hle. rewrite Hlock, Httl in Hle.
    destruct (timeout sA <=? 0) eqn:E; reflect_bools; lia.
Qed.

(** ** A run

    One instance finds the lock of another, waits for its TTL and takes over. *)
Fixpoint stamp (now : Z) (t : list event) : list timed :=
  match t with
  | [] => []
  | e :: t =>
      let now' := match ev_op e in op A return A -> Z with Now => fun a => a | _ => fun _ => now end (ev_answer e) in
      Timed now' now' e :: stamp now' t
  end.

Lemma what_stamp now t : what <$> stamp now t = t.
Proof. revert now. induction t as [|e t IH]; intros now; cbn; [done|]. by rewrite IH. Qed.

Definition conditional (id : string) : syncState :=
  SyncState demo_paths "/src" "r:dst" (10 * second) zero_wait second true false false
    id "00000000-0000-4000-8000-000000000000" false [] true true true.
Definition first_owner : syncState := conditional "aaaaaaaaaaaaaaaa".
Definition second_owner : syncState := conditional "bbbbbbbbbbbbbbbb".

Definition first_run := Acquire first_owner 20 (start_in empty_host).
Definition second_run := Acquire second_owner 20 (start_in (host (out_state first_run))).

Definition object_of (x : st mem syncVars) : string := match object (host x) with Some (c, _) => c | None => "" end.
(** Both locks as versions, each put no later than the clock its owner counts from. *)
Definition both_versions : list version := Eval vm_compute in
  [Version (lockExpiry (vars (out_state first_run)) - 10 * second) (object_of (out_state first_run)) "v2";
   Version (lockExpiry (vars (out_state second_run)) - 10 * second) (object_of (out_state second_run)) "v3"].

Definition first_version : version := default (Version 0 "" "") (head both_versions).

Definition second_timeline : list timed := Eval vm_compute in
  stamp (clock (host (out_state first_run))) (trace second_run).

(** The upload with which the second instance takes over. *)
Definition upload_index : nat := Eval vm_compute in
  match list_find (fun te => is_Some (upload_args (what te))) second_timeline with Some (i, _) => i | None => 0%nat end.
Definition before_upload : list timed := Eval vm_compute in take upload_index second_timeline.
Definition the_upload : timed := Eval vm_compute in default (Timed 0 0 (Event Now 0)) (second_timeline !! upload_index).
Definition after_upload : list timed := Eval vm_compute in drop (S upload_index) second_timeline.
Definition its_arguments : list string := Eval vm_compute in default [] (upload_args (what the_upload)).

Fixpoint ordered (l : list timed) : bool :=
  match l with [] => true | a :: l => forallb (fun b => til a <=? from b) l && ordered l end.

Lemma ordered_timeline s h l : ordered l = true -> forallb (explained s h) l = true -> timeline s h l.
Proof.
  intros Ho He. split.
  - clear He. induction l as [|a l IH]; cbn in Ho; [constructor|]. apply andb_true_iff in Ho as [Ha Ho].
    constructor; [by apply IH|]. rewrite Forall_forall. rewrite forallb_forall in Ha. intros b Hb.
    apply list_elem_of_In, Ha in Hb. by reflect_bools.
  - rewrite Forall_forall. rewrite forallb_forall in He. intros b Hb. by apply He, list_elem_of_In.
Qed.

Lemma second_timeline_holds : timeline second_owner both_versions (before_upload ++ the_upload :: after_upload).
Proof. apply ordered_timeline; vm_compute; reflexivity. Qed.

Lemma both_versions_faithful : tags_faithful both_versions.
Proof.
  intros v v' Hv Hv' Ht. unfold both_versions in Hv, Hv'.
  rewrite !elem_of_cons in Hv, Hv'. destruct Hv as [->|[->|Hv]]; [| |by apply not_elem_of_nil in Hv];
    (destruct Hv' as [->|[->|Hv']]; [| |by apply not_elem_of_nil in Hv']); by vm_compute in Ht |- *.
Qed.

Lemma lock_taken_over_after_ttl_witness :
  upload_args (what the_upload) = Some its_arguments /\ free_for second_owner both_versions first_version (from the_upload).
Proof.
  split; [vm_compute; reflexivity|].
  apply (lock_taken_over_after_ttl mem mem_host second_owner 20 (start_in (host (out_state first_run))) both_versions
    before_upload the_upload after_upload its_arguments first_version).
  - reflexivity.
  - exact both_versions_faithful.
  - exact second_timeline_holds.
  - vm_compute. reflexivity.
  - vm_compute. reflexivity.
  - left.
  - vm_compute. reflexivity.
Defined.

Lemma leases_do_not_overlap_witness : lockExpiry (vars (out_state first_run)) <= from the_upload.
Proof.
  apply (leases_do_not_overlap mem mem mem_host mem_host first_owner 20 (start_in empty_host)
    second_owner 20 (start_in (host (out_state first_run))) both_versions
    before_upload the_upload after_upload its_arguments first_version).
  - reflexivity.
  - reflexivity.
  - vm_compute. reflexivity.
  - reflexivity.
  - discriminate.
  - exact both_versions_faithful.
  - exact second_timeline_holds.
  - vm_compute. reflexivity.
  - vm_compute. reflexivity.
  - left.
  - vm_compute. reflexivity.
  - vm_compute. reflexivity.
  - intros v Hv. unfold both_versions in Hv. rewrite !elem_of_cons in Hv.
    destruct Hv as [->|[->|Hv]]; [intros _; vm_compute; discriminate|intros _; vm_compute; discriminate|].
    exfalso. exact (not_elem_of_nil _ Hv).
Defined.
