(* ===== verification/CrashRecovery.v ===== *)
(** * What an interruption leaves behind

    The two state files, as the actions of a session change them: a saved local state and an
    accepted publication take effect, a publication that was not acknowledged may have.  A
    process that is killed has performed a prefix of its actions.  At every such point of an
    outgoing batch the next start recovers by uploading: local changes are never given up. *)

From S2P Require Import Prelude GoString Utf8 GoTime Host HostLogic SyncData Json StateFile StateFileRoundTrip SyncPath Options Filters SyncState SyncStateSpec Acquire Session SessionSpec.

Local Open Scope Z_scope.

(** ** The state files *)
Record disk := Disk { on_local : option syncFileData; on_remote : syncFileData }.

Definition with_local (d : syncFileData) (k : disk) : disk := Disk (Some d) (on_remote k).
Definition with_remote (d : syncFileData) (k : disk) : disk := Disk (on_local k) d.

Inductive performs (k : disk) : action -> disk -> Prop :=
| P_save path c d : decodeSyncFile c = Ok d -> performs k (SaveLocal path c) (with_local d k)
| P_publish c cond accepted d : decodeSyncFile c = Ok d -> performs k (Publish c cond accepted) (with_remote d k)
| P_not_published c cond : performs k (Publish c cond false) k
| P_transfer args : performs k (Transfer args) k.

Inductive performs_all : disk -> list action -> disk -> Prop :=
| PA_nil k : performs_all k [] k
| PA_cons k a k1 l k2 : performs k a k1 -> performs_all k1 l k2 -> performs_all k (a :: l) k2.

(** Killed somewhere in the middle of the actions [l]. *)
Definition interrupted (k : disk) (l : list action) (k' : disk) : Prop :=
  exists l1 l2, l = l1 ++ l2 /\ performs_all k l1 k'.

(** What the next start does. *)
Definition next_start (k : disk) : plan := startup_plan (on_local k) (on_remote k).

Lemma performs_all_app k l1 l2 k' :
  performs_all k (l1 ++ l2) k' <-> exists k1, performs_all k l1 k1 /\ performs_all k1 l2 k'.
Proof.
  split.
  - revert k. induction l1 as [|a l1 IH]; simpl; intros k H; [eexists; by split; [constructor|]|].
    inversion H as [|? ? k1 ? ? Ha Hl]; subst. destruct (IH _ Hl) as (k2 & H1 & H2). exists k2. split; [|done].
    by econstructor.
  - intros (k1 & H1 & H2). induction H1; [done|]. simpl. econstructor; eauto.
Qed.

(** An interruption of two pieces is one of the first, or one of the second after the first. *)
Lemma interrupted_app k l1 l2 k' :
  interrupted k (l1 ++ l2) k' ->
  interrupted k l1 k' \/ exists k1, performs_all k l1 k1 /\ interrupted k1 l2 k'.
Proof.
  intros (a & b & Hl & H). destruct (app_eq_inv _ _ _ _ Hl) as [(c & -> & ->)|(c & -> & ->)].
  - left. by exists a, c.
  - right. apply performs_all_app in H as (k1 & H1 & H2). exists k1. split; [done|]. by exists c, b.
Qed.

Lemma interrupted_nil k k' : interrupted k [] k' -> k' = k.
Proof.
  intros (a & b & Hl & H). symmetry in Hl. apply app_nil in Hl as [-> ->]. by inversion H.
Qed.

Lemma interrupted_one k a k' : interrupted k [a] k' -> k' = k \/ performs k a k'.
Proof.
  intros (l1 & l2 & Hl & H). destruct l1 as [|b l1]; [left; by inversion H|].
  simpl in Hl. injection Hl as <- Hl. symmetry in Hl. apply app_nil in Hl as [-> ->].
  inversion H as [|? ? k1 ? ? Ha Hn]; subst. inversion Hn; subst. by right.
Qed.

Lemma performs_one k a k' : performs_all k [a] k' -> performs k a k'.
Proof. intros H. inversion H as [|? ? k1 ? ? Ha Hn]; subst. by inversion Hn; subst. Qed.

(** ** Effects of the building blocks *)

(** What reconciliation looks at. *)
Definition fields (d : syncFileData) : string * Z * string * bool :=
  (RepositoryID d, Generation d, SyncID d, Syncing d).

Lemma fields_set_Lock l d : fields (set_Lock l d) = fields d.
Proof. done. Qed.
Lemma fields_same a b : sameSyncFileData a b = true -> fields a = fields b.
Proof. intros H%sameSyncFileData_spec. unfold data_view, fields in *. congruence. Qed.

Lemma wf_local_state repo gen id syncing active :
  repo <> "" -> 0 <= gen <= uint64_max -> encodable (local_state repo gen id syncing active).
Proof. done. Qed.

Section Effects.
Variable s : syncState.

Lemma saves_effect path d v r v' l k k' : encodable d -> saves path d v r v' l -> interrupted k l k' ->
  k' = k \/ k' = with_local (sanitize_data d) k.
Proof.
  intros Hwf H Hk. destruct H as [(_ & _ & ->)|(c & Hc & _ & [[_ ->]|[_ [-> | ->]]])];
    try (left; by apply interrupted_nil);
    (apply interrupted_one in Hk as [->|Hk]; [by left|]; right; inversion Hk as [? ? d' Hd| | |]; subst;
     by rewrite (decode_encode_local_inv _ _ _ Hwf Hc Hd)).
Qed.

Lemma saves_done path d v v' l k k' : encodable d -> saves path d v (Ok tt) v' l -> performs_all k l k' ->
  v' = v /\ k' = with_local (sanitize_data d) k.
Proof.
  intros Hwf H Hk. destruct H as [([? [? ?]] & _)|(c & Hc & -> & [[_ ->]|[[? [? ?]] ?]])]; [done| |done].
  split; [done|]. apply performs_one in Hk. inversion Hk as [? ? d' Hd| | |]; subst.
  by rewrite (decode_encode_local_inv _ _ _ Hwf Hc Hd).
Qed.

Lemma transfers_effect args v r v' l k k' : transfers args v r v' l -> interrupted k l k' -> v' = v /\ k' = k.
Proof.
  intros (-> & H) Hk. split; [done|].
  assert (Hl : l = [] \/ l = [Transfer (with_flag args)]) by (destruct H as [[_ ->]|[_ [-> | ->]]]; auto).
  destruct Hl as [-> | ->]; [by apply interrupted_nil|].
  apply interrupted_one in Hk as [Hk|Hk]; [done|by inversion Hk].
Qed.

(** The data that is published differs from the candidate in its lock at most. *)
Lemma written_wf v previous latest candidate :
  encodable candidate -> remote_reading s latest -> encodable (written v previous latest candidate).
Proof.
  intros (H1 & H2 & H3) Hl. unfold written, adopt_lock. case_goal; [|done].
  split; [done|]. split; [done|]. simpl. destruct Hl as [->|(_ & (_ & _ & Hl)%wf_encodable & _)]; [done|exact Hl].
Qed.

Lemma written_fields v previous latest candidate : fields (written v previous latest candidate) = fields candidate.
Proof. unfold written, adopt_lock. by case_goal. Qed.

Definition sanitized_fields (d : syncFileData) := fields (sanitize_data d).

Lemma sanitized_fields_eq a b : fields a = fields b -> sanitized_fields a = sanitized_fields b.
Proof. unfold sanitized_fields, fields. simpl. congruence. Qed.

Lemma publishes_effect latest v previous candidate b l k k' :
  encodable candidate -> remote_reading s latest ->
  publishes s latest (written v previous latest candidate) b l -> interrupted k l k' ->
  k' = k \/ exists d, fields d = sanitized_fields candidate /\ k' = with_remote d k.
Proof.
  intros Hwf Hl (c & Hc & ->) Hk. apply interrupted_one in Hk as [->|Hk]; [by left|].
  assert (Hw : encodable (set_Active false (written v previous latest candidate))) by (by apply written_wf).
  inversion Hk as [|? ? ? d Hd| |]; subst; [|by left]. right. apply (decode_encode_inv _ _ _ Hw Hc) in Hd as ->. eexists. split; [|done]. apply sanitized_fields_eq.
  by rewrite <- (written_fields v previous latest candidate).
Qed.

Lemma replaces_effect previous candidate v r v' l k k' :
  encodable candidate -> replaces s previous candidate v r v' l -> interrupted k l k' ->
  k' = k \/ exists d, fields d = sanitized_fields candidate /\ k' = with_remote d k.
Proof.
  intros Hwf H Hk.
  assert (l = [] \/ exists latest b, remote_reading s latest /\ publishes s latest (written v previous latest candidate) b l)
    as [-> |(latest & b & Hl & Hp)] by (destruct H; naive_solver).
  - left. by apply interrupted_nil.
  - by eapply publishes_effect.
Qed.

Lemma replaces_done previous candidate v v' l k k' :
  encodable candidate -> replaces s previous candidate v (Ok tt) v' l -> performs_all k l k' ->
  (exists d, fields d = sanitized_fields candidate /\ k' = with_remote d k) /\
  fields (data (remote_ v')) = fields candidate /\ encodable (data (remote_ v')).
Proof.
  intros Hwf H Hk. inversion H as [| | | | | |latest verified now l0 Hl Hr Hv (c & Hc & ->) Hsame Ho]; subst.
  assert (Hw : encodable (set_Active false (written v previous latest candidate))) by (by apply written_wf).
  split; [|split].
  - apply performs_one in Hk. inversion Hk as [|? ? ? d Hd| |]; subst. apply (decode_encode_inv _ _ _ Hw Hc) in Hd as ->. eexists. split; [|done]. apply sanitized_fields_eq.
    by rewrite <- (written_fields v previous latest candidate).
  - simpl. rewrite (fields_same _ _ Hsame). apply written_fields.
  - simpl. destruct Hv as [->|(_ & Hv & _)]; [|auto].
    apply fields_same in Hsame. rewrite written_fields in Hsame. destruct Hwf as [Hwf _].
    unfold fields in Hsame. simpl in Hsame. congruence.
Qed.
End Effects.

(** ** Pieces of a contract *)
Lemma performs_all_interrupted k l k' : performs_all k l k' -> interrupted k l k'.
Proof. intros H. exists l, []. by rewrite app_nil_r. Qed.

Lemma seq_interrupted (C1 C2 : contract syncVars) v r v' l k k' :
  c_seq C1 C2 v r v' l -> interrupted k l k' ->
  (exists r1 v1 l1, C1 v r1 v1 l1 /\ interrupted k l1 k') \/
  (exists v1 l1 l2 k1, C1 v (Ok tt) v1 l1 /\ performs_all k l1 k1 /\ C2 v1 r v' l2 /\ interrupted k1 l2 k').
Proof.
  intros [(e & -> & H)|(v1 & l1 & l2 & H1 & H2 & ->)] Hk; [left; eauto|].
  apply interrupted_app in Hk as [Hk|(k1 & Hk1 & Hk2)]; [left; eauto|right; eauto 10].
Qed.

Lemma wrap_inv msg (C : contract syncVars) v r v' l : c_wrap msg C v r v' l ->
  exists r', C v r' v' l /\ (r = Ok tt -> r' = Ok tt).
Proof. destruct r as [|[]|]; simpl; try done; [eauto|intros [_ H]; by eexists|eauto]. Qed.

(** A contract that transfers payload and nothing else. *)
Definition only_transfers (U : contract syncVars) : Prop :=
  forall v r v' l k k', U v r v' l -> interrupted k l k' -> v' = v /\ k' = k.

Lemma transfers_only args : only_transfers (transfers args).
Proof. intros v r v' l k k'. apply transfers_effect. Qed.

Lemma wrap_only msg U : only_transfers U -> only_transfers (c_wrap msg U).
Proof. intros HU v r v' l k k' (r' & H & _)%wrap_inv. by eapply HU. Qed.

(** ** An outgoing batch *)
Section Batch.
Variable s : syncState.
Variable U : contract syncVars.
Hypothesis U_only : only_transfers U.

(** The updates around an upload [U]. *)
Definition c_batch : contract syncVars := c_seq (c_before s) (c_seq U (c_after s)).

(** The local state of the new generation is saved; the remote one is the old one or is the
  new one too. *)
Definition underway (g : Z) (id : string) (k : disk) : Prop :=
  (exists repo, on_local k = Some (local_state repo (g + 1) id true true)) /\
  (Generation (on_remote k) = g \/ Generation (on_remote k) = g + 1 /\ SyncID (on_remote k) = id).

Definition completed (g : Z) (id : string) (k : disk) : Prop :=
  (exists repo, on_local k = Some (local_state repo (g + 1) id false true)) /\
  Generation (on_remote k) = g + 1 /\ SyncID (on_remote k) = id /\ Syncing (on_remote k) = false.

Lemma underway_recovers g id k : 0 < g -> id <> "" -> underway g id k -> next_start k = Recover.
Proof.
  unfold next_start, startup_plan. intros Hg Hid [[repo ->] [Hr|[Hr Hi]]]; cbn [Generation SyncID Syncing local_state].
  - rewrite Hr. replace (g =? 0) with false by lia. replace (g + 1 ?= g) with Gt by (symmetry; apply Z.compare_gt_iff; lia).
    by rewrite Z.eqb_refl.
  - rewrite Hr, Hi. replace (g + 1 =? 0) with false by lia. rewrite Z.compare_refl, String.eqb_refl. simpl.
    apply String.eqb_neq in Hid. by rewrite Hid.
Qed.

Lemma completed_recovers g id k : 0 < g -> completed g id k -> next_start k = Recover.
Proof.
  unfold next_start, startup_plan. intros Hg ([repo ->] & Hr & Hi & Hs). cbn [Generation SyncID Syncing Active local_state].
  rewrite Hr, Hi, Hs. replace (g + 1 =? 0) with false by lia. by rewrite Z.compare_refl, String.eqb_refl.
Qed.

(** A completed batch leaves nothing to recover once the session's end is recorded. *)
Lemma completed_finished g id k l : 0 < g -> completed g id k -> on_local k = Some l ->
  next_start (with_local (set_Active false l) k) = Current.
Proof.
  unfold next_start, startup_plan. intros Hg ([repo Hl] & Hr & Hi & Hs) Hl'. rewrite Hl in Hl'. injection Hl' as <-.
  cbn [on_local on_remote with_local set_Active Generation SyncID Syncing Active local_state].
  rewrite Hr, Hi, Hs. replace (g + 1 =? 0) with false by lia. by rewrite Z.compare_refl, String.eqb_refl.
Qed.

Lemma before_interrupted v r v' l k k' g :
  encodable (data (remote_ v)) -> Generation (data (remote_ v)) = g -> Generation (on_remote k) = g ->
  c_before s v r v' l -> interrupted k l k' ->
  k' = k \/ 0 < g /\ exists bytes, underway g (sanitize (rand_text bytes)) k'.
Proof.
  intros Hwf Hg Hk. unfold c_before. rewrite Hg. pose proof Hwf as (Hrepo & Hrange & Hlock).
  destruct ((g =? 0) || (g =? uint64_max)) eqn:E.
  { intros (_ & _ & ->) Hi. left. by apply interrupted_nil. }
  reflect_bools. intros (bytes & HC) Hi.
  assert (Hnext : add_uint64 (Generation (data (remote_ v))) 1 = g + 1) by (rewrite Hg in *; apply add_uint64_small; lia).
  assert (Hwl : encodable (batch_local (data (remote_ v)) (rand_text bytes))).
  { apply wf_local_state; [done|]. rewrite Hnext. lia. }
  assert (Hwr : encodable (batch_remote (data (remote_ v)) (rand_text bytes))).
  { split; [done|]. split; [|done]. simpl. rewrite Hnext. lia. }
  assert (Hsaved : forall d, Generation d = g \/ Generation d = g + 1 /\ SyncID d = sanitize (rand_text bytes) ->
    underway g (sanitize (rand_text bytes)) (Disk (Some (sanitize_data (batch_local (data (remote_ v)) (rand_text bytes)))) d)).
  { intros d Hd. split; [|done]. eexists. unfold sanitize_data, batch_local, local_state; simpl. by rewrite Hnext. }
  destruct (seq_interrupted _ _ _ _ _ _ _ _ HC Hi) as [(r1 & v1 & l1 & H1 & Hi1)|(v1 & l1 & l2 & k1 & H1 & Hp & H2 & Hi2)].
  - apply wrap_inv in H1 as (r' & H1 & _). destruct (saves_effect _ _ _ _ _ _ _ _ Hwl H1 Hi1) as [->| ->]; [by left|].
    right. split; [lia|]. exists bytes. apply Hsaved. by left.
  - apply wrap_inv in H1 as (r' & H1 & Hr'). rewrite (Hr' eq_refl) in H1.
    destruct (saves_done _ _ _ _ _ _ _ Hwl H1 Hp) as [-> ->]. apply wrap_inv in H2 as (r2 & H2 & _).
    destruct (replaces_effect _ _ _ _ _ _ _ _ _ Hwr H2 Hi2) as [->|(d & Hd & ->)]; right; (split; [lia|]); exists bytes; apply Hsaved; [by left|].
    right. unfold sanitized_fields, fields in Hd. simpl in Hd. rewrite Hnext in Hd. by simplify_eq.
Qed.

Lemma before_done v v' l k k' g :
  encodable (data (remote_ v)) -> Generation (data (remote_ v)) = g ->
  c_before s v (Ok tt) v' l -> performs_all k l k' ->
  0 < g /\ exists bytes repo d, k' = Disk (Some (local_state repo (g + 1) (sanitize (rand_text bytes)) true true)) d /\
    Generation d = g + 1 /\ SyncID d = sanitize (rand_text bytes) /\
    encodable (data (remote_ v')) /\ Generation (data (remote_ v')) = g + 1 /\
    SyncID (data (remote_ v')) = rand_text bytes.
Proof.
  intros Hwf Hg. unfold c_before. rewrite Hg. pose proof Hwf as (Hrepo & Hrange & Hlock).
  destruct ((g =? 0) || (g =? uint64_max)) eqn:E; [by intros ([? [? ?]] & _)|].
  reflect_bools. intros (bytes & HC) Hi. split; [lia|]. exists bytes.
  assert (Hnext : add_uint64 (Generation (data (remote_ v))) 1 = g + 1) by (rewrite Hg in *; apply add_uint64_small; lia).
  assert (Hwl : encodable (batch_local (data (remote_ v)) (rand_text bytes))).
  { apply wf_local_state; [done|]. rewrite Hnext. lia. }
  assert (Hwr : encodable (batch_remote (data (remote_ v)) (rand_text bytes))).
  { split; [done|]. split; [|done]. simpl. rewrite Hnext. lia. }
  destruct HC as [(e & ? & ?)|(v1 & l1 & l2 & H1 & H2 & ->)]; [done|]. simpl in H1, H2.
  apply performs_all_app in Hi as (k1 & Hp1 & Hp2).
  destruct (saves_done _ _ _ _ _ _ _ Hwl H1 Hp1) as [-> ->].
  destruct (replaces_done _ _ _ _ _ _ _ _ Hwr H2 Hp2) as ((d & Hd & ->) & Hf & Hw).
  unfold sanitized_fields, fields in *. simpl in Hd, Hf. rewrite Hnext in Hd, Hf. simplify_eq.
  eexists _, d. split_and!; [|congruence..|done|congruence|congruence].
  unfold with_remote, with_local, sanitize_data, batch_local, local_state; simpl. by rewrite Hnext.
Qed.

(** The state between the two updates. *)
Definition published (g : Z) (id : string) (v : syncVars) (k : disk) : Prop :=
  (exists repo, on_local k = Some (local_state repo (g + 1) (sanitize id) true true)) /\
  Generation (on_remote k) = g + 1 /\ SyncID (on_remote k) = sanitize id /\
  encodable (data (remote_ v)) /\ Generation (data (remote_ v)) = g + 1 /\ SyncID (data (remote_ v)) = id.

Lemma after_interrupted g id v r v' l k k' :
  published g id v k -> c_after s v r v' l -> interrupted k l k' ->
  underway g (sanitize id) k' \/ completed g (sanitize id) k'.
Proof.
  intros ((repo & Hl) & Hg & Hi & Hwf & Hgv & Hiv) HC Hk.
  assert (Hwr : encodable (set_Syncing false (data (remote_ v)))) by done.
  assert (Hws : encodable (settled (data (remote_ v)))) by (destruct Hwf as (? & ? & _); by apply wf_local_state).
  assert (Hu : underway g (sanitize id) k) by (split; [by exists repo|right; done]).
  destruct (seq_interrupted _ _ _ _ _ _ _ _ HC Hk) as [(r1 & v1 & l1 & H1 & Hi1)|(v1 & l1 & l2 & k1 & H1 & Hp & H2 & Hi2)].
  - apply wrap_inv in H1 as (r' & H1 & _).
    destruct (replaces_effect _ _ _ _ _ _ _ _ _ Hwr H1 Hi1) as [->|(d & Hd & ->)]; left; [done|].
    split; [by exists repo|right]. unfold sanitized_fields, fields in Hd. simpl in *. split; congruence.
  - apply wrap_inv in H1 as (r' & H1 & Hr'). rewrite (Hr' eq_refl) in H1.
    destruct (replaces_done _ _ _ _ _ _ _ _ Hwr H1 Hp) as ((d & Hd & ->) & _ & _).
    unfold sanitized_fields, fields in Hd. simpl in Hd. apply wrap_inv in H2 as (r2 & H2 & _).
    destruct (saves_effect _ _ _ _ _ _ _ _ Hws H2 Hi2) as [->| ->].
    + left. split; [by exists repo|]. right. simpl. split; congruence.
    + right. split; [|simpl; split_and!; congruence].
      exists (sanitize (RepositoryID (data (remote_ v)))). unfold sanitize_data, settled, local_state; simpl. congruence.
Qed.

Lemma after_done g id v v' l k k' :
  published g id v k -> c_after s v (Ok tt) v' l -> performs_all k l k' -> completed g (sanitize id) k'.
Proof.
  intros ((repo & Hl) & Hg & Hi & Hwf & Hgv & Hiv) HC Hk.
  assert (Hwr : encodable (set_Syncing false (data (remote_ v)))) by done.
  assert (Hws : encodable (settled (data (remote_ v)))) by (destruct Hwf as (? & ? & _); by apply wf_local_state).
  destruct HC as [(e & ? & ?)|(v1 & l1 & l2 & H1 & H2 & ->)]; [done|]. simpl in H1, H2.
  apply performs_all_app in Hk as (k1 & Hp1 & Hp2).
  destruct (replaces_done _ _ _ _ _ _ _ _ Hwr H1 Hp1) as ((d & Hd & ->) & _ & _).
  unfold sanitized_fields, fields in Hd. simpl in Hd.
  destruct (saves_done _ _ _ _ _ _ _ Hws H2 Hp2) as [-> ->].
  split; [|simpl; split_and!; congruence].
  exists (sanitize (RepositoryID (data (remote_ v)))). unfold sanitize_data, settled, local_state; simpl. congruence.
Qed.

Lemma rand_text_nonempty bytes : sanitize (rand_text bytes) <> "".
Proof. apply sanitize_nonempty. done. Qed.

(** Killed anywhere in a batch, the program has changed nothing or recovers at the next start. *)
Lemma batch_interrupted v r v' l k k' :
  encodable (data (remote_ v)) -> Generation (on_remote k) = Generation (data (remote_ v)) ->
  c_batch v r v' l -> interrupted k l k' -> k' = k \/ next_start k' = Recover.
Proof using U_only.
  intros Hwf Hg HC Hk. remember (Generation (data (remote_ v))) as g eqn:Eg. symmetry in Eg.
  destruct (seq_interrupted _ _ _ _ _ _ _ _ HC Hk) as [(r1 & v1 & l1 & H1 & Hi1)|(v1 & l1 & l2 & k1 & H1 & Hp & H2 & Hi2)].
  { destruct (before_interrupted _ _ _ _ _ _ _ Hwf Eg Hg H1 Hi1) as [->|(Hpos & bytes & Hu)]; [by left|right].
    eapply underway_recovers; [done|apply rand_text_nonempty|done]. }
  right. destruct (before_done _ _ _ _ _ _ Hwf Eg H1 Hp) as (Hpos & bytes & repo & d & -> & Hd1 & Hd2 & Hw1 & Hg1 & Hid1).
  assert (Hpub : published g (rand_text bytes) v1
    (Disk (Some (local_state repo (g + 1) (sanitize (rand_text bytes)) true true)) d)).
  { split_and!; [by exists repo|done..]. }
  destruct (seq_interrupted _ _ _ _ _ _ _ _ H2 Hi2) as [(r2 & v2 & l3 & H3 & Hi3)|(v2 & l3 & l4 & k3 & H3 & Hp3 & H4 & Hi4)].
  - destruct (U_only _ _ _ _ _ _ H3 Hi3) as [-> ->].
    eapply (underway_recovers g _ _ Hpos); [apply rand_text_nonempty|].
    split; [by exists repo|right; done].
  - destruct (U_only _ _ _ _ _ _ H3 (performs_all_interrupted _ _ _ Hp3)) as [-> ->].
    destruct (after_interrupted _ _ _ _ _ _ _ _ Hpub H4 Hi4) as [Hu|Hc].
    + eapply underway_recovers; [done|apply rand_text_nonempty|done].
    + by eapply completed_recovers.
Qed.

Lemma batch_done v v' l k k' :
  encodable (data (remote_ v)) -> c_batch v (Ok tt) v' l -> performs_all k l k' ->
  0 < Generation (data (remote_ v)) /\ exists id, completed (Generation (data (remote_ v))) id k'.
Proof using U_only.
  intros Hwf HC Hk. destruct HC as [(e & ? & ?)|(v1 & l1 & l2 & H1 & H2 & ->)]; [done|].
  apply performs_all_app in Hk as (k1 & Hp1 & Hk).
  destruct (before_done _ _ _ _ _ _ Hwf eq_refl H1 Hp1) as (Hpos & bytes & repo & d & -> & Hd1 & Hd2 & Hw1 & Hg1 & Hid1).
  split; [done|]. exists (sanitize (rand_text bytes)).
  destruct H2 as [(e & ? & ?)|(v2 & l3 & l4 & H3 & H4 & ->)]; [done|].
  apply performs_all_app in Hk as (k3 & Hp3 & Hp4).
  destruct (U_only _ _ _ _ _ _ H3 (performs_all_interrupted _ _ _ Hp3)) as [-> ->].
  eapply after_done; [|done..]. split_and!; [by exists repo|done..].
Qed.
End Batch.
