(* ===== verification/Refresh.v ===== *)
(** * Keeping the lock alive ([syncstate.go]: [refreshLoop] and its timing)

    The refresh loop rewrites the lock at half of its life, retries failures while the lock is
    still safe, and otherwise cancels the running commands and reports an error.  A pass of
    the loop has two atomic parts: noticing that the timer fired, which arms a watchdog while
    it waits for the update mutex, and the refresh under that mutex. *)

From S2P Require Import Prelude GoString GoTime Host HostLogic SyncData Json StateFile SyncPath Options Filters SyncState SyncStateSpec Acquire Session SessionSpec MemHost Fixtures.

Local Open Scope Z_scope.

(** How a pass of the loop ends: the loop waits again, or it stops with an error. *)
Inductive pass := Again (delay : Z) | Failed (e : error).

Section Refresh.
Context {W : Type} `{!Host W}.
#[local] Abbreviation P := (M W syncVars).
Variable s : syncState.

Definition refresh_deadline (expires : Z) : Z := expires - refreshSafetyWindow (timeout s).

Definition refreshDelay : P Z :=
  let interval := Z.max (timeout s ÷ 2) nanosecond in
  expires ← getLockExpiry;
  if expires =? time_zero then ret 0
  else
    now ← sys Now;
    ret (Z.max (until (expires - timeout s + interval) now) 0).

Definition refreshRetryDelay : P (option Z) :=
  expires ← getLockExpiry;
  if expires =? time_zero then ret None
  else
    now ← sys Now;
    let remaining := until (refresh_deadline expires) now in
    ret (if remaining <=? 0 then None else Some (Z.min (pollInterval s) remaining)).

Definition refreshDeadlinePassed : P bool :=
  expires ← getLockExpiry;
  if expires =? time_zero then ret true
  else
    now ← sys Now;
    ret (negb (now <? refresh_deadline expires)).

(** The expiry the watchdog guards. Its timer is armed until [refresh_deadline]. *)
Definition startRefreshWatchdog : P Z := getLockExpiry.

(** A watchdog that fired found the lock expired if the expiry had not moved; it then
  cancelled the running commands. *)
Definition stopRefreshWatchdog (expires : Z) : P bool :=
  w ← sys (StopWatchdog (refresh_deadline expires));
  match w with
  | StoppedInTime => ret false
  | Fired before_update =>
      current ← getLockExpiry;
      let expired := before_update || negb (expires <? current) in
      (if expired then cancelCommands s else ret tt);;
      ret expired
  end.

Definition failRefresh (e : error) : P pass := cancelCommands s;; ret (Failed e).

Definition expired_error : error := Errorf "could not refresh remote lock before expiry".

(** The refresh under the mutex; [expires] is the expiry when the timer fired. *)
Definition refresh_locked (expires : Z) : P pass :=
  waited ← stopRefreshWatchdog expires;
  passed ← (if (waited : bool) then ret true else refreshDeadlinePassed);
  if (passed : bool) then failRefresh expired_error
  else
    remote ← getRemote;
    lock ← newLock s;
    let candidate := set_Lock lock (data remote) in
    expires ← startRefreshWatchdog;
    r ← try (replaceOwnedRemote s remote candidate);
    watchdogExpired ← stopRefreshWatchdog expires;
    if (watchdogExpired : bool) then failRefresh expired_error
    else
      match r with
      | inr err =>
          if is_ownership_lost err then failRefresh err
          else
            retry ← refreshRetryDelay;
            match retry with
            | Some delay => ret (Again delay)
            | None => failRefresh (Wrapf "refresh remote lock before expiry" err)
            end
      | inl _ =>
          delay ← refreshDelay;
          ret (Again delay)
      end.

Definition refresh_pass : P pass :=
  expires ← startRefreshWatchdog;
  refresh_locked expires.

(** [AwaitTimer] answers [Some] when the loop is told to stop. The result is the error sent
  to the main loop. *)
Fixpoint refreshLoop (fuel : nat) (delay : Z) : P (option error) :=
  match fuel with
  | O => out_of_fuel
  | S fuel =>
      stop ← sys (AwaitTimer delay);
      match stop with
      | Some _ => ret None
      | None =>
          p ← refresh_pass;
          match p with
          | Again delay => refreshLoop fuel delay
          | Failed e => ret (Some e)
          end
      end
  end.
End Refresh.

(** ** Timing *)
Lemma refreshSafetyWindow_bounds t : 0 < t -> nanosecond <= refreshSafetyWindow t <= second /\ 20 * refreshSafetyWindow t <= Z.max t 20.
Proof.
  unfold refreshSafetyWindow, nanosecond, second. intros H. rewrite Z.quot_div_nonneg by lia.
  Z.to_euclidean_division_equations. lia.
Qed.

Section Timing.
Context {W : Type} `{!Host W}.
Variable s : syncState.

(** The instant the next refresh is due, for a lock that expires at [expires]. *)
Definition refresh_due (expires : Z) : Z := expires - timeout s + Z.max (timeout s ÷ 2) nanosecond.

(** A lock that lives at least three nanoseconds is due before the deadline. *)
Lemma refresh_due_before_deadline expires : 3 <= timeout s ->
  expires - timeout s < refresh_due expires < refresh_deadline s expires.
Proof.
  intros H. unfold refresh_due, refresh_deadline, refreshSafetyWindow, nanosecond, second.
  rewrite !Z.quot_div_nonneg by lia. Z.to_euclidean_division_equations. lia.
Qed.

Lemma refreshDelay_wp (Q : post (W := W) Z) x :
  (lockExpiry (vars x) = time_zero -> Q (Ok 0) x []) ->
  (forall now w, lockExpiry (vars x) <> time_zero ->
     Q (Ok (Z.max (until (refresh_due (lockExpiry (vars x))) now) 0)) (St w (vars x)) [Event Now now]) ->
  wp (refreshDelay s) Q x.
Proof.
  intros H1 H2. unfold refreshDelay, getLockExpiry. do 2 apply wp_bind. apply wp_get. cbn [after]. apply wp_ret. cbn [after].
  destruct (_ =? _) eqn:E; reflect_bools; wp_run; auto.
Qed.

(** The time that is left, as the code tests it. *)
Lemma until_positive d now : (until d now <=? 0) = negb (now <? d).
Proof. unfold until, clamp_int64, int64_min, int64_max. destruct (now <? d) eqn:E; reflect_bools; cbn; lia. Qed.

Lemma refreshRetryDelay_wp (Q : post (W := W) (option Z)) x :
  (lockExpiry (vars x) = time_zero -> Q (Ok None) x []) ->
  (forall now w, lockExpiry (vars x) <> time_zero -> refresh_deadline s (lockExpiry (vars x)) <= now ->
     Q (Ok None) (St w (vars x)) [Event Now now]) ->
  (forall now w, lockExpiry (vars x) <> time_zero -> now < refresh_deadline s (lockExpiry (vars x)) ->
     Q (Ok (Some (Z.min (pollInterval s) (until (refresh_deadline s (lockExpiry (vars x))) now)))) (St w (vars x)) [Event Now now]) ->
  wp (refreshRetryDelay s) Q x.
Proof.
  intros H1 H2 H3. unfold refreshRetryDelay, getLockExpiry. do 2 apply wp_bind. apply wp_get.
  cbn [after]. apply wp_ret. cbn [after vars]. destruct (_ =? _) eqn:E; reflect_bools; [by apply wp_ret, H1|].
  apply wp_bind, wp_sys. intros now w. cbn [after]. rewrite until_positive.
  destruct (now <? _) eqn:En; reflect_bools; cbn [negb]; apply wp_ret; [by apply H3|by apply H2].
Qed.

Lemma refreshDeadlinePassed_wp (Q : post (W := W) bool) x :
  (lockExpiry (vars x) = time_zero -> Q (Ok true) x []) ->
  (forall now w, lockExpiry (vars x) <> time_zero -> refresh_deadline s (lockExpiry (vars x)) <= now ->
     Q (Ok true) (St w (vars x)) [Event Now now]) ->
  (forall now w, lockExpiry (vars x) <> time_zero -> now < refresh_deadline s (lockExpiry (vars x)) ->
     Q (Ok false) (St w (vars x)) [Event Now now]) ->
  wp (refreshDeadlinePassed s) Q x.
Proof.
  intros H1 H2 H3. unfold refreshDeadlinePassed, getLockExpiry. do 2 apply wp_bind. apply wp_get.
  cbn [after]. apply wp_ret. cbn [after vars]. destruct (_ =? _) eqn:E; reflect_bools; [by apply wp_ret, H1|].
  apply wp_bind, wp_sys. intros now w. cbn [after].
  destruct (now <? _) eqn:En; reflect_bools; cbn [negb]; apply wp_ret; [by apply H3|by apply H2].
Qed.
End Timing.

(** ** What a pass does *)
Section Pass.
Context {W : Type} `{!Host W}.
Variable s : syncState.

(** The variables after the running commands were cancelled. *)
Definition cancelled (v : syncVars) : syncVars := if has_cancelCommands s then set_cancelled v else v.

Lemma cancelled_twice v : cancelled (cancelled v) = cancelled v.
Proof. unfold cancelled. by destruct (has_cancelCommands s). Qed.

Lemma cancelCommands_wp (Q : post (W := W) unit) x :
  Q (Ok tt) (St (host x) (cancelled (vars x))) [] -> wp (cancelCommands s) Q x.
Proof. unfold cancelCommands, cancelled. destruct x as [w v]. by destruct (has_cancelCommands s). Qed.

Lemma failRefresh_wp e (Q : post (W := W) pass) x :
  Q (Ok (Failed e)) (St (host x) (cancelled (vars x))) [] -> wp (failRefresh s e) Q x.
Proof. intros H. apply wp_bind, cancelCommands_wp. cbn [after]. by apply wp_ret. Qed.

(** The watchdog over [expires] was stopped with the answer [w]. *)
Definition watchdog_stopped (expires : Z) (w : watchdog) : event := Event (StopWatchdog (refresh_deadline s expires)) w.

(** What the answer says when the recorded expiry is [current]: the watchdog had struck, and the
    lock was no longer the one that was written later. *)
Definition struck (expires current : Z) (w : watchdog) : bool :=
  match w with StoppedInTime => false | Fired before_update => before_update || (current <=? expires) end.

Lemma stopRefreshWatchdog_wp expires (Q : post (W := W) bool) x :
  (forall w, struck expires (lockExpiry (vars x)) w = false ->
     forallW Q (Ok false) (vars x) [watchdog_stopped expires w]) ->
  (forall w, struck expires (lockExpiry (vars x)) w = true ->
     forallW Q (Ok true) (cancelled (vars x)) [watchdog_stopped expires w]) ->
  wp (stopRefreshWatchdog s expires) Q x.
Proof.
  intros H1 H2. unfold stopRefreshWatchdog, getLockExpiry. apply wp_bind, wp_sys. intros [|b] w; cbn [after vars].
  { apply wp_ret. by apply H1. }
  do 2 apply wp_bind. apply wp_get. cbn [after vars]. apply wp_ret. cbn [after].
  assert (Hs : struck expires (lockExpiry (vars x)) (Fired b) = b || negb (expires <? lockExpiry (vars x)))
    by (cbn; by rewrite Z.ltb_antisym, negb_involutive).
  destruct (b || _) eqn:E; apply wp_bind.
  - apply cancelCommands_wp. cbn [after host vars]. apply wp_ret. by apply H2.
  - apply wp_ret. cbn [after]. apply wp_ret. by apply H1.
Qed.

(** The lock that is written at the instant [now]. *)
Definition refreshed (now : Z) (d : syncFileData) : syncFileData :=
  set_Lock (Some (SyncFileLock (owner s) (utc now) (timeout s))) d.

(** What follows the replacement with result [r], which left [v] and was watched over until the
    deadline of [expires]. *)
Inductive verdict_run (expires : Z) (v : syncVars) (r : result error unit) : pass -> syncVars -> list event -> Prop :=
| Verdict_struck w :
  struck expires (lockExpiry v) w = true ->
  verdict_run expires v r (Failed expired_error) (cancelled v) [watchdog_stopped expires w]
| Verdict_refreshed w now :
  struck expires (lockExpiry v) w = false -> r = Ok tt -> lockExpiry v <> time_zero ->
  verdict_run expires v r (Again (Z.max (until (refresh_due s (lockExpiry v)) now) 0)) v
    [watchdog_stopped expires w; Event Now now]
| Verdict_released w :
  struck expires (lockExpiry v) w = false -> r = Ok tt -> lockExpiry v = time_zero ->
  verdict_run expires v r (Again 0) v [watchdog_stopped expires w]
| Verdict_lost w e :
  struck expires (lockExpiry v) w = false -> r = Err e -> is_ownership_lost e = true ->
  verdict_run expires v r (Failed e) (cancelled v) [watchdog_stopped expires w]
| Verdict_retry w e now :
  struck expires (lockExpiry v) w = false -> r = Err e -> is_ownership_lost e = false ->
  lockExpiry v <> time_zero -> now < refresh_deadline s (lockExpiry v) ->
  verdict_run expires v r (Again (Z.min (pollInterval s) (until (refresh_deadline s (lockExpiry v)) now))) v
    [watchdog_stopped expires w; Event Now now]
| Verdict_late w e now :
  struck expires (lockExpiry v) w = false -> r = Err e -> is_ownership_lost e = false ->
  lockExpiry v <> time_zero -> refresh_deadline s (lockExpiry v) <= now ->
  verdict_run expires v r (Failed (Wrapf "refresh remote lock before expiry" e)) (cancelled v)
    [watchdog_stopped expires w; Event Now now]
| Verdict_no_lock w e :
  struck expires (lockExpiry v) w = false -> r = Err e -> is_ownership_lost e = false -> lockExpiry v = time_zero ->
  verdict_run expires v r (Failed (Wrapf "refresh remote lock before expiry" e)) (cancelled v)
    [watchdog_stopped expires w].

(** A pass whose watchdog guards [expires] while it waits for the mutex: its outcome, the
    variables it leaves, its trace and its actions. *)
Inductive pass_run (expires : Z) (v : syncVars) : pass -> syncVars -> list event -> list action -> Prop :=
| Pass_struck w :
  struck expires (lockExpiry v) w = true ->
  pass_run expires v (Failed expired_error) (cancelled v) [watchdog_stopped expires w] []
| Pass_no_lock w :
  struck expires (lockExpiry v) w = false -> lockExpiry v = time_zero ->
  pass_run expires v (Failed expired_error) (cancelled v) [watchdog_stopped expires w] []
| Pass_late w now :
  struck expires (lockExpiry v) w = false -> lockExpiry v <> time_zero ->
  refresh_deadline s (lockExpiry v) <= now ->
  pass_run expires v (Failed expired_error) (cancelled v) [watchdog_stopped expires w; Event Now now] []
| Pass_replaces w now writtenAt r v1 l t p v' t' :
  struck expires (lockExpiry v) w = false -> lockExpiry v <> time_zero ->
  now < refresh_deadline s (lockExpiry v) ->
  replaces s (remote_ v) (refreshed writtenAt (data (remote_ v))) v r v1 l -> acts t l ->
  verdict_run (lockExpiry v) v1 r p v' t' ->
  pass_run expires v p v' ([watchdog_stopped expires w; Event Now now; Event Now writtenAt] ++ t ++ t') l.

(** What matters for the files: a pass gives up before it writes, or replaces the lock; it goes
    on after a success or after a failure that leaves time for another attempt. *)
Definition pass_post (v : syncVars) (p : pass) (v' : syncVars) (l : list action) : Prop :=
  (l = [] /\ p = Failed expired_error /\ v' = cancelled v) \/
  exists now r v1, replaces s (remote_ v) (refreshed now (data (remote_ v))) v r v1 l /\
    match p with
    | Again d => v' = v1 /\ (r = Ok tt /\ 0 <= d \/ exists e, r = Err e /\ is_ownership_lost e = false /\ 0 < d <= pollInterval s)
    | Failed e => v' = cancelled v1 /\ (e = expired_error \/ exists e1, r = Err e1 /\ (e = e1 \/ e = Wrapf "refresh remote lock before expiry" e1))
    end.

Lemma pass_run_post expires v p v' t l : 0 < pollInterval s -> pass_run expires v p v' t l -> pass_post v p v' l.
Proof.
  intros Hp [w ?|w ??|w now ???|w now wat r v1 l' t1 p' v2 t2 ??? Hrep _ Hv]; [by left..|right].
  exists wat, r, v1. split; [done|]. destruct Hv as [| | | |w' e now' _ He Hl _ Hlt| |].
  - split; [done|by left].
  - split; [done|]. left. split; [done|lia].
  - split; [done|]. left. split; [done|lia].
  - split; [done|]. right. exists e. split; [done|by left].
  - split; [done|]. right. exists e. split; [done|]. split; [done|].
    pose proof (until_positive (refresh_deadline s (lockExpiry v1)) now') as Hu.
    replace (now' <? refresh_deadline s (lockExpiry v1)) with true in Hu by lia. reflect_bools. lia.
  - split; [done|]. right. exists e. split; [done|by right].
  - split; [done|]. right. exists e. split; [done|by right].
Qed.

(** What follows the replacement: its result, judged after the second watchdog. *)
Definition refresh_verdict (expires : Z) (r : unit + error) : M W syncVars pass :=
  watchdogExpired ← stopRefreshWatchdog s expires;
  if (watchdogExpired : bool) then failRefresh s expired_error
  else
    match r with
    | inr err =>
        if is_ownership_lost err then failRefresh s err
        else
          retry ← refreshRetryDelay s;
          match retry with
          | Some delay => ret (Again delay)
          | None => failRefresh s (Wrapf "refresh remote lock before expiry" err)
          end
    | inl _ => delay ← refreshDelay s; ret (Again delay)
    end.

Lemma refresh_verdict_wp v1 r expires r' w :
  (r' = inl tt /\ r = Ok tt \/ exists e, r' = inr e /\ r = Err e) ->
  wp (refresh_verdict expires r')
    (fun r0 x' t => exists p, r0 = Ok p /\ verdict_run expires v1 r p (vars x') t) (W := W) (St w v1).
Proof.
  intros Hr'. unfold refresh_verdict.
  apply wp_bind, stopRefreshWatchdog_wp; cbn [vars]; intros wd Hwd w5; cbn [after].
  2: { apply failRefresh_wp. cbn [host vars]. exists (Failed expired_error). rewrite cancelled_twice.
       split; [done|]. by apply Verdict_struck. }
  destruct Hr' as [[-> ->]|(e & -> & ->)].
  - apply wp_bind, refreshDelay_wp; cbn [vars]; intros; cbn [after]; apply wp_ret; eexists; (split; [done|]).
    + by apply Verdict_released.
    + by apply Verdict_refreshed.
  - destruct (is_ownership_lost e) eqn:El.
    + apply failRefresh_wp. exists (Failed e). split; [done|]. by apply Verdict_lost.
    + apply wp_bind, refreshRetryDelay_wp; cbn [vars]; intros; cbn [after].
      * apply failRefresh_wp. eexists. split; [done|]. by eapply Verdict_no_lock.
      * apply failRefresh_wp. eexists. split; [done|]. by eapply Verdict_late.
      * apply wp_ret. eexists. split; [done|]. by eapply Verdict_retry.
Qed.

Lemma verdict_quiet expires v r p v' t : verdict_run expires v r p v' t -> quiet t.
Proof. intros []; by intros f. Qed.

Lemma refresh_locked_run expires x :
  wp (refresh_locked s expires)
    (fun r x' t => exists p l, r = Ok p /\ acts t l /\ pass_run expires (vars x) p (vars x') t l) (W := W) x.
Proof.
  destruct x as [w v]. unfold refresh_locked. cbn [vars].
  apply wp_bind, stopRefreshWatchdog_wp; cbn [vars]; intros wd Hwd w1; cbn [after].
  2: { apply wp_bind, wp_ret. cbn [after]. apply failRefresh_wp. cbn [host vars].
       exists (Failed expired_error), []. rewrite cancelled_twice. split; [done|]. split; [by intros f|]. by apply Pass_struck. }
  apply wp_bind, refreshDeadlinePassed_wp; cbn [vars]; [intros Hz|intros now w2 Hz Hd|intros now w2 Hz Hd]; cbn [after].
  { apply failRefresh_wp. exists (Failed expired_error), []. split; [done|]. split; [by intros f|]. by apply Pass_no_lock. }
  { apply failRefresh_wp. exists (Failed expired_error), []. split; [done|]. split; [by intros f|]. by apply Pass_late. }
  unfold getRemote, newLock, startRefreshWatchdog, getLockExpiry.
  do 2 apply wp_bind. apply wp_get. cbn [after vars]. apply wp_ret. cbn [after].
  do 2 apply wp_bind. apply wp_sys. intros writtenAt w3. cbn [after vars]. apply wp_ret. cbn [after].
  do 2 apply wp_bind. apply wp_get. cbn [after vars]. apply wp_ret. cbn [after].
  fold (refreshed writtenAt (data (remote_ v))).
  apply wp_bind, wp_try, replaceOwnedRemote_wp. cbn [vars]. intros r v1 l t Hrep Ht w4.
  assert (Hgo : forall r', (r' = inl tt /\ r = Ok tt \/ exists e, r' = inr e /\ r = Err e) ->
    wp (refresh_verdict (lockExpiry v) r')
      (fun r0 x' t' => exists p l, r0 = Ok p /\
         acts ([watchdog_stopped expires wd; Event Now now; Event Now writtenAt] ++ t ++ t') l /\
         pass_run expires v p (vars x') ([watchdog_stopped expires wd; Event Now now; Event Now writtenAt] ++ t ++ t') l)
      (W := W) (St w4 v1)).
  { intros r' Hr'. eapply wp_mono; [by eapply refresh_verdict_wp|]. intros r0 x' t' (p & -> & Hv). exists p, l.
    split; [done|]. split; [|by eapply Pass_replaces].
    apply quiet_app_l; [by intros f|]. apply quiet_app_r; [done|]. by eapply verdict_quiet. }
  destruct r as [[]|e|]; [| |by apply replaces_not_fuel in Hrep]; cbn [after].
  - apply (Hgo (inl tt)). by left.
  - apply (Hgo (inr e)). right. by exists e.
Qed.

Lemma refresh_locked_wp expires x :
  0 < pollInterval s ->
  wp (refresh_locked s expires) (fun r x' t => exists p l, r = Ok p /\ acts t l /\ pass_post (vars x) p (vars x') l) (W := W) x.
Proof.
  intros Hp. eapply wp_mono; [apply refresh_locked_run|]. intros r x' t (p & l & H1 & H2 & H3).
  exists p, l. split; [done|]. split; [done|]. by eapply pass_run_post.
Qed.
End Pass.

(** ** Guarantees *)


(** C30: with a TTL of at least three nanoseconds, the delay until the next refresh brings it
    to half of the lock's life, after the lock was written and before the instant from which
    the lock is no longer safe, at least a safety window of a nanosecond to a second before it
    expires; a lock already past that point is refreshed at once. *)
Theorem refresh_due_in_time (W : Type) (H : Host W) s (x : st W syncVars) :
  3 <= timeout s -> lockExpiry (vars x) <> time_zero ->
  exists now, trace (refreshDelay s x) = [Event Now now] /\
    res (refreshDelay s x) = Ok (Z.max (until (refresh_due s (lockExpiry (vars x))) now) 0) /\
    lockExpiry (vars x) - timeout s < refresh_due s (lockExpiry (vars x)) < refresh_deadline s (lockExpiry (vars x)) /\
    nanosecond <= lockExpiry (vars x) - refresh_deadline s (lockExpiry (vars x)) <= second.
Proof.
  intros Ht He. apply (refreshDelay_wp s (fun r x' t => exists now, t = [Event Now now] /\ r = _ /\ _ /\ _)); [done|].
  intros now w _. exists now. split; [done|]. split; [done|]. split; [by apply refresh_due_before_deadline|].
  pose proof (refreshSafetyWindow_bounds (timeout s)) as Hw. unfold refresh_deadline. lia.
Qed.

Lemma refresh_due_in_time_witness :
  exists now, trace (refreshDelay demo demo_started) = [Event Now now] /\
    res (refreshDelay demo demo_started) = Ok (Z.max (until (refresh_due demo (lockExpiry (vars demo_started))) now) 0) /\
    lockExpiry (vars demo_started) - timeout demo < refresh_due demo (lockExpiry (vars demo_started)) < refresh_deadline demo (lockExpiry (vars demo_started)) /\
    nanosecond <= lockExpiry (vars demo_started) - refresh_deadline demo (lockExpiry (vars demo_started)) <= second.
Proof. apply (refresh_due_in_time mem mem_host demo demo_started); [vm_compute; discriminate|vm_compute; discriminate]. Defined.
