(* ===== verification/Goroutines.v ===== *)
(** * The goroutines of a sync state ([Start], [refreshLoop] and [Close] in [syncstate.go])

    The refresh loop runs in a goroutine of its own; a worker goroutine performs the updates of
    a start-up or of a batch; the main goroutine starts the loop and at the end closes the sync
    state. They meet at the mutex [updateMu] and at the channels [stop], [errors] and [done].
    What an update does under the mutex is in [Session] and [Refresh]; here are the steps around
    it, one per operation on the mutex or a channel, in any order the scheduler likes. *)

From S2P Require Import Prelude GoString Host SyncState Refresh.

(** ** State *)
Inductive goroutine := Main | Refresher | Worker.
#[export] Instance goroutine_eq_dec : EqDecision goroutine.
Proof. solve_decision. Defined.

(** Where [refreshLoop] stands. *)
Inductive refresher_at :=
| NotRunning
| Selecting                       (* the [select] on [stop] and the timer *)
| AtMutex                         (* the timer fired *)
| Refreshing                      (* the mutex is held *)
| Sending (e : error)             (* [failRefresh], after the mutex was released *)
| ClosingErrors                   (* the deferred calls, last one first *)
| ClosingDone
| Returned.

(** Where the main goroutine stands: before [Close], and at its operations. *)
Inductive main_at :=
| Before_Close
| Stop_closed
| Once_done                       (* after [startOnce.Do], waiting for [done] *)
| Done_received
| Releasing                       (* the mutex is held *)
| Close_returned.

(** The updates of the remote state, in order. *)
Inductive update := Refreshed | Updated | Released.
#[export] Instance update_eq_dec : EqDecision update.
Proof. solve_decision. Defined.

Record threads := Threads {
  startOnce : bool;                (* [startOnce] has run *)
  stopClosed : bool;
  errorsClosed : bool;
  doneClosed : bool;
  errors : list error;             (* the buffer of the channel, of capacity 1 *)
  updateMu : option goroutine;     (* who holds the mutex *)
  refresher : refresher_at;
  main : main_at;
  updates_left : nat;              (* what the worker has still to do *)
  updates : list update;
  received : list error;           (* what the main loop received from [errors] *)
  panicked : bool                  (* a closed channel was closed again or sent on *)
}.

(** The sync state before [Start]. *)
Definition fresh_threads (n : nat) : threads :=
  Threads false false false false [] None NotRunning Before_Close n [] [] false.

(** ** Operations *)
Definition set_refresher (p : refresher_at) (s : threads) : threads :=
  Threads (startOnce s) (stopClosed s) (errorsClosed s) (doneClosed s) (errors s) (updateMu s) p (main s)
    (updates_left s) (updates s) (received s) (panicked s).
Definition set_main (p : main_at) (s : threads) : threads :=
  Threads (startOnce s) (stopClosed s) (errorsClosed s) (doneClosed s) (errors s) (updateMu s) (refresher s) p
    (updates_left s) (updates s) (received s) (panicked s).
Definition set_once (s : threads) : threads :=
  Threads true (stopClosed s) (errorsClosed s) (doneClosed s) (errors s) (updateMu s) (refresher s) (main s)
    (updates_left s) (updates s) (received s) (panicked s).
Definition set_mutex (w : option goroutine) (s : threads) : threads :=
  Threads (startOnce s) (stopClosed s) (errorsClosed s) (doneClosed s) (errors s) w (refresher s) (main s)
    (updates_left s) (updates s) (received s) (panicked s).
Definition set_left (n : nat) (s : threads) : threads :=
  Threads (startOnce s) (stopClosed s) (errorsClosed s) (doneClosed s) (errors s) (updateMu s) (refresher s) (main s)
    n (updates s) (received s) (panicked s).
Definition log_update (u : update) (s : threads) : threads :=
  Threads (startOnce s) (stopClosed s) (errorsClosed s) (doneClosed s) (errors s) (updateMu s) (refresher s) (main s)
    (updates_left s) (updates s ++ [u]) (received s) (panicked s).
Definition set_buffer (b r : list error) (s : threads) : threads :=
  Threads (startOnce s) (stopClosed s) (errorsClosed s) (doneClosed s) b (updateMu s) (refresher s) (main s)
    (updates_left s) (updates s) r (panicked s).

(** [close] of a channel panics when it is closed already. *)
Definition close_stop (s : threads) : threads :=
  Threads (startOnce s) true (errorsClosed s) (doneClosed s) (errors s) (updateMu s) (refresher s) (main s)
    (updates_left s) (updates s) (received s) (panicked s || stopClosed s).
Definition close_errors (s : threads) : threads :=
  Threads (startOnce s) (stopClosed s) true (doneClosed s) (errors s) (updateMu s) (refresher s) (main s)
    (updates_left s) (updates s) (received s) (panicked s || errorsClosed s).
Definition close_done (s : threads) : threads :=
  Threads (startOnce s) (stopClosed s) (errorsClosed s) true (errors s) (updateMu s) (refresher s) (main s)
    (updates_left s) (updates s) (received s) (panicked s || doneClosed s).
(** A send panics when the channel is closed. *)
Definition send_error (e : error) (s : threads) : threads :=
  Threads (startOnce s) (stopClosed s) (errorsClosed s) (doneClosed s) (errors s ++ [e]) (updateMu s) (refresher s) (main s)
    (updates_left s) (updates s) (received s) (panicked s || errorsClosed s).

(** The operations a goroutine may perform next. *)
Inductive operation :=
| Start
| CloseStop | CloseOnce | AwaitDone | LockRelease | Release          (* [Close] *)
| TimerFires | StopReceived | LockRefresh | Refresh (p : pass)       (* [refreshLoop] *)
| SendError | CloseErrors | CloseDone
| LockUpdate | Update                                                (* the worker *)
| ReceiveError.                                                      (* the main loop *)

Section Threads.
Variable persistent : bool.

(** One operation, [None] when it cannot be performed now: it is another one's turn, or the
  operation blocks. *)
Definition perform (a : operation) (s : threads) : option threads :=
  match a with
  | Start =>
      match main s with
      | Before_Close => Some (if startOnce s then s else set_refresher Selecting (set_once s))
      | _ => None
      end
  | CloseStop => match main s with Before_Close => Some (set_main Stop_closed (close_stop s)) | _ => None end
  | CloseOnce =>
      match main s with
      | Stop_closed => Some (set_main Once_done (if startOnce s then s else close_done (close_errors (set_once s))))
      | _ => None
      end
  | AwaitDone =>
      match main s with
      | Once_done => if doneClosed s then Some (set_main (if persistent then Close_returned else Done_received) s) else None
      | _ => None
      end
  | LockRelease =>
      match main s, updateMu s with
      | Done_received, None => Some (set_main Releasing (set_mutex (Some Main) s))
      | _, _ => None
      end
  | Release =>
      match main s with
      | Releasing => Some (set_main Close_returned (set_mutex None (log_update Released s)))
      | _ => None
      end
  | TimerFires => match refresher s with Selecting => Some (set_refresher AtMutex s) | _ => None end
  | StopReceived =>
      match refresher s with
      | Selecting => if stopClosed s then Some (set_refresher ClosingErrors s) else None
      | _ => None
      end
  | LockRefresh =>
      match refresher s, updateMu s with
      | AtMutex, None => Some (set_refresher Refreshing (set_mutex (Some Refresher) s))
      | _, _ => None
      end
  | Refresh p =>
      match refresher s with
      | Refreshing =>
          Some (set_refresher (match p with Again _ => Selecting | Failed e => Sending e end)
                  (set_mutex None (log_update Refreshed s)))
      | _ => None
      end
  | SendError =>
      match refresher s, errors s with
      | Sending e, [] => Some (set_refresher ClosingErrors (send_error e s))
      | _, _ => None
      end
  | CloseErrors => match refresher s with ClosingErrors => Some (set_refresher ClosingDone (close_errors s)) | _ => None end
  | CloseDone => match refresher s with ClosingDone => Some (set_refresher Returned (close_done s)) | _ => None end
  | LockUpdate =>
      match updateMu s, updates_left s with
      | None, S _ => Some (set_mutex (Some Worker) s)
      | _, _ => None
      end
  | Update =>
      match updateMu s, updates_left s with
      | Some Worker, S n => Some (set_left n (set_mutex None (log_update Updated s)))
      | _, _ => None
      end
  | ReceiveError =>
      match main s, errors s with
      | Before_Close, e :: b => Some (set_buffer b (received s ++ [e]) s)
      | _, _ => None
      end
  end.

Fixpoint perform_all (l : list operation) (s : threads) : option threads :=
  match l with
  | [] => Some s
  | a :: l => match perform a s with Some s => perform_all l s | None => None end
  end.
End Threads.

(** ** Invariant *)

(** What the refresh loop's place says of the channels it closes. *)
Definition refresher_inv (s : threads) : Prop :=
  match refresher s with
  | NotRunning => errorsClosed s = startOnce s /\ doneClosed s = startOnce s /\
      (main s = Before_Close \/ main s = Stop_closed -> startOnce s = false)
  | Selecting | AtMutex | Refreshing | Sending _ | ClosingErrors =>
      startOnce s = true /\ errorsClosed s = false /\ doneClosed s = false
  | ClosingDone => startOnce s = true /\ errorsClosed s = true /\ doneClosed s = false
  | Returned => startOnce s = true /\ errorsClosed s = true /\ doneClosed s = true
  end.

Definition main_inv (s : threads) : Prop :=
  match main s with
  | Before_Close => stopClosed s = false
  | Stop_closed => stopClosed s = true
  | Once_done => stopClosed s = true /\ startOnce s = true
  | Done_received | Releasing | Close_returned => stopClosed s = true /\ doneClosed s = true
  end.

Definition mutex_inv (s : threads) : Prop :=
  (updateMu s = Some Refresher <-> refresher s = Refreshing) /\
  (updateMu s = Some Main <-> main s = Releasing) /\
  (updateMu s = Some Worker -> updates_left s <> 0).

(** The loop reports one error at most, and nothing before it gives up. *)
Definition errors_inv (s : threads) : Prop :=
  match refresher s with
  | NotRunning | Selecting | AtMutex | Refreshing | Sending _ => errors s = [] /\ received s = []
  | _ => length (errors s) + length (received s) <= 1
  end.

(** The release comes after every refresh. *)
Definition release_last (us : list update) : Prop :=
  forall l1 l2, us = l1 ++ Released :: l2 -> Refreshed ∉ l2 /\ Released ∉ l2.

Definition updates_inv (s : threads) : Prop :=
  release_last (updates s) /\ (Released ∈ updates s -> main s = Close_returned).

Definition threads_inv (s : threads) : Prop :=
  panicked s = false /\ refresher_inv s /\ main_inv s /\ mutex_inv s /\ errors_inv s /\ updates_inv s.

Lemma threads_inv_fresh n : threads_inv (fresh_threads n).
Proof.
  split; [done|]. split; [done|]. split; [done|]. split; [done|]. split; [done|].
  split; [|set_solver]. intros l1 l2 H. by apply app_cons_not_nil in H.
Qed.

Lemma release_last_snoc us u : release_last us -> (u <> Updated -> Released ∉ us) -> release_last (us ++ [u]).
Proof.
  intros Hl Hu l1 l2 H. destruct l2 as [|x l2 _] using rev_ind; [split; apply not_elem_of_nil|].
  rewrite app_comm_cons, app_assoc in H. apply app_inj_tail in H as [-> <-].
  destruct (Hl l1 l2 eq_refl) as [H1 H2]. rewrite !not_elem_of_app, !list_elem_of_singleton.
  assert (Hin : Released ∈ l1 ++ Released :: l2) by set_solver.
  destruct u; [destruct Hu; done|split; split; done|destruct Hu; done].
Qed.

(** The cases of an operation that was performed. *)
Ltac operation_cases a H :=
  destruct a; cbn in H;
  repeat match type of H with
  | context [match ?x with _ => _ end] => destruct x; cbn in H; try discriminate H
  end;
  injection H as <-; cbn in *.

Lemma perform_inv persistent a s s' : threads_inv s -> perform persistent a s = Some s' -> threads_inv s'.
Proof.
  destruct s as [once stop errs dn buf mu r m left us rcv pan].
  unfold threads_inv, refresher_inv, main_inv, mutex_inv, errors_inv, updates_inv.
  intros (Hp & Hr & Hm & Hmu & He & Hl & Hrel) H. cbn in Hp, Hr, Hm, Hmu, He, Hl, Hrel.
  assert (Hsnoc : forall u, u <> Released -> Released ∈ us ++ [u] -> m = Close_returned).
  { intros u Hu [Hin|Hin%list_elem_of_singleton]%elem_of_app; [by apply Hrel|congruence]. }
  subst pan. operation_cases a H.
  all: split_and!; try done; try (intuition congruence).
  all: try (destruct r; intuition congruence); try (destruct m; intuition congruence).
  all: try (apply Hsnoc; discriminate).
  all: try (apply release_last_snoc; [done|intros Hu Hin; try (by destruct Hu); apply Hrel in Hin; subst; intuition congruence]).
  all: try (destruct He as [-> ->]; cbn; lia).
  - destruct r; intuition (subst; done).
  - destruct He as [_ ->]. cbn. lia.
  - destruct r; try (destruct He; discriminate); rewrite length_app; cbn in *; lia.
Qed.

Lemma perform_all_inv persistent l s s' : threads_inv s -> perform_all persistent l s = Some s' -> threads_inv s'.
Proof.
  revert s. induction l as [|a l IH]; intros s Hs H; cbn in H; [by injection H as <-|].
  destruct (perform persistent a s) eqn:E; [|done]. eapply IH; [|done]. by eapply perform_inv.
Qed.

(** ** Progress *)

(** The operations that are left for each goroutine when the timer does not fire again. *)
Definition refresher_work (p : refresher_at) : nat :=
  match p with
  | NotRunning | Returned => 0
  | ClosingDone => 1 | ClosingErrors => 2 | Sending _ => 3 | Selecting => 3
  | Refreshing => 4 | AtMutex => 5
  end.
Definition main_work (p : main_at) : nat :=
  match p with
  | Before_Close => 6 | Stop_closed => 4 | Once_done => 3 | Done_received => 2 | Releasing => 1 | Close_returned => 0
  end.
Definition worker_work (s : threads) : nat :=
  match updateMu s with Some Worker => 2 * updates_left s - 1 | _ => 2 * updates_left s end.
Definition work (s : threads) : nat := refresher_work (refresher s) + main_work (main s) + worker_work s.

Definition is_timer (a : operation) : bool := match a with TimerFires => true | _ => false end.
Definition timers (l : list operation) : nat := length (List.filter is_timer l).

(** Every operation takes work away; a timer that fires makes work for one more refresh. *)
Lemma perform_work persistent a s s' : threads_inv s -> main s <> Before_Close -> perform persistent a s = Some s' ->
  S (work s') <= work s + (if is_timer a then 3 else 0) /\ main s' <> Before_Close.
Proof.
  destruct s as [once stop errs dn buf mu r m left us rcv pan].
  intros (_ & _ & _ & Hmu & _) Hm H. unfold mutex_inv in Hmu. cbn in Hmu, Hm.
  unfold work, worker_work. operation_cases a H; try (by destruct Hm).
  all: try (destruct mu as [[]|]; split; [|done]; lia).
  all: try (split; [lia|done]).
  (* the mutex is not the worker's *)
  all: destruct mu as [[]|]; [split; [lia|done].. |exfalso; intuition congruence|split; [lia|done]].
Qed.

Lemma perform_all_work persistent l s s' : threads_inv s -> main s <> Before_Close -> perform_all persistent l s = Some s' ->
  length l + work s' <= work s + 4 * timers l.
Proof.
  revert s. induction l as [|a l IH]; intros s Hs Hm H; cbn in H; [injection H as <-; cbn; lia|].
  destruct (perform persistent a s) as [s1|] eqn:E; [|done].
  destruct (perform_work _ _ _ _ Hs Hm E) as [Hw Hm1]. apply (IH s1) in H; [|by eapply perform_inv|done].
  unfold timers in *. cbn [List.filter length]. destruct (is_timer a); cbn [length]; lia.
Qed.

(** Until [Close] returns, some goroutine can go on without the timer. *)
Lemma perform_progress persistent s : threads_inv s -> main s <> Before_Close -> main s <> Close_returned ->
  exists a s', is_timer a = false /\ perform persistent a s = Some s'.
Proof.
  destruct s as [once stop errs dn buf mu r m left us rcv pan].
  unfold threads_inv, refresher_inv, main_inv, mutex_inv, errors_inv.
  intros (_ & Hr & Hm & (Hmu1 & Hmu2 & Hmu3) & He & _) Hb Hc. cbn in *.
  assert (Hgo : forall a s', is_timer a = false -> perform persistent a (Threads once stop errs dn buf mu r m left us rcv pan) = Some s' ->
    exists a s', is_timer a = false /\ perform persistent a (Threads once stop errs dn buf mu r m left us rcv pan) = Some s') by eauto.
  (* who holds the mutex can go on *)
  destruct mu as [[]|].
  - destruct Hmu2 as [Hmu2 _]. rewrite (Hmu2 eq_refl) in *. by eapply (Hgo Release).
  - destruct Hmu1 as [Hmu1 _]. rewrite (Hmu1 eq_refl) in *. by eapply (Hgo (Refresh (Again 0))).
  - destruct left as [|left]; [by destruct Hmu3|]. by eapply (Hgo Update).
  - destruct m; try done.
    + by eapply (Hgo CloseOnce).
    + destruct Hm as [-> ->]. destruct r.
      * destruct Hr as (_ & -> & _). by eapply (Hgo AwaitDone).
      * by eapply (Hgo StopReceived).
      * by eapply (Hgo LockRefresh).
      * by eapply (Hgo (Refresh (Again 0))).
      * destruct He as [-> _]. by eapply (Hgo SendError).
      * by eapply (Hgo CloseErrors).
      * by eapply (Hgo CloseDone).
      * destruct Hr as (_ & _ & ->). by eapply (Hgo AwaitDone).
    + by eapply (Hgo LockRelease).
    + by eapply (Hgo Release).
Qed.

(** The lock is released exactly when it is not persistent. *)
Definition release_inv (persistent : bool) (s : threads) : Prop :=
  if persistent then main s <> Done_received /\ main s <> Releasing /\ Released ∉ updates s
  else main s = Close_returned -> Released ∈ updates s.

Lemma perform_release persistent a s s' : release_inv persistent s -> perform persistent a s = Some s' -> release_inv persistent s'.
Proof.
  destruct s as [once stop errs dn buf mu r m left us rcv pan]. unfold release_inv. intros Hi H. destruct persistent.
  - destruct Hi as (H1 & H2 & H3). cbn in H1, H2, H3. operation_cases a H; try done.
    all: split_and!; try done; rewrite not_elem_of_app, list_elem_of_singleton; done.
  - cbn in Hi. operation_cases a H; try done; rewrite elem_of_app, list_elem_of_singleton; auto.
Qed.

Lemma perform_all_release persistent l s s' :
  release_inv persistent s -> perform_all persistent l s = Some s' -> release_inv persistent s'.
Proof.
  revert s. induction l as [|a l IH]; intros s Hs H; cbn in H; [by injection H as <-|].
  destruct (perform persistent a s) eqn:E; [|done]. eapply IH; [|done]. by eapply perform_release.
Qed.

Lemma release_inv_fresh persistent n : release_inv persistent (fresh_threads n).
Proof. destruct persistent; [|done]. split_and!; [done|done|apply not_elem_of_nil]. Qed.

(** ** Guarantees *)

(** C14: whatever the scheduler does, no channel is closed twice or sent on when closed, the
    refresh loop reports at most one error, so its send never blocks, and when [Close] has
    returned the loop is gone: no refresh comes after the release, which is performed once,
    and only when the lock is not persistent. *)
Theorem release_comes_last persistent n l s :
  perform_all persistent l (fresh_threads n) = Some s ->
  panicked s = false /\
  release_last (updates s) /\
  length (errors s) + length (received s) <= 1 /\ (forall e, refresher s = Sending e -> errors s = []) /\
  (main s = Close_returned -> (refresher s = NotRunning \/ refresher s = Returned) /\ (Released ∈ updates s <-> persistent = false)).
Proof.
  intros H. pose proof (perform_all_inv _ _ _ _ (threads_inv_fresh n) H) as (Hp & Hr & Hm & _ & He & Hl & _).
  pose proof (perform_all_release _ _ _ _ (release_inv_fresh persistent n) H) as Hrel.
  unfold refresher_inv, main_inv, errors_inv, release_inv in *. split; [done|]. split; [done|]. split; [|split].
  - destruct (refresher s); try (destruct He as [-> ->]; cbn; lia); lia.
  - intros e Hs. rewrite Hs in He. by destruct He.
  - intros Hc. rewrite Hc in Hm. destruct Hm as [_ Hd]. split.
    + destruct (refresher s); try (destruct Hr as (? & ? & ?); congruence); auto.
    + destruct persistent; [by destruct Hrel as (_ & _ & ?)|]. split; [done|]. intros _. by apply Hrel.
Qed.

(** A timer, a batch, a failed refresh, and the end. *)
Definition demo_schedule : list operation :=
  [Start; LockUpdate; TimerFires; Update; LockRefresh; Refresh (Failed expired_error); SendError; ReceiveError;
   CloseErrors; CloseStop; CloseOnce; CloseDone; AwaitDone; LockRelease; Release].

Definition after_actions (k : nat) : threads :=
  default (fresh_threads 1) (perform_all false (take k demo_schedule) (fresh_threads 1)).
Definition demo_stopping : threads := Eval vm_compute in after_actions 10.
Definition demo_waiting : threads := Eval vm_compute in after_actions 12.
Definition demo_closed : threads := Eval vm_compute in after_actions 15.

Lemma release_comes_last_witness :
  main demo_closed = Close_returned /\ updates demo_closed = [Updated; Refreshed; Released] /\
  panicked demo_closed = false /\ release_last (updates demo_closed).
Proof.
  assert (H : perform_all false demo_schedule (fresh_threads 1) = Some demo_closed) by (vm_compute; reflexivity).
  destruct (release_comes_last false 1 demo_schedule demo_closed H) as (Hp & Hl & _).
  split; [reflexivity|]. split; [reflexivity|]. split; [exact Hp|exact Hl].
Defined.

(** C15: once [Close] has closed the channel [stop], it returns: until then some goroutine can
    go on without the timer, whoever holds the mutex, and the goroutines perform at most nine
    operations, two for every update the worker has left, and four for every time the timer
    still fires. *)
Theorem close_returns persistent n l0 s l s' :
  perform_all persistent l0 (fresh_threads n) = Some s -> stopClosed s = true ->
  perform_all persistent l s = Some s' ->
  length l <= 9 + 2 * updates_left s + 4 * timers l /\
  (main s' = Close_returned \/ exists a s'', is_timer a = false /\ perform persistent a s' = Some s'').
Proof.
  intros H0 Hstop H. pose proof (perform_all_inv _ _ _ _ (threads_inv_fresh n) H0) as Hi.
  assert (Hm : main s <> Before_Close) by (destruct Hi as (_ & _ & Hm & _); unfold main_inv in Hm; intros E; rewrite E in Hm; congruence).
  pose proof (perform_all_work _ _ _ _ Hi Hm H) as Hw. split.
  - assert (Hb : work s <= 9 + 2 * updates_left s); [|lia]. unfold work, worker_work.
    destruct (refresher s), (main s), (updateMu s) as [[]|]; cbn; try lia; done.
  - pose proof (perform_all_inv _ _ _ _ Hi H) as Hi'.
    assert (Hm' : main s' <> Before_Close).
    { clear -Hm H Hi. revert s Hi Hm H. induction l as [|a l IH]; intros s Hi Hm H; cbn in H; [by injection H as <-|].
      destruct (perform persistent a s) as [s1|] eqn:E; [|done]. eapply (IH s1); [by eapply perform_inv| |done].
      by eapply (perform_work _ _ _ _ Hi Hm E). }
    destruct (main s') eqn:E; [done|right..|by left]; apply perform_progress; rewrite ?E; done.
Qed.

Lemma close_returns_witness :
  2 <= 9 + 2 * updates_left demo_stopping + 4 * timers (take 2 (drop 10 demo_schedule)) /\
  (main demo_waiting = Close_returned \/ exists a s'', is_timer a = false /\ perform false a demo_waiting = Some s'').
Proof.
  apply (close_returns false 1 (take 10 demo_schedule) demo_stopping (take 2 (drop 10 demo_schedule)) demo_waiting);
    vm_compute; reflexivity.
Defined.
