(* ===== verification/Watcher.v ===== *)
(** * The inotify watcher ([watcher_linux.go])

    The watcher keeps two tables, from inotify descriptors to directories and back.  It walks
    a tree to watch every directory of it, decodes what it reads from the inotify instance,
    and turns every event into the changes it sends.  After a queue overflow it starts over
    with a new instance.  The state is the struct's; what is sent on the two channels is
    recorded in it, in order. *)

From Stdlib Require Import Ascii.
From S2P Require Import Prelude GoString Host Payload.

Local Open Scope Z_scope.

(** ** Package syscall *)
Definition IN_MODIFY : Z := 2.
Definition IN_ATTRIB : Z := 4.
Definition IN_CLOSE_WRITE : Z := 8.
Definition IN_MOVED_FROM : Z := 64.
Definition IN_MOVED_TO : Z := 128.
Definition IN_CREATE : Z := 256.
Definition IN_DELETE : Z := 512.
Definition IN_DELETE_SELF : Z := 1024.
Definition IN_MOVE_SELF : Z := 2048.
Definition IN_Q_OVERFLOW : Z := 16384.
Definition IN_IGNORED : Z := 32768.
Definition IN_ISDIR : Z := 1073741824.

(** [mask&(f1|f2|...) != 0]. *)
Definition any_of (flags : list Z) : Z := fold_right Z.lor 0 flags.
Definition has (mask : Z) (flags : list Z) : bool := negb (Z.land mask (any_of flags) =? 0).

(** ** State

    [file] counts the inotify instances, 0 before the first: two equal numbers are the same
    [os.File].  [expired]: the read deadline of the current file has passed. [reported] holds
    what was offered to the error channel, which keeps the first. *)
Record watcher := Watcher {
  fd : Z;
  file : nat;
  w_closed : bool;
  expired : bool;
  sent : list change;
  reported : list error;
  byDescriptor : gmap Z string;
  byPath : gmap string Z
}.

Definition new_watcher : watcher := Watcher (-1) 0 false false [] [] ∅ ∅.

Definition set_tables (d : gmap Z string) (p : gmap string Z) (w : watcher) : watcher :=
  Watcher (fd w) (file w) (w_closed w) (expired w) (sent w) (reported w) d p.
Definition set_instance (f : Z) (d : gmap Z string) (p : gmap string Z) (w : watcher) : watcher :=
  Watcher f (S (file w)) (w_closed w) (w_closed w) (sent w) (reported w) d p.
Definition add_sent (c : change) (w : watcher) : watcher :=
  Watcher (fd w) (file w) (w_closed w) (expired w) (sent w ++ [c]) (reported w) (byDescriptor w) (byPath w).
Definition add_reported (e : error) (w : watcher) : watcher :=
  Watcher (fd w) (file w) (w_closed w) (expired w) (sent w) (reported w ++ [e]) (byDescriptor w) (byPath w).
Definition set_w_closed (w : watcher) : watcher :=
  Watcher (fd w) (file w) true true (sent w) (reported w) (byDescriptor w) (byPath w).

Section Watcher.
Context {W : Type} `{!Host W}.
#[local] Abbreviation P := (M W watcher).

(** ** [filepath.WalkDir] *)
Section Walk.
Variable fn : string -> bool -> option error -> P unit.

Fixpoint each {A} (f : A -> P unit) (l : list A) : P unit :=
  match l with [] => ret tt | x :: l => f x;; each f l end.

Fixpoint walkDir (fuel : nat) (path : string) (isDir : bool) : P unit :=
  match fuel with
  | O => out_of_fuel
  | S fuel =>
    fn path isDir None;;
    if isDir then
      '(entries, err) ← sys (ReadDir path);
      match err with Some e => fn path isDir (Some (ErrSys e)) | None => ret tt end;;
      each (fun '(name, d) => walkDir fuel (path_join [path; name]) d) entries
    else ret tt
  end.

Definition WalkDir (fuel : nat) (root : string) : P unit :=
  info ← sys (Lstat root);
  match info with
  | inl isDir => walkDir fuel root isDir
  | inr e => fn root false (Some (ErrSys e))
  end.
End Walk.

Definition send (c : change) : P unit := modify (add_sent c).
Definition w_fail (e : error) : P unit := modify (add_reported e).
Definition w_Close : P unit := v ← get; if w_closed v then ret tt else modify set_w_closed.

(** [if err != nil && !errors.Is(err, os.ErrNotExist) { return err }]. *)
Definition unless_not_exist (m : P unit) : P unit :=
  r ← try m;
  match r with inr e => if is_not_exist e then ret tt else throw e | inl _ => ret tt end.

Definition add (path : string) : P unit :=
  v ← get;
  match byPath v !! path with
  | Some _ => ret tt
  | None =>
      d ← wrap "watch" (obtain (InotifyAddWatch (fd v) path));
      modify (set_tables (<[d := path]> (byDescriptor v)) (<[path := d]> (byPath v)))
  end.

Variable root : string.

(** [filepath.ToSlash] is the identity. *)
Definition relative (path : string) : string := default path (rel root path).

Definition visit (emit : bool) (path : string) (isDir : bool) (err : option error) : P unit :=
  match err with
  | Some e => if is_not_exist e then ret tt else throw e
  | None =>
      (if isDir then unless_not_exist (add path) else ret tt);;
      if emit && negb (path =? root)%string then send (Change (relative path) isDir false) else ret tt
  end.

Definition addTree (fuel : nat) (path : string) (emit : bool) : P unit := WalkDir (visit emit) fuel path.

Definition below (path watched : string) : bool :=
  (watched =? path)%string || has_prefix (path +:+ "/") watched.

(** The loop ranges over the table it deletes from. *)
Definition removeTree (path : string) : P unit :=
  v ← get;
  each (fun '(watched, d) =>
    if below path watched then
      v ← get;
      sys (InotifyRmWatch (fd v) d);;
      v ← get;
      modify (set_tables (delete d (byDescriptor v)) (delete watched (byPath v)))
    else ret tt) (map_to_list (byPath v)).

(** [replacement.addTree] works on a watcher of its own. *)
Definition rebuild (fuel : nat) : P unit :=
  f ← wrap "initialize inotify" (obtain InotifyInit);
  v ← get;
  modify (fun _ => Watcher f 0 false false [] [] ∅ ∅);;
  r ← try (addTree fuel root false);
  replacement ← get;
  modify (fun _ => v);;
  match r with
  | inr e => sys (CloseFd f);; throw e
  | inl _ =>
      match byPath replacement !! root with
      | None => sys (CloseFd f);; throw (Errorf "source folder is no longer a directory")
      | Some _ =>
          modify (set_instance f (byDescriptor replacement) (byPath replacement));;
          if (file v =? 0)%nat then ret tt else sys (CloseFd (fd v))
      end
  end.

(** ** Events *)
Definition handle (fuel : nat) (descriptor mask : Z) (name : string) : P unit :=
  if has mask [IN_Q_OVERFLOW] then
    r ← try (rebuild fuel);
    match r with
    | inr e => w_fail (Wrapf "rebuild watches after overflow" e);; w_Close
    | inl _ => send (Change "." true false)
    end
  else
    v ← get;
    match byDescriptor v !! descriptor with
    | None => ret tt
    | Some base =>
        let path := if (name =? "")%string then base else path_join [base; name] in
        let isDir := has mask [IN_ISDIR] in
        if has mask [IN_DELETE_SELF; IN_MOVE_SELF] && (path =? root)%string then
          w_fail (Errorf "source folder was removed or moved");; w_Close
        else
          (if isDir && has mask [IN_DELETE; IN_MOVED_FROM] then removeTree path else ret tt);;
          if isDir && has mask [IN_CREATE; IN_MOVED_TO] then
            r ← try (addTree fuel path true);
            match r with
            | inr e => if is_not_exist e then ret tt else (w_fail e;; w_Close)
            | inl _ => ret tt
            end
          else if has mask [IN_IGNORED] then
            v ← get;
            modify (set_tables (delete descriptor (byDescriptor v)) (delete base (byPath v)))
          else if has mask [IN_ATTRIB; IN_CLOSE_WRITE; IN_CREATE; IN_DELETE; IN_MODIFY; IN_MOVED_FROM; IN_MOVED_TO] then
            send (Change (relative path) isDir (has mask [IN_DELETE; IN_MOVED_FROM]))
          else ret tt
    end.

(** *** Decoding: [struct inotify_event], on a little-endian machine *)
Definition headerSize : nat := 16.

Fixpoint le_bytes (s : string) : Z :=
  match s with EmptyString => 0 | String c s => code c + 256 * le_bytes s end.
Definition uint32_at (i : nat) (s : string) : Z := le_bytes (String.substring i 4 s).
Definition int32_at (i : nat) (s : string) : Z :=
  let z := uint32_at i s in if 2 ^ 31 <=? z then z - 2 ^ 32 else z.

(** [bytes.TrimRight(name, NUL)]. *)
Fixpoint trim_nul (s : string) : string :=
  match s with
  | EmptyString => EmptyString
  | String c s =>
      match trim_nul s with
      | EmptyString => if code c =? 0 then EmptyString else str1 c
      | t => String c t
      end
  end.

(** [buffer] is what is left of it. An event takes at least its header, so the length of the
  buffer bounds the rounds; [fuel] bounds the walks of [handle]. *)
Fixpoint process_go (rounds fuel : nat) (buffer : string) : P bool :=
  match rounds with
  | O => out_of_fuel
  | S rounds =>
      if (String.length buffer <? headerSize)%nat then ret true
      else
        let size := (headerSize + Z.to_nat (uint32_at 12 buffer))%nat in
        if (String.length buffer <? size)%nat then
          w_fail (Errorf "truncated inotify event");; ret false
        else
          v ← get;
          handle fuel (int32_at 0 buffer) (uint32_at 4 buffer)
            (trim_nul (String.substring headerSize (size - headerSize) buffer));;
          v' ← get;
          if negb (file v' =? file v)%nat then ret true
          else process_go rounds fuel (drop_str size buffer)
  end.

Definition process (fuel : nat) (buffer : string) : P bool :=
  process_go (S (String.length buffer)) fuel buffer.

(** ** The read loop *)
Definition read_error (e : sys_error) : P unit := w_fail (Wrapf "read inotify events" (ErrSys e)).

(** After [Close]: the events that are already queued. *)
Fixpoint drain (reads fuel : nat) : P unit :=
  match reads with
  | O => out_of_fuel
  | S reads =>
      v ← get;
      r ← sys (ReadEvents (fd v));
      match r with
      | inr Interrupted => drain reads fuel
      | inr TryAgain => ret tt
      | inr e => read_error e
      | inl buffer =>
          go ← process fuel buffer;
          if (go : bool) then drain reads fuel else ret tt
      end
  end.

Fixpoint readEvents (reads fuel : nat) : P unit :=
  match reads with
  | O => out_of_fuel
  | S reads =>
      v ← get;
      r ← sys (ReadEvents (fd v));
      match r with
      | inr DeadlineExceeded => drain reads fuel
      | inr e => read_error e
      | inl buffer =>
          go ← process fuel buffer;
          if (go : bool) then readEvents reads fuel else ret tt
      end
  end.

(** The deferred calls close the file and then the channels. *)
Definition readLoop (reads fuel : nat) : P unit :=
  finally (readEvents reads fuel) (v ← get; sys (CloseFd (fd v))).
End Watcher.

(** [newWatcher] starts in [new_watcher]; the loop is a goroutine. *)
Definition newWatcher {W : Type} `{!Host W} (fuel : nat) (root : string) : M W watcher string :=
  root ← wrap "resolve watch root" (obtain (EvalSymlinks root));
  rebuild root fuel;;
  ret root.

(** The whole life of a watcher: [newWatcher], then the goroutine it starts. *)
Definition watch {W : Type} `{!Host W} (reads fuel : nat) (root : string) : M W watcher unit :=
  root ← newWatcher fuel root;
  readLoop root reads fuel.
