(* ===== verification/PathTheory.v ===== *)
(** * Clean relative paths

    A clean relative path is a list of elements, none of them empty, ".", ".." or with a
    slash.  On such paths [path.Dir] drops the last element, so the ancestors that the
    program loops over are the shorter prefixes. *)

From Stdlib Require Import Ascii.
From S2P Require Import Prelude GoString Payload.

Local Open Scope Z_scope.

(** ** Splitting and joining *)
Definition no_slash (e : string) : Prop := contains_byte slash e = false.

Lemma join_cons e es : es <> [] -> join "/" (e :: es) = e +:+ "/" +:+ join "/" es.
Proof. destruct es; [done|]. done. Qed.

Lemma split_on_app sep e s : contains_byte sep e = false -> split_on sep (e +:+ String sep s) = e :: split_on sep s.
Proof.
  induction e as [|c e IH]; cbn [String.append contains_byte split_on].
  - by rewrite Ascii.eqb_refl.
  - intros [Hc He]%orb_false_iff. rewrite IH by done. rewrite Ascii.eqb_sym in Hc. by rewrite Hc.
Qed.

Lemma split_on_no_slash sep e : contains_byte sep e = false -> split_on sep e = [e].
Proof.
  induction e as [|c e IH]; cbn [contains_byte split_on]; [done|].
  intros [Hc He]%orb_false_iff. rewrite IH by done. rewrite Ascii.eqb_sym in Hc. by rewrite Hc.
Qed.

Lemma split_join es : es <> [] -> Forall no_slash es -> split_on slash (join "/" es) = es.
Proof.
  intros Hne H. induction H as [|e es He Hes IH]; [done|]. destruct es as [|e' es].
  - by apply split_on_no_slash.
  - rewrite join_cons by done. change ("/" +:+ ?x) with (String slash x). by rewrite split_on_app, IH.
Qed.

Lemma split_on_nonempty s : split_on slash s <> [].
Proof. destruct s as [|c s]; simpl; [done|]. case_goal; [done|]. by destruct (split_on slash s). Qed.

Lemma split_on_elements s : Forall no_slash (split_on slash s).
Proof.
  unfold no_slash. induction s as [|c s IH]; cbn [split_on]; [by repeat constructor|].
  destruct (Ascii.eqb c slash) eqn:E; [by constructor|].
  destruct (split_on slash s) as [|w ws]; inversion IH; subst; constructor; try done; cbn [contains_byte str1];
    rewrite Ascii.eqb_sym, E; done.
Qed.

Lemma join_split s : join "/" (split_on slash s) = s.
Proof.
  induction s as [|c s IH]; [done|]. cbn [split_on]. destruct (Ascii.eqb c slash) eqn:E.
  - apply Ascii.eqb_eq in E as ->. rewrite join_cons by apply split_on_nonempty. by rewrite IH.
  - pose proof (split_on_nonempty s). destruct (split_on slash s) as [|w ws]; [done|].
    destruct ws as [|w' ws]; simpl in *; by rewrite IH.
Qed.

(** ** Elements *)
Definition good_elem (e : string) : Prop := e <> "" /\ e <> "." /\ e <> ".." /\ no_slash e.

(** The elements of a clean relative path other than ".". *)
Definition path_elems (p : string) (es : list string) : Prop :=
  p = join "/" es /\ es <> [] /\ Forall good_elem es.

Lemma good_no_slash es : Forall good_elem es -> Forall no_slash es.
Proof. intros H. eapply Forall_impl; [done|]. by intros e (_ & _ & _ & He). Qed.

Lemma path_elems_inj p es es' : path_elems p es -> path_elems p es' -> es = es'.
Proof.
  intros (-> & Hn & Hg) (Hj & Hn' & Hg').
  rewrite <- (split_join es), <- (split_join es') by (done || by apply good_no_slash). by rewrite Hj.
Qed.

Lemma clean_step_good rooted acc es : Forall good_elem es ->
  fold_left (clean_step rooted) es acc = rev es ++ acc.
Proof.
  intros H. revert acc. induction H as [|e es (H1 & H2 & H3 & _) _ IH]; intros acc; [done|]. simpl.
  unfold clean_step at 2. apply String.eqb_neq in H1, H2, H3. rewrite H1, H2, H3. simpl.
  rewrite IH. by rewrite <- app_assoc.
Qed.

Lemma good_head p es : path_elems p es -> is_abs p = false /\ p <> "" /\ p <> ".".
Proof.
  intros (-> & Hn & Hg). destruct es as [|e es]; [done|]. inversion Hg as [|? ? (H1 & H2 & _ & H4) Hes]; subst.
  destruct e as [|c e]; [done|].
  assert (Hj : join "/" (String c e :: es) = String c e +:+ (match es with [] => "" | _ => "/" +:+ join "/" es end)).
  { destruct es; [simpl; by rewrite str_app_nil_r|done]. }
  rewrite Hj. split; [|split; [done|]].
  - unfold is_abs, has_prefix. cbn [String.append String.prefix]. destruct (ascii_dec "/" c) as [<-|]; [|done].
    unfold no_slash in H4. simpl in H4. done.
  - destruct es; [by rewrite str_app_nil_r|]. intros Hd. cbn in Hd. injection Hd as -> Hd. by destruct e.
Qed.

Lemma clean_good p es : path_elems p es -> clean p = p.
Proof.
  intros Hp. destruct (good_head _ _ Hp) as [Ha _]. destruct Hp as (-> & Hn & Hg). unfold clean, clean_elems.
  rewrite Ha, split_join by (done || by apply good_no_slash). rewrite clean_step_good by done.
  rewrite app_nil_r. unfold render. change (rev (rev es)) with (rev (rev es)). rewrite rev_involutive. by destruct es.
Qed.

(** The elements that cleaning leaves: some "..", then good ones (innermost first). *)
Lemma clean_step_shape es : Forall no_slash es -> forall gs k, Forall good_elem gs ->
  exists gs' k', fold_left (clean_step false) es (gs ++ repeat ".."%stdpp k) = gs' ++ repeat ".."%stdpp k' /\ Forall good_elem gs'.
Proof.
  induction 1 as [|e es He Hes IH]; intros gs k Hgs; [by exists gs, k|]. cbn [fold_left]. unfold clean_step at 2.
  destruct (e =? "")%string eqn:E1; [by apply IH|]. destruct (e =? ".")%string eqn:E2; [by apply IH|]. cbn [orb].
  destruct (e =? "..")%string eqn:E3.
  - destruct gs as [|g gs].
    + destruct k as [|k]; [apply (IH [] 1%nat); done|]. simpl. apply (IH [] (S (S k))); done.
    + inversion Hgs as [|? ? (_ & _ & Hg & _) Hgs']; subst. simpl. apply String.eqb_neq in Hg. rewrite Hg. by apply IH.
  - reflect_bools. apply (IH (e :: gs) k). constructor; [done|done].
Qed.

Lemma rev_repeat {A} (x : A) k : rev (repeat x k) = repeat x k.
Proof.
  induction k as [|k IH]; [done|]. simpl. rewrite IH. clear IH. induction k as [|k IH]; [done|]. simpl. by rewrite IH.
Qed.

Lemma valid_change_elems p : valid_change p = true -> p <> "." -> exists es, path_elems p es.
Proof.
  unfold valid_change. intros H Hdot. reflect_bools.
  match goal with H : clean p = p |- _ => rename H into Hc end.
  match goal with H : is_abs p = false |- _ => rename H into Ha end.
  unfold clean, clean_elems in Hc. rewrite Ha in Hc.
  destruct (clean_step_shape (split_on slash p) (split_on_elements p) [] 0%nat) as (gs & k & Hf & Hgs); [done|].
  simpl in Hf. rewrite Hf, rev_app_distr, rev_repeat in Hc. unfold render in Hc.
  destruct k as [|k].
  - simpl in Hc. destruct (rev gs) as [|e es] eqn:Er; [by subst|]. exists (e :: es). split; [done|]. split; [done|].
    rewrite <- Er. by apply Forall_rev.
  - simpl in Hc. destruct (repeat ".."%stdpp k ++ rev gs) as [|e es]; [by subst|].
    match goal with H : has_prefix "../" p = false |- _ => rewrite <- Hc in H;
      change (has_prefix "" (join "/" (e :: es)) = false) in H; by rewrite has_prefix_nil in H end.
Qed.

(** ** Ancestors *)
Lemma split_last_no_slash e : no_slash e -> split_last e = (""%stdpp, e).
Proof.
  unfold no_slash. induction e as [|c e IH]; cbn [contains_byte split_last]; [done|].
  intros [Hc He]%orb_false_iff. rewrite IH by done. rewrite Ascii.eqb_sym in Hc. by rewrite Hc.
Qed.

Lemma split_last_app a e : no_slash e -> split_last (a +:+ String slash e) = (a +:+ str1 slash, e).
Proof.
  intros He. induction a as [|c a IH]; cbn [String.append split_last].
  - by rewrite split_last_no_slash, Ascii.eqb_refl.
  - rewrite IH. by destruct a.
Qed.

Lemma join_snoc es e : es <> [] -> join "/" (es ++ [e]) = join "/" es +:+ "/" +:+ e.
Proof.
  induction es as [|x es IH]; [done|]. intros _. destruct es as [|y es]; [done|].
  change ((x :: y :: es) ++ [e]) with (x :: ((y :: es) ++ [e])). rewrite join_cons by done.
  rewrite IH by done. rewrite (join_cons x (y :: es)) by done. by rewrite !str_app_assoc.
Qed.

Lemma is_abs_app p s : p <> "" -> is_abs (p +:+ s) = is_abs p.
Proof.
  destruct p as [|c p]; [done|]. intros _. unfold is_abs, has_prefix. cbn [String.append String.prefix].
  destruct (ascii_dec "/" c); [destruct p; [by destruct s|done]|done].
Qed.

(** [path.Dir] drops the last element. *)
Lemma dir_elems es e : Forall good_elem es -> good_elem e ->
  dir (join "/" (es ++ [e])) = match es with [] => "." | _ => join "/" es end.
Proof.
  intros Hes He. pose proof He as (_ & _ & _ & Hns). unfold dir. destruct es as [|x es].
  - cbn [app join String.concat]. by rewrite split_last_no_slash.
  - rewrite join_snoc by done. change ("/" +:+ e) with (String slash e). rewrite split_last_app by done.
    cbn [fst]. assert (Hp : path_elems (join "/" (x :: es)) (x :: es)) by done.
    destruct (good_head _ _ Hp) as (Ha & Hne & _). unfold clean, clean_elems.
    rewrite is_abs_app, Ha by done.
    assert (Hs : split_on slash (join "/" (x :: es) +:+ str1 slash) = (x :: es) ++ [""%stdpp]).
    { assert (forall l, l <> [] -> Forall no_slash l -> split_on slash (join "/" l +:+ str1 slash) = l ++ [""%stdpp]) as Hl.
      { intros l Hl H. induction H as [|y l Hy Hl' IH]; [done|]. destruct l as [|z l].
        - change (join "/" [y]) with y. unfold str1. by rewrite split_on_app.
        - rewrite join_cons, str_app_assoc by done. change (("/" +:+ ?a) +:+ ?b) with (String slash (a +:+ b)).
          rewrite split_on_app by done. rewrite IH by done. done. }
      apply Hl; [done|]. by apply good_no_slash. }
    rewrite Hs, fold_left_app, (clean_step_good false [] (x :: es)), app_nil_r by done. cbn [fold_left]. unfold clean_step.
    cbn [String.eqb orb]. unfold render. by rewrite rev_involutive.
Qed.

Lemma parents_from_elems fuel : forall es, es <> [] -> Forall good_elem es -> (length es <= fuel)%nat ->
  forall q, q ∈ parents_from fuel (join "/" es) <-> exists es1 es2, es = es1 ++ es2 /\ es1 <> [] /\ q = join "/" es1.
Proof.
  induction fuel as [|fuel IH]; intros es Hne Hg Hlen q; [by destruct es; simpl in Hlen; [|lia]|].
  cbn [parents_from]. destruct (good_head (join "/" es) es) as (_ & _ & Hdot); [done|].
  apply String.eqb_neq in Hdot. rewrite Hdot. rewrite elem_of_cons.
  destruct (exists_last Hne) as (es0 & e & ->). apply Forall_app in Hg as [Hg0 He]. inversion He; subst.
  rewrite dir_elems by done. rewrite length_app in Hlen. simpl in Hlen.
  assert (Hrest : q ∈ parents_from fuel (match es0 with [] => "." | _ => join "/" es0 end) <->
                  exists es1 es2, es0 = es1 ++ es2 /\ es1 <> [] /\ q = join "/" es1).
  { destruct es0 as [|x es0]; [|apply IH; [done..|lia]].
    assert (parents_from fuel "." = []) as -> by (by destruct fuel).
    split; [by intros ?%not_elem_of_nil|]. intros (es1 & es2 & H & Hn & _). symmetry in H. apply app_nil in H as [-> _]. done. }
  rewrite Hrest. split.
  - intros [->|(es1 & es2 & -> & Hn & ->)]; [exists (es0 ++ [e]), []; by rewrite app_nil_r|].
    exists es1, (es2 ++ [e]). by rewrite app_assoc.
  - intros (es1 & es2 & H & Hn & ->). destruct (decide (es2 = [])) as [->|Hn2].
    + left. rewrite app_nil_r in H. by rewrite H.
    + right. destruct (exists_last Hn2) as (es2' & e' & ->). rewrite app_assoc in H.
      apply app_inj_tail in H as [-> _]. by exists es1, es2'.
Qed.

Lemma length_elems p es : path_elems p es -> (length es <= String.length p)%nat.
Proof.
  intros (-> & Hn & Hg). clear Hn. induction Hg as [|e es (He & _) _ IH]; [done|].
  destruct es as [|e' es]; [destruct e; [done|]; simpl; lia|].
  rewrite join_cons by done. rewrite !str_length_app. cbn [length String.length] in *. lia.
Qed.

Lemma parents_elems p es q : path_elems p es ->
  q ∈ parents p <-> exists es1 es2, es = es1 ++ es2 /\ es1 <> [] /\ es2 <> [] /\ q = join "/" es1.
Proof.
  intros Hp. pose proof (length_elems _ _ Hp) as Hlen. destruct Hp as (-> & Hn & Hg). unfold parents.
  destruct (exists_last Hn) as (es0 & e & ->). pose proof Hg as Hg'. apply Forall_app in Hg' as [Hg0 He]. inversion He; subst.
  rewrite dir_elems by done. rewrite length_app in Hlen. cbn [length] in Hlen.
  destruct es0 as [|x es0].
  - assert (parents_from (String.length (join "/" ([] ++ [e]))) "." = []) as -> by (by destruct (String.length _)).
    split; [by intros ?%not_elem_of_nil|]. intros (es1 & es2 & H & Hn1 & Hn2 & _).
    destruct es1 as [|? [|]]; by simplify_eq/=.
  - rewrite parents_from_elems by (done || lia). split.
    + intros (es1 & es2 & -> & Hn1 & ->). exists es1, (es2 ++ [e]). rewrite app_assoc. split_and!; [done..| |done]. by destruct es2.
    + intros (es1 & es2 & H & Hn1 & Hn2 & ->). destruct (exists_last Hn2) as (es2' & e' & ->). rewrite app_assoc in H.
      apply app_inj_tail in H as [-> _]. by exists es1, es2'.
Qed.

(** Ancestors are clean relative paths, and ancestors of ancestors are ancestors. *)
Lemma parents_good p es q : path_elems p es -> q ∈ parents p -> exists es1, path_elems q es1 /\ es1 `prefix_of` es.
Proof.
  intros Hp Hq. apply (parents_elems _ _ _ Hp) in Hq as (es1 & es2 & -> & Hn1 & Hn2 & ->).
  destruct Hp as (_ & _ & Hg). apply Forall_app in Hg as [Hg1 _]. exists es1. split; [done|by eexists].
Qed.

Lemma parents_trans p es q r : path_elems p es -> q ∈ parents p -> r ∈ parents q -> r ∈ parents p.
Proof.
  intros Hp Hq Hr. pose proof (parents_good _ _ _ Hp Hq) as (es1 & He1 & l & ->).
  apply (parents_elems _ _ _ He1) in Hr as (a & b & -> & Hna & Hnb & ->).
  apply (parents_elems _ _ _ Hp). exists a, (b ++ l). rewrite app_assoc. split_and!; [done..| |done]. by destruct b.
Qed.

(** An ancestor sorts before its descendants. *)
Lemma leb_app (p s : string) : String.leb p (p +:+ s) = true.
Proof.
  unfold String.leb. induction p as [|c p IH]; cbn [String.append String.compare]; [by destruct s|].
  assert (Ascii.compare c c = Eq) as -> by (unfold Ascii.compare; by rewrite N.compare_refl). done.
Qed.

Lemma join_app es1 es2 : es1 <> [] -> es2 <> [] -> join "/" (es1 ++ es2) = join "/" es1 +:+ "/" +:+ join "/" es2.
Proof.
  intros H1 H2. induction es1 as [|e es1 IH]; [done|]. destruct es1 as [|e' es1]; [simpl app; by rewrite join_cons|].
  change ((e :: e' :: es1) ++ es2) with (e :: ((e' :: es1) ++ es2)). rewrite join_cons by done.
  rewrite IH by done. rewrite (join_cons e (e' :: es1)) by done. by rewrite !str_app_assoc.
Qed.

Lemma parents_lt p es q : path_elems p es -> q ∈ parents p -> String.le q p /\ q <> p.
Proof.
  intros Hp Hq. apply (parents_elems _ _ _ Hp) in Hq as (es1 & es2 & -> & Hn1 & Hn2 & ->).
  destruct Hp as (-> & _ & _). rewrite join_app by done. split; [apply Is_true_true, leb_app|].
  intros H. apply (f_equal String.length) in H. rewrite !str_length_app in H. cbn [String.length] in H. lia.
Qed.

(** ** Overlap *)

(** [q] is [p] or one of its ancestors. *)
Definition contains (q p : string) : Prop := q = p \/ q ∈ parents p.

Lemma contains_trans p es q r : path_elems p es -> contains q p -> contains r q -> contains r p.
Proof.
  intros Hp [->|Hq] [->|Hr]; [by left|by right|by right|]. right. by eapply parents_trans.
Qed.
