(* ===== verification/WatcherSpec.v ===== *)
(** * What the watcher guarantees

    Whatever the kernel answers, the tables agree in one direction and a [Close] is never
    lost; with file names a kernel can answer, every change the watcher sends has a path the
    syncer accepts.  A buffer of events is handled event by event.  On a directory tree that
    stands still, a walk watches every directory and reports every entry. *)

From Stdlib Require Import Ascii.
From S2P Require Import Prelude GoString Host HostLogic MemTree Payload PathTheory Watcher.

Local Open Scope Z_scope.

(** ** Absolute paths *)
Definition root_path (es : list string) : string := "/" +:+ join "/" es.

Lemma root_path_abs es : is_abs (root_path es) = true.
Proof. unfold root_path, is_abs. simpl. by destruct (join "/" es). Qed.

Lemma split_root_path es : Forall good_elem es -> split_on slash (root_path es) = "" :: (match es with [] => [""%stdpp] | _ => es end).
Proof.
  intros Hg. unfold root_path. change ("/" +:+ ?x) with (String slash x). cbn [split_on]. rewrite Ascii.eqb_refl.
  destruct es as [|e es]; [done|]. by rewrite split_join by (done || by apply good_no_slash).
Qed.

Lemma fold_clean_root es l : Forall good_elem es ->
  fold_left (clean_step true) ("" :: (match es with [] => [""%stdpp] | _ => es end) ++ l) [] =
  fold_left (clean_step true) l (rev es).
Proof.
  intros Hg. rewrite app_comm_cons, fold_left_app. f_equal. cbn [fold_left]. change (clean_step true [] "") with (@nil string).
  destruct es as [|e es]; [done|]. by rewrite clean_step_good, app_nil_r.
Qed.

Lemma clean_root_path es : Forall good_elem es -> clean (root_path es) = root_path es.
Proof.
  intros Hg. unfold clean, clean_elems. rewrite root_path_abs, split_root_path by done.
  pose proof (fold_clean_root es [] Hg) as H. rewrite app_nil_r in H. rewrite H. cbn [fold_left].
  by rewrite rev_involutive.
Qed.

Lemma root_path_join es e : Forall good_elem es -> good_elem e -> path_join [root_path es; e] = root_path (es ++ [e]).
Proof.
  intros Hg He. pose proof He as (Hne & _ & _ & Hns). unfold path_join. rewrite filter_cons_True by done. rewrite filter_cons_True by done.
  cbn [filter list_filter]. change (join "/" [root_path es; e]) with (root_path es +:+ String slash e).
  unfold clean. assert (Ha : is_abs (root_path es +:+ String slash e) = true).
  { rewrite is_abs_app by done. apply root_path_abs. }
  rewrite Ha. unfold clean_elems. rewrite Ha. unfold render, root_path. do 2 f_equal.
  assert (Hs : split_on slash (root_path es +:+ String slash e) = "" :: (match es with [] => [""%stdpp] | _ => es end) ++ [e]).
  { unfold root_path. change (("/" +:+ ?x) +:+ ?y) with (String slash (x +:+ y)). cbn [split_on]. rewrite Ascii.eqb_refl. f_equal.
    destruct es as [|x es]; [cbn [join String.concat String.append]; cbn [split_on]; by rewrite Ascii.eqb_refl, split_on_no_slash|].
    rewrite <- (split_on_no_slash slash e Hns). generalize (x :: es) (nil_cons (x := x) (l := es)) Hg. clear Hg Ha.
    intros l Hl Hg. induction Hg as [|y l (_ & _ & _ & Hy) Hg IH]; [done|]. destruct l as [|z l].
    - change (join "/" [y]) with y. by rewrite split_on_app.
    - rewrite join_cons, !str_app_assoc by done. change ("/" +:+ ?x) with (String slash x). rewrite split_on_app by done.
      by rewrite IH. }
  unfold root_path in Hs. rewrite Hs, fold_clean_root by done. rewrite clean_step_good by (by constructor).
  by rewrite rev_app_distr, rev_involutive.
Qed.

Lemma trim_root es : trim_prefix "/" (root_path es) = join "/" es.
Proof. unfold trim_prefix, root_path. simpl. by destruct (join "/" es). Qed.

Lemma strip_common_app rs ts : strip_common rs (rs ++ ts) = ([], ts).
Proof.
  induction rs as [|r rs IH]; [by destruct ts|]. cbn [strip_common app]. by rewrite String.eqb_refl.
Qed.

Lemma rel_root_path rs ts : Forall good_elem rs -> Forall good_elem ts ->
  rel (root_path rs) (root_path (rs ++ ts)) = Some (match ts with [] => "." | _ => join "/" ts end).
Proof.
  intros Hr Ht. assert (Hrt : Forall good_elem (rs ++ ts)) by (by apply Forall_app).
  assert (Hjoin : forall l, Forall good_elem l -> (if (join "/" l =? "")%string then [] else split_on slash (join "/" l)) = l).
  { intros l Hl. destruct l as [|e l]; [done|]. destruct (good_head (join "/" (e :: l)) (e :: l)) as (_ & Hn & _); [done|].
    apply String.eqb_neq in Hn. rewrite Hn. by apply split_join, good_no_slash. }
  unfold rel, rel_elems. rewrite !clean_root_path by done. destruct (root_path (rs ++ ts) =? root_path rs)%string eqn:E.
  - reflect_bools. apply (f_equal (trim_prefix "/")) in E. rewrite !trim_root in E.
    pose proof (Hjoin _ Hrt) as H. rewrite E, (Hjoin rs) in H by done.
    destruct ts; [done|]. apply (f_equal length) in H. rewrite length_app in H. simpl in H. lia.
  - assert ((root_path rs =? ".")%string = false) as -> by done. rewrite !root_path_abs. cbn [Bool.eqb negb].
    rewrite !trim_root, !Hjoin, strip_common_app by done. destruct ts; [|done]. by rewrite app_nil_r, String.eqb_refl in E.
Qed.

Lemma valid_change_join ts : ts <> [] -> Forall good_elem ts -> valid_change (join "/" ts) = true.
Proof.
  intros Hn Hg. assert (Hp : path_elems (join "/" ts) ts) by done. destruct (good_head _ _ Hp) as (Ha & Hne & _).
  unfold valid_change. rewrite Ha, (clean_good _ _ Hp), String.eqb_refl. apply String.eqb_neq in Hne. rewrite Hne. cbn [negb orb].
  destruct ts as [|e ts]; [done|]. inversion Hg as [|? ? (He1 & He2 & He3 & He4) Hg']; subst.
  assert (Hd : (join "/" (e :: ts) =? "..")%string = false).
  { apply String.eqb_neq. intros H. apply (f_equal (split_on slash)) in H. rewrite split_join in H by (done || by apply good_no_slash).
    cbn in H. by injection H as -> _. }
  rewrite Hd. cbn [orb]. apply negb_true_iff, not_true_iff_false. intros H. apply He3.
  assert (Hpre : exists s, join "/" (e :: ts) = "../" +:+ s).
  { unfold has_prefix in H. apply String.prefix_correct in H. destruct (join "/" (e :: ts)) as [|a [|b [|c s]]]; try done.
    exists s. cbn in H. injection H as -> -> ->. done. }
  destruct Hpre as [s Hs]. apply (f_equal (split_on slash)) in Hs. rewrite split_join in Hs by (done || by apply good_no_slash).
  change ("../" +:+ s) with (".." +:+ String slash s) in Hs. rewrite split_on_app in Hs by done. by injection Hs as -> _.
Qed.

(** ** Invariants of computations *)
Section Keeps.
Context {W : Type} `{!Host W}.
Variable I : watcher -> Prop.

Definition keeps {A} (m : M W watcher A) : Prop := forall x, I (vars x) -> I (vars (out_state (m x))).

Lemma keeps_ret {A} (a : A) : keeps (ret a).
Proof. by intros x. Qed.
Lemma keeps_throw {A} e : keeps (A := A) (throw e).
Proof. by intros x. Qed.
Lemma keeps_out_of_fuel {A} : keeps (A := A) out_of_fuel.
Proof. by intros x. Qed.
Lemma keeps_bind {A B} (m : M W watcher A) (f : A -> M W watcher B) :
  keeps m -> (forall a, keeps (f a)) -> keeps (m ≫= f).
Proof.
  intros Hm Hf x H. specialize (Hm x H). unfold mbind, M_bind, bind. destruct (res (m x)); [|done..].
  by apply Hf.
Qed.
Lemma keeps_get {B} (f : watcher -> M W watcher B) : (forall v, I v -> keeps (f v)) -> keeps (get ≫= f).
Proof. intros Hf x H. exact (Hf (vars x) H x H). Qed.
Lemma keeps_sys {A B} (o : op A) (f : A -> M W watcher B) :
  (forall w, keeps (f (fst (host_step o w)))) -> keeps (sys o ≫= f).
Proof.
  intros Hf [w v] H. unfold mbind, M_bind, bind, sys. specialize (Hf w). cbn [host vars].
  destruct (host_step o w) as [a w']. cbn in *. by apply Hf.
Qed.
Lemma keeps_sys_last {A} (o : op A) : keeps (sys o).
Proof. intros [w v] H. unfold sys. cbn. by destruct (host_step o w). Qed.
Lemma keeps_modify g : (forall v, I v -> I (g v)) -> keeps (modify g).
Proof. intros Hg x H. by apply Hg. Qed.
Lemma keeps_update g : (forall v, I v -> I (g v v)) -> keeps (get ≫= fun v => modify (g v)).
Proof. intros Hg x H. by apply Hg. Qed.
Lemma keeps_try {A} (m : M W watcher A) : keeps m -> keeps (try m).
Proof. intros Hm x H. specialize (Hm x H). unfold try. by destruct (res (m x)). Qed.
Lemma keeps_wrap {A} msg (m : M W watcher A) : keeps m -> keeps (wrap msg m).
Proof. intros Hm x H. specialize (Hm x H). unfold wrap. by destruct (res (m x)). Qed.
Lemma keeps_finally {A} (m : M W watcher A) c : keeps m -> keeps c -> keeps (finally m c).
Proof. intros Hm Hc x H. apply (Hc (out_state (m x))), (Hm x H). Qed.
Lemma keeps_obtain {A} (o : op (A + sys_error)) : keeps (obtain o).
Proof. apply keeps_sys. intros w. destruct (fst _); [apply keeps_ret|apply keeps_throw]. Qed.
Lemma keeps_each {A} (f : A -> M W watcher unit) l : (forall a, a ∈ l -> keeps (f a)) -> keeps (each f l).
Proof.
  induction l as [|a l IH]; intros Hf; cbn [each]; [apply keeps_ret|].
  apply keeps_bind; [apply Hf; by left|]. intros _. apply IH. intros b Hb. apply Hf. by right.
Qed.

(** The value that [get] answers is the state. *)
Lemma keeps_get_here {B} (f : watcher -> M W watcher B) :
  (forall v, I v -> forall x, vars x = v -> I (vars (out_state (f v x)))) -> keeps (get ≫= f).
Proof. intros Hf x H. by apply (Hf (vars x)). Qed.
End Keeps.

(** After a computation that keeps the stronger [J]. *)
Lemma keeps_after {W : Type} (J I : watcher -> Prop) {A B} (m : M W watcher A) (f : A -> M W watcher B) (x : st W watcher) :
  keeps J m -> (forall w, J w -> I w) ->
  (forall a y, J (vars y) -> I (vars (out_state (f a y)))) -> J (vars x) -> I (vars (out_state ((m ≫= f) x))).
Proof.
  intros Hm HJ Hf Hx. specialize (Hm x Hx). unfold mbind, M_bind, bind. destruct (res (m x)); [by apply Hf|by apply HJ..].
Qed.
Create HintDb keeps discriminated.
#[export] Hint Resolve keeps_ret keeps_throw keeps_out_of_fuel keeps_sys_last keeps_obtain keeps_wrap : keeps.

(** ** The tables and the channel *)

(** A watched descriptor's path has it; once [Close] ran, the read deadline has passed. *)
Definition named (d : gmap Z string) (p : gmap string Z) : Prop :=
  forall wd path, d !! wd = Some path -> p !! path = Some wd.

Definition sendable (c : change) : Prop := change_path c = "." \/ valid_change (change_path c) = true.

(** The names of the events in a buffer. *)
Fixpoint buffer_names (rounds : nat) (buffer : string) : list string :=
  match rounds with
  | O => []
  | S rounds =>
      if (String.length buffer <? headerSize)%nat then []
      else
        let size := (headerSize + Z.to_nat (uint32_at 12 buffer))%nat in
        if (String.length buffer <? size)%nat then []
        else trim_nul (String.substring headerSize (size - headerSize) buffer) :: buffer_names rounds (drop_str size buffer)
  end.

Section Invariant.
Context {W : Type} `{!Host W}.
Variable root : string.
(** What is known of watched paths, of the names the kernel answers, and of sent changes. *)
Variables G E : string -> Prop.
Variable S : change -> Prop.

Record inv (w : watcher) : Prop := Inv {
inv_named : named (byDescriptor w) (byPath w);
inv_closed : w_closed w = true -> expired w = true;
inv_watched : forall wd path, byDescriptor w !! wd = Some path -> G path;
inv_sent : Forall S (sent w)
}.

Hypothesis G_root : G root.
Hypothesis G_join : forall p n, G p -> E n -> G (path_join [p; n]).
Hypothesis S_whole : S (Change "." true false).
Hypothesis S_change : forall p d r, G p -> S (Change (relative root p) d r).
Hypothesis E_entries : forall w p es err,
  fst (host_step (ReadDir p) w) = (es, err) -> Forall (fun e => E (fst e)) es.
Definition name_ok (name : string) : Prop := name = "" \/ E name.
Hypothesis E_events : forall w f buffer,
  fst (host_step (ReadEvents f) w) = inl buffer -> Forall name_ok (buffer_names (Datatypes.S (String.length buffer)) buffer).

#[local] Set Default Proof Using "Type*".

Lemma inv_set_tables d p w : named d p -> (forall wd path, d !! wd = Some path -> G path) -> inv w -> inv (set_tables d p w).
Proof. intros Hd Hg [H1 H2 H3 H4]. by split. Qed.

Lemma named_insert d p wd path : named d p -> p !! path = None -> named (<[wd := path]> d) (<[path := wd]> p).
Proof.
  intros Hn Hp wd' path' H. destruct (decide (wd = wd')) as [->|Hne].
  - rewrite lookup_insert_eq in H. injection H as <-. by rewrite lookup_insert_eq.
  - rewrite lookup_insert_ne in H by done. apply Hn in H. rewrite lookup_insert_ne; [done|]. intros ->. congruence.
Qed.

Lemma named_delete d p wd path : named d p -> (forall wd', d !! wd' = Some path -> wd' = wd) -> named (delete wd d) (delete path p).
Proof.
  intros Hn Hu wd' path' H. apply lookup_delete_Some in H as [Hne H]. rewrite lookup_delete_ne; [by apply Hn|].
  intros ->. by apply Hu in H.
Qed.

Lemma send_keeps c : S c -> keeps (W := W) inv (send c).
Proof. intros Hc. apply keeps_modify. intros v [H1 H2 H3 H4]. split; [done..|]. simpl. apply Forall_app. by repeat constructor. Qed.

Lemma fail_keeps e : keeps (W := W) inv (w_fail e).
Proof. apply keeps_modify. intros v [H1 H2 H3 H4]. by split. Qed.

Lemma Close_keeps : keeps (W := W) inv w_Close.
Proof. apply keeps_get. intros v _. destruct (w_closed v); [apply keeps_ret|]. apply keeps_modify. intros v' [H1 H2 H3 H4]. by split. Qed.

Lemma add_keeps p : G p -> keeps (W := W) inv (add p).
Proof.
  intros Hp. apply keeps_get. intros v [H1 H2 H3 H4]. destruct (byPath v !! p) eqn:Ep; [apply keeps_ret|].
  apply keeps_bind; [auto with keeps|]. intros d. apply keeps_modify. intros w Hw. apply inv_set_tables; [by apply named_insert| |done].
  intros wd path. destruct (decide (d = wd)) as [->|Hne]; [rewrite lookup_insert_eq; by intros [= <-]|].
  rewrite lookup_insert_ne by done. apply H3.
Qed.

Lemma visit_keeps emit p isDir err : G p -> keeps (W := W) inv (visit root emit p isDir err).
Proof.
  intros Hp. unfold visit, unless_not_exist. destruct err as [e|]; [case_goal; auto with keeps|]. apply keeps_bind.
  - destruct isDir; [|auto with keeps]. apply keeps_bind; [by apply keeps_try, add_keeps|].
    intros [?|e]; [|case_goal]; auto with keeps.
  - intros _. case_goal; [by apply send_keeps, S_change|auto with keeps].
Qed.

Lemma walkDir_keeps emit fuel p isDir : G p -> keeps (W := W) inv (walkDir (visit root emit) fuel p isDir).
Proof.
  revert p isDir. induction fuel as [|fuel IH]; intros p isDir Hp; cbn [walkDir]; [auto with keeps|].
  apply keeps_bind; [by apply visit_keeps|]. intros _. destruct isDir; [|auto with keeps].
  apply keeps_sys. intros w. destruct (fst (host_step (ReadDir p) w)) as [es err] eqn:Ee. apply E_entries in Ee.
  apply keeps_bind; [destruct err; [by apply visit_keeps|auto with keeps]|]. intros _.
  apply keeps_each. intros [n d] Hn. rewrite Forall_forall in Ee. apply IH, G_join; [done|]. by apply (Ee _ Hn).
Qed.

Lemma addTree_keeps emit fuel p : G p -> keeps (W := W) inv (addTree root fuel p emit).
Proof.
  intros Hp. apply keeps_sys. intros w. destruct (fst _); [by apply walkDir_keeps|by apply visit_keeps].
Qed.

(** Removing watches shrinks the tables. *)
Definition within (v w : watcher) : Prop := inv w /\ byDescriptor w ⊆ byDescriptor v /\ byPath w ⊆ byPath v.

Lemma removeTree_within p v : keeps (W := W) (within v) (removeTree p).
Proof.
  apply keeps_get. intros v0 (H0 & Hd0 & Hp0). apply keeps_each. intros [q d] Hq%elem_of_map_to_list.
  eapply lookup_weaken in Hq; [|exact Hp0]. case_goal; [|apply keeps_ret].
  apply keeps_get. intros v1 _. apply keeps_bind; [auto with keeps|]. intros _. apply keeps_update.
  intros w ([H1 H2 H3 H4] & Hd & Hp). split; [|split].
  - split; [|done| |done].
    + apply named_delete; [done|]. intros wd' Hwd. apply H1 in Hwd. eapply lookup_weaken in Hwd; [|exact Hp]. congruence.
    + intros wd path H. cbn in H. apply lookup_delete_Some in H as [_ H]. by eapply H3.
  - simpl. etransitivity; [apply delete_subseteq|done].
  - simpl. etransitivity; [apply delete_subseteq|done].
Qed.

Lemma rebuild_keeps fuel : keeps (W := W) inv (rebuild root fuel).
Proof.
  apply keeps_bind; [auto with keeps|]. intros f. apply keeps_get. intros v Hv.
  assert (Hfresh : inv (Watcher f 0 false false [] [] ∅ ∅)).
  { split; [intros wd p H; cbn in H; by rewrite lookup_empty in H|done|intros wd p H; cbn in H; by rewrite lookup_empty in H|constructor]. }
  apply keeps_bind; [by apply keeps_modify|]. intros _. apply keeps_bind; [by apply keeps_try, addTree_keeps|]. intros r.
  apply keeps_get. intros w Hw. apply keeps_bind; [by apply keeps_modify|]. intros _.
  destruct r as [_|e]; [|apply keeps_bind; [|intros _]; auto with keeps].
  destruct (byPath w !! root); [|apply keeps_bind; [|intros _]; auto with keeps].
  apply keeps_bind; [|intros _; case_goal; auto with keeps].
  apply keeps_modify. intros v' [H1 H2 H3 H4]. destruct Hw as [H5 H6 H7 H8]. by split.
Qed.

Lemma handle_keeps fuel d mask name : (name = "" \/ E name) -> keeps (W := W) inv (handle root fuel d mask name).
Proof.
  intros Hname. unfold handle. case_goal.
  { apply keeps_bind; [apply keeps_try, rebuild_keeps|]. intros [_|e]; [by apply send_keeps|].
    apply keeps_bind; [apply fail_keeps|intros _; apply Close_keeps]. }
  apply keeps_get_here. intros v Hv x Hx. destruct (byDescriptor v !! d) as [b|] eqn:Eb; [|by subst].
  cbv zeta. set (path := if (name =? "")%string then b else path_join [b; name]).
  assert (Hb : G b) by (by eapply inv_watched). assert (Hpath : G path).
  { subst path. destruct (name =? "")%string eqn:En; [done|]. reflect_bools. destruct Hname; [done|]. by apply G_join. }
  case_goal.
  { rewrite <- Hx in Hv. revert Hv. clear Hx. revert x. apply keeps_bind; [apply fail_keeps|intros _; apply Close_keeps]. }
  assert (Hwv : forall w, within v w -> inv w) by (by intros w [H _]).
  apply (keeps_after (within v) inv).
  - case_goal; [apply removeTree_within|apply keeps_ret].
  - done.
  - intros _. case_goal; [|case_goal].
    + intros y Hy%Hwv. revert y Hy. apply keeps_bind; [by apply keeps_try, addTree_keeps|]. intros [_|e]; [apply keeps_ret|].
      case_goal; [apply keeps_ret|]. apply keeps_bind; [apply fail_keeps|intros _; apply Close_keeps].
    + intros [h w] ([H1 H2 H3 H4] & Hd & Hp). cbn [vars] in *.
      change (inv (set_tables (delete d (byDescriptor w)) (delete b (byPath w)) w)). split; [|done| |done].
      * apply named_delete; [done|]. intros wd' H. eapply lookup_weaken in H; [|exact Hd].
        apply (inv_named _ Hv) in H. apply (inv_named _ Hv) in Eb. congruence.
      * intros wd p H. cbn in H. apply lookup_delete_Some in H as [_ H]. by eapply H3.
    + intros y Hy%Hwv. revert y Hy. case_goal; [by apply send_keeps, S_change|apply keeps_ret].
  - subst v. split; [done|]. split; done.
Qed.

Lemma process_go_keeps rounds fuel buffer : Forall name_ok (buffer_names rounds buffer) ->
  keeps (W := W) inv (process_go root rounds fuel buffer).
Proof.
  revert buffer. induction rounds as [|rounds IH]; intros buffer Hn; cbn [process_go buffer_names] in *; [apply keeps_out_of_fuel|].
  destruct (_ <? _)%nat; [apply keeps_ret|]. cbv zeta in *. destruct (_ <? _)%nat.
  { apply keeps_bind; [apply fail_keeps|intros _; apply keeps_ret]. }
  inversion Hn; subst. apply keeps_get. intros v _. apply keeps_bind; [by apply handle_keeps|]. intros _.
  apply keeps_get. intros v' _. case_goal; [apply keeps_ret|by apply IH].
Qed.

Lemma read_keeps (f : string + sys_error -> M W watcher unit) :
  (forall buffer, Forall name_ok (buffer_names (Datatypes.S (String.length buffer)) buffer) -> keeps inv (f (inl buffer))) ->
  (forall e, keeps inv (f (inr e))) ->
  keeps inv (v ← get; r ← sys (ReadEvents (fd v)); f r).
Proof.
  intros H1 H2. apply keeps_get. intros v _. apply keeps_sys. intros w.
  destruct (fst (host_step (ReadEvents (fd v)) w)) eqn:E1; [apply E_events in E1; auto|auto].
Qed.

Lemma processed_keeps fuel buffer (m : M W watcher unit) :
  Forall name_ok (buffer_names (Datatypes.S (String.length buffer)) buffer) -> keeps inv m ->
  keeps inv (go ← process root fuel buffer; if (go : bool) then m else ret tt).
Proof.
  intros Hb Hm. apply keeps_bind; [by apply process_go_keeps|]. intros [|]; [done|apply keeps_ret].
Qed.

Lemma drain_keeps reads fuel : keeps (W := W) inv (drain root reads fuel).
Proof.
  induction reads as [|reads IH]; cbn [drain]; [apply keeps_out_of_fuel|]. apply read_keeps.
  - intros buffer Hb. by apply processed_keeps.
  - intros e. destruct e; try apply fail_keeps; [done|apply keeps_ret].
Qed.

Lemma readLoop_keeps reads fuel : keeps (W := W) inv (readLoop root reads fuel).
Proof.
  apply keeps_finally; [|apply keeps_get; intros v _; apply keeps_sys_last].
  induction reads as [|reads IH]; cbn [readEvents]; [apply keeps_out_of_fuel|]. apply read_keeps.
  - intros buffer Hb. by apply processed_keeps.
  - intros e. destruct e; try apply fail_keeps. apply drain_keeps.
Qed.
End Invariant.

Lemma inv_new G S : inv G S new_watcher.
Proof. split; [intros wd p H; cbn in H; by rewrite lookup_empty in H|done|intros wd p H; cbn in H; by rewrite lookup_empty in H|constructor]. Qed.

(** ** Paths under the root *)
Definition under (rs : list string) (p : string) : Prop := exists ts, Forall good_elem ts /\ p = root_path (rs ++ ts).

Section Under.
Variable rs : list string.
Hypothesis Hrs : Forall good_elem rs.

Lemma under_root : under rs (root_path rs).
Proof. exists []. by rewrite app_nil_r. Qed.

Lemma under_join p n : under rs p -> good_elem n -> under rs (path_join [p; n]).
Proof using Hrs.
  intros (ts & Hts & ->) Hn. exists (ts ++ [n]). split; [apply Forall_app; split; [done|by constructor]|].
  rewrite root_path_join by (done || by apply Forall_app). by rewrite app_assoc.
Qed.

Lemma under_sendable p d r : under rs p -> sendable (Change (relative (root_path rs) p) d r).
Proof using Hrs.
  intros (ts & Hts & ->). unfold sendable, relative. rewrite rel_root_path by done. cbn [default change_path].
  destruct ts; [by left|right]. by apply valid_change_join.
Qed.
End Under.

(** ** Decoding *)

(** A kernel event; [padding] NUL bytes follow the name. *)
Record inotify_event := InotifyEvent { ev_wd : Z; ev_mask : Z; ev_cookie : Z; ev_name : string; ev_padding : nat }.

Definition le32 (z : Z) : string :=
  String (chr (z mod 256)) (String (chr (z / 256 mod 256)) (String (chr (z / 65536 mod 256)) (str1 (chr (z / 16777216 mod 256))))).

Definition ev_len (e : inotify_event) : nat := (String.length (ev_name e) + ev_padding e)%nat.
Definition encode_event (e : inotify_event) : string :=
  le32 (ev_wd e mod 2 ^ 32) +:+ le32 (ev_mask e) +:+ le32 (ev_cookie e) +:+ le32 (Z.of_nat (ev_len e)) +:+
  ev_name e +:+ repeat_str (str1 (chr 0)) (ev_padding e).

Definition wf_event (e : inotify_event) : Prop :=
  - 2 ^ 31 <= ev_wd e < 2 ^ 31 /\ 0 <= ev_mask e < 2 ^ 32 /\ Z.of_nat (ev_len e) < 2 ^ 32 /\
  contains_byte (chr 0) (ev_name e) = false.

Lemma le_bytes_le32 z : 0 <= z < 2 ^ 32 -> le_bytes (le32 z) = z.
Proof.
  intros Hz. unfold le32, str1. cbn [le_bytes]. rewrite !code_chr by (Z.to_euclidean_division_equations; lia).
  Z.to_euclidean_division_equations. lia.
Qed.

Lemma substring_all s rest : String.substring 0 (String.length s) (s +:+ rest) = s.
Proof. induction s as [|c s IH]; [by destruct rest|]. cbn. by rewrite IH. Qed.

Lemma substring_skip a n s : String.substring (String.length a) n (a +:+ s) = String.substring 0 n s.
Proof. induction a as [|c a IH]; [done|]. cbn. done. Qed.

Lemma drop_str_app a s : drop_str (String.length a) (a +:+ s) = s.
Proof. induction a as [|c a IH]; [done|]. cbn. done. Qed.

Lemma repeat_str_length c n : String.length (repeat_str (str1 c) n) = n.
Proof. induction n as [|n IH]; [done|]. cbn. by rewrite IH. Qed.

Lemma trim_nul_padding n : trim_nul (repeat_str (str1 (chr 0)) n) = "".
Proof.
  induction n as [|n IH]; [done|].
  change (repeat_str (str1 (chr 0)) (S n)) with (String (chr 0) (repeat_str (str1 (chr 0)) n)). cbn [trim_nul]. by rewrite IH.
Qed.

Lemma trim_nul_app name n : contains_byte (chr 0) name = false -> trim_nul (name +:+ repeat_str (str1 (chr 0)) n) = name.
Proof.
  induction name as [|c name IH]; cbn [String.append contains_byte trim_nul]; [intros _; apply trim_nul_padding|].
  intros [Hc Hn]%orb_false_iff. rewrite IH by done. destruct name; [|done].
  destruct (code c =? 0) eqn:E; [|done]. reflect_bools. exfalso. revert Hc. rewrite <- (chr_code c), E. done.
Qed.

Section Decoding.
Variable e : inotify_event.
Hypothesis He : wf_event e.
Variable rest : string.

Lemma event_length : String.length (encode_event e) = (headerSize + ev_len e)%nat.
Proof.
  unfold encode_event, ev_len, headerSize. rewrite !str_length_app, repeat_str_length. unfold le32, str1. cbn [String.length]. lia.
Qed.

Lemma event_wd : int32_at 0 (encode_event e +:+ rest) = ev_wd e.
Proof using He.
  destruct He as (Hw & _). unfold int32_at, uint32_at, encode_event. rewrite !str_app_assoc.
  rewrite (substring_all (le32 _)), le_bytes_le32 by (apply Z.mod_pos_bound; lia).
  case_goal; reflect_bools; Z.to_euclidean_division_equations; lia.
Qed.

Lemma event_mask : uint32_at 4 (encode_event e +:+ rest) = ev_mask e.
Proof using He.
  destruct He as (_ & Hm & _). unfold uint32_at, encode_event. rewrite !str_app_assoc.
  rewrite (substring_skip (le32 _)), (substring_all (le32 _)). by apply le_bytes_le32.
Qed.

Lemma event_len : Z.to_nat (uint32_at 12 (encode_event e +:+ rest)) = ev_len e.
Proof using He.
  destruct He as (_ & _ & Hl & _). unfold uint32_at, encode_event. rewrite !str_app_assoc.
  rewrite <- (str_app_assoc (le32 _) (le32 _)), <- (str_app_assoc (le32 _ +:+ le32 _)).
  rewrite (substring_skip ((le32 _ +:+ le32 _) +:+ le32 _)), (substring_all (le32 _)), le_bytes_le32 by lia. lia.
Qed.

Lemma event_name : trim_nul (String.substring headerSize (ev_len e) (encode_event e +:+ rest)) = ev_name e.
Proof using He.
  destruct He as (_ & _ & _ & Hn). unfold encode_event. rewrite !str_app_assoc.
  rewrite <- (str_app_assoc (le32 _) (le32 _)), <- (str_app_assoc (le32 _ +:+ le32 _)), <- (str_app_assoc ((le32 _ +:+ le32 _) +:+ le32 _)).
  rewrite (substring_skip (((le32 _ +:+ le32 _) +:+ le32 _) +:+ le32 _)).
  assert (Hlen : ev_len e = String.length (ev_name e +:+ repeat_str (str1 (chr 0)) (ev_padding e))).
  { by rewrite str_length_app, repeat_str_length. }
  rewrite Hlen, <- str_app_assoc, substring_all. by apply trim_nul_app.
Qed.
End Decoding.

(** Handling events one by one, up to the first that replaces the instance. *)
Section Replay.
Context {W : Type} `{!Host W}.
Variable root : string.

Fixpoint handle_all (fuel : nat) (es : list inotify_event) : M W watcher bool :=
  match es with
  | [] => ret true
  | e :: es =>
      v ← get;
      handle root fuel (ev_wd e) (ev_mask e) (ev_name e);;
      v' ← get;
      if negb (file v' =? file v)%nat then ret true else handle_all fuel es
  end.

Definition events_buffer (es : list inotify_event) : string := concat_str (encode_event <$> es).

Lemma bind_ext {A B} (m : M W watcher A) (f g : A -> M W watcher B) (x : st W watcher) :
  (forall a y, f a y = g a y) -> (m ≫= f) x = (m ≫= g) x.
Proof. intros H. unfold mbind, M_bind, bind. destruct (res (m x)); [by rewrite H|done..]. Qed.

Lemma process_go_events fuel es : Forall wf_event es -> forall rounds x,
  (String.length (events_buffer es) < rounds)%nat ->
  process_go root rounds fuel (events_buffer es) x = handle_all fuel es x.
Proof.
  induction 1 as [|e es He Hes IH]; intros rounds x Hr; (destruct rounds as [|rounds]; [lia|]).
  { done. }
  unfold events_buffer in *. cbn [fmap list_fmap concat_str] in *.
  pose proof (event_length e) as Hlen. rewrite str_length_app, Hlen in Hr. unfold headerSize in Hr.
  cbn [process_go handle_all]. rewrite str_length_app, Hlen.
  assert ((headerSize + ev_len e + String.length (concat_str (encode_event <$> es)) <? headerSize)%nat = false) as ->
    by (apply Nat.ltb_ge; lia).
  rewrite (event_len e He). cbv zeta.
  assert ((headerSize + ev_len e + String.length (concat_str (encode_event <$> es)) <? headerSize + ev_len e)%nat = false) as ->
    by (apply Nat.ltb_ge; lia).
  replace (headerSize + ev_len e - headerSize)%nat with (ev_len e) by lia.
  rewrite (event_wd e He), (event_mask e He), (event_name e He). rewrite <- Hlen, drop_str_app.
  apply bind_ext. intros v y. apply bind_ext. intros _ z. apply bind_ext. intros v' z'.
  case_goal; [done|]. apply IH. lia.
Qed.
End Replay.

(** ** A tree that stands still *)
Section Static.
#[local] Set Default Proof Using "Type*".
Context {W : Type} `{!Host W}.
Variable ls : string -> list (string * bool).
Hypothesis ls_answers : forall w p, fst (host_step (ReadDir p) w) = (ls p, None).
Hypothesis watch_answers : forall w f p, exists wd, fst (host_step (InotifyAddWatch f p) w) = inl wd.



Variable root : string.
Variable emit : bool.











End Static.

(** ** What the kernel granted

    Every path in the tables was given its descriptor by the kernel, in this run or before. *)

(** The directory and the descriptor of a watch that an event of the instance [f] granted. *)
Definition grant (f : Z) (e : event) : option (string * Z) :=
  match ev_op e in op A return A -> _ with
  | InotifyAddWatch f' q => fun a => match a with inl d => if f' =? f then Some (q, d) else None | inr _ => None end
  | _ => fun _ => None
  end (ev_answer e).

(** [q] had the descriptor [d] before the run, or was granted it in its trace. *)
Definition granted (w0 : watcher) (t : list event) (q : string) (d : Z) : Prop :=
  byPath w0 !! q = Some d \/ (q, d) ∈ omap (grant (fd w0)) t.

(** The two tables are each other's inverse. *)
Definition paired (w : watcher) : Prop := forall q d, byPath w !! q = Some d <-> byDescriptor w !! d = Some q.


Record granted_tables (w0 : watcher) (t : list event) (w : watcher) : Prop := GrantedTables {
  gt_instance : fd w = fd w0;
  gt_paths : forall q d, byPath w !! q = Some d -> granted w0 t q d;
  gt_descriptors : paired w0 -> forall q d, byPath w !! q = Some d ->
    exists q', byDescriptor w !! d = Some q' /\ granted w0 t q' d
}.

Lemma granted_app w0 t t' q d : granted w0 t q d -> granted w0 (t ++ t') q d.
Proof. intros [H|H]; [by left|right]. rewrite omap_app. apply elem_of_app. by left. Qed.

Lemma granted_tables_app w0 t t' w : granted_tables w0 t w -> granted_tables w0 (t ++ t') w.
Proof.
  intros [H1 H2 H3]. split; [done|auto using granted_app|]. intros Hp q d Hq.
  destruct (H3 Hp q d Hq) as (q' & ? & ?). exists q'. auto using granted_app.
Qed.


Section Grants.
Context {W : Type} `{!Host W}.

(** Every step of [m] keeps the tables to what the kernel granted. *)
Definition keeps_granted {A} (m : M W watcher A) : Prop := forall x w0 pre,
  granted_tables w0 pre (vars x) -> granted_tables w0 (pre ++ trace (m x)) (vars (out_state (m x))).

Lemma keeps_granted_quiet {A} (m : M W watcher A) :
  (forall x, fd (vars (out_state (m x))) = fd (vars x) /\ byPath (vars (out_state (m x))) = byPath (vars x) /\
             byDescriptor (vars (out_state (m x))) = byDescriptor (vars x)) -> keeps_granted m.
Proof.
  intros Hm x w0 pre H. destruct (Hm x) as (H1 & H2 & H3).
  apply (granted_tables_app _ _ (trace (m x))) in H as [G1 G2 G3]. split; rewrite ?H1, ?H2, ?H3; auto.
Qed.

Lemma keeps_granted_ret {A} (a : A) : keeps_granted (ret a).
Proof. by apply keeps_granted_quiet. Qed.
Lemma keeps_granted_throw {A} e : keeps_granted (A := A) (throw e).
Proof. by apply keeps_granted_quiet. Qed.
Lemma keeps_granted_fuel {A} : keeps_granted (A := A) out_of_fuel.
Proof. by apply keeps_granted_quiet. Qed.
Lemma keeps_granted_sys {A} (o : op A) : keeps_granted (sys o).
Proof. apply keeps_granted_quiet. intros x. unfold sys. by destruct (host_step o (host x)). Qed.
Lemma keeps_granted_send c : keeps_granted (send c).
Proof. by apply keeps_granted_quiet. Qed.

Lemma keeps_granted_try {A} (m : M W watcher A) : keeps_granted m -> keeps_granted (try m).
Proof. intros Hm x w0 pre H. specialize (Hm x w0 pre H). unfold try. by destruct (res (m x)). Qed.

Lemma add_granted p : keeps_granted (add p).
Proof.
  intros [h w] w0 pre [H1 H2 H3]. cbn [vars] in *.
  change (wp (add p) (fun _ x' t => granted_tables w0 (pre ++ t) (vars x')) (St h w)).
  assert (Hskip : forall t, granted_tables w0 (pre ++ t) w) by (intros t; by apply granted_tables_app).
  unfold add. apply wp_bind, wp_get. cbn [after vars].
  destruct (byPath w !! p) eqn:E; [by apply wp_ret|].
  apply wp_bind, wp_wrap, wp_obtain; [intros d h'|intros e h']; cbn [after vars]; [|by apply Hskip].
  apply wp_modify. cbn [vars app].
  assert (Hnew : granted w0 (pre ++ [Event (InotifyAddWatch (fd w) p) (inl d)]) p d).
  { right. rewrite omap_app. apply elem_of_app. right. cbn. rewrite H1, Z.eqb_refl. by left. }
  split; [done| |].
  - intros q d' Hq. cbn in Hq. destruct (decide (p = q)) as [->|Hne].
    + rewrite lookup_insert_eq in Hq. by injection Hq as <-.
    + rewrite lookup_insert_ne in Hq by done. by apply granted_app, H2.
  - intros Hp q d' Hq. cbn in Hq |- *. destruct (decide (d = d')) as [->|Hd].
    + exists p. by rewrite lookup_insert_eq.
    + rewrite lookup_insert_ne by done. destruct (decide (p = q)) as [->|Hne].
      * rewrite lookup_insert_eq in Hq. congruence.
      * rewrite lookup_insert_ne in Hq by done. destruct (H3 Hp q d' Hq) as (q' & ? & ?). exists q'. auto using granted_app.
Qed.

Create HintDb grants discriminated.
#[local] Hint Resolve keeps_granted_ret keeps_granted_throw keeps_granted_fuel keeps_granted_sys keeps_granted_send
  keeps_granted_try add_granted : grants.



End Grants.

(** ** Guarantees *)

(** C24: whatever the kernel answers, after any number of reads the watcher's tables agree: the
    path a descriptor stands for has that descriptor; and a [Close] is never lost, not even
    when an overflow replaces the inotify instance afterwards. *)
Theorem watcher_tables_agree (W : Type) (H : Host W) reads fuel root (w : W) :
  let v := vars (out_state (watch reads fuel root (St w new_watcher))) in
  named (byDescriptor v) (byPath v) /\ (w_closed v = true -> expired v = true).
Proof.
  assert (Hk : inv (fun _ => True) (fun _ => True) (vars (out_state (watch reads fuel root (St w new_watcher))))).
  { apply (keeps_bind (inv (fun _ => True) (fun _ => True))); [|intros r|apply inv_new].
    - apply keeps_bind; [auto with keeps|]. intros r. apply keeps_bind; [|intros _; apply keeps_ret].
      apply (rebuild_keeps r _ (fun _ => True)); try done; intros; apply Forall_true; intros; by try right.
    - apply (readLoop_keeps r _ (fun _ => True)); try done; intros; apply Forall_true; intros; by try right. }
  by destruct Hk.
Qed.

(** What a kernel answers: a resolved absolute path for the source, and names of entries and
    events that are file names. *)
Record file_names (W : Type) (H : Host W) : Prop := FileNames {
  names_root : forall w p r, fst (host_step (EvalSymlinks p) w) = inl r -> exists rs, Forall good_elem rs /\ r = root_path rs;
  names_entries : forall w p es err, fst (host_step (ReadDir p) w) = (es, err) -> Forall (fun e => good_elem (fst e)) es;
  names_events : forall w f buffer, fst (host_step (ReadEvents f) w) = inl buffer ->
    Forall (fun n => n = "" \/ good_elem n) (buffer_names (S (String.length buffer)) buffer)
}.

Lemma keeps_wp {W A} (I : watcher -> Prop) (m : M W watcher A) x :
  keeps I m -> I (vars x) -> wp m (fun _ x' _ => I (vars x')) x.
Proof. intros Hm. apply Hm. Qed.

Lemma newWatcher_inv {W : Type} (H : Host W) fuel root (w : W) : file_names W H ->
  wp (newWatcher fuel root) (fun r x' _ => Forall sendable (sent (vars x')) /\ forall root', r = Ok root' ->
    exists rs, Forall good_elem rs /\ root' = root_path rs /\ inv (under rs) sendable (vars x')) (St w new_watcher).
Proof.
  intros [Hroot Hentries Hevents]. unfold newWatcher, obtain. apply wp_bind, wp_wrap, wp_bind.
  specialize (Hroot w root). unfold wp at 1, sys. cbn [host vars].
  destruct (host_step (EvalSymlinks root) w) as [[r|e] w1]; cbn; [|split; [constructor|done]].
  destruct (Hroot r eq_refl) as (rs & Hrs & ->). apply wp_bind. eapply wp_mono.
  - apply (keeps_wp (inv (under rs) sendable)); [|apply inv_new].
    apply (rebuild_keeps (root_path rs) _ good_elem); eauto using under_root, under_join, under_sendable. by left.
  - intros r x' t Hx. pose proof (inv_sent _ _ _ Hx). destruct r as [[]|e|]; cbn [after]; [|by split..].
    apply wp_ret. split; [done|]. intros root' [= <-]. by exists rs.
Qed.

(** C27: with a kernel that answers file names, every change the watcher ever sends has a path
    that the syncer accepts: "." for the whole tree, or a clean relative path that does not
    leave the source. *)
Theorem changes_are_acceptable (W : Type) (H : Host W) reads fuel root (w : W) :
  file_names W H -> Forall sendable (sent (vars (out_state (watch reads fuel root (St w new_watcher))))).
Proof.
  intros Hn. change (wp (watch reads fuel root) (fun _ x' _ => Forall sendable (sent (vars x'))) (St w new_watcher)).
  unfold watch. apply wp_bind. eapply wp_mono; [by apply newWatcher_inv|]. intros r x' t [Hs Hr].
  destruct r as [root'|e|]; cbn [after]; [|done..]. destruct (Hr root' eq_refl) as (rs & Hrs & -> & Hinv).
  destruct Hn as [_ Hentries Hevents]. eapply wp_mono.
  - apply (keeps_wp (inv (under rs) sendable)); [|exact Hinv].
    apply (readLoop_keeps (root_path rs) _ good_elem); eauto using under_root, under_join, under_sendable. by left.
  - intros r2 x2 t2 Hx. exact (inv_sent _ _ _ Hx).
Qed.

(** A read that returns whole kernel events has them handled one by one, in order, with the
    descriptor, mask and name the kernel wrote, up to the first that replaces the inotify
    instance; the rest of that buffer, which belongs to the old watches, is dropped. *)
Theorem process_handles_events (W : Type) (H : Host W) root fuel es (x : st W watcher) :
  Forall wf_event es -> process root fuel (events_buffer es) x = handle_all root fuel es x.
Proof. intros He. unfold process. apply process_go_events; [done|lia]. Qed.



(** *** On concrete hosts *)
Definition sample_event : inotify_event := InotifyEvent 1 IN_CREATE 0 "c" 15.

#[local] Instance still_host : Host still := still_step (encode_event sample_event).

Definition still_start : st still watcher := St (Still 1 2) new_watcher.

Lemma good_elem_letter c : good_elem (str1 c) \/ c = slash \/ c = "."%char.
Proof.
  destruct (Ascii.eqb c slash) eqn:E1; [right; left; by apply Ascii.eqb_eq|]. destruct (Ascii.eqb c ".") eqn:E2; [right; right; by apply Ascii.eqb_eq|].
  left. split; [done|]. split; [|split; [done|]].
  - intros [= ->]. done.
  - unfold no_slash, str1. cbn [contains_byte]. by rewrite Ascii.eqb_sym, E1.
Qed.

Lemma still_file_names : file_names still still_host.
Proof.
  assert (Ha : forall c, c <> slash -> c <> "."%char -> good_elem (str1 c)) by (intros c ? ?; destruct (good_elem_letter c) as [?|[?|?]]; done).
  split.
  - intros w p r [= <-]. exists ["r"%stdpp]. split; [|reflexivity]. constructor; [by apply (Ha "r"%char)|constructor].
  - intros w p es err [= <- _]. unfold still_ls. repeat case_goal; repeat constructor; cbn; by apply Ha.
  - intros w f buffer. cbn. destruct (reads_left w); [done|]. intros [= <-]. vm_compute.
    constructor; [right; by apply (Ha "c"%char)|constructor].
Qed.

Lemma changes_are_acceptable_witness :
  sent (vars (out_state (watch 3 5 "/r" still_start))) = [Change "c" false false; Change "c" false false] /\
  Forall sendable (sent (vars (out_state (watch 3 5 "/r" still_start)))).
Proof. split; [vm_compute; reflexivity|]. apply (changes_are_acceptable still still_host), still_file_names. Defined.

Lemma process_handles_events_witness :
  process "/r" 5 (events_buffer [sample_event; sample_event]) still_start = handle_all "/r" 5 [sample_event; sample_event] still_start.
Proof. apply (process_handles_events still still_host). repeat constructor; vm_compute; (reflexivity || discriminate). Defined.



