(* ===== verification/Reserved.v ===== *)
(** * The program's own files ([syncpath.go], [payload.go] and [watcher_linux.go] together)

    The local state file may lie inside the source, where the watcher sees it written. Its name
    and those of its temporary files, as the watcher relates them to the source, are the ones
    that [protects] reserves and the payload filters exclude; outside the source the watcher
    never names them. *)

From Stdlib Require Import Ascii.
From S2P Require Import Prelude GoString Host SyncData StateFile SyncPath Options Filters SyncState Payload PathTheory Watcher WatcherSpec.

Local Open Scope Z_scope.

(** ** Absolute paths, cleaned *)
Lemma rooted_steps_good es acc : Forall no_slash es -> Forall good_elem acc ->
  Forall good_elem (fold_left (clean_step true) es acc).
Proof.
  intros He. revert acc. induction He as [|e es He Hes IH]; intros acc Ha; [done|]. cbn [fold_left]. apply IH.
  unfold clean_step. destruct (e =? "")%string eqn:E1; [done|]. destruct (e =? ".")%string eqn:E2; [done|]. cbn [orb].
  destruct (e =? "..")%string eqn:E3; reflect_bools.
  - destruct acc as [|h t]; [constructor|]. inversion Ha as [|? ? (_ & _ & Hh & _) Ht]; subst.
    apply String.eqb_neq in Hh. by rewrite Hh.
  - constructor; [done|exact Ha].
Qed.

Lemma clean_abs_shape p : is_abs p = true -> exists es, Forall good_elem es /\ clean p = root_path es.
Proof.
  intros Ha. exists (clean_elems p). unfold clean. rewrite Ha. split; [|done]. unfold clean_elems. rewrite Ha.
  apply Forall_rev, rooted_steps_good; [apply split_on_elements|constructor].
Qed.

Lemma root_path_nonempty es : root_path es <> "".
Proof. done. Qed.

(** ** Relative names *)

(** A relative path that leads out of its base. *)
Definition outside (r : string) : Prop := r = ".." \/ has_prefix "../" r = true.

Lemma strip_common_spec b t : exists c b' t', strip_common b t = (b', t') /\ b = c ++ b' /\ t = c ++ t'.
Proof.
  revert t. induction b as [|x b IH]; intros t; [by exists [], [], t|]. destruct t as [|y t]; [by exists [], (x :: b), []|].
  cbn [strip_common]. destruct (x =? y)%string eqn:E; [|by exists [], (x :: b), (y :: t)].
  apply String.eqb_eq in E as ->. destruct (IH t) as (c & b' & t' & H & -> & ->). by exists (y :: c), b', t'.
Qed.

Lemma join_dots_outside l : outside (join "/" (".."%stdpp :: l)).
Proof.
  destruct l as [|e l]; [by left|]. right. rewrite join_cons by done.
  change (has_prefix "" (join "/" (e :: l)) = true). apply has_prefix_nil.
Qed.

Lemma root_elems es : Forall good_elem es ->
  (if (join "/" es =? "")%string then [] else split_on slash (join "/" es)) = es.
Proof.
  intros Hg. destruct es as [|e es]; [done|]. destruct (good_head (join "/" (e :: es)) (e :: es)) as (_ & Hn & _); [done|].
  apply String.eqb_neq in Hn. rewrite Hn. by apply split_join, good_no_slash.
Qed.

(** A path that is not below the base leads out of it. *)
Lemma rel_outside rs ts : Forall good_elem rs -> Forall good_elem ts -> (forall us, ts <> rs ++ us) ->
  exists r, rel (root_path rs) (root_path ts) = Some r /\ outside r.
Proof.
  intros Hr Ht Hn. unfold rel, rel_elems. rewrite !clean_root_path by done.
  destruct (root_path ts =? root_path rs)%string eqn:E.
  { reflect_bools. apply (f_equal (trim_prefix "/")) in E. rewrite !trim_root in E.
    pose proof (root_elems ts Ht) as H. rewrite E, root_elems in H by done. by destruct (Hn []); rewrite app_nil_r. }
  assert ((root_path rs =? ".")%string = false) as -> by done. rewrite !root_path_abs. cbn [Bool.eqb negb].
  rewrite !trim_root, !root_elems by done. destruct (strip_common_spec rs ts) as (c & b' & t' & -> & -> & ->).
  destruct b' as [|x b']; [by destruct (Hn t'); rewrite app_nil_r|].
  assert (Hx : good_elem x) by (apply Forall_app in Hr as [_ Hr]; by inversion Hr).
  destruct Hx as (_ & _ & Hx & _). apply String.eqb_neq in Hx. rewrite Hx. eexists. split; [done|]. apply join_dots_outside.
Qed.

Lemma below_or_not (rs ts : list string) : (exists us, ts = rs ++ us) \/ forall us, ts <> rs ++ us.
Proof.
  destruct (decide (rs `prefix_of` ts)) as [[us ->]|Hn]; [left; by exists us|right]. intros us ->. apply Hn. by exists us.
Qed.

(** ** Reserved names *)
Lemma not_outside us : us <> [] -> Forall good_elem us ->
  (join "/" us =? "..")%string || has_prefix "../" (join "/" us) = false.
Proof.
  intros Hn Hg. pose proof (valid_change_join us Hn Hg) as H. unfold valid_change in H. apply negb_true_iff in H.
  apply orb_false_iff in H as [H H2]. apply orb_false_iff in H as [_ H1]. by rewrite H1, H2.
Qed.

Lemma protects_exact paths p : p <> "" -> p = localFilter paths -> fst (protects paths p) = true.
Proof.
  intros Hn ->. unfold protects. destruct (_ && _); [done|]. cbn [protects_go]. apply String.eqb_neq in Hn.
  by rewrite Hn, String.eqb_refl.
Qed.

Lemma has_prefix_app p s : has_prefix p (p +:+ s) = true.
Proof. unfold has_prefix. induction p as [|c p IH]; [by destruct s|]. cbn. by destruct (ascii_dec c c). Qed.

Lemma protects_temp paths p x : localFilter paths <> "" -> p = localFilter paths +:+ localStateTempPrefix +:+ x ->
  fst (protects paths p) = true.
Proof.
  intros Hn ->. unfold protects. apply String.eqb_neq in Hn. rewrite Hn. cbn [negb andb].
  by rewrite <- str_app_assoc, has_prefix_app.
Qed.

(** A name longer than "..". *)
Lemma good_elem_app e s : good_elem e -> no_slash s -> (2 < String.length s)%nat -> good_elem (e +:+ s).
Proof.
  intros (_ & _ & _ & He) Hs Hl.
  assert (Hlen : (2 < String.length (e +:+ s))%nat) by (rewrite str_length_app; lia).
  split_and!; [intros Hx; rewrite Hx in Hlen; cbn in Hlen; lia..|].
  unfold no_slash in *. clear -He Hs. induction e as [|c e IH]; [done|]. cbn [contains_byte String.append] in *.
  apply orb_false_iff in He as [Hc He]. rewrite Hc. by apply IH.
Qed.

Lemma join_snoc_app us e s : join "/" (us ++ [e]) +:+ s = join "/" (us ++ [e +:+ s]).
Proof. destruct us as [|u us]; [done|]. by rewrite !join_snoc, !str_app_assoc by done. Qed.

Lemma root_path_snoc_app us e s : root_path (us ++ [e]) +:+ s = root_path (us ++ [e +:+ s]).
Proof. unfold root_path. rewrite <- join_snoc_app. apply str_app_assoc. Qed.

(** The resolution of the local state file. *)
Lemma resolveLocal_shape rs lr local filter :
  Forall good_elem rs -> resolveLocalSyncFile "/" (root_path rs) lr = Ok (local, filter) ->
  exists es, Forall good_elem es /\ local = root_path es /\ es <> rs /\ filter = relativeLocalPath (root_path rs) local.
Proof.
  intros Hr. unfold resolveLocalSyncFile. destruct (contains_any _ lr); cbn [negb]; [done|].
  destruct ((lr =? "")%string || is_abs lr) eqn:El; cbn [negb]; [done|].
  apply orb_false_iff in El as [El _]. apply String.eqb_neq in El.
  assert (Hj : path_join [root_path rs; lr] = clean (root_path rs +:+ "/" +:+ lr)).
  { unfold path_join. by rewrite !filter_cons_True by done. }
  rewrite Hj. destruct (clean_abs_shape (root_path rs +:+ "/" +:+ lr)) as (es & Hes & Hc).
  { rewrite is_abs_app by done. apply root_path_abs. }
  rewrite Hc. unfold filepath_abs. rewrite root_path_abs, !clean_root_path by done.
  destruct (root_path es =? root_path rs)%string eqn:E; cbn [negb]; [done|]. intros [= <- <-].
  exists es. split_and!; [done|done| |done]. intros ->. by rewrite String.eqb_refl in E.
Qed.

Lemma resolve_local source dest lr rr paths : resolveSyncFilePaths "/" source dest lr rr = Ok paths ->
  resolveLocalSyncFile "/" source lr = Ok (local paths, localFilter paths).
Proof.
  unfold resolveSyncFilePaths. destruct (resolveLocalSyncFile _ _ _) as [[l lf]| |]; cbn [result_bind]; [|done..].
  destruct (resolveRemoteSyncFile _ _) as [[r rf]| |]; cbn [result_bind]; [|done..]. by intros [= <-].
Qed.

(** ** Guarantee *)

(** C26: for a clean absolute source, the resolved local state file either lies outside of it, and
    then so does its name for the watcher, or its name is the reserved one: the payload filters
    exclude it and its temporary files, and no event for any of them becomes a pending
    change. *)
Theorem state_files_are_reserved rs dest lr rr paths :
  Forall good_elem rs -> resolveSyncFilePaths "/" (root_path rs) dest lr rr = Ok paths ->
  let name := Watcher.relative (root_path rs) in
  (localFilter paths = "" /\ outside (name (local paths))) \/
  (name (local paths) = localFilter paths /\ valid_change (localFilter paths) = true /\
   literalFilterPath (localFilter paths) ∈ payloadFilters paths /\
   (literalFilterPath (localFilter paths +:+ localStateTempPrefix) +:+ "*") ∈ payloadFilters paths /\
   forall st pending d r x, SyncState.paths st = paths -> no_slash x ->
     queueChange (Some st) pending (Change (name (local paths)) d r) = pending /\
     queueChange (Some st) pending (Change (name (local paths +:+ localStateTempPrefix +:+ x)) d r) = pending).
Proof.
  intros Hr Hp%resolve_local name. destruct (resolveLocal_shape _ _ _ _ Hr Hp) as (es & Hes & Hl & Hne & Hf).
  unfold name, Watcher.relative. rewrite Hl in Hf |- *. unfold relativeLocalPath in Hf.
  destruct (below_or_not rs es) as [[us ->]|Hout].
  2: { left. destruct (rel_outside rs es Hr Hes Hout) as (r & Hrel & Ho). rewrite Hrel in *. cbn [default]. split; [|done].
       rewrite Hf. by destruct Ho as [->| ->]; rewrite ?orb_true_r. }
  right. assert (Hus : us <> []) by (intros ->; by rewrite app_nil_r in Hne).
  apply Forall_app in Hes as [_ Hes]. pose proof (valid_change_join us Hus Hes) as Hvalid.
  rewrite rel_root_path in * by done.
  assert (Hname : match us with [] => "." | _ => join "/" us end = join "/" us) by (by destruct us).
  rewrite Hname in *. rewrite not_outside in Hf by done. cbn [default].
  assert (Hn : join "/" us <> "") by (by destruct (good_head (join "/" us) us) as (_ & ? & _)).
  assert (Hfn : localFilter paths <> "") by congruence.
  split; [done|]. split; [congruence|]. apply String.eqb_neq in Hfn. unfold payloadFilters. rewrite Hfn.
  split; [set_solver|]. split; [set_solver|]. intros st pending d r x Hst Hx. apply String.eqb_neq in Hfn.
  unfold queueChange. rewrite Hst. cbn [change_path]. split.
  { by rewrite protects_exact. }
  destruct (exists_last Hus) as (us0 & e & ->). rewrite app_assoc, root_path_snoc_app, <- app_assoc.
  apply Forall_app in Hes as [Hes0 He]. apply Forall_cons in He as [He' _].
  assert (Hg : good_elem (e +:+ localStateTempPrefix +:+ x)).
  { apply good_elem_app; [done| |rewrite str_length_app; cbn; lia]. unfold no_slash in *. by rewrite <- Hx. }
  rewrite rel_root_path by (done || (apply Forall_app; split; [done|by constructor])). cbn [default].
  rewrite (protects_temp paths _ x); [done|done|]. rewrite Hf, join_snoc_app.
  by destruct us0.
Qed.

Definition data_paths : syncFilePaths :=
  SyncFilePaths "/srv/data/.rcw-state" "remote:b/.rcw-state" ".rcw-state" ".rcw-state".
Definition outside_paths : syncFilePaths := SyncFilePaths "/srv/state" "remote:b/.rcw-state" "" ".rcw-state".

Lemma state_files_are_reserved_witness :
  (forall st, SyncState.paths st = data_paths ->
     queueChange (Some st) ∅ (Change ".rcw-state.rcw-tmp-123" false false) = ∅) /\
  outside (Watcher.relative "/srv/data" (local outside_paths)).
Proof.
  assert (Hg : Forall good_elem ["srv"%stdpp; "data"%stdpp]) by (repeat constructor; discriminate). split.
  - destruct (state_files_are_reserved ["srv"; "data"] "remote:b" ".rcw-state" ".rcw-state" data_paths Hg) as [[H _]|(_ & _ & _ & _ & H)].
    + vm_compute. reflexivity.
    + discriminate H.
    + intros st Hst. destruct (H st ∅ false false "123" Hst) as [_ Hq]; [reflexivity|]. exact Hq.
  - destruct (state_files_are_reserved ["srv"; "data"] "remote:b" "../state" ".rcw-state" outside_paths Hg) as [[_ H]|(_ & H & _)].
    + vm_compute. reflexivity.
    + exact H.
    + discriminate H.
Defined.
