(* ===== verification/Scenarios.v ===== *)
(** * Two runs that end badly

    Concrete runs of the model on the hosts of [MemHost] and [MemTree] that show two faults of
    the program: a retry after a publication whose outcome is unknown gives up the means to
    recover, and a directory that moves into a new directory can lose its watch for good. *)

From S2P Require Import Prelude GoString GoTime Host HostLogic MemHost MemTree SyncData StateFile SyncPath Options SyncState Acquire Session SessionSpec CrashRecovery Payload Fixtures Watcher.

Local Open Scope Z_scope.

(** ** A publication whose outcome is unknown *)

(** The state files of a host. *)
Definition disk_of (m : mem) : option disk :=
  match object m with
  | Some (c, _) =>
      match decodeSyncFile c, decodeSyncFile (default "" (files m !! "/src/.rcw-state"%stdpp)) with
      | Ok r, Ok l => Some (Disk (Some l) r)
      | _, _ => None
      end
  | None => None
  end.

Definition with_failures (l : list (option sys_error)) (x : st mem syncVars) : st mem syncVars :=
  St (set_failures l (host x)) (vars x).

(** The network fails after the upload of the new generation, before it is read back. *)
Definition ambiguous : st mem syncVars :=
  out_state (BeforeRemoteChange demo (with_failures [None; None; Some (OtherError "network")] demo_started)).

(** The batch is retried while the network is still down, and then the program is killed. *)
Definition retried : st mem syncVars :=
  out_state (BeforeRemoteChange demo (with_failures [Some (OtherError "network")] ambiguous)).

(** The code gives up local changes in this run. After a publication that took effect but
    could not be read back, the next start would recover by uploading; the retry, which draws
    a new identifier and saves it locally before it knows that it can publish it, leaves the
    same generation under two identifiers when it fails, and the next start overwrites the
    local changes with the remote payload. *)
Theorem retry_forfeits_recovery :
  exists k1 k2, disk_of (host ambiguous) = Some k1 /\ next_start k1 = Recover /\
    disk_of (host retried) = Some k2 /\ next_start k2 = Download.
Proof.
  destruct (disk_of (host ambiguous)) as [k1|] eqn:E1; [|vm_compute in E1; discriminate].
  destruct (disk_of (host retried)) as [k2|] eqn:E2; [|vm_compute in E2; discriminate].
  exists k1, k2. vm_compute in E1, E2. injection E1 as <-. injection E2 as <-. split; [done|]. split; [reflexivity|]. split; [done|reflexivity].
Qed.

(** ** A directory that moves into a new one *)

(** [mkdir x; mv a x/b], before the watcher has seen either. *)
Definition tree_before : tree := fresh_tree
  [("/r"%stdpp, (1, true)); ("/r/a"%stdpp, (2, true)); ("/r/a/f"%stdpp, (3, false))].
Definition nodes_after : list (string * (Z * bool)) :=
  [("/r"%stdpp, (1, true)); ("/r/x"%stdpp, (4, true)); ("/r/x/b"%stdpp, (2, true)); ("/r/x/b/f"%stdpp, (3, false))].

Definition watched_before : st tree watcher := out_state (rebuild "/r" 5 (St tree_before new_watcher)).
Definition moved : st tree watcher := St (upd_nodes nodes_after (host watched_before)) (vars watched_before).
Definition seen_create : st tree watcher := out_state (handle "/r" 5 1 (Z.lor IN_CREATE IN_ISDIR) "x" moved).
Definition seen_both : st tree watcher := out_state (handle "/r" 5 1 (Z.lor IN_MOVED_FROM IN_ISDIR) "a" seen_create).

(** The code loses the watch of a directory in this run. When a directory moves into a
    directory that was just created, the walk of the new one watches it again under its new
    name and gets the descriptor it already has; the event for its old name then removes that
    watch. The directory is there and in the watcher's table, but it is not watched and no
    descriptor stands for it, and walking the whole tree again does not restore the watch. *)
Theorem moved_directory_loses_watch :
  node (host seen_both) "/r/x/b" = Some (2, true) /\
  is_watched (host watched_before) 2 = true /\
  byPath (vars seen_both) !! "/r/x/b"%stdpp = Some 2 /\ byDescriptor (vars seen_both) !! 2 = None /\
  is_watched (host seen_both) 2 = false /\
  is_watched (host (out_state (addTree "/r" 5 "/r" true seen_both))) 2 = false.
Proof. vm_compute. repeat split. Qed.
