(* ===== verification/PayloadSpec.v ===== *)
(** * What a batch uploads

    The scopes of a batch are sorted, do not overlap and cover every changed path that is not
    reserved for the state files; the rules of a scoped sync list every pattern once, one to a
    line; and [Sync] wraps the upload of its scopes, followed down to commands and filter files
    ([batch_run]), into the two updates of the sync state, so that an interrupted batch is
    recovered. *)

From Stdlib Require Import Ascii.
From S2P Require Import Prelude GoString Utf8 GoTime Host HostLogic SyncData StateFile StateFileRoundTrip SyncPath Options Filters SyncState SyncStateSpec Acquire Session SessionSpec CrashRecovery Payload PathTheory MemHost Fixtures.

Local Open Scope Z_scope.

(** ** Collapsing *)
Lemma covered_spec selected p : covered selected p = true <-> exists q, q ∈ selected /\ contains q p.
Proof.
  unfold covered, contains. rewrite orb_true_iff, bool_decide_eq_true, existsb_exists. split.
  - intros [H|(q & Hq & H)]; [by exists p; auto|]. apply bool_decide_eq_true in H. apply list_elem_of_In in Hq. eauto.
  - intros (q & Hq & [->|H]); [by left|right]. exists q. split; [by apply list_elem_of_In|by apply bool_decide_eq_true].
Qed.

Lemma collapse_go_covers selected l p : p ∈ l ->
  exists q, (q ∈ selected \/ q ∈ collapse_go selected l) /\ contains q p.
Proof.
  revert selected. induction l as [|r l IH]; intros selected Hp; [by apply not_elem_of_nil in Hp|].
  cbn [collapse_go]. destruct (covered selected r) eqn:E.
  - apply elem_of_cons in Hp as [->|Hp]; [|by apply IH].
    apply covered_spec in E as (q & Hq & Hc). exists q. auto.
  - apply elem_of_cons in Hp as [->|Hp].
    + exists r. split; [right; by left|by left].
    + destruct (IH ({[r]} ∪ selected) Hp) as (q & [Hq|Hq] & Hc).
      * apply elem_of_union in Hq as [->%elem_of_singleton|Hq]; [exists r|exists q]; (split; [|done]); [right; by left|by left].
      * exists q. split; [right; by right|done].
Qed.

Lemma collapse_go_sublist selected l : sublist (collapse_go selected l) l.
Proof.
  revert selected. induction l as [|p l IH]; intros selected; cbn [collapse_go]; [done|].
  case_goal; by constructor.
Qed.

(** No scope contains another one. *)
Definition disjoint (scopes : list string) : Prop :=
  NoDup scopes /\ forall p q, p ∈ scopes -> q ∈ scopes -> q ∉ parents p.

Lemma collapse_go_disjoint l : Forall (fun p => exists es, path_elems p es) l -> StronglySorted String.le l ->
  forall selected, disjoint (collapse_go selected l) /\
    forall p q, p ∈ collapse_go selected l -> q ∈ selected -> ~ contains q p.
Proof.
  intros Hg Hs. induction Hs as [|r l Hs IH Hr]; intros selected; cbn [collapse_go].
  { split; [split; [constructor|]|]; intros p q Hp; by apply not_elem_of_nil in Hp. }
  inversion Hg as [|? ? [es Hes] Hg']; subst. specialize (IH Hg'). destruct (covered selected r) eqn:E; [apply IH|].
  destruct (IH ({[r]} ∪ selected)) as [[Hnd Hdis] Hsel].
  assert (Hr' : forall p, p ∈ collapse_go ({[r]} ∪ selected) l -> ~ contains r p) by (intros p Hp; apply Hsel; [done|set_solver]).
  split; [split|].
  - constructor; [|done]. intros H. apply (Hr' _ H). by left.
  - intros p q Hp Hq. apply elem_of_cons in Hp as [->|Hp]; apply elem_of_cons in Hq as [->|Hq].
    + intros H. by apply (parents_lt _ _ _ Hes) in H as [_ H].
    + intros H. apply (parents_lt _ _ _ Hes) in H as [Hle Hne]. apply Hne.
      assert (Hq' : q ∈ l) by (eapply elem_of_sublist; [done|apply collapse_go_sublist]).
      rewrite Forall_forall in Hr. specialize (Hr q Hq'). by apply (anti_symm String.le).
    + intros H. apply (Hr' _ Hp). by right.
    + by apply Hdis.
  - intros p q Hp Hq. apply elem_of_cons in Hp as [->|Hp].
    + intros Hc. assert (covered selected r = true) by (apply covered_spec; by exists q). congruence.
    + apply Hsel; [done|set_solver].
Qed.

Lemma collapse_spec l : Forall (fun p => exists es, path_elems p es) l ->
  StronglySorted String.le (collapse l) /\ disjoint (collapse l) /\
  (forall p, p ∈ collapse l -> p ∈ l) /\
  (forall p, p ∈ l -> exists q, q ∈ collapse l /\ contains q p).
Proof.
  intros Hg. unfold collapse. pose proof (merge_sort_Permutation String.le l) as Hperm.
  assert (Hs : StronglySorted String.le (merge_sort String.le l)) by apply (StronglySorted_merge_sort _).
  split_and!.
  - pose proof (collapse_go_sublist ∅ (merge_sort String.le l)) as Hsub.
    generalize dependent (merge_sort String.le l). intros l' _ Hs Hsub. revert Hsub.
    generalize (collapse_go ∅ l'). intros c Hsub. induction Hsub as [|x c l' Hsub IH|x c l' Hsub IH]; [done| |].
    + inversion Hs; subst. constructor; [by apply IH|]. rewrite Forall_forall in *. intros y Hy. eauto using elem_of_sublist.
    + inversion Hs; subst. by apply IH.
  - apply collapse_go_disjoint; [by rewrite Hperm|done].
  - intros p Hp. rewrite <- Hperm. eapply elem_of_sublist; [done|apply collapse_go_sublist].
  - intros p Hp. rewrite <- Hperm in Hp. destruct (collapse_go_covers ∅ _ p Hp) as (q & [Hq|Hq] & Hc); [set_solver|]. by exists q.
Qed.

(** *** The reference: the topmost of the paths, sorted *)
#[export] Instance contains_decision q p : Decision (contains q p).
Proof. unfold contains. apply _. Defined.

(** No other path of [l] contains [p]. *)
Definition topmost (l : list string) (p : string) : Prop := Forall (fun q => contains q p -> q = p) l.
Definition topmost_paths (l : list string) : list string :=
  merge_sort String.le (filter (topmost l) (remove_dups l)).

Lemma elem_of_collapse l p : Forall (fun p => exists es, path_elems p es) l ->
  p ∈ collapse l <-> p ∈ l /\ topmost l p.
Proof.
  intros Hg. destruct (collapse_spec l Hg) as (_ & [_ Hd] & Hsub & Hcov). unfold topmost. rewrite Forall_forall.
  rewrite Forall_forall in Hg. split.
  - intros Hp. split; [by apply Hsub|]. intros q Hq Hqp. destruct (Hcov q Hq) as (r & Hr & Hrq).
    destruct (Hg p (Hsub p Hp)) as [es Hes]. pose proof (contains_trans p es q r Hes Hqp Hrq) as [->|Hrp].
    + destruct Hqp as [->|Hqp]; [done|]. destruct Hrq as [->|Hrq]; [done|].
      destruct (Hg q Hq) as [eq Heq]. apply (parents_lt _ _ _ Hes) in Hqp as [H1 H2]. apply (parents_lt _ _ _ Heq) in Hrq as [H3 _].
      by apply (anti_symm String.le).
    + by apply (Hd p r) in Hrp.
  - intros [Hp Htop]. destruct (Hcov p Hp) as (q & Hq & Hqp). by rewrite <- (Htop q (Hsub q Hq) Hqp).
Qed.

Lemma collapse_topmost l : Forall (fun p => exists es, path_elems p es) l -> collapse l = topmost_paths l.
Proof.
  intros Hg. destruct (collapse_spec l Hg) as (Hs & [Hnd _] & _).
  apply (StronglySorted_unique String.le); [done|apply (StronglySorted_merge_sort _)|].
  unfold topmost_paths. rewrite merge_sort_Permutation. apply NoDup_Permutation; [done|apply NoDup_filter, NoDup_remove_dups|].
  intros p. rewrite elem_of_collapse, list_elem_of_filter, elem_of_remove_dups by done. tauto.
Qed.

(** The order of the paths and their repetitions do not matter. *)
Lemma topmost_paths_set l l' : (forall p, p ∈ l <-> p ∈ l') -> topmost_paths l' = topmost_paths l.
Proof.
  intros Hl. apply (StronglySorted_unique String.le); [apply (StronglySorted_merge_sort _)..|].
  unfold topmost_paths. rewrite !merge_sort_Permutation.
  apply NoDup_Permutation; [apply NoDup_filter, NoDup_remove_dups..|]. intros p.
  rewrite !list_elem_of_filter, !elem_of_remove_dups, Hl. unfold topmost. rewrite !Forall_forall. naive_solver.
Qed.

(** ** From changed paths to scopes *)
Lemma representable_spec p es fuel : path_elems p es -> (length es <= fuel)%nat ->
  let r := representable fuel p in
  valid_utf8 r = true /\ (r = "." \/ (exists es1, path_elems r es1) /\ contains r p).
Proof.
  revert p es. induction fuel as [|fuel IH]; intros p es Hp Hlen; cbn [representable].
  { destruct Hp as (_ & Hn & _). destruct es; [done|simpl in Hlen; lia]. }
  destruct (valid_utf8 p) eqn:E; [split; [done|right; split; [by exists es|by left]]|].
  pose proof Hp as (-> & Hn & Hg). destruct (exists_last Hn) as (es0 & e & ->).
  apply Forall_app in Hg as [Hg0 He]. inversion He; subst. rewrite dir_elems by done.
  rewrite length_app in Hlen. cbn [length] in Hlen. destruct es0 as [|x es0].
  - assert (representable fuel "." = ".") as -> by (by destruct fuel). split; [done|by left].
  - assert (Hq : path_elems (join "/" (x :: es0)) (x :: es0)) by done.
    destruct (IH _ _ Hq ltac:(lia)) as (Hv & [Hr|(Hr & Hc)]); split; [done|by left|done|right]. split; [done|].
    eapply contains_trans; [exact Hp| |done]. right. apply (parents_elems _ _ _ Hp).
    by exists (x :: es0), [e].
Qed.

Section Scopes.
Context {W : Type} `{!Host W}.
Variable s : syncer.

Lemma quiet_lstat p a : quiet [Event (Lstat p) a].
Proof. done. Qed.
#[local] Hint Resolve quiet_lstat : acts.

Lemma promote_wp relative ancestors (Q : post (W := W) string) x :
  (forall r t, quiet t -> r = relative \/ r ∈ ancestors -> forallW Q (Ok r) (vars x) t) ->
  (forall e t, ordinary e -> quiet t -> forallW Q (Err e) (vars x) t) ->
  wp (promote s relative ancestors) Q x.
Proof.
  revert relative Q x. induction ancestors as [|p l IH]; intros relative Q [w v] H1 H2; cbn [promote].
  { apply wp_ret, H1; auto with acts. }
  assert (Hrec : forall t (w1 : W), quiet t ->
    wp (promote s p l) (fun r s' t' => Q r s' (t ++ t')) (St w1 v)).
  { intros t w1 Ht. apply IH; cbn [vars]; intros; intros w2; [apply H1|apply H2]; auto with acts.
    match goal with H : _ \/ _ |- _ => destruct H as [->|H] end; right; [by left|by right]. }
  apply wp_bind, wp_sys. intros [[|]|e] w1; cbn [after vars].
  - apply wp_ret, H1; auto 8 with acts.
  - apply Hrec. auto with acts.
  - destruct (_ || _); [apply Hrec; auto with acts|]. apply wp_throw, H2; auto 8 with acts go.
Qed.

(** Every changed path lies in a scope, or its scope is reserved for the state files. *)
Definition accounted (scopes : list string) (p : string) : Prop :=
  exists r, contains r p /\ (is_protected s r = true \/ exists q, q ∈ scopes /\ contains q r /\ contains q p).

Definition normalized_post (paths : list string) (n : option (list string)) : Prop :=
  match n with
  | None => True
  | Some l =>
      Forall (fun r => exists es, path_elems r es) l /\
      Forall (fun r => valid_utf8 r = true \/ exists r', valid_utf8 r' = true /\ contains r r') l /\
      forall p, p ∈ paths -> (exists es, path_elems p es) /\
        exists r, contains r p /\ (is_protected s r = true \/ r ∈ l)
  end.

Lemma normalize_wp paths (Q : post (W := W) (option (list string))) x :
  (forall n t, quiet t -> normalized_post paths n -> forallW Q (Ok n) (vars x) t) ->
  (forall e t, ordinary e -> quiet t -> forallW Q (Err e) (vars x) t) ->
  wp (normalize s paths) Q x.
Proof.
  revert Q x. induction paths as [|p paths IH]; intros Q [w v] H1 H2; cbn [normalize].
  { apply wp_ret, H1; [auto with acts|]. split_and!; [constructor..|]. intros p Hp. by apply not_elem_of_nil in Hp. }
  destruct (p =? ".")%string eqn:Edot; [apply wp_ret, H1; auto with acts; done|].
  apply wp_bind, wp_fail_if; intros Hv; cbn [after]; [apply H2; auto with go acts|].
  reflect_bools. destruct (valid_change_elems p) as [es Hes]; [done..|].
  destruct (representable_spec p es (String.length p) Hes (length_elems _ _ Hes)) as [Hutf Hrep]. revert Hutf Hrep.
  generalize (representable (String.length p) p). intros r Hutf Hrep.
  destruct (r =? ".")%string eqn:Er; [apply wp_ret, H1; auto with acts; done|]. reflect_bools.
  destruct Hrep as [?|([es1 Hr] & Hrp)]; [done|].
  apply wp_bind, promote_wp; [intros r' t Ht Hr' w1|intros e t He Ht w1]; cbn [after vars]; [|by apply H2].
  assert (Hr'r : contains r' r) by done.
  assert (Hr'e : exists es', path_elems r' es').
  { destruct Hr' as [->|Hr']; [by exists es1|]. destruct (parents_good _ _ _ Hr Hr') as (es' & ? & _). by exists es'. }
  apply wp_bind, IH; [intros n t2 Ht2 Hn w2|intros e t2 He Ht2 w2]; cbn [after vars].
  2: { apply H2; auto with acts. }
  apply wp_ret, H1; [auto 8 with acts|].
  destruct n as [l|]; [|done]. destruct Hn as (Hl & Hl2 & Hcov).
  assert (Hcov' : forall l', l ⊆ l' -> (is_protected s r' = true \/ r' ∈ l') ->
    forall q, q ∈ p :: paths -> (exists es, path_elems q es) /\ exists r, contains r q /\ (is_protected s r = true \/ r ∈ l')).
  { intros l' Hsub Hin q [->|Hq]%elem_of_cons.
    - split; [by exists es|]. exists r'. split; [by eapply contains_trans|done].
    - destruct (Hcov q Hq) as (He & rq & Hrq & [Hp|Hp]); (split; [done|]); exists rq; auto. }
  destruct (is_protected s r') eqn:Ep; split_and!; [done|done|by apply Hcov'; [|left]|by constructor| |].
  - constructor; [|done]. right. by exists r.
  - apply Hcov'; [set_solver|]. right. by left.
Qed.

Definition scopes_post (paths scopes : list string) : Prop :=
  scopes = ["."] \/
  StronglySorted String.le scopes /\ disjoint scopes /\
  Forall (fun p => exists es, path_elems p es) scopes /\ forall p, p ∈ paths -> accounted scopes p.

Lemma reconciliationScopes_wp paths (Q : post (W := W) (list string)) x :
  (forall l t, quiet t -> scopes_post paths l -> forallW Q (Ok l) (vars x) t) ->
  (forall e t, ordinary e -> quiet t -> forallW Q (Err e) (vars x) t) ->
  wp (reconciliationScopes s paths) Q x.
Proof.
  intros H1 H2. unfold reconciliationScopes.
  apply wp_bind, normalize_wp; [intros n t Ht Hn w|intros e t He Ht w]; cbn [after]; [|by apply H2].
  apply wp_ret, H1; [rewrite app_nil_r; done|]. destruct n as [l|]; [|by left]. right.
  destruct Hn as (Hl & _ & Hcov). destruct (collapse_spec l Hl) as (Hs & Hd & Hsub & Hc). split_and!; [done|done| |].
  - rewrite Forall_forall in *. auto.
  - intros p Hp. destruct (Hcov p Hp) as ([es Hes] & r & Hr & [Hpr|Hrl]); exists r; (split; [done|]); [by left|right].
    destruct (Hc r Hrl) as (q & Hq & Hqr). exists q. split_and!; [done..|]. by eapply contains_trans.
Qed.
End Scopes.

(** ** The upload of a batch *)

(** Payload commands only; the variables stay as they are. *)
Definition c_upload : contract syncVars := fun v r v' l =>
  v' = v /\ r <> OutOfFuel /\ Forall (fun a => exists args, a = Transfer args) l.

Lemma transfers_nothing k l k' : Forall (fun a => exists args, a = Transfer args) l -> performs_all k l k' -> k' = k.
Proof.
  intros Hl H. induction H as [|k a k1 l k2 Ha H IH]; [done|]. inversion Hl as [|? ? [args ->] Hl']; subst.
  inversion Ha; subst. by apply IH.
Qed.

Lemma c_upload_only : only_transfers c_upload.
Proof.
  intros v r v' l k k' (-> & _ & Hl) (l1 & l2 & -> & H). split; [done|]. apply Forall_app in Hl as [Hl _].
  by eapply transfers_nothing.
Qed.

Section Upload.
Context {W : Type} `{!Host W}.
Variable s : syncer.

(** [m] transfers payload and nothing else. *)
Definition is_transfer (a : action) : Prop := exists args, a = Transfer args.
Definition uploads {A} (m : M W syncVars A) : Prop := forall x,
  res (m x) <> OutOfFuel /\ vars (out_state (m x)) = vars x /\
  exists l, acts (trace (m x)) l /\ Forall is_transfer l.

Lemma uploads_ret {A} (a : A) : uploads (ret a).
Proof. intros x. split; [done|]. split; [done|]. exists []. by split; [apply acts_nil|]. Qed.
Lemma uploads_throw {A} e : uploads (A := A) (throw e).
Proof. intros x. split; [done|]. split; [done|]. exists []. by split; [apply acts_nil|]. Qed.
Lemma uploads_bind {A B} (m : M W syncVars A) (f : A -> M W syncVars B) :
  uploads m -> (forall a, uploads (f a)) -> uploads (m ≫= f).
Proof.
  intros Hm Hf x. destruct (Hm x) as (Hr & Hv & l & Hl & HF). unfold mbind, M_bind, bind.
  destruct (res (m x)) as [a|e|] eqn:E; cbn [res out_state trace]; [|by eauto 10|done].
  destruct (Hf a (out_state (m x))) as (Hr' & Hv' & l' & Hl' & HF'). split; [done|]. split; [congruence|].
  exists (l ++ l'). split; [by apply acts_app|by apply Forall_app].
Qed.
Lemma uploads_wrap {A} msg (m : M W syncVars A) : uploads m -> uploads (wrap msg m).
Proof.
  intros Hm x. destruct (Hm x) as (Hr & Hv & l & Hl & HF). unfold wrap.
  destruct (res (m x)) eqn:E; simpl; rewrite ?E; eauto 10.
Qed.
Lemma uploads_finally {A} (m : M W syncVars A) c : uploads m -> uploads c -> uploads (finally m c).
Proof.
  intros Hm Hc x. destruct (Hm x) as (Hr & Hv & l & Hl & HF).
  destruct (Hc (out_state (m x))) as (_ & Hv' & l' & Hl' & HF'). cbn [finally res out_state trace].
  split; [done|]. split; [congruence|]. exists (l ++ l'). split; [by apply acts_app|by apply Forall_app].
Qed.
Lemma uploads_sys {A} (o : op A) : quiet_op o -> uploads (sys o).
Proof.
  intros Ho x. unfold sys. destruct (host_step o (host x)) as [a w]. cbn [res out_state trace].
  split; [done|]. split; [done|]. exists []. split; [apply Ho|done].
Qed.

Lemma quiet_lstat_op p : quiet_op (Lstat p). Proof. done. Qed.
Lemma quiet_temp_op d p : quiet_op (CreateTemp d p). Proof. done. Qed.
Lemma quiet_write_op n c : quiet_op (WriteFile n c). Proof. done. Qed.
Lemma quiet_close_op n : quiet_op (CloseFile n). Proof. done. Qed.
Lemma quiet_remove_op n : quiet_op (Remove n). Proof. done. Qed.

Lemma syncer_run_uploads args : transfer (with_flag args) -> uploads (syncer_run s args).
Proof.
  intros Ht. unfold syncer_run. apply uploads_bind.
  - intros x. unfold runner_Run, mbind, M_bind, bind, get. cbn.
    destruct (runner_cancelled (vars x) && _); cbn; [split; [done|]; split; [done|]; exists []; by split; [apply acts_nil|]|].
    unfold sys. destruct (host_step (Rclone (args ++ ["--s3-no-check-bucket"])) (host x)) as [out w]. cbn.
    split; [done|]. split; [done|]. exists [Transfer (with_flag args)]. split; [by apply acts_transfer|].
    repeat constructor. by eexists.
  - intros out. destruct (cmd_err out); [destruct (sy_logs s); apply uploads_throw|apply uploads_ret].
Qed.
End Upload.

Create HintDb uploads discriminated.
#[export] Hint Resolve uploads_ret uploads_throw uploads_sys quiet_lstat_op quiet_temp_op quiet_write_op quiet_close_op
  quiet_remove_op : uploads.

Ltac uploads_steps :=
  repeat first
    [ solve [auto with uploads]
    | lazymatch goal with
      | |- uploads (mbind _ _) => apply uploads_bind; [|intros ?]
      | |- uploads (wrap _ _) => apply uploads_wrap
      | |- uploads (finally _ _) => apply uploads_finally
      | |- uploads (match ?x with _ => _ end) => destruct x
      | |- uploads (let '(_, _) := ?x in _) => destruct x
      end ].

Section Batch.
Context {W : Type} `{!Host W}.
Variable s : syncer.

Lemma classify_uploads scopes : uploads (W := W) (classify s scopes).
Proof. induction scopes as [|p l IH]; cbn [classify]; uploads_steps. Qed.

Lemma syncScopeGroup_uploads scopes b : uploads (W := W) (syncScopeGroup s scopes b).
Proof. unfold syncScopeGroup, check, obtain. uploads_steps. apply syncer_run_uploads. apply transfer_sync. Qed.

Lemma upload_uploads scopes : uploads (W := W) (upload s scopes).
Proof.
  assert (Hfull : uploads (W := W) (fullSync s)) by (apply uploads_wrap, syncer_run_uploads, transfer_sync).
  unfold upload, syncScopes. destruct scopes as [|p l]; [apply uploads_ret|]. destruct (p =? ".")%string; [done|].
  apply uploads_bind; [apply classify_uploads|]. intros [e d].
  apply uploads_bind; [|intros _]; case_goal; auto using syncScopeGroup_uploads with uploads.
Qed.

Lemma uploads_satisfies (m : M W syncVars unit) : uploads m -> satisfies m c_upload.
Proof. intros Hm x. destruct (Hm x) as (Hr & Hv & l & Hl & HF). by exists l. Qed.

(** A batch either ends before it changes anything, or is the two updates around an upload. *)
Definition c_sync (st : syncState) : contract syncVars := fun v r v' l =>
  (v' = v /\ l = [] /\ r <> OutOfFuel) \/
  c_seq (c_wrap "advance generation" (c_before st)) (c_seq c_upload (c_after st)) v r v' l.

Lemma Sync_satisfies st b : sy_state s = Some st -> satisfies (W := W) (Sync s b) (c_sync st).
Proof.
  intros Hst. apply wp_satisfies. intros x. unfold Sync.
  assert (Hnone : forall r w t, r <> OutOfFuel -> quiet t ->
    exists l, acts t l /\ c_sync st (vars x) r (vars (St (W := W) w (vars x))) l).
  { intros r w t Hr Ht. exists []. split; [done|]. by left. }
  destruct b as [|p b]; [destruct x; by apply wp_ret, Hnone; [|apply acts_nil]|].
  apply wp_bind, reconciliationScopes_wp; [intros scopes t Ht _ w|intros e t He Ht w]; cbn [after]; [|by apply Hnone].
  case_goal; [apply wp_ret, Hnone; [done|]; by rewrite app_nil_r|]. rewrite Hst.
  eapply satisfies_wp.
  - apply satisfies_seq; [apply satisfies_wrap, BeforeRemoteChange_satisfies| |].
    + apply satisfies_seq; [apply uploads_satisfies, upload_uploads|apply AfterRemoteChange_satisfies|].
      by intros v v' l (_ & H & _).
    + intros v v' l. apply c_wrap_not_fuel, c_before_not_fuel.
  - intros r w' v l t' HC Hl. exists l. split; [by apply quiet_app_l|]. by right.
Qed.

Lemma seq_unwrap msg (C1 C2 : contract syncVars) v r v' l : c_seq (c_wrap msg C1) C2 v r v' l ->
  exists r', c_seq C1 C2 v r' v' l /\ (r = Ok tt -> r' = Ok tt).
Proof.
  intros [(e & -> & H)|(v1 & l1 & l2 & H1 & H2 & ->)].
  - destruct e; simpl in H; try done. destruct H as [_ H]. exists (Err e). split; [left; by exists e|done].
  - exists r. split; [|done]. right. by exists v1, l1, l2.
Qed.

Lemma c_sync_batch st v r v' l : c_sync st v r v' l ->
  (v' = v /\ l = []) \/ exists r', c_batch st c_upload v r' v' l /\ (r = Ok tt -> r' = Ok tt).
Proof. intros [(-> & -> & _)|H]; [by left|right]. by eapply seq_unwrap. Qed.
End Batch.

(** ** The rules of a scoped sync *)
Lemma include_all_spec written patterns p :
  p ∈ include_all written patterns <-> p ∈ patterns /\ p ∉ written.
Proof.
  revert written. induction patterns as [|q l IH]; intros written; cbn [include_all].
  { split; [by intros ?%not_elem_of_nil|by intros [?%not_elem_of_nil _]]. }
  destruct (bool_decide (q ∈ written)) eqn:E; reflect_bools; rewrite ?elem_of_cons, IH; [set_solver|].
  destruct (decide (p = q)); set_solver.
Qed.

Lemma include_all_NoDup written patterns : NoDup (include_all written patterns).
Proof.
  revert written. induction patterns as [|q l IH]; intros written; cbn [include_all]; [constructor|].
  case_goal; [done|]. constructor; [|done]. rewrite include_all_spec. set_solver.
Qed.

Lemma scope_rules_spec scopes b p :
  p ∈ scope_rules scopes b <-> exists q, q ∈ scopes /\
    (p = scopeFilterPath q \/ p = scopeFilterPath q +:+ "/**" \/ b = true /\ exists a, a ∈ parents q /\ p = scopeFilterPath a).
Proof.
  unfold scope_rules. rewrite include_all_spec, list_elem_of_bind. unfold scope_patterns. split.
  - intros [(q & Hp & Hq) _]. exists q. split; [done|]. rewrite elem_of_app in Hp. destruct Hp as [Hp|Hp]; [set_solver|].
    destruct b; [|set_solver]. apply list_elem_of_fmap in Hp as (a & -> & Ha). eauto 10.
  - intros (q & Hq & Hp). split; [|set_solver]. exists q. split; [|done]. rewrite elem_of_app.
    destruct Hp as [->|[->|(-> & a & Ha & ->)]]; [set_solver..|]. right. apply list_elem_of_fmap. eauto.
Qed.

(** No byte of a pattern ends a line. *)
Definition not_newline (c : ascii) : bool := negb (code c =? 10).

Lemma hex_low_not_newline n : 0 <= n <= 15 -> not_newline (hex_low n) = true.
Proof. intros H. unfold not_newline, hex_low. case_goal; reflect_bools; rewrite code_chr by lia; lia. Qed.

Lemma scope_rune_line c : scalar c -> str_forallb not_newline (scope_rune c) = true.
Proof.
  intros Hs. unfold scope_rune.
  assert (Hhigh : forall b, 128 <= code b -> not_newline b = true) by (intros b Hb; unfold not_newline; lia).
  destruct ((c <? 128) && _) eqn:E.
  - reflect_bools. destruct Hs as [Hs _]. cbn [str_forallb String.append str1].
    rewrite !hex_low_not_newline by divmod. done.
  - destruct (is_space c) eqn:Es.
    + rewrite !str_forallb_app. rewrite encode_forallb; [done|done| |done]. intros Hc.
      replace (c <? 128) with true in E by lia. done.
    + apply encode_forallb; [done| |done]. intros Hc. unfold not_newline. destruct Hs as [Hs _]. rewrite code_chr by lia.
      apply negb_true_iff, Z.eqb_neq. intros ->. done.
Qed.

Lemma concat_forallb f l : Forall (fun s => str_forallb f s = true) l -> str_forallb f (concat_str l) = true.
Proof. induction 1 as [|s l Hs Hl IH]; [done|]. cbn [concat_str]. by rewrite str_forallb_app, Hs, IH. Qed.

Lemma scopeFilterPath_line p : str_forallb not_newline (scopeFilterPath p) = true.
Proof.
  unfold scopeFilterPath. apply concat_forallb, Forall_fmap. eapply Forall_impl; [apply runes_scalar|].
  intros r Hr. by apply scope_rune_line.
Qed.

Lemma not_newline_contains s : str_forallb not_newline s = true -> contains_byte newline s = false.
Proof.
  induction s as [|c s IH]; [done|]. cbn [str_forallb contains_byte]. intros [Hc Hs]%andb_true_iff.
  rewrite IH by done. rewrite orb_false_r. apply Ascii.eqb_neq. intros <-. done.
Qed.

Lemma scope_rules_line scopes b p : p ∈ scope_rules scopes b -> str_forallb not_newline p = true.
Proof.
  rewrite scope_rules_spec. intros (q & _ & [->|[->|(_ & a & _ & ->)]]); rewrite ?str_forallb_app; by rewrite scopeFilterPath_line.
Qed.

(** The lines of a filter file are its rules. *)
Lemma scope_file_lines scopes b :
  split_on newline (scope_file scopes b) = ((fun p => "+ /" +:+ p) <$> scope_rules scopes b) ++ ["- /**"; ""].
Proof.
  unfold scope_file.
  assert (Hl : Forall (fun p => str_forallb not_newline p = true) (scope_rules scopes b)).
  { apply Forall_forall. intros p. apply scope_rules_line. }
  induction Hl as [|p l Hp Hl IH]; [done|]. cbn [fmap list_fmap concat_str]. unfold rule at 1.
  rewrite !str_app_assoc.
  assert (Hs : forall rest, split_on newline ("+ /" +:+ p +:+ nl +:+ rest) = ("+ /" +:+ p) :: split_on newline rest).
  { intros rest. rewrite <- (str_app_assoc "+ /" p). change (nl +:+ rest) with (String newline rest). apply split_on_app.
    apply not_newline_contains. by rewrite str_forallb_app, Hp. }
  rewrite Hs. by rewrite IH.
Qed.

(** ** What a batch runs

    The trace of a batch, from the answers of the file system to the commands. *)
Section Run.
Variable s : syncer.

Definition run_spec : Type := syncVars -> result error unit -> syncVars -> list event -> Prop.

(** [R2] after [R1], if that succeeds. *)
Definition run_seq (R1 R2 : run_spec) : run_spec := fun v r v' t =>
  (exists e, r = Err e /\ R1 v (Err e) v' t) \/
  (exists v1 t1 t2, R1 v (Ok tt) v1 t1 /\ R2 v1 r v' t2 /\ t = t1 ++ t2).
Definition run_contract (C : contract syncVars) : run_spec := fun v r v' t => exists l, acts t l /\ C v r v' l.
Definition run_skip : run_spec := fun v r v' t => r = Ok tt /\ v' = v /\ t = [].

Definition sync_command : list string :=
  payloadSyncArgs (sy_source s) (sy_dest s)
    (match sy_state s with Some st => payloadFilters (paths st) | None => [] end) (sy_excludes s).

(** The runner has been cancelled: its commands do not start. *)
Definition runner_stopped (v : syncVars) : Prop := runner_cancelled v = true /\ on_releaseRunner v = false.

(** The whole tree: one command, and success only if it succeeds. *)
Definition full_run : run_spec := fun v r v' t =>
  v' = v /\
  match r with
  | Ok _ => exists out, cmd_err out = None /\ t = [Event (Rclone (with_flag sync_command)) out]
  | Err e => ordinary e /\
      (runner_stopped v /\ t = [] \/
       exists out, cmd_err out <> None /\ t = [Event (Rclone (with_flag sync_command)) out])
  | OutOfFuel => False
  end.

(** A filter file that includes the scopes, their contents and, where directories are created,
    their ancestors, each once, and excludes everything else. *)
Definition lists_scopes (contents : string) (scopes : list string) (createDirectories : bool) : Prop :=
  exists patterns, split_on newline contents = ((fun p => "+ /" +:+ p) <$> patterns) ++ ["- /**"; ""] /\
    NoDup patterns /\
    forall p, p ∈ patterns <-> exists q, q ∈ scopes /\
      (p = scopeFilterPath q \/ p = scopeFilterPath q +:+ "/**" \/
       createDirectories = true /\ exists a, a ∈ parents q /\ p = scopeFilterPath a).

(** The commands of a group of scopes with the answer [out] of the transfer. *)
Definition group_events (scopes : list string) (createDirectories : bool) (out : cmd_output) (t : list event) : Prop :=
  exists file contents closed, lists_scopes contents scopes createDirectories /\
    t = [Event (CreateTemp "" "rclonewatch-scopes-*") (inl file); Event (WriteFile file contents) None;
         Event (CloseFile file) None;
         Event (Rclone (with_flag (sync_command ++
           (if createDirectories then [] else ["--create-empty-src-dirs=false"]) ++ ["--filter-from"; file]))) out;
         Event (CloseFile file) closed; Event (Remove file) tt].

(** The file system refused the filter file. *)
Definition refused (e : event) : Prop :=
  match ev_op e in op A return A -> Prop with
  | CreateTemp _ _ => fun a => exists err, a = inr err
  | WriteFile _ _ | CloseFile _ => fun a => a <> None
  | _ => fun _ => False
  end (ev_answer e).

Definition group_run (scopes : list string) (createDirectories : bool) : run_spec := fun v r v' t =>
  v' = v /\
  match r with
  | Ok _ => exists out, cmd_err out = None /\ group_events scopes createDirectories out t
  | Err e => ordinary e /\
      (quiet t /\ (runner_stopped v \/ exists ev, ev ∈ t /\ refused ev) \/
       exists out, cmd_err out <> None /\ group_events scopes createDirectories out t)
  | OutOfFuel => False
  end.

(** The answers about the scopes, in their order, and what they say. *)
Definition inspections (scopes : list string) (answers : list (bool + sys_error)) : list event :=
  zip_with (fun p a => Event (Lstat (path_join [sy_source s; p])) a) scopes answers.
Definition gone (a : bool + sys_error) : bool := match a with inr NotExist | inr NotDir => true | _ => false end.
Definition conclusive (a : bool + sys_error) : Prop := match a with inl _ => True | inr e => e = NotExist \/ e = NotDir end.
Definition having (b : bool) (scopes : list string) (answers : list (bool + sys_error)) : list string :=
  fst <$> filter (fun pa => gone (snd pa) = b) (zip scopes answers).

(** Deleted scopes first, without creating directories, then those that exist. *)
Definition scopes_run (scopes : list string) : run_spec := fun v r v' t =>
  exists answers t', t = inspections scopes answers ++ t' /\
  ((Forall conclusive answers /\ length answers = length scopes /\
    run_seq (if bool_decide (having true scopes answers = []) then run_skip
             else group_run (having true scopes answers) false)
            (if bool_decide (having false scopes answers = []) then run_skip
             else group_run (having false scopes answers) true) v r v' t') \/
   (v' = v /\ t' = [] /\ exists before e, answers = before ++ [inr e] /\
      Forall conclusive before /\ (length before < length scopes)%nat /\ ~ conclusive (inr e) /\ r = Err (Wrapf "inspect changed path" (ErrSys e)))).

Definition upload_run (scopes : list string) : run_spec :=
  if bool_decide (scopes = ["."]) then fun v r v' t => exists r', full_run v r' v' t /\
    r = match r' with Err e => Err (Wrapf "full sync" e) | _ => r' end
  else scopes_run scopes.

(** The two updates of the sync state around an upload, where there is a sync state. *)
Definition updates_around (R : run_spec) : run_spec :=
  match sy_state s with
  | Some st => run_seq (run_contract (c_wrap "advance generation" (c_before st)))
                 (run_seq R (run_contract (c_after st)))
  | None => R
  end.

(** Looking at the tree fails for a path that no watcher sends, or when the file system does not
    say whether a directory is there. *)
Definition lookup_failed (paths : list string) (t : list event) : Prop :=
  (exists p, p ∈ paths /\ valid_change p = false) \/
  exists q e, Event (Lstat q) (inr e) ∈ t /\ ~ conclusive (inr e).

(** A batch first looks at the tree, changing nothing; then it is over because that failed or
    because every change is reserved for the state files, or it uploads its scopes. *)
Definition batch_run (b : batch) : run_spec := fun v r v' t =>
  exists t0 t1, t = t0 ++ t1 /\ quiet t0 /\
  ((v' = v /\ t1 = [] /\
    ((exists e, r = Err e /\ ordinary e /\ lookup_failed (unprotected s b) t0) \/ r = Ok tt /\ scopes_post s (unprotected s b) [])) \/
   exists scopes, scopes <> [] /\ scopes_post s (unprotected s b) scopes /\
     updates_around (upload_run scopes) v r v' t1).
End Run.

Section RunSpec.
Context {W : Type} `{!Host W}.
Variable s : syncer.

Definition follows (m : M W syncVars unit) (R : run_spec) : Prop :=
  forall x, wp m (fun r x' t => R (vars x) r (vars x') t) x.

Lemma follows_contract m C : satisfies m C -> follows m (run_contract C).
Proof. intros Hm x. destruct (Hm x) as (l & Hl & HC). by exists l. Qed.

Lemma follows_seq m1 m2 R1 R2 : follows m1 R1 -> follows m2 R2 -> (forall v v' t, ~ R1 v OutOfFuel v' t) ->
  follows (m1 ≫= fun _ => m2) (run_seq R1 R2).
Proof.
  intros H1 H2 Hf x. apply wp_bind. eapply wp_mono; [apply H1|]. intros [[]|e|] x1 t1 HR; cbn [after].
  - eapply wp_mono; [apply H2|]. intros r x2 t2 HR2. right. by exists (vars x1), t1, t2.
  - left. by exists e.
  - by apply Hf in HR.
Qed.

Lemma follows_if (b : bool) m1 m2 R1 R2 : follows m1 R1 -> follows m2 R2 ->
  follows (if b then m1 else m2) (if b then R1 else R2).
Proof. by destruct b. Qed.

Lemma follows_skip : follows (ret tt) run_skip.
Proof. intros x. by apply wp_ret. Qed.

Lemma syncer_run_wp args (Q : post (W := W) unit) x :
  (forall out, cmd_err out = None -> forallW Q (Ok tt) (vars x) [Event (Rclone (with_flag args)) out]) ->
  (forall out e, cmd_err out <> None -> ordinary e -> forallW Q (Err e) (vars x) [Event (Rclone (with_flag args)) out]) ->
  (forall e, ordinary e -> runner_stopped (vars x) -> forallW Q (Err e) (vars x) []) ->
  wp (syncer_run s args) Q x.
Proof.
  intros H1 H2 H3. destruct x as [w0 v0]. unfold syncer_run, runner_Run. apply wp_bind, wp_bind, wp_get. cbn [after vars].
  destruct (runner_cancelled v0 && negb (on_releaseRunner v0)) eqn:Es.
  - apply wp_ret. cbn [after cmd_err]. reflect_bools. destruct (sy_logs s); apply wp_throw, H3; auto with go; by split.
  - apply wp_sys. intros out w. cbn [after]. destruct (cmd_err out) as [e|] eqn:E.
    + destruct (sy_logs s); apply wp_throw, H2; first [by rewrite E|auto with go].
    + by apply wp_ret, H1.
Qed.

Lemma fullSync_follows : follows (fullSync s) (fun v r v' t => exists r', full_run s v r' v' t /\
  r = match r' with Err e => Err (Wrapf "full sync" e) | _ => r' end).
Proof.
  intros x. unfold fullSync. apply wp_wrap, syncer_run_wp.
  - intros out Ho w. exists (Ok tt). split; [|done]. split; [done|]. by exists out.
  - intros out e Ho He w. exists (Err e). split; [|done]. split; [done|]. split; [done|]. right. by exists out.
  - intros e He Hs w. exists (Err e). split; [|done]. split; [done|]. split; [done|by left].
Qed.

Lemma scope_file_lists scopes b : lists_scopes (scope_file scopes b) scopes b.
Proof.
  exists (scope_rules scopes b). split; [apply scope_file_lines|]. split; [apply include_all_NoDup|].
  intros p. apply scope_rules_spec.
Qed.

Lemma syncScopeGroup_follows scopes b : follows (syncScopeGroup s scopes b) (group_run s scopes b).
Proof.
  intros [w v]. unfold syncScopeGroup.
  assert (Hfail : forall e t ev, ordinary e -> quiet t -> ev ∈ t -> refused ev -> group_run s scopes b v (Err e) v t).
  { intros e t ev He Ht Hin Hev. split; [done|]. split; [done|]. left. split; [done|]. right. by exists ev. }
  apply wp_bind, wp_obtain; [intros file w1|intros e w1]; cbn [after vars].
  2: { eapply Hfail; [done|by intros f|by left|by eexists]. }
  apply wp_finally, wp_finally, wp_bind, wp_check; [intros w2|intros e w2]; cbn [after vars].
  2: { wp_run. eapply Hfail; [done|by intros f|right; by left|done]. }
  apply wp_bind, wp_check; [intros w3|intros e w3]; cbn [after vars].
  2: { wp_run. eapply Hfail; [done|by intros f|right; right; by left|done]. }
  apply wp_wrap, syncer_run_wp; cbn [vars].
  - intros out Ho w4. wp_run. destruct a0. split; [done|]. exists out. split; [done|].
    exists file, (scope_file scopes b), a. split; [apply scope_file_lists|done].
  - intros out e Ho He w4. wp_run. destruct a0. split; [done|]. split; [done|]. right. exists out. split; [done|].
    exists file, (scope_file scopes b), a. split; [apply scope_file_lists|done].
  - intros e He Hs w4. wp_run. split; [done|]. split; [done|]. left. split; [by intros f|by left].
Qed.

Lemma classify_wp scopes (Q : post (W := W) (list string * list string)) x :
  (forall answers, Forall conclusive answers -> length answers = length scopes ->
     forallW Q (Ok (having false scopes answers, having true scopes answers)) (vars x) (inspections s scopes answers)) ->
  (forall before e, Forall conclusive before -> (length before < length scopes)%nat -> ~ conclusive (inr e) ->
     forallW Q (Err (Wrapf "inspect changed path" (ErrSys e))) (vars x) (inspections s scopes (before ++ [inr e]))) ->
  wp (classify s scopes) Q x.
Proof.
  revert Q x. induction scopes as [|p scopes IH]; intros Q [w v] H1 H2; cbn [classify].
  { apply wp_ret. by apply (H1 []). }
  apply wp_bind, wp_sys. intros info w1. cbn [after vars].
  assert (Hnext : conclusive info -> forall w2 t0, t0 = [Event (Lstat (path_join [sy_source s; p])) info] ->
    wp ('(existing, deleted) ← classify s scopes;
        ret (if gone info then (existing, p :: deleted) else (p :: existing, deleted)))
      (fun r x' t => Q r x' (t0 ++ t)) (St w2 v)).
  { intros Hc w2 t0 ->. apply wp_bind, IH.
    - intros answers Ha Hlen w3. cbn [after]. apply wp_ret. rewrite app_nil_r.
      specialize (H1 (info :: answers) ltac:(by constructor) ltac:(cbn; lia) w3). unfold having in H1. cbn [zip zip_with] in H1.
      rewrite !filter_cons in H1. cbn [snd fst] in H1.
      by destruct (gone info).
    - intros before e Hb Hlen He w3. refine (H2 (info :: before) e _ _ He w3); [by constructor|cbn; lia]. }
  assert (Hlast : forall e w2, ~ conclusive (inr e) -> Q (Err (Wrapf "inspect changed path" (ErrSys e))) (St w2 v)
      [Event (Lstat (path_join [sy_source s; p])) (inr e)]).
  { intros e w2 He. specialize (H2 [] e ltac:(constructor) ltac:(cbn; lia) He w2). unfold inspections in H2. cbn in H2. by destruct scopes. }
  destruct info as [d|e].
  { apply wp_bind, wp_ret. cbn [after]. eapply wp_mono; [by apply (Hnext I w1)|]. done. }
  destruct e; apply wp_bind; cbn [is_not_exist is_not_dir orb]; first
    [ apply wp_throw; cbn [after]; apply Hlast; by intros [?|?]
    | apply wp_ret; cbn [after]; eapply wp_mono; [by apply (Hnext ltac:(by (left + right)) w1)|done] ].
Qed.

Lemma syncScopes_follows scopes : follows (syncScopes s scopes) (scopes_run s scopes).
Proof.
  intros x. unfold syncScopes. apply wp_bind, classify_wp; cbn [after].
  - intros answers Ha Hlen w. eapply wp_mono.
    + apply (follows_seq _ _
        (if bool_decide (having true scopes answers = []) then run_skip else group_run s (having true scopes answers) false)
        (if bool_decide (having false scopes answers = []) then run_skip else group_run s (having false scopes answers) true)).
      * apply follows_if; [apply follows_skip|apply syncScopeGroup_follows].
      * apply follows_if; [apply follows_skip|apply syncScopeGroup_follows].
      * intros v v' t. case_bool_decide; [by intros [? _]|by intros [_ ?]].
    + intros r x' t HR. exists answers, t. split; [done|]. left. by split_and!.
  - intros before e Hb Hlen He w. exists (before ++ [inr e]), []. rewrite app_nil_r. split; [done|]. right.
    split; [done|]. split; [done|]. by exists before, e.
Qed.

Lemma upload_follows scopes : scopes <> [] -> scopes = ["."] \/ "."%stdpp ∉ scopes ->
  follows (upload s scopes) (upload_run s scopes).
Proof.
  intros Hne Hdot. unfold upload, upload_run. destruct scopes as [|p l]; [done|].
  destruct Hdot as [Heq|Hdot].
  - injection Heq as -> ->. rewrite bool_decide_true by done. apply fullSync_follows.
  - rewrite bool_decide_false by (intros [= -> ->]; set_solver).
    destruct (p =? ".")%string eqn:E; [|apply syncScopes_follows]. exfalso. reflect_bools. subst. set_solver.
Qed.

Lemma scopes_post_dot ps scopes : scopes_post s ps scopes -> scopes = ["."] \/ "."%stdpp ∉ scopes.
Proof.
  intros [H|(_ & _ & Hg & _)]; [by left|right]. rewrite Forall_forall in Hg. intros Hin.
  destruct (Hg _ Hin) as [es Hes]. apply good_head in Hes. naive_solver.
Qed.

Lemma scopes_run_not_fuel scopes v v' t : ~ upload_run s scopes v OutOfFuel v' t.
Proof.
  unfold upload_run. case_bool_decide.
  - intros ([| |] & [_ H1] & H2); done.
  - intros (answers & t' & _ & [(_ & _ & [(e & ? & _)|(v1 & t1 & t2 & _ & H2 & _)])|(_ & _ & before & e & _ & _ & _ & _ & ?)]); [done| |done].
    revert H2. case_bool_decide; [by intros [? _]|by intros [_ ?]].
Qed.

(** The errors of [reconciliationScopes] have a reason. *)
Lemma lookup_failed_app paths t t' : lookup_failed paths t \/ lookup_failed paths t' -> lookup_failed paths (t ++ t').
Proof.
  intros [[H|(q & e & Hin & He)]|[H|(q & e & Hin & He)]]; [by left|right|by left|right];
    exists q, e; (split; [|done]); apply elem_of_app; auto.
Qed.

Lemma promote_fails relative ancestors paths x :
  wp (W := W) (promote s relative ancestors) (fun r _ t => forall e, r = Err e -> lookup_failed paths t) x.
Proof.
  revert relative x. induction ancestors as [|p l IH]; intros relative x; cbn [promote]; [by apply wp_ret|].
  assert (Hrec : forall ev x', wp (promote s p l) (fun r s' t' => forall e, r = Err e -> lookup_failed paths ([ev] ++ t')) x').
  { intros ev x'. eapply wp_mono; [apply IH|]. intros r x2 t H e He. apply lookup_failed_app. right. by eapply H. }
  apply wp_bind, wp_sys. intros [[|]|e] w1; cbn [after]; [by apply wp_ret|apply Hrec|].
  destruct (_ || _) eqn:E; [apply Hrec|]. apply wp_throw. intros e' _. right. eexists _, e. split; [by left|].
  by intros [-> | ->].
Qed.

Lemma normalize_fails paths all x : (forall p, p ∈ paths -> p ∈ all) ->
  wp (W := W) (normalize s paths) (fun r _ t => forall e, r = Err e -> lookup_failed all t) x.
Proof.
  revert x. induction paths as [|p paths IH]; intros x Hsub; cbn [normalize]; [by apply wp_ret|].
  destruct (p =? ".")%string; [by apply wp_ret|].
  apply wp_bind, wp_fail_if; intros Hv; cbn [after].
  { intros e _. left. exists p. split; [apply Hsub; by left|]. by apply negb_true_iff in Hv. }
  destruct (_ =? ".")%string; [by apply wp_ret|].
  apply wp_bind. eapply wp_mono; [apply promote_fails with (paths := all)|]. intros [r|e|] x1 t H1; cbn [after].
  - apply wp_bind. eapply wp_mono; [apply IH; intros q Hq; apply Hsub; by right|]. intros [n|e|] x2 t2 H2; cbn [after]; [by apply wp_ret| |done].
    intros e' [= <-]. apply (lookup_failed_app all []). right. apply lookup_failed_app. right. by eapply H2.
  - intros e' [= <-]. by eapply H1.
  - done.
Qed.

Lemma reconciliationScopes_fails paths x :
  wp (W := W) (reconciliationScopes s paths) (fun r _ t => forall e, r = Err e -> lookup_failed paths t) x.
Proof.
  unfold reconciliationScopes. apply wp_bind. eapply wp_mono; [apply (normalize_fails paths paths); done|].
  intros [n|e|] x1 t H; cbn [after]; [by apply wp_ret|by intros e' _; eapply H|done].
Qed.

Lemma Sync_follows b : follows (Sync s b) (batch_run s b).
Proof.
  intros x. unfold Sync. destruct b as [|p b].
  { apply wp_ret. exists [], []. split; [done|]. split; [by intros f|]. left. split; [done|]. split; [done|]. right.
    split; [done|]. right. split; [constructor|]. split; [split; [constructor|]; intros ? ? H; by apply not_elem_of_nil in H|].
    split; [constructor|]. intros q H. by apply not_elem_of_nil in H. }
  set (Q := fun r (x' : st W syncVars) t => vars x' = vars x /\ quiet t /\
    match r with Ok l => scopes_post s (unprotected s (p :: b)) l | Err e => ordinary e | OutOfFuel => False end).
  apply wp_bind. eapply wp_mono; [apply (wp_and _ Q); [by apply reconciliationScopes_wp; intros; intros ?; split_and!|apply reconciliationScopes_fails]|].
  intros r [w v] t [(Hv & Ht & Hr) Hlf]. cbn [vars] in Hv. subst v. destruct r as [scopes|e|]; cbn [after]; [rename Hr into Hs| |done].
  2: { exists t, []. split; [by rewrite app_nil_r|]. split; [done|]. left. split; [done|]. split; [done|]. left.
       exists e. split; [done|]. split; [done|]. by eapply Hlf. }
  case_bool_decide as Hn.
  { apply wp_ret. exists t, []. split; [done|]. split; [done|]. left. split; [done|]. split; [done|]. right. by subst scopes. }
  assert (Hup : follows (upload s scopes) (upload_run s scopes)) by (apply upload_follows; [done|by eapply scopes_post_dot]).
  eapply wp_mono.
  - assert (Hall : follows (match sy_state s with
      | Some st => wrap "advance generation" (BeforeRemoteChange st);; (upload s scopes;; AfterRemoteChange st)
      | None => upload s scopes end) (updates_around s (upload_run s scopes))).
    { unfold updates_around. destruct (sy_state s) as [st|]; [|done].
      apply follows_seq; [apply follows_contract, satisfies_wrap, BeforeRemoteChange_satisfies| |].
      - apply follows_seq; [done|apply follows_contract, AfterRemoteChange_satisfies|apply scopes_run_not_fuel].
      - intros v v' t' (l & _ & H). by apply c_before_not_fuel in H. }
    apply Hall.
  - intros r x' t' HR. exists t, t'. split; [done|]. split; [done|]. right. by exists scopes.
Qed.
End RunSpec.

(** ** Guarantees *)

(** C1: if the remote file is at the generation the program knows when a batch begins, then,
    wherever the program is killed in the course of the batch, and whatever the host answers
    until then, the state files it leaves are untouched or make the reconciliation table of the
    next start upload: local changes are not given up for the remote's. This is not so for the
    retry of a batch whose publication took effect unacknowledged, which starts from another
    generation than the program knows ([retry_forfeits_recovery]). *)
Theorem interrupted_batch_recovers (W : Type) (H : Host W) s st b (x : Host.st W syncVars) :
  sy_state s = Some st -> wf_data (data (remote_ (vars x))) ->
  exists l, acts (trace (Sync s b x)) l /\ forall k k',
    Generation (on_remote k) = Generation (data (remote_ (vars x))) -> interrupted k l k' ->
    k' = k \/ next_start k' = Recover.
Proof.
  intros Hst Hwf. destruct (Sync_satisfies s st b Hst x) as (l & Hl & HC). exists l. split; [done|]. intros k k' Hg Hk.
  apply c_sync_batch in HC as [[_ ->]|(r' & HC & _)]; [left; by apply interrupted_nil|].
  eapply (batch_interrupted st c_upload c_upload_only); eauto.
Qed.

Lemma interrupted_batch_recovers_witness :
  exists l, acts (trace (Sync demo_syncer demo_batch demo_started)) l /\ forall k k',
    Generation (on_remote k) = 1 -> interrupted k l k' -> k' = k \/ next_start k' = Recover.
Proof.
  apply (interrupted_batch_recovers mem mem_host demo_syncer demo demo_batch demo_started); [reflexivity|].
  vm_compute. repeat split; discriminate.
Defined.

(** A batch that succeeds after publishing leaves both state files at the next generation
    with the same identifier: the next start after an orderly end has nothing to do, and a
    start after a crash uploads once more. *)
Theorem completed_batch_is_current (W : Type) (H : Host W) s st b (x : Host.st W syncVars) :
  sy_state s = Some st -> wf_data (data (remote_ (vars x))) -> res (Sync s b x) = Ok tt ->
  exists l, acts (trace (Sync s b x)) l /\ (l = [] \/ forall k k', performs_all k l k' ->
    Generation (on_remote k') = Generation (data (remote_ (vars x))) + 1 /\ next_start k' = Recover /\
    forall local, on_local k' = Some local -> next_start (with_local (set_Active false local) k') = Current).
Proof.
  intros Hst Hwf Hr. destruct (Sync_satisfies s st b Hst x) as (l & Hl & HC). exists l. split; [done|].
  apply c_sync_batch in HC as [[_ ->]|(r' & HC & Hr')]; [by left|right]. rewrite (Hr' Hr) in HC. intros k k' Hk.
  destruct (batch_done st c_upload c_upload_only _ _ _ _ _ (wf_encodable _ Hwf) HC Hk) as (Hpos & id & Hc). split_and!.
  - by destruct Hc as (_ & ? & _).
  - by eapply completed_recovers.
  - intros local Hlocal. by eapply completed_finished.
Qed.

Lemma completed_batch_is_current_witness :
  exists l, acts (trace (Sync demo_syncer demo_batch demo_started)) l /\ (l = [] \/ forall k k', performs_all k l k' ->
    Generation (on_remote k') = 2 /\ next_start k' = Recover /\
    forall local, on_local k' = Some local -> next_start (with_local (set_Active false local) k') = Current).
Proof.
  apply (completed_batch_is_current mem mem_host demo_syncer demo demo_batch demo_started); [reflexivity| |vm_compute; reflexivity].
  vm_compute. repeat split; discriminate.
Defined.

(** C21: a batch either ends before it changes anything, because looking at the tree failed or
    because all its changes are reserved for the state files, or it publishes the next
    generation as in progress, uploads its scopes, and clears the flags, each step only after
    the one before it succeeded. The upload is one command for the whole tree, or one for the
    scopes that the file system says are gone and then one for those that exist, each with a
    filter file that lists exactly these scopes; it succeeds only if every command did.
    Without a sync state a batch is its upload. *)
Theorem batch_updates_in_order (W : Type) (H : Host W) s b (x : st W syncVars) :
  batch_run s b (vars x) (res (Sync s b x)) (vars (out_state (Sync s b x))) (trace (Sync s b x)).
Proof. apply Sync_follows. Qed.

(** C22: the scopes a batch is reconciled over are the whole tree, or sorted clean paths of
    which none lies in another, such that every changed path lies in one, unless the directory
    that stands for it is reserved for the state files; computing them changes nothing. *)
Theorem scopes_cover_changes (W : Type) (H : Host W) s paths (x : st W syncVars) :
  let o := reconciliationScopes s paths x in
  quiet (trace o) /\ vars (out_state o) = vars x /\
  match res o with Ok scopes => scopes_post s paths scopes | Err e => ordinary e | OutOfFuel => False end.
Proof.
  apply (reconciliationScopes_wp s paths (fun r x' t => quiet t /\ vars x' = vars x /\
    match r with Ok scopes => scopes_post s paths scopes | Err e => ordinary e | OutOfFuel => False end)); by intros.
Qed.

(** C23: collapsing equals its reference definition, whatever the order and the repetitions of
    the paths: the scopes are the paths no other one contains, each once, sorted. *)
Theorem collapse_equals_reference l l' :
  Forall (fun p => exists es, path_elems p es) l -> (forall p, p ∈ l <-> p ∈ l') ->
  collapse l = topmost_paths l /\ collapse l' = topmost_paths l.
Proof.
  intros Hg Hl. assert (Hg' : Forall (fun p => exists es, path_elems p es) l').
  { rewrite Forall_forall in Hg |- *. intros p Hp. by apply Hg, Hl. }
  split; [by apply collapse_topmost|]. rewrite collapse_topmost by done. by apply topmost_paths_set.
Qed.

Lemma collapse_equals_reference_witness :
  collapse ["a/b"; "c"; "a"] = topmost_paths ["a/b"; "c"; "a"] /\
  collapse ["a"; "c"; "a/b"; "c"] = topmost_paths ["a/b"; "c"; "a"] /\
  topmost_paths ["a/b"; "c"; "a"] = ["a"; "c"].
Proof.
  refine (let H := collapse_equals_reference ["a/b"; "c"; "a"] ["a"; "c"; "a/b"; "c"] _ _ in
          conj (proj1 H) (conj (proj2 H) eq_refl)).
  - repeat constructor; [exists ["a"; "b"]|exists ["c"]|exists ["a"]]; 
      (split; [reflexivity|]; split; [discriminate|]; repeat constructor; discriminate).
  - intros p. rewrite !elem_of_cons. tauto.
Defined.

(** The filter file of a scoped sync has one line per rule whatever bytes the paths hold:
    an inclusion of every pattern, none twice, then the exclusion of everything else; the
    patterns are those of the scopes, of their contents and, when directories are created, of
    their ancestors. *)
Theorem scope_file_rules scopes createDirectories :
  split_on newline (scope_file scopes createDirectories) =
    ((fun p => "+ /" +:+ p) <$> scope_rules scopes createDirectories) ++ ["- /**"; ""] /\
  NoDup (scope_rules scopes createDirectories) /\
  forall p, p ∈ scope_rules scopes createDirectories <-> exists q, q ∈ scopes /\
    (p = scopeFilterPath q \/ p = scopeFilterPath q +:+ "/**" \/
     createDirectories = true /\ exists a, a ∈ parents q /\ p = scopeFilterPath a).
Proof.
  split; [apply scope_file_lines|]. split; [apply include_all_NoDup|]. intros p. apply scope_rules_spec.
Qed.
