(* ===== verification/Interleave.v ===== *)
(** * Batches and lock refreshes side by side

    The goroutine that syncs a batch and the one that refreshes the lock share [updateMu]: an
    update and a refresh exclude each other, but refreshes run before, between and after the two
    updates of a batch, also while its commands run. Crash triples extend the rules for
    interrupted actions of [CrashRecovery] to whole programs, and show that the refreshes do not
    disturb the recovery of a batch, or of a session of batches. *)

From S2P Require Import Prelude GoString Utf8 GoTime Host HostLogic SyncData Json StateFile StateFileRoundTrip SyncPath Options Filters SyncState SyncStateSpec Acquire Session Payload Fixtures SessionSpec CrashRecovery Refresh PayloadSpec MemHost.

Local Open Scope Z_scope.

(** ** Crash triples

    From variables and files that satisfy [P], the program ends in [Q], and wherever it is
    killed the files satisfy [D]. *)
Definition assertion : Type := syncVars -> disk -> Prop.

Section Triples.
Context {W : Type} `{!Host W}.

Definition triple {A} (P : assertion) (m : M W syncVars A) (Q : result error A -> assertion) (D : disk -> Prop) : Prop :=
  forall x, exists l, acts (trace (m x)) l /\ forall k, P (vars x) k ->
    (forall k', interrupted k l k' -> D k') /\
    forall k', performs_all k l k' -> Q (res (m x)) (vars (out_state (m x))) k'.

Lemma triple_conseq {A} (P P' : assertion) (m : M W syncVars A) (Q Q' : result error A -> assertion) D :
  triple P m Q D -> (forall v k, P' v k -> P v k) -> (forall r v k, Q r v k -> Q' r v k) -> triple P' m Q' D.
Proof.
  intros Hm HP HQ x. destruct (Hm x) as (l & Hl & H). exists l. split; [done|]. intros k Hk.
  destruct (H k (HP _ _ Hk)) as [H1 H2]. split; [done|]. intros k' Hk'. by apply HQ, H2.
Qed.

(** An error of the host's own kind: the program stops without acting. *)
Lemma triple_pure {A} (P : assertion) (m : M W syncVars A) (r : result error A) (Q : result error A -> assertion) (D : disk -> Prop) :
  (forall x, m x = Outcome r x []) -> (forall v k, P v k -> D k /\ Q r v k) -> triple P m Q D.
Proof.
  intros Hm H x. rewrite Hm. exists []. split; [apply acts_nil|]. intros k Hk. apply H in Hk as [HD HQ]. split.
  - intros k' Hk'. by apply interrupted_nil in Hk' as ->.
  - intros k' Hk'. inversion Hk'; subst. exact HQ.
Qed.

Lemma triple_ret {A} (P : assertion) (a : A) (Q : result error A -> assertion) (D : disk -> Prop) :
  (forall v k, P v k -> D k /\ Q (Ok a) v k) -> triple P (ret a) Q D.
Proof. intros H. by apply (triple_pure _ _ (Ok a)). Qed.

Lemma triple_throw {A} (P : assertion) e (Q : result error A -> assertion) (D : disk -> Prop) :
  (forall v k, P v k -> D k /\ Q (Err e) v k) -> triple P (throw e) Q D.
Proof. intros H. by apply (triple_pure _ _ (Err e)). Qed.

Lemma triple_bind {A B} P (m : M W syncVars A) (f : A -> M W syncVars B) R Q D :
  triple P m R D -> (forall a, triple (R (Ok a)) (f a) Q D) ->
  (forall e v k, R (Err e) v k -> Q (Err e) v k) -> (forall v k, R OutOfFuel v k -> Q OutOfFuel v k) ->
  triple P (m ≫= f) Q D.
Proof.
  intros Hm Hf He Ho x. destruct (Hm x) as (l1 & Hl1 & H1). unfold mbind, M_bind, bind.
  destruct (res (m x)) as [a|e|] eqn:E; cbn [res out_state trace].
  - destruct (Hf a (out_state (m x))) as (l2 & Hl2 & H2). exists (l1 ++ l2). split; [by apply acts_app|].
    intros k Hk. destruct (H1 k Hk) as [HD HR]. split.
    + intros k' [Hk'|(k1 & Hk1 & Hk')]%interrupted_app; [by apply HD|]. by apply (H2 k1 (HR k1 Hk1)).
    + intros k' (k1 & Hk1 & Hk')%performs_all_app. by apply (H2 k1 (HR k1 Hk1)).
  - exists l1. split; [done|]. intros k Hk. destruct (H1 k Hk) as [HD HR]. split; [done|]. intros k' Hk'. by apply He, HR.
  - exists l1. split; [done|]. intros k Hk. destruct (H1 k Hk) as [HD HR]. split; [done|]. intros k' Hk'. by apply Ho, HR.
Qed.

Lemma triple_try {A} P (m : M W syncVars A) (Q : result error (A + error) -> assertion) D :
  triple P m (fun r => match r with Ok a => Q (Ok (inl a)) | Err e => Q (Ok (inr e)) | OutOfFuel => Q OutOfFuel end) D ->
  triple P (try m) Q D.
Proof.
  intros Hm x. destruct (Hm x) as (l & Hl & H). exists l. unfold try.
  destruct (res (m x)); cbn [res out_state trace]; done.
Qed.

Lemma triple_wrap {A} P msg (m : M W syncVars A) Q D :
  triple P m (fun r => match r with Err e => Q (Err (Wrapf msg e)) | r => Q r end) D ->
  triple P (wrap msg m) Q D.
Proof.
  intros Hm x. destruct (Hm x) as (l & Hl & H). exists l. unfold wrap.
  destruct (res (m x)) eqn:E; cbn [res out_state trace]; rewrite ?E; done.
Qed.

Lemma acts_fun t l l' : acts t l -> acts t l' -> l = l'.
Proof. intros H H'. by rewrite <- (H ∅), <- (H' ∅). Qed.

(** Cases of the precondition. *)
Lemma triple_or {A} (P1 P2 : assertion) (m : M W syncVars A) (Q : result error A -> assertion) D :
  triple P1 m Q D -> triple P2 m Q D -> triple (fun v k => P1 v k \/ P2 v k) m Q D.
Proof.
  intros H1 H2 x. destruct (H1 x) as (l & Hl & H3), (H2 x) as (l' & Hl' & H4).
  pose proof (acts_fun _ _ _ Hl Hl') as <-. exists l. split; [done|]. intros k [Hk|Hk]; auto.
Qed.

Lemma triple_ex {A I} `{!Inhabited I} (P : I -> assertion) (m : M W syncVars A) (Q : result error A -> assertion) D :
  (forall i, triple (P i) m Q D) -> triple (fun v k => exists i, P i v k) m Q D.
Proof.
  intros Hm x. destruct (Hm inhabitant x) as (l & Hl & _). exists l. split; [done|]. intros k [i Hk].
  destruct (Hm i x) as (l' & Hl' & H'). pose proof (acts_fun _ _ _ Hl Hl') as <-. by apply H'.
Qed.

(** A program that keeps to a contract. *)
Lemma triple_contract P (m : M W syncVars unit) C Q (D : disk -> Prop) :
  satisfies m C ->
  (forall v k r v' l, P v k -> C v r v' l ->
     (forall k', interrupted k l k' -> D k') /\ forall k', performs_all k l k' -> Q r v' k') ->
  triple P m Q D.
Proof. intros Hm H x. destruct (Hm x) as (l & Hl & HC). exists l. split; [done|]. intros k Hk. by eapply H. Qed.
End Triples.

(** ** Refreshes leave reconciliation alone *)
Section Updates.
Variable s : syncState.

(** An update that fails leaves the program's picture of the remote state as it was; one that
    succeeds makes the candidate the picture, up to its lock. *)
Lemma replaces_known previous candidate v r v' l :
  encodable candidate -> replaces s previous candidate v r v' l ->
  (r <> Ok tt /\ remote_ v' = remote_ v) \/
  (r = Ok tt /\ fields (data (remote_ v')) = fields candidate /\ encodable (data (remote_ v'))).
Proof.
  intros Hwf H. inversion H as [| | | | | |latest verified now l0 Hl Hr Hv _ Hsame Ho]; subst; try (by left).
  right. split; [done|]. cbn [remote_ set_remote]. apply fields_same in Hsame. rewrite written_fields in Hsame.
  split; [done|]. destruct Hv as [->|(_ & Hv & _)]; [|auto].
  destruct Hwf as [Hwf _]. unfold fields in Hsame. simpl in Hsame. congruence.
Qed.

Hypothesis Htimeout : 0 <= timeout s <= int64_max.

Lemma refreshed_encodable now d : encodable d -> encodable (refreshed s now d).
Proof using Htimeout.
  intros (Hr & Hg & _). split; [done|]. split; [done|]. cbn. split; [|done]. unfold wf_zone, utc. cbn. by vm_compute.
Qed.

Lemma pass_effect v p v' l : encodable (data (remote_ v)) -> pass_post s v p v' l ->
  (fields (data (remote_ v')) = fields (data (remote_ v)) /\ encodable (data (remote_ v'))) /\
  forall k k', interrupted k l k' ->
    k' = k \/ exists d, fields d = sanitized_fields (data (remote_ v)) /\ k' = with_remote d k.
Proof using Htimeout.
  intros Hwf Hp.
  assert (Hc : forall v, remote_ (cancelled s v) = remote_ v) by (intros v0; unfold cancelled; by destruct (has_cancelCommands s)).
  destruct Hp as [(-> & _ & ->)|(now & r & v1 & Hrep & Hp)].
  { rewrite Hc. split; [done|]. intros k k' Hk. left. by apply interrupted_nil. }
  assert (Hv : remote_ v' = remote_ v1) by (destruct p as [d|e]; destruct Hp as [-> _]; by rewrite ?Hc).
  pose proof (refreshed_encodable now _ Hwf) as Hwf'. rewrite Hv. split.
  - apply replaces_known in Hrep as [[_ ->]|(_ & Hf & He)]; [done| |done]. by rewrite Hf.
  - intros k k' Hk. eapply replaces_effect in Hrep as [->|(d & Hd & ->)]; [by left|right|done|exact Hk]. by exists d.
Qed.
End Updates.

(** ** Where a batch stands *)

(** Both files are at the next generation, with flags set or not. *)
Definition advanced (g : Z) (id : string) (k : disk) : Prop :=
  (exists repo syncing, on_local k = Some (local_state repo (g + 1) id syncing true)) /\
  Generation (on_remote k) = g + 1 /\ SyncID (on_remote k) = id.

(** The phases of a batch. *)
Definition idle (L : option syncFileData) (F : string * Z * string * bool) : assertion := fun v k =>
  encodable (data (remote_ v)) /\ sanitized_fields (data (remote_ v)) = F /\ on_local k = L /\ fields (on_remote k) = F.
Definition begun (g : Z) : assertion := fun v k =>
  encodable (data (remote_ v)) /\ Generation (data (remote_ v)) = g /\ 0 < g /\
  exists bytes, underway g (sanitize (rand_text bytes)) k.
Definition marked (g : Z) : assertion := fun v k =>
  0 < g /\ exists bytes, published g (rand_text bytes) v k.
Definition ending (g : Z) : assertion := fun v k =>
  encodable (data (remote_ v)) /\ 0 < g /\ exists bytes, Generation (data (remote_ v)) = g + 1 /\
  sanitize (SyncID (data (remote_ v))) = sanitize (rand_text bytes) /\ advanced g (sanitize (rand_text bytes)) k.
Definition ended (g : Z) : assertion := fun v k =>
  encodable (data (remote_ v)) /\ 0 < g /\ exists id, Generation (data (remote_ v)) = g + 1 /\
  sanitize (SyncID (data (remote_ v))) = id /\ Syncing (data (remote_ v)) = false /\ completed g id k.

(** A phase that a refresh of the lock does not leave. *)
Definition stable (P : assertion) : Prop := forall v v' k k',
  P v k -> fields (data (remote_ v')) = fields (data (remote_ v)) -> encodable (data (remote_ v')) ->
  k' = k \/ (exists d, fields d = sanitized_fields (data (remote_ v)) /\ k' = with_remote d k) -> P v' k'.

Lemma idle_stable L F : stable (idle L F).
Proof.
  intros v v' k k' (He & Hk & Hl & Hr) Hf He' Hkk. split; [done|]. split; [by rewrite (sanitized_fields_eq _ _ Hf)|].
  destruct Hkk as [->|(d & Hd & ->)]; [done|]. cbn. split; [done|]. congruence.
Qed.

Lemma underway_refreshed g id k d : underway g id k -> Generation d = g -> underway g id (with_remote d k).
Proof. intros [Hl _] Hd. split; [done|by left]. Qed.

Lemma begun_stable g : stable (begun g).
Proof.
  intros v v' k k' (He & Hg & Hp & bytes & Hu) Hf He' Hkk. unfold fields, sanitized_fields in *.
  split; [done|]. split; [congruence|]. split; [done|]. exists bytes.
  destruct Hkk as [->|(d & Hd & ->)]; [done|]. apply underway_refreshed; [done|]. unfold fields in Hd. simpl in Hd. congruence.
Qed.

Lemma marked_stable g : stable (marked g).
Proof.
  intros v v' k k' (Hp & bytes & Hl & Hg & Hi & Hw & Hgv & Hiv) Hf He' Hkk. split; [done|]. exists bytes.
  unfold fields in Hf. destruct Hkk as [->|(d & Hd & ->)].
  - split_and!; [done..|congruence|congruence].
  - unfold fields, sanitized_fields, fields in Hd. simpl in Hd. unfold published. cbn [on_local on_remote with_remote].
    split_and!; [done|congruence|congruence|done|congruence|congruence].
Qed.

Lemma ending_stable g : stable (ending g).
Proof.
  intros v v' k k' (He & Hp & bytes & Hgv & Hiv & Hl & Hg & Hi) Hf He' Hkk. split; [done|]. split; [done|]. exists bytes.
  unfold fields in Hf. split; [congruence|]. split; [congruence|]. destruct Hkk as [->|(d & Hd & ->)]; [done|].
  unfold fields, sanitized_fields, fields in Hd. simpl in Hd. unfold advanced. cbn [on_local on_remote with_remote].
  split_and!; [done|congruence|congruence].
Qed.

Lemma ended_stable g : stable (ended g).
Proof.
  intros v v' k k' (He & Hp & id & Hgv & Hiv & Hsv & Hl & Hg & Hi & Hs) Hf He' Hkk. split; [done|]. split; [done|]. exists id.
  unfold fields in Hf. split; [congruence|]. split; [congruence|]. split; [congruence|]. destruct Hkk as [->|(d & Hd & ->)]; [done|].
  unfold fields, sanitized_fields, fields in Hd. simpl in Hd. unfold completed. cbn [on_local on_remote with_remote].
  split_and!; [done|congruence..].
Qed.

Lemma stable_or P Q : stable P -> stable Q -> stable (fun v k => P v k \/ Q v k).
Proof. intros HP HQ v v' k k' [H|H] Hf He Hk; [left; by eapply HP|right; by eapply HQ]. Qed.

Lemma advanced_recovers g id k : 0 < g -> id <> "" -> advanced g id k -> next_start k = Recover.
Proof.
  unfold next_start, startup_plan. intros Hg Hid ((repo & syncing & ->) & Hr & Hi).
  cbn [Generation SyncID Syncing Active local_state]. rewrite Hr, Hi.
  replace (g + 1 =? 0) with false by lia. rewrite Z.compare_refl, String.eqb_refl. cbn [negb].
  apply String.eqb_neq in Hid. rewrite Hid. by destruct (_ || _).
Qed.

(** What a kill leaves: nothing changed, or a recovery. *)
Definition safe (L : option syncFileData) (F : string * Z * string * bool) (k : disk) : Prop :=
  (on_local k = L /\ fields (on_remote k) = F) \/ next_start k = Recover.

Lemma idle_safe L F v k : idle L F v k -> safe L F k.
Proof. intros (_ & _ & Hl & Hr). by left. Qed.
Lemma begun_safe L F g v k : begun g v k -> safe L F k.
Proof. intros (_ & _ & Hp & bytes & Hu). right. eapply underway_recovers; [done|apply rand_text_nonempty|done]. Qed.
Lemma marked_advanced g id v k : published g id v k -> advanced g (sanitize id) k.
Proof. intros ([repo Hl] & Hg & Hi & _). split; [by exists repo, true|done]. Qed.
Lemma marked_safe L F g v k : marked g v k -> safe L F k.
Proof. intros (Hp & bytes & H%marked_advanced). right. eapply advanced_recovers; [done|apply rand_text_nonempty|done]. Qed.
Lemma ending_safe L F g v k : ending g v k -> safe L F k.
Proof. intros (_ & Hp & bytes & _ & _ & H). right. eapply advanced_recovers; [done|apply rand_text_nonempty|done]. Qed.
Lemma ended_safe L F g v k : ended g v k -> safe L F k.
Proof. intros (_ & Hp & id & _ & _ & _ & H). right. by eapply completed_recovers. Qed.

(** ** The programs *)
Section Programs.
Context {W : Type} `{!Host W}.
Variable s : syncState.

(** What another goroutine, or the batch's own commands, may do between two updates: a refresh
    of the lock, whose timer fired when the lock expired at [expires], or a piece of the
    upload. *)
Inductive move :=
| RefreshMove (expires : Z)
| PayloadMove (m : M W syncVars unit).

Definition run_move (mv : move) : M W syncVars unit :=
  match mv with
  | RefreshMove expires => p ← refresh_locked s expires; ret tt
  | PayloadMove m => m
  end.

Fixpoint run_moves (ms : list move) : M W syncVars unit :=
  match ms with
  | [] => ret tt
  | mv :: ms => run_move mv;; run_moves ms
  end.

(** The pieces of the upload only transfer payload; an error ends the batch. *)
Definition payload_only (mv : move) : Prop := match mv with RefreshMove _ => True | PayloadMove m => uploads m end.
Definition is_refresh (mv : move) : Prop := match mv with RefreshMove _ => True | PayloadMove _ => False end.

(** A batch with refreshes before it, among its commands, and after it. *)
Definition refreshed_batch (pre mid post : list move) : M W syncVars unit :=
  run_moves pre;;
  r ← try (wrap "advance generation" (BeforeRemoteChange s);; run_moves mid;; AfterRemoteChange s);
  run_moves post;;
  (match r with inl _ => ret tt | inr e => throw e end).

Hypothesis Htimeout : 0 <= timeout s <= int64_max.
Hypothesis Hpoll : 0 < pollInterval s.

Lemma refresh_triple (P : assertion) (D : disk -> Prop) expires :
  stable P -> (forall v k, P v k -> encodable (data (remote_ v))) -> (forall v k, P v k -> D k) ->
  triple (W := W) P (refresh_locked s expires) (fun r v k => (exists p, r = Ok p) /\ P v k) D.
Proof using Htimeout Hpoll.
  intros Hs He HD x. destruct (refresh_locked_wp s expires x Hpoll) as (p & l & Hr & Hl & Hp).
  exists l. split; [done|]. intros k Hk. destruct (pass_effect s Htimeout _ _ _ _ (He _ _ Hk) Hp) as [[Hf Hw] Hkk]. split.
  - intros k' Hk'. apply (HD (vars x)). eapply (Hs (vars x)); [done|done|by eapply He|by apply Hkk].
  - intros k' Hk'%performs_all_interrupted. split; [by exists p|]. eapply Hs; [done|done|done|by apply Hkk].
Qed.

Lemma uploads_triple (P : assertion) (D : disk -> Prop) (m : M W syncVars unit) :
  uploads m -> (forall v k, P v k -> D k) -> triple P m (fun _ => P) D.
Proof.
  intros Hm HD x. destruct (Hm x) as (_ & Hv & l & Hl & HF). exists l. split; [done|]. intros k Hk.
  assert (Hn : forall l', Forall is_transfer l' -> forall k', performs_all k l' k' -> k' = k).
  { intros l' Hl' k' Hk'. by eapply transfers_nothing. }
  split.
  - intros k' (l1 & l2 & -> & H). apply Forall_app in HF as [HF _]. rewrite (Hn _ HF _ H). eauto.
  - intros k' H. rewrite (Hn _ HF _ H), Hv. done.
Qed.

(** Refreshes and transfers stay in a stable phase, and refreshes alone raise no error. *)
Lemma moves_triple (P : assertion) (D : disk -> Prop) ms :
  stable P -> (forall v k, P v k -> encodable (data (remote_ v))) -> (forall v k, P v k -> D k) ->
  Forall payload_only ms ->
  triple (W := W) P (run_moves ms) (fun r v k => (Forall is_refresh ms -> r = Ok tt) /\ P v k) D.
Proof using Htimeout Hpoll.
  intros Hs He HD Hms. induction Hms as [|mv ms Hmv Hms IH]; cbn [run_moves].
  { apply triple_ret. intros v k Hk. eauto. }
  eapply (triple_bind _ _ _ (fun r v k => (is_refresh mv -> r = Ok tt) /\ P v k)).
  - destruct mv as [expires|m]; cbn [run_move].
    + eapply (triple_bind _ _ _ (fun r v k => (exists p, r = Ok p) /\ P v k)); [by apply refresh_triple| | |].
      * intros p. apply triple_ret. intros v k [_ Hk]. eauto.
      * by intros e v k [[? ?] _].
      * by intros v k [[? ?] _].
    + eapply triple_conseq; [by apply uploads_triple|done|]. by intros r v k Hk.
  - intros []. eapply triple_conseq; [apply IH|by intros v k [_ Hk]|]. intros r v k [Hr Hk]. split; [|done].
    intros Hall. inversion Hall; subst. auto.
  - intros e v k [Hr Hk]. split; [|done]. intros Hall. inversion Hall; subst. by specialize (Hr ltac:(done)).
  - intros v k [Hr Hk]. split; [|done]. intros Hall. inversion Hall; subst. by specialize (Hr ltac:(done)).
Qed.

(** The same without a result. *)
Lemma moves_stay (P : assertion) (D : disk -> Prop) ms :
  stable P -> (forall v k, P v k -> encodable (data (remote_ v))) -> (forall v k, P v k -> D k) ->
  Forall payload_only ms -> triple (W := W) P (run_moves ms) (fun _ => P) D.
Proof using Htimeout Hpoll.
  intros Hs He HD Hms. eapply triple_conseq; [by apply moves_triple|done|]. by intros r v k [_ Hk].
Qed.

Variables (L : option syncFileData) (F : string * Z * string * bool).
Definition generation : Z := snd (fst (fst F)).

(** The state a failed first update leaves. *)
Definition before_failed : assertion := fun v k => idle L F v k \/ begun generation v k.

Lemma wrap_failed msg (C : contract syncVars) v r v' l : c_wrap msg C v r v' l -> r <> Ok tt ->
  exists r', C v r' v' l /\ r' <> Ok tt.
Proof.
  destruct r as [[]|e|]; cbn; [done| |by exists OutOfFuel]. destruct e; try done. intros [_ H] _. by eexists (Err _).
Qed.

Lemma saves_vars path d v r v' l : saves path d v r v' l -> v' = v.
Proof. by intros [(_ & -> & _)|(c & _ & -> & _)]. Qed.

Lemma batch_remote_encodable d id : encodable d -> Generation d <> uint64_max -> encodable (batch_remote d id).
Proof. intros (Hr & Hg & Hl) Hm. split; [done|]. split; [|done]. cbn. rewrite add_uint64_small; lia. Qed.

Lemma c_before_failed v r v' l : encodable (data (remote_ v)) -> c_before s v r v' l -> r <> Ok tt -> remote_ v' = remote_ v.
Proof.
  intros Hwf HC Hr. unfold c_before in HC. destruct (_ || _) eqn:E; [by destruct HC as (_ & -> & _)|].
  reflect_bools. destruct HC as (bytes & [(e & -> & Hx)|(v1 & l1 & l2 & H1 & H2 & ->)]).
  - apply wrap_inv in Hx as (r' & Hx & _). by rewrite (saves_vars _ _ _ _ _ _ Hx).
  - cbn in H1. apply saves_vars in H1 as ->. apply wrap_failed in H2 as (r2 & H2 & Hr2); [|done].
    apply replaces_known in H2 as [[_ Hx]|(-> & _)]; [done|done|]. by apply batch_remote_encodable.
Qed.

Lemma before_triple :
  triple (W := W) (idle L F) (BeforeRemoteChange s)
    (fun r v k => match r with Ok _ => marked generation v k | Err _ => before_failed v k | OutOfFuel => False end) (safe L F).
Proof.
  eapply triple_contract; [apply BeforeRemoteChange_satisfies|]. intros v k r v' l Hidle HC.
  pose proof Hidle as (Hwf & Hk & Hl & Hr).
  assert (Hg : Generation (data (remote_ v)) = generation) by (unfold generation; by rewrite <- Hk).
  assert (Hg' : Generation (on_remote k) = generation) by (unfold generation; by rewrite <- Hr).
  split.
  - intros k' Hk'. destruct (before_interrupted s _ _ _ _ _ _ _ Hwf Hg Hg' HC Hk') as [->|(Hp & bytes & Hu)]; [by left|right].
    eapply underway_recovers; [done|apply rand_text_nonempty|done].
  - intros k' Hk'. destruct r as [[]|e|]; [| |by apply c_before_not_fuel in HC].
    + destruct (before_done s _ _ _ _ _ _ Hwf Hg HC Hk') as (Hp & bytes & repo & d & -> & H1 & H2 & H3 & H4 & H5).
      split; [done|]. exists bytes. split; [by exists repo|done].
    + assert (Hv : remote_ v' = remote_ v) by (by eapply c_before_failed).
      destruct (before_interrupted s _ _ _ _ _ _ _ Hwf Hg Hg' HC (performs_all_interrupted _ _ _ Hk')) as [->|(Hp & bytes & Hu)];
        [left|right]; unfold idle, begun; rewrite Hv; [done|]. split; [done|]. split; [done|]. split; [done|]. by exists bytes.
Qed.

(** The last update stays at the next generation, whatever becomes of it. *)
Lemma after_advanced g id v r v' l k k' :
  published g id v k -> c_after s v r v' l -> interrupted k l k' -> advanced g (sanitize id) k'.
Proof.
  intros Hpub HC Hk. pose proof Hpub as ([repo Hlo] & Hg & Hi & Hwf & Hgv & Hiv).
  assert (Hws : encodable (settled (data (remote_ v)))) by (destruct Hwf as (? & ? & _); by apply wf_local_state).
  assert (Hrem : forall r1 v1 l1 k1, replaces s (remote_ v) (set_Syncing false (data (remote_ v))) v r1 v1 l1 ->
    interrupted k l1 k1 -> on_local k1 = on_local k /\ Generation (on_remote k1) = g + 1 /\ SyncID (on_remote k1) = sanitize id).
  { intros r1 v1 l1 k1 H1 Hi1. eapply replaces_effect in H1 as [->|(d & Hd & ->)]; [done| |done|exact Hi1].
    unfold sanitized_fields, fields in Hd. simpl in Hd. cbn [on_local on_remote with_remote]. split_and!; [done|congruence..]. }
  destruct (seq_interrupted _ _ _ _ _ _ _ _ HC Hk) as [(r1 & v1 & l1 & H1 & Hi1)|(v1 & l1 & l2 & k1 & H1 & Hp & H2 & Hi2)].
  - apply wrap_inv in H1 as (r' & H1 & _). destruct (Hrem _ _ _ _ H1 Hi1) as (Hl1 & ? & ?).
    split; [rewrite Hl1; by exists repo, true|done].
  - apply wrap_inv in H1 as (r' & H1 & _). destruct (Hrem _ _ _ _ H1 (performs_all_interrupted _ _ _ Hp)) as (Hl1 & Hg1 & Hi1).
    apply wrap_inv in H2 as (r2 & H2 & _). destruct (saves_effect _ _ _ _ _ _ _ _ Hws H2 Hi2) as [->| ->].
    + split; [|done]. rewrite Hl1. by exists repo, true.
    + split; [|done]. exists (sanitize (RepositoryID (data (remote_ v)))), false.
      unfold sanitize_data, settled, local_state; simpl. congruence.
Qed.

Lemma after_known g id v r v' l : published g id v l.2 -> c_after s v r v' l.1 ->
  encodable (data (remote_ v')) /\ Generation (data (remote_ v')) = g + 1 /\ SyncID (data (remote_ v')) = id /\
  (r = Ok tt -> Syncing (data (remote_ v')) = false).
Proof.
  destruct l as [l k]. intros (_ & _ & _ & Hwf & Hgv & Hiv) HC. cbn in HC.
  assert (Hrep : forall r1 v1 l1, replaces s (remote_ v) (set_Syncing false (data (remote_ v))) v r1 v1 l1 ->
    encodable (data (remote_ v1)) /\ Generation (data (remote_ v1)) = g + 1 /\ SyncID (data (remote_ v1)) = id /\
    (r1 = Ok tt -> Syncing (data (remote_ v1)) = false)).
  { intros r1 v1 l1 H1. apply replaces_known in H1 as [[Hn ->]|(_ & Hf & He)]; [done| |done].
    unfold fields in Hf. simpl in Hf. split_and!; [done|congruence..]. }
  destruct HC as [(e & -> & H1)|(v1 & l1 & l2 & H1 & H2 & ->)].
  - apply wrap_inv in H1 as (r' & H1 & _). destruct (Hrep _ _ _ H1) as (? & ? & ? & _). done.
  - cbn in H1. apply wrap_inv in H2 as (r2 & H2%saves_vars & _). subst v'. by destruct (Hrep _ _ _ H1) as (? & ? & ? & Hs); auto.
Qed.

Lemma after_triple g :
  triple (W := W) (marked g) (AfterRemoteChange s)
    (fun r v k => match r with Ok _ => ended g v k | Err _ => ending g v k | OutOfFuel => False end) (safe L F).
Proof.
  eapply triple_contract; [apply AfterRemoteChange_satisfies|]. intros v k r v' l (Hp & bytes & Hpub) HC. split.
  - intros k' Hk'. right. eapply advanced_recovers; [done|apply rand_text_nonempty|by eapply after_advanced].
  - intros k' Hk'. destruct (after_known _ _ _ _ _ (l, k) Hpub HC) as (He & Hg & Hi & Hs).
    destruct r as [[]|e|]; [| |by apply c_after_not_fuel in HC].
    + split; [done|]. split; [done|]. exists (sanitize (rand_text bytes)). split_and!; [done|congruence|by apply Hs|].
      by eapply after_done.
    + split; [done|]. split; [done|]. exists bytes. split_and!; [done|congruence|].
      eapply after_advanced; [done|done|by apply performs_all_interrupted].
Qed.

(** *** The whole batch *)
Definition unfinished : assertion := fun v k => before_failed v k \/ marked generation v k \/ ending generation v k.

Definition batch_post (r : result error unit) : assertion :=
  match r with Ok _ => ended generation | _ => unfinished end.

Lemma unfinished_stable : stable unfinished.
Proof.
  apply stable_or; [apply stable_or; [apply idle_stable|apply begun_stable]|].
  apply stable_or; [apply marked_stable|apply ending_stable].
Qed.
Lemma unfinished_encodable v k : unfinished v k -> encodable (data (remote_ v)).
Proof. intros [[(? & _)|(? & _)]|[(_ & bytes & (_ & _ & _ & ? & _))|(? & _)]]; done. Qed.
Lemma unfinished_safe v k : unfinished v k -> safe L F k.
Proof.
  intros [[Hx|Hx]|[Hx|Hx]]; [by eapply idle_safe|by eapply begun_safe|by eapply marked_safe|by eapply ending_safe].
Qed.
Lemma marked_encodable g v k : marked g v k -> encodable (data (remote_ v)).
Proof. by intros (_ & bytes & (_ & _ & _ & ? & _)). Qed.

Lemma refreshes_payload ms : Forall is_refresh ms -> Forall payload_only ms.
Proof. intros Hms. eapply Forall_impl; [done|]. by intros []. Qed.

Lemma updates_triple mid : Forall payload_only mid ->
  triple (W := W) (idle L F) (wrap "advance generation" (BeforeRemoteChange s);; run_moves mid;; AfterRemoteChange s)
    batch_post (safe L F).
Proof using Htimeout Hpoll.
  intros Hmid.
  eapply (triple_bind _ _ _ (fun r v k => match r with Ok _ => marked generation v k | _ => unfinished v k end)).
  - apply triple_wrap. eapply triple_conseq; [apply before_triple|done|].
    intros [[]|e|] v k Hx; [done|by left|done].
  - intros []. eapply (triple_bind _ _ _ (fun _ => marked generation)).
    + apply moves_stay; [apply marked_stable|apply marked_encodable|apply marked_safe|done].
    + intros []. eapply triple_conseq; [apply after_triple|done|]. intros [[]|e|] v k Hx; [done|by right; right|done].
    + intros e v k Hx. by right; left.
    + intros v k Hx. by right; left.
  - by intros e v k Hx.
  - by intros v k Hx.
Qed.

Lemma refreshed_batch_triple pre mid post :
  Forall is_refresh pre -> Forall payload_only mid -> Forall is_refresh post ->
  triple (idle L F) (refreshed_batch pre mid post) batch_post (safe L F).
Proof using Htimeout Hpoll.
  intros Hpre%refreshes_payload Hmid Hpost. pose proof (refreshes_payload _ Hpost). unfold refreshed_batch.
  assert (Hidle : forall v k, idle L F v k -> unfinished v k) by (intros v k Hx; left; by left).
  eapply (triple_bind _ _ _ (fun _ => idle L F)).
  { apply moves_stay; [apply idle_stable|by intros v k [? _]|by apply idle_safe|done]. }
  2, 3: auto.
  intros []. eapply (triple_bind _ _ _
    (fun r v k => match r with Ok (inl _) => ended generation v k | _ => unfinished v k end)).
  { apply triple_try. eapply triple_conseq; [by apply updates_triple|done|]. by intros [[]|e|]. }
  2, 3: done.
  intros [[]|e].
  - eapply (triple_bind _ _ _ (fun r v k => (Forall is_refresh post -> r = Ok tt) /\ ended generation v k)).
    + apply moves_triple; [apply ended_stable|by intros v k [? _]|by apply ended_safe|done].
    + intros []. apply triple_ret. intros v k [_ Hx]. split; [by eapply ended_safe|done].
    + intros e v k [Hr _]. by specialize (Hr Hpost).
    + intros v k [Hr _]. by specialize (Hr Hpost).
  - eapply (triple_bind _ _ _ (fun _ => unfinished)); [|intros []; apply triple_throw|..].
    + apply moves_stay; [apply unfinished_stable|apply unfinished_encodable|apply unfinished_safe|done].
    + intros v k Hx. split; [by eapply unfinished_safe|done].
    + done.
    + done.
Qed.
(** *** A session of batches

    One batch after another, each with refreshes before it and among its commands. A batch that
    fails after its first update is tried again with the next one; when the first update itself
    fails the session stops here, see [Scenarios.retry_forfeits_recovery]. *)
Fixpoint batches (bs : list (list move * list move)) : M W syncVars unit :=
  match bs with
  | [] => ret tt
  | (pre, mid) :: bs =>
      run_moves pre;;
      wrap "advance generation" (BeforeRemoteChange s);;
      r ← try (run_moves mid;; AfterRemoteChange s);
      batches bs
  end.

(** Between two batches: none has changed anything yet, or the last one is at the next
    generation on both sides. *)
Definition between : assertion := fun v k => idle L F v k \/ exists g, ending g v k.
Definition stopped_short : assertion := fun v k => between v k \/ exists g, begun g v k.

Lemma between_stable : stable between.
Proof.
  apply stable_or; [apply idle_stable|]. intros v v' k k' [g Hx] Hf He Hk. exists g. by eapply ending_stable.
Qed.
Lemma between_encodable v k : between v k -> encodable (data (remote_ v)).
Proof. by intros [(? & _)|(g & ? & _)]. Qed.
Lemma between_safe v k : between v k -> safe L F k.
Proof. intros [Hx|[g Hx]]; [by eapply idle_safe|by eapply ending_safe]. Qed.

(** The next batch starts from wherever the last one ended. *)
Lemma before_again_triple g :
  triple (W := W) (ending g) (BeforeRemoteChange s)
    (fun r v k => match r with Ok _ => marked (g + 1) v k | _ => stopped_short v k end) (safe L F).
Proof.
  eapply triple_contract; [apply BeforeRemoteChange_satisfies|]. intros v k r v' l Hend HC.
  pose proof Hend as (Hwf & Hp & bytes & Hg & Hi & Hadv). pose proof Hadv as (_ & Hg' & _).
  split.
  - intros k' Hk'. destruct (before_interrupted s _ _ _ _ _ _ _ Hwf Hg Hg' HC Hk') as [->|(_ & bytes' & Hu)].
    + by eapply ending_safe.
    + right. eapply underway_recovers; [|apply rand_text_nonempty|done]. lia.
  - intros k' Hk'. destruct r as [[]|e|]; [| |by apply c_before_not_fuel in HC].
    + destruct (before_done s _ _ _ _ _ _ Hwf Hg HC Hk') as (Hp' & bytes' & repo & d & -> & H1 & H2 & H3 & H4 & H5).
      split; [done|]. exists bytes'. split; [by exists repo|done].
    + assert (Hv : remote_ v' = remote_ v) by (by eapply c_before_failed).
      destruct (before_interrupted s _ _ _ _ _ _ _ Hwf Hg Hg' HC (performs_all_interrupted _ _ _ Hk')) as [->|(Hp' & bytes' & Hu)].
      * left. right. exists g. unfold ending. rewrite Hv. done.
      * right. exists (g + 1). unfold begun. rewrite Hv. split; [done|]. split; [done|]. split; [done|]. by exists bytes'.
Qed.

Lemma before_between_triple :
  triple (W := W) between (BeforeRemoteChange s)
    (fun r v k => match r with Ok _ => exists g, marked g v k | _ => stopped_short v k end) (safe L F).
Proof.
  apply triple_or; [|apply triple_ex; intros g].
  - eapply triple_conseq; [apply before_triple|done|]. intros [[]|e|] v k Hx; [by eexists| |done].
    destruct Hx as [Hx|Hx]; [left; by left|right; by eexists].
  - eapply triple_conseq; [apply before_again_triple|done|]. intros [[]|e|] v k Hx; [by eexists|done|done].
Qed.

(** The last update, whatever becomes of it. *)
Lemma after_ending_triple g : triple (W := W) (marked g) (AfterRemoteChange s) (fun _ => ending g) (safe L F).
Proof.
  eapply triple_contract; [apply AfterRemoteChange_satisfies|]. intros v k r v' l (Hp & bytes & Hpub) HC. split.
  - intros k' Hk'. right. eapply advanced_recovers; [done|apply rand_text_nonempty|by eapply after_advanced].
  - intros k' Hk'. destruct (after_known _ _ _ _ _ (l, k) Hpub HC) as (He & Hg & Hi & _).
    split; [done|]. split; [done|]. exists bytes. split_and!; [done|congruence|].
    eapply after_advanced; [done|done|by apply performs_all_interrupted].
Qed.

Lemma marked_ending g v k : marked g v k -> ending g v k.
Proof.
  intros (Hp & bytes & Hpub). pose proof (marked_advanced _ _ _ _ Hpub) as Hadv. destruct Hpub as (_ & _ & _ & Hw & Hg & Hi).
  split; [done|]. split; [done|]. exists bytes. split_and!; [done|congruence|done].
Qed.

Lemma tried_triple mid : Forall payload_only mid ->
  triple (W := W) (fun v k => exists g, marked g v k) (run_moves mid;; AfterRemoteChange s)
    (fun _ v k => exists g, ending g v k) (safe L F).
Proof using Htimeout Hpoll.
  intros Hmid. apply triple_ex. intros g. eapply (triple_bind _ _ _ (fun _ => marked g)).
  - apply moves_stay; [apply marked_stable|apply marked_encodable|apply marked_safe|done].
  - intros []. eapply triple_conseq; [apply after_ending_triple|done|]. intros r v k Hx. by exists g.
  - intros e v k Hx. exists g. by apply marked_ending.
  - intros v k Hx. exists g. by apply marked_ending.
Qed.

Lemma batches_triple bs :
  Forall (fun b => Forall is_refresh b.1 /\ Forall payload_only b.2) bs ->
  triple (W := W) between (batches bs) (fun r v k => match r with Ok _ => between v k | _ => stopped_short v k end) (safe L F).
Proof using Htimeout Hpoll.
  induction 1 as [|[pre mid] bs [Hpre%refreshes_payload Hmid] Hbs IH]; cbn [batches].
  { apply triple_ret. intros v k Hx. split; [by eapply between_safe|done]. }
  eapply (triple_bind _ _ _ (fun _ => between)).
  { apply moves_stay; [apply between_stable|apply between_encodable|by apply between_safe|done]. }
  2, 3: by left.
  intros []. eapply (triple_bind _ _ _ (fun r v k => match r with Ok _ => exists g, marked g v k | _ => stopped_short v k end)).
  { apply triple_wrap. eapply triple_conseq; [apply before_between_triple|done|]. by intros [[]|e|]. }
  2, 3: done.
  intros []. eapply (triple_bind _ _ _ (fun r v k => exists g, ending g v k)).
  { apply triple_try. eapply triple_conseq; [by apply tried_triple|done|]. by intros [[]|e|]. }
  - intros r. eapply triple_conseq; [apply IH| |done]. intros v k Hx. by right.
  - intros e v k Hx. left. by right.
  - intros v k Hx. left. by right.
Qed.
End Programs.

(** ** The batch of [Sync] *)

Lemma rethrown (W : Type) (a m c : M W syncVars unit) x :
  let o := (ret tt;; r ← try (a;; (m;; ret tt);; c); ret tt;; (match r with inl _ => ret tt | inr e => throw e end)) x in
  let o' := (a;; m;; c) x in
  res o = res o' /\ out_state o = out_state o' /\ trace o = trace o'.
Proof.
  unfold mbind, M_bind, bind, try. cbn [res out_state trace ret].
  destruct (a x) as [[[]|e|] x1 t1]; cbn [res out_state trace]; [|by rewrite ?app_nil_r..].
  destruct (m x1) as [[[]|e|] x2 t2]; cbn [res out_state trace]; [|by rewrite ?app_nil_r..].
  destruct (c x2) as [[[]|e|] x3 t3]; cbn [res out_state trace]; by rewrite ?app_nil_r.
Qed.

(** Without refreshes, and with the upload in one piece, this is the batch of [Sync]. *)
Lemma refreshed_batch_alone (W : Type) `{!Host W} s (m : M W syncVars unit) x :
  let o := refreshed_batch s [] [PayloadMove m] [] x in
  let o' := (wrap "advance generation" (BeforeRemoteChange s);; m;; AfterRemoteChange s) x in
  res o = res o' /\ out_state o = out_state o' /\ trace o = trace o'.
Proof. apply rethrown. Qed.

(** ** Guarantee *)

(** C2: if the remote file holds the state the program knows, up to its lock, when a batch
    begins, refreshes of the lock may run before the batch, among its commands and after it;
    wherever the program is killed, and whatever the host answers, the local state is untouched
    and the remote one says the same but for its lock, or the next start uploads. A batch that
    succeeds is complete: once the session's end is recorded there is nothing left to do. The
    retry of a batch whose publication took effect unacknowledged starts from another remote
    state and is not covered ([retry_forfeits_recovery]). *)
Theorem refreshed_batch_recovers (W : Type) (H : Host W) s pre mid post (x : st W syncVars) :
  0 <= timeout s <= int64_max -> 0 < pollInterval s -> encodable (data (remote_ (vars x))) ->
  Forall is_refresh pre -> Forall payload_only mid -> Forall is_refresh post ->
  forall k, fields (on_remote k) = sanitized_fields (data (remote_ (vars x))) ->
  exists l, acts (trace (refreshed_batch s pre mid post x)) l /\
    (forall k', interrupted k l k' ->
       (on_local k' = on_local k /\ fields (on_remote k') = fields (on_remote k)) \/ next_start k' = Recover) /\
    (res (refreshed_batch s pre mid post x) = Ok tt -> forall k', performs_all k l k' ->
       exists local, on_local k' = Some local /\ next_start (with_local (set_Active false local) k') = Current).
Proof.
  intros Ht Hp Hwf Hpre Hmid Hpost k Hk.
  destruct (refreshed_batch_triple s Ht Hp (on_local k) (sanitized_fields (data (remote_ (vars x)))) pre mid post Hpre Hmid Hpost x)
    as (l & Hl & Hx).
  exists l. split; [done|]. destruct (Hx k) as [H1 H2]; [done|]. split.
  - intros k' [[H3 H4]|H3]%H1; [left|by right]. by rewrite Hk.
  - intros Hr k' Hk'. apply H2 in Hk'. rewrite Hr in Hk'. cbn in Hk'. destruct Hk' as (_ & Hpos & id & _ & _ & _ & Hc).
    pose proof Hc as ([repo Hlo] & _). eexists. split; [exact Hlo|]. by eapply completed_finished.
Qed.

(** A batch of the example session: a refresh before it, two around its upload, one after it. *)
Definition demo_refresh : move (W := mem) := RefreshMove (lockExpiry (vars demo_started)).
Definition demo_upload : list (move (W := mem)) := [demo_refresh; PayloadMove (upload demo_syncer ["docs"]); demo_refresh].

Example refreshed_run :
  let o := refreshed_batch demo [demo_refresh] demo_upload [demo_refresh] demo_started in
  res o = Ok tt /\ length (List.filter (fun a => (nth 0 a "" =? "copyto")%string) (commands (trace o))) = 6%nat /\
  Generation (data (remote_ (vars (out_state o)))) = 2.
Proof. vm_compute. by split_and!. Qed.

Lemma refreshed_batch_recovers_witness :
  exists l, acts (trace (refreshed_batch demo [demo_refresh] demo_upload [demo_refresh] demo_started)) l /\
    (forall k', interrupted (Disk None (data (remote_ (vars demo_started)))) l k' ->
       (on_local k' = None /\ fields (on_remote k') = fields (data (remote_ (vars demo_started)))) \/ next_start k' = Recover) /\
    (res (refreshed_batch demo [demo_refresh] demo_upload [demo_refresh] demo_started) = Ok tt ->
     forall k', performs_all (Disk None (data (remote_ (vars demo_started)))) l k' ->
       exists local, on_local k' = Some local /\ next_start (with_local (set_Active false local) k') = Current).
Proof.
  apply (refreshed_batch_recovers mem mem_host demo [demo_refresh] demo_upload [demo_refresh] demo_started).
  - vm_compute. split; discriminate.
  - reflexivity.
  - vm_compute. repeat split; discriminate.
  - repeat constructor.
  - constructor; [exact I|]. constructor; [apply upload_uploads|]. constructor; [exact I|constructor].
  - repeat constructor.
  - vm_compute. reflexivity.
Defined.

(** C3: in a session of any number of batches, with refreshes of the lock in between and among
    their commands, and with batches that failed after their first update followed by the next
    attempt, a kill at any point leaves the files as they were but for the lock, or makes the
    next start upload. When the session got through, the files are untouched or both at the
    same generation with one identifier. *)
Theorem session_of_batches_recovers (W : Type) (H : Host W) s bs (x : st W syncVars) :
  0 <= timeout s <= int64_max -> 0 < pollInterval s -> encodable (data (remote_ (vars x))) ->
  Forall (fun b => Forall is_refresh b.1 /\ Forall payload_only b.2) bs ->
  forall k, fields (on_remote k) = sanitized_fields (data (remote_ (vars x))) ->
  exists l, acts (trace (batches s bs x)) l /\
    (forall k', interrupted k l k' ->
       (on_local k' = on_local k /\ fields (on_remote k') = fields (on_remote k)) \/ next_start k' = Recover) /\
    (res (batches s bs x) = Ok tt -> forall k', performs_all k l k' ->
       (on_local k' = on_local k /\ fields (on_remote k') = fields (on_remote k)) \/
       exists g id, 0 < g /\ advanced g id k').
Proof.
  intros Ht Hp Hwf Hbs k Hk.
  destruct (batches_triple s Ht Hp (on_local k) (sanitized_fields (data (remote_ (vars x)))) bs Hbs x) as (l & Hl & Hx).
  exists l. split; [done|]. destruct (Hx k) as [H1 H2]; [by left|]. split.
  - intros k' [[H3 H4]|H3]%H1; [left|by right]. by rewrite Hk.
  - intros Hr k' Hk'. apply H2 in Hk'. rewrite Hr in Hk'. destruct Hk' as [(_ & _ & H3 & H4)|(g & _ & Hg & bytes & _ & _ & Ha)].
    + left. by rewrite Hk.
    + right. by exists g, (sanitize (rand_text bytes)).
Qed.

(** Two batches, the first of which fails: rclone answers its upload with an error. *)
Definition failing_upload : list (move (W := mem)) := [PayloadMove (throw (Errorf "upload failed"))].
Definition demo_batches : list (list (move (W := mem)) * list (move (W := mem))) :=
  [([demo_refresh], failing_upload); ([demo_refresh], demo_upload)].

Example retried_session :
  let o := batches demo demo_batches demo_started in
  res o = Ok tt /\ Generation (data (remote_ (vars (out_state o)))) = 3 /\ Syncing (data (remote_ (vars (out_state o)))) = false.
Proof. vm_compute. by split_and!. Qed.

Lemma session_of_batches_recovers_witness :
  exists l, acts (trace (batches demo demo_batches demo_started)) l /\
    (forall k', interrupted (Disk None (data (remote_ (vars demo_started)))) l k' ->
       (on_local k' = None /\ fields (on_remote k') = fields (data (remote_ (vars demo_started)))) \/ next_start k' = Recover) /\
    (res (batches demo demo_batches demo_started) = Ok tt ->
     forall k', performs_all (Disk None (data (remote_ (vars demo_started)))) l k' ->
       (on_local k' = None /\ fields (on_remote k') = fields (data (remote_ (vars demo_started)))) \/
       exists g id, 0 < g /\ advanced g id k').
Proof.
  apply (session_of_batches_recovers mem mem_host demo demo_batches demo_started).
  - vm_compute. split; discriminate.
  - reflexivity.
  - vm_compute. repeat split; discriminate.
  - constructor; [|constructor; [|constructor]]; (split; [repeat constructor|]).
    + constructor; [apply uploads_throw|constructor].
    + constructor; [exact I|]. constructor; [apply upload_uploads|]. constructor; [exact I|constructor].
  - vm_compute. reflexivity.
Defined.
