(* ===== verification/Backend.v ===== *)
(** * Which backend a destination has, and whether writes can be conditional ([backend.go]) *)

From Stdlib Require Import Ascii.
From S2P Require Import Prelude GoString GoTime Host SyncPath SyncState.

Local Open Scope Z_scope.

(** [strconv.Atoi]. *)
Definition Atoi (s : string) : option Z :=
  let '(neg, digits) :=
    match s with
    | String c r => if Ascii.eqb c "-" then (true, r) else if Ascii.eqb c "+" then (false, r) else (false, s)
    | EmptyString => (false, s)
    end in
  n ← parse_N digits;
  let z := if neg : bool then - Z.of_N n else Z.of_N n in
  if (int64_min <=? z) && (z <=? int64_max) then Some z else None.

(** The first field after "rclone", as [rclone version] prints it. *)
Definition check_version (token : string) : result error unit :=
  let '(version, _, _) := cut "-" (trim_prefix "v" token) in
  match split_on "." version with
  | major :: minor :: _ =>
      match Atoi major, Atoi minor with
      | Some major, Some minor =>
          if (major <? 1) || ((major =? 1) && (minor <? 73))
          then Err (Errorf "S3 consistent writes require rclone v1.73.0 or newer; use --no-consistent-writes only if the provider does not support conditional writes")
          else Ok tt
      | _, _ => Err (Errorf "cannot parse rclone version")
      end
  | _ => Err (Errorf "cannot parse rclone version")
  end.

Definition parse_version (output : string) : result error unit :=
  let '(line, _, _) := cut newline output in
  match GoString.fields line with
  | f0 :: f1 :: _ => if (f0 =? "rclone")%string then check_version f1 else Err (Errorf "cannot parse rclone version")
  | _ => Err (Errorf "cannot parse rclone version")
  end.

(** A line of [rclone listremotes --long]. *)
Definition listed_backend (name line : string) : option string :=
  let '(n, rest, found) := cut ":" line in
  match GoString.fields rest with
  | f :: _ => if found && (n =? name)%string then Some f else None
  | [] => None
  end.

Section Backend.
Context {W : Type} `{!Host W}.
#[local] Abbreviation P := (M W syncVars).

(** [unicode.ToUpper] on runes that are not ASCII: a table of package unicode. *)
Variable unicode_ToUpper : Z -> Z.

Definition ToUpper (s : string) : string :=
  if str_forallb (fun c => code c <? 128) s then map_str upper_byte s
  else concat_str ((fun r => encode_rune (let v := rune_value r in
         if v <? 128 then code (upper_byte (chr v)) else unicode_ToUpper v)) <$> runes s).

Definition requireConditionalWriteVersion : P unit :=
  out ← runner_Run ["version"];
  match cmd_err out with
  | Some e => throw (Wrapf "check rclone version" (commandError (ErrSys e) (cmd_stderr out)))
  | None => lift (parse_version (cmd_stdout out))
  end.

Definition destinationBackend (destination : string) : P string :=
  spec ← lift (parseRemote destination);
  match colon spec with
  | None => ret "local"
  | Some _ =>
      if has_prefix ":" (name spec) then ret (trim_prefix ":" (name spec))
      else match options spec !! "type"%stdpp with
      | Some backend => ret backend
      | None =>
          env ← sys (LookupEnv ("RCLONE_CONFIG_" +:+ ToUpper (name spec) +:+ "_TYPE"));
          match env with
          | Some backend => ret backend
          | None =>
              out ← runner_Run ["listremotes"; "--long"];
              match cmd_err out with
              | Some e => throw (Wrapf "detect destination backend" (commandError (ErrSys e) (cmd_stderr out)))
              | None =>
                  match omap (listed_backend (name spec)) (split_on newline (cmd_stdout out)) with
                  | backend :: _ => ret backend
                  | [] => throw (Errorf "cannot determine backend type for remote")
                  end
              end
          end
      end
  end.

Definition useConsistentWrites (destination : string) (disabled : bool) : P bool :=
  if disabled then ret false
  else
    backend ← destinationBackend destination;
    if negb (backend =? "s3")%string then ret false
    else requireConditionalWriteVersion;; ret true.
End Backend.
