(* ===== verification/BackendSpec.v ===== *)
(** * When writes are conditional

    Which rclone versions are accepted, and where the backend of a destination is looked up. *)

From Stdlib Require Import Ascii.
From S2P Require Import Prelude GoString GoTime Host HostLogic MemHost SyncPath SyncState SyncStateSpec Json JsonRoundTrip PathTheory Backend.

Local Open Scope Z_scope.

Lemma cut_app sep a s : contains_byte sep a = false ->
  cut sep (a +:+ s) = let '(x, y, f) := cut sep s in (a +:+ x, y, f).
Proof.
  induction a as [|c a IH]; cbn [String.append contains_byte cut]; [by destruct (cut sep s) as [[]]|].
  intros [Hc Ha]%orb_false_iff. rewrite IH by done. rewrite Ascii.eqb_sym in Hc. rewrite Hc. by destruct (cut sep s) as [[]].
Qed.

Lemma digits_no_byte c s : all_digits s = true -> is_digit c = false -> contains_byte c s = false.
Proof.
  intros Hs Hc. induction s as [|d s IH]; [done|]. cbn [all_digits] in Hs. apply andb_true_iff in Hs as [Hd Hs].
  cbn [contains_byte]. rewrite IH by done. rewrite orb_false_r. apply Ascii.eqb_neq. intros ->. congruence.
Qed.

Lemma Atoi_string_of_N n : Z.of_N n <= int64_max -> Atoi (string_of_N n) = Some (Z.of_N n).
Proof.
  intros Hn. destruct (string_of_N_head n) as (c & d & Hs & Hd & _). unfold Atoi.
  assert (Hc : Ascii.eqb c "-" = false /\ Ascii.eqb c "+" = false).
  { cbn [all_digits] in Hd. apply andb_true_iff in Hd as [Hc _]. split; apply Ascii.eqb_neq; intros ->; done. }
  destruct Hc as [Hc1 Hc2]. rewrite Hs, Hc1, Hc2, <- Hs, parse_string_of_N. cbn.
  unfold int64_min. replace (_ <=? Z.of_N n) with true by (symmetry; apply Z.leb_le; lia).
  by replace (Z.of_N n <=? int64_max) with true by (symmetry; apply Z.leb_le; lia).
Qed.

(** What may follow the minor version. *)
Definition version_suffix (s : string) : Prop :=
  s = "" \/ (exists r, s = String "." r) \/ (exists r, s = String "-" r).

Definition version_token (major minor : N) (suffix : string) : string :=
  "v" +:+ string_of_N major +:+ "." +:+ string_of_N minor +:+ suffix.

Lemma version_cut a suffix : contains_byte "-" a = false -> contains_byte "." a = false -> version_suffix suffix ->
  exists rest, split_on "." (fst (fst (cut "-" (a +:+ suffix)))) = a :: rest.
Proof.
  intros H1 H2 Hs. rewrite cut_app by done. destruct Hs as [->|[(r & ->)|(r & ->)]].
  - cbn. rewrite str_app_nil_r, split_on_no_slash by done. by eexists.
  - cbn [cut]. change (Ascii.eqb "." "-") with false. cbn iota. destruct (cut "-" r) as [[x y] f]. cbn [fst].
    rewrite split_on_app by done. by eexists.
  - cbn. rewrite str_app_nil_r, split_on_no_slash by done. by eexists.
Qed.

Lemma check_version_token major minor suffix :
  Z.of_N major <= int64_max -> Z.of_N minor <= int64_max -> version_suffix suffix ->
  is_ok (check_version (version_token major minor suffix)) =
    (1 <? Z.of_N major) || ((Z.of_N major =? 1) && (73 <=? Z.of_N minor)).
Proof.
  intros H1 H2 Hs. unfold check_version, version_token.
  assert (Ht : forall t, trim_prefix "v" ("v" +:+ t) = t) by (intros t; unfold trim_prefix, has_prefix; cbn; by destruct t).
  rewrite Ht. clear Ht.
  assert (Hmaj : contains_byte "-" (string_of_N major) = false /\ contains_byte "." (string_of_N major) = false)
    by (split; apply digits_no_byte; (done || apply string_of_N_digits)).
  assert (Hmin : contains_byte "-" (string_of_N minor) = false /\ contains_byte "." (string_of_N minor) = false)
    by (split; apply digits_no_byte; (done || apply string_of_N_digits)).
  destruct (version_cut (string_of_N minor) suffix) as [rest Hrest]; [apply Hmin..|done|].
  rewrite cut_app by apply Hmaj. change ("." +:+ ?x) with (String "." x). cbn [cut]. change (Ascii.eqb "." "-") with false. cbn iota.
  destruct (cut "-" (string_of_N minor +:+ suffix)) as [[x y] f]. cbn [fst] in Hrest.
  rewrite split_on_app, Hrest by apply Hmaj. rewrite !Atoi_string_of_N by done.
  case_goal; cbn [is_ok]; symmetry; [apply orb_false_iff|apply orb_true_iff];
    [apply orb_true_iff in E as [?|[? ?]%andb_true_iff]|apply orb_false_iff in E as [? [?|?]%andb_false_iff]]; reflect_bools.
  - split; [apply Z.ltb_ge; lia|]. apply andb_false_iff. left. apply Z.eqb_neq. lia.
  - split; [apply Z.ltb_ge; lia|]. apply andb_false_iff. right. apply Z.leb_gt. lia.
  - left. apply Z.ltb_lt. lia.
  - destruct (decide (Z.of_N major = 1)); [right; apply andb_true_iff; split; [apply Z.eqb_eq|apply Z.leb_le]; lia|left; apply Z.ltb_lt; lia].
Qed.

(** ** When writes are made conditional *)
Section Consistent.
Context {W : Type} `{!Host W}.
Variable upper : Z -> Z.

(** The version check asks rclone once, and answers what the output says. *)
Lemma requireConditionalWriteVersion_wp (x : st W syncVars) :
  wp requireConditionalWriteVersion (fun r _ t => r = Ok tt ->
    exists out, t = [Event (Rclone (with_flag ["version"])) out] /\ cmd_err out = None /\
                parse_version (cmd_stdout out) = Ok tt) x.
Proof.
  unfold requireConditionalWriteVersion. apply wp_bind, runner_Run_wp.
  - intros out w. cbn [after]. destruct (cmd_err out) eqn:E; [by apply wp_throw|].
    apply wp_lift. intros Hr. exists out. by rewrite E.
  - cbn [after]. by apply wp_throw.
Qed.

Lemma useConsistentWrites_wp destination disabled (x : st W syncVars) :
  wp (useConsistentWrites upper destination disabled) (fun r _ t => forall b, r = Ok b ->
    if disabled then b = false /\ t = [] else
    exists backend, res (destinationBackend upper destination x) = Ok backend /\
      b = (backend =? "s3")%string /\
      (b = true -> exists t1 out, t = t1 ++ [Event (Rclone (with_flag ["version"])) out] /\
         cmd_err out = None /\ parse_version (cmd_stdout out) = Ok tt)) x.
Proof.
  unfold useConsistentWrites. destruct disabled; [apply wp_ret; by intros b [= <-]|].
  apply wp_bind. unfold wp at 1, after.
  destruct (destinationBackend upper destination x) as [[backend| |] x1 t1]; cbn [res out_state trace]; [|done..].
  destruct (backend =? "s3")%string eqn:E; cbn [negb].
  - apply wp_bind. eapply wp_mono; [apply requireConditionalWriteVersion_wp|].
    intros [[]| |] x2 t2 H; cbn [after]; [|done..]. apply wp_ret. intros b [= <-]. exists backend.
    split_and!; [done|by rewrite E|]. intros _. destruct (H eq_refl) as (out & -> & H1 & H2).
    exists t1, out. by rewrite app_nil_r.
  - apply wp_ret. intros b [= <-]. exists backend. by rewrite E.
Qed.
End Consistent.

(** ** Guarantees *)

(** An rclone version "v<major>.<minor>", with a patch level or a suffix or neither, is
    accepted for conditional writes exactly from 1.73 on; major and minor are any numbers that
    fit an int. *)
Theorem version_accepted_from_1_73 major minor suffix :
  Z.of_N major <= int64_max -> Z.of_N minor <= int64_max -> version_suffix suffix ->
  is_ok (check_version (version_token major minor suffix)) = true <->
    1 < Z.of_N major \/ (Z.of_N major = 1 /\ 73 <= Z.of_N minor).
Proof.
  intros H1 H2 H3. rewrite check_version_token by done.
  rewrite orb_true_iff, andb_true_iff, Z.ltb_lt, Z.eqb_eq, Z.leb_le. done.
Qed.

Lemma version_accepted_from_1_73_witness :
  is_ok (check_version "v1.73.1-beta") = true <-> 1 < 1 \/ (1 = 1 /\ 73 <= 73).
Proof.
  apply (version_accepted_from_1_73 1 73 ".1-beta"); [vm_compute; discriminate..|].
  right. left. by eexists.
Defined.

(** Writes are conditional only when the backend of the destination is S3 and the rclone
    that is asked last reports an accepted version; with the option to disable them nothing is
    asked, and for any other backend they are not conditional. *)
Theorem conditional_writes_need_version (W : Type) (H : Host W) upper destination disabled (x : st W syncVars) b :
  res (useConsistentWrites upper destination disabled x) = Ok b ->
  let t := trace (useConsistentWrites upper destination disabled x) in
  if disabled then b = false /\ t = [] else
  exists backend, res (destinationBackend upper destination x) = Ok backend /\
    b = (backend =? "s3")%string /\
    (b = true -> exists t1 out, t = t1 ++ [Event (Rclone (with_flag ["version"])) out] /\
       cmd_err out = None /\ parse_version (cmd_stdout out) = Ok tt).
Proof. intros Hr. exact (useConsistentWrites_wp upper destination disabled x b Hr). Qed.

Lemma conditional_writes_need_version_witness :
  let m := St (fresh_mem ∅ None false) initial_vars in
  let t := trace (useConsistentWrites (fun z => z) "/mnt/backup" false m) in
  exists backend, res (destinationBackend (fun z => z) "/mnt/backup" m) = Ok backend /\
    false = (backend =? "s3")%string /\
    (false = true -> exists t1 out, t = t1 ++ [Event (Rclone (with_flag ["version"])) out] /\
       cmd_err out = None /\ parse_version (cmd_stdout out) = Ok tt).
Proof.
  apply (conditional_writes_need_version mem mem_host (fun z => z) "/mnt/backup" false
           (St (fresh_mem ∅ None false) initial_vars) false). reflexivity.
Defined.
