(* ===== verification/Config.v ===== *)
(** * The command line ([parseConfig] in [main.go])

    Package flag's parsing of the options, the checks on their combinations, and the
    resolution of the source directory and the state-file paths.  [newSyncState] builds the
    sync state of a configuration. *)

From Stdlib Require Import Ascii.
From S2P Require Import Prelude GoString GoTime Host SyncData StateFile SyncPath Options SyncState.

Local Open Scope Z_scope.

Definition defaultLockTTL : Z := 2 * minute.
Definition lockPollInterval : Z := second.

Record config := Config {
  interval : Z;
  lockTimeout : Z;
  cfg_lockWait : lockWait;
  persistentLock : string;
  cfg_excludes : list string;
  cfg_logs : bool;
  uploadOnly : bool;
  forceDeleteRemote : bool;
  cfg_failOnIncomplete : bool;
  noConsistentWrites : bool;
  stateFile : string;
  stateFileLocal : string;
  stateFileRemote : string;
  syncPaths : option syncFilePaths;    (* [None] is the zero value *)
  cfg_source : string;
  cfg_dest : string;
  command : list string
}.

Definition default_config (command : list string) : config :=
  Config 0 defaultLockTTL zero_wait "" [] false false false false false "" "" "" None "" "" command.

(** ** Package flag *)
Definition ErrHelp : error := Errorf "flag: help requested".

(** [strconv.ParseBool]. *)
Definition ParseBool (s : string) : option bool :=
  if bool_decide (s ∈ ["1"; "t"; "T"; "TRUE"; "true"; "True"]%stdpp) then Some true
  else if bool_decide (s ∈ ["0"; "f"; "F"; "FALSE"; "false"; "False"]%stdpp) then Some false
  else None.

Definition bool_flags : list string :=
  ["logs"; "upload-only"; "force-delete-untracked-remote"; "fail-on-incomplete-sync"; "no-consistent-writes"].
Definition value_flags : list string :=
  ["interval"; "lock-ttl"; "lock-wait"; "persistent-lock"; "exclude"; "state-file"; "state-file-local"; "state-file-remote"].

Definition set_bool (name : string) (b : bool) (c : config) : config :=
  let pick n old := if (name =? n)%string then b else old in
  Config (interval c) (lockTimeout c) (cfg_lockWait c) (persistentLock c) (cfg_excludes c)
    (pick "logs"%stdpp (cfg_logs c)) (pick "upload-only"%stdpp (uploadOnly c))
    (pick "force-delete-untracked-remote"%stdpp (forceDeleteRemote c))
    (pick "fail-on-incomplete-sync"%stdpp (cfg_failOnIncomplete c))
    (pick "no-consistent-writes"%stdpp (noConsistentWrites c))
    (stateFile c) (stateFileLocal c) (stateFileRemote c) (syncPaths c) (cfg_source c) (cfg_dest c) (command c).

Definition set_string (name value : string) (c : config) : config :=
  let pick n old := if (name =? n)%string then value else old in
  Config (interval c) (lockTimeout c) (cfg_lockWait c) (pick "persistent-lock"%stdpp (persistentLock c)) (cfg_excludes c)
    (cfg_logs c) (uploadOnly c) (forceDeleteRemote c) (cfg_failOnIncomplete c) (noConsistentWrites c)
    (pick "state-file"%stdpp (stateFile c)) (pick "state-file-local"%stdpp (stateFileLocal c))
    (pick "state-file-remote"%stdpp (stateFileRemote c)) (syncPaths c) (cfg_source c) (cfg_dest c) (command c).

Definition set_times (i t : Z) (w : lockWait) (ex : list string) (c : config) : config :=
  Config i t w (persistentLock c) ex (cfg_logs c) (uploadOnly c) (forceDeleteRemote c) (cfg_failOnIncomplete c)
    (noConsistentWrites c) (stateFile c) (stateFileLocal c) (stateFileRemote c) (syncPaths c) (cfg_source c) (cfg_dest c) (command c).

Definition set_places (paths : option syncFilePaths) (src dst : string) (c : config) : config :=
  Config (interval c) (lockTimeout c) (cfg_lockWait c) (persistentLock c) (cfg_excludes c) (cfg_logs c) (uploadOnly c)
    (forceDeleteRemote c) (cfg_failOnIncomplete c) (noConsistentWrites c) (stateFile c) (stateFileLocal c)
    (stateFileRemote c) paths src dst (command c).

(** [Value.Set] of the option [name], one of [value_flags]. *)
Definition set_value (name value : string) (c : config) : result error config :=
  if (name =? "interval")%string then
    match ParseDuration value with
    | Some d => Ok (set_times d (lockTimeout c) (cfg_lockWait c) (cfg_excludes c) c)
    | None => Err (Errorf "invalid value for flag")
    end
  else if (name =? "lock-ttl")%string then
    match ParseDuration value with
    | Some d => Ok (set_times (interval c) d (cfg_lockWait c) (cfg_excludes c) c)
    | None => Err (Errorf "invalid value for flag")
    end
  else if (name =? "lock-wait")%string then
    match lockWait_Set (cfg_lockWait c) value with
    | (w, None) => Ok (set_times (interval c) (lockTimeout c) w (cfg_excludes c) c)
    | (_, Some _) => Err (Errorf "invalid value for flag")
    end
  else if (name =? "exclude")%string then
    match excludePatterns_Set (cfg_excludes c) value with
    | Ok ps => Ok (set_times (interval c) (lockTimeout c) (cfg_lockWait c) ps c)
    | _ => Err (Errorf "invalid value for flag")
    end
  else Ok (set_string name value c).

(** The text after the dashes of an option, [None] for an argument that is none; the other
    answer is the terminator. *)
Inductive dashes := NotFlag | Terminator | FlagText (text : string).
Definition strip_dashes (arg : string) : dashes :=
  match arg with
  | String "-" (String "-" EmptyString) => Terminator
  | String "-" (String "-" text) => FlagText text
  | String "-" (String c text) => FlagText (String c text)
  | _ => NotFlag
  end.

Definition bad_syntax (text : string) : bool :=
  match text with
  | EmptyString => true
  | String c _ => Ascii.eqb c "-" || Ascii.eqb c "="
  end.

(** [FlagSet.Parse]: the configuration, the names that were set, and the arguments left. *)
Fixpoint parse_flags (args : list string) (c : config) (set : gset string) :
    result error (config * gset string * list string) :=
  match args with
  | [] => Ok (c, set, [])
  | arg :: rest =>
      match strip_dashes arg with
      | NotFlag => Ok (c, set, args)
      | Terminator => Ok (c, set, rest)
      | FlagText text =>
          if bad_syntax text then Err (Errorf "bad flag syntax")
          else
            let '(name, value, hasValue) := cut "=" text in
            if bool_decide (name ∈ bool_flags) then
              if hasValue : bool then
                match ParseBool value with
                | Some b => parse_flags rest (set_bool name b c) ({[name]} ∪ set)
                | None => Err (Errorf "invalid boolean value")
                end
              else parse_flags rest (set_bool name true c) ({[name]} ∪ set)
            else if bool_decide (name ∈ value_flags) then
              if hasValue : bool then
                match set_value name value c with
                | Ok c => parse_flags rest c ({[name]} ∪ set)
                | Err e => Err e
                | OutOfFuel => OutOfFuel
                end
              else
                match rest with
                | [] => Err (Errorf "flag needs an argument")
                | value :: rest =>
                    match set_value name value c with
                    | Ok c => parse_flags rest c ({[name]} ∪ set)
                    | Err e => Err e
                    | OutOfFuel => OutOfFuel
                    end
                end
            else if (name =? "help")%string || (name =? "h")%string then Err ErrHelp
            else Err (Errorf "flag provided but not defined")
      end
  end.

(** ** The checks *)

(** The arguments before the first "--", and those after it. *)
Fixpoint split_command (args : list string) : list string * option (list string) :=
  match args with
  | [] => ([], None)
  | arg :: rest =>
      if (arg =? "--")%string then ([], Some rest)
      else let '(a, c) := split_command rest in (arg :: a, c)
  end.

Definition check_config (c : config) (set : gset string) : result error unit :=
  let is_set (n : string) := bool_decide (n ∈ set) in
  if interval c <? 0 then Err (Errorf "--interval must not be negative")
  else if lockTimeout c <=? 0 then Err (Errorf "--lock-ttl must be greater than zero")
  else if is_set "persistent-lock"%stdpp && (persistentLock c =? "")%string then Err (Errorf "--persistent-lock must not be empty")
  else if is_set "state-file"%stdpp && (is_set "state-file-local"%stdpp || is_set "state-file-remote"%stdpp)
  then Err (Errorf "--state-file cannot be combined with --state-file-local or --state-file-remote")
  else if negb (Bool.eqb (is_set "state-file-local"%stdpp) (is_set "state-file-remote"%stdpp))
  then Err (Errorf "--state-file-local and --state-file-remote must be specified together")
  else if uploadOnly c then
    if is_set "lock-ttl"%stdpp then Err (Errorf "--lock-ttl cannot be used with --upload-only")
    else if is_set "lock-wait"%stdpp then Err (Errorf "--lock-wait cannot be used with --upload-only")
    else if is_set "persistent-lock"%stdpp then Err (Errorf "--persistent-lock cannot be used with --upload-only")
    else if forceDeleteRemote c then Err (Errorf "--force-delete-untracked-remote cannot be used with --upload-only")
    else if noConsistentWrites c then Err (Errorf "--no-consistent-writes cannot be used with --upload-only")
    else if cfg_failOnIncomplete c then Err (Errorf "--fail-on-incomplete-sync cannot be used with --upload-only")
    else if is_set "state-file"%stdpp || is_set "state-file-local"%stdpp
    then Err (Errorf "state file path options cannot be used with --upload-only")
    else Ok tt
  else Ok tt.

Definition state_file_names (c : config) (set : gset string) : string * string :=
  if bool_decide ("state-file"%stdpp ∈ set) then (stateFile c, stateFile c)
  else if bool_decide ("state-file-local"%stdpp ∈ set) then (stateFileLocal c, stateFileRemote c)
  else (defaultStateFile, defaultStateFile).

(** The command after "--", which must not be empty, and the options before it. *)
Definition parse_arguments (args : list string) : result error (config * gset string * list string) :=
  match split_command args with
  | (_, Some []) => Err (Errorf "expected a command after --")
  | (options, cmd) => parse_flags options (default_config (default [] cmd)) ∅
  end.

Section Config.
Context {W V : Type} `{!Host W}.
#[local] Abbreviation P := (M W V).

(** [filepath.Abs]. *)
Definition Abs (path : string) : P string :=
  if is_abs path then ret (clean path)
  else wd ← obtain Getwd; ret (path_join [wd; path]).

Definition parseConfig (args : list string) : P config :=
  '(c, set, rest) ← lift (parse_arguments args);
  lift (check_config c set);;
  match rest with
  | [arg0; arg1] =>
      source ← wrap "resolve source folder" (Abs arg0);
      isDir ← wrap "source folder" (obtain (Stat source));
      fail_if (negb isDir) (Errorf "source folder is not a directory");;
      source ← wrap "resolve source folder" (obtain (EvalSymlinks source));
      if uploadOnly c then ret (set_places None source arg1 c)
      else
        let '(localRelative, remoteRelative) := state_file_names c set in
        (* the source is absolute, so the working directory plays no part *)
        paths ← wrap "resolve state file paths" (lift (resolveSyncFilePaths "/" source arg1 localRelative remoteRelative));
        ret (set_places (Some paths) source arg1 c)
  | _ => throw (Errorf "expected a source folder and rclone destination")
  end.

(** [errors.Is(err, flag.ErrHelp)]. *)
Fixpoint is_help (e : error) : bool :=
  match e with
  | Errorf _ => bool_decide (e = ErrHelp)
  | Wrapf _ e => is_help e
  | _ => false
  end.

(** [main] up to its call of [run]: the exit status, or the configuration to run with. *)
Definition main_config (args : list string) : P (Z + config) :=
  cfg ← try (parseConfig args);
  match cfg with
  | inl cfg => ret (inr cfg)
  | inr e => ret (inl (if is_help e then 0 else 2))
  end.
End Config.

(** ** A sync state *)
Section NewSyncState.
Context {W V : Type} `{!Host W}.

(** What [run] assigns to the new state's other fields comes last. *)
Definition newSyncState (c : config) (paths : syncFilePaths) (consistentWrites : bool) : M W V syncState :=
  owner ← (if (persistentLock c =? "")%string
           then bytes ← wrap "create lock owner token" (obtain (RandRead 16)); ret (hex_bytes bytes)
           else ret (persistentLock c));
  id ← wrap "create repository ID" (obtain (RandRead 16));
  ret (SyncState paths (cfg_source c) (cfg_dest c) (lockTimeout c) (cfg_lockWait c) lockPollInterval consistentWrites
         (cfg_failOnIncomplete c) (cfg_logs c) owner (newRepositoryID id) (negb (persistentLock c =? "")%string)
         (cfg_excludes c) (forceDeleteRemote c) true true).
End NewSyncState.
