(* ===== verification/Help.v ===== *)
(** * The help text ([help.go], and what [main] prints)

    [printUsage] and [printHelp] write fixed texts; they are constants here. The options, their
    arguments and the examples are read back out of the text and compared with what the parser
    of [Config.v] accepts. *)

From Stdlib Require Import Ascii.
From S2P Require Import Prelude GoString GoTime Host SyncData StateFile SyncPath Options SyncState Config.

(** ** The texts *)
Definition printUsage : string :=
  "Usage: rclonewatch [OPTIONS] SOURCE_FOLDER RCLONE_DESTINATION [-- COMMAND [ARG...]]" +:+ nl.

Definition printHelp : string :=
"rclonewatch watches a local Linux directory recursively with inotify and
syncs deduplicated changed paths to an rclone destination.

Usage:
  rclonewatch [OPTIONS] SOURCE_FOLDER RCLONE_DESTINATION [-- COMMAND [ARG...]]

Options:
  --interval DURATION
        Wait this long after a successful sync before syncing another batch.
        Durations use Go syntax, such as 30s, 5m, or 1h30m. Without this
        option, changes are synced only during shutdown.

  --lock-ttl DURATION
        Set the remote lock expiry duration. The default is 2m, and the lock
        timestamp is refreshed every DURATION/2. The TTL is stored with the
        lock. DURATION must be positive.

  --lock-wait 0|DURATION|inf
        How long to wait when an active lock exists. By default, wait for the
        observed lock to expire but fail if it is refreshed. An explicit 0
        exits immediately. A duration waits up to that total time while
        following refreshes. Lock expiry is measured locally from observation
        using the stored TTL, never from the lock timestamp, to avoid clock
        skew. inf waits indefinitely. Units are s, m, h.

  --persistent-lock ID
        Hold the lock under ID and retain it when rclonewatch exits. A later
        invocation using the same ID continues that lock without waiting for
        expiry and immediately refreshes it with the configured TTL.

  --upload-only
        Only send local changes to the destination. Do not create, read, or
        update sync state, acquire a remote lock, or reconcile remote changes.
        Lock and state options cannot be used in this mode.

  --exclude GLOB
        Exclude files matching an rclone filter glob. Repeat this option for
        multiple patterns. Applies to outgoing syncs and startup reconciliation.

  --no-consistent-writes
        Disable conditional state writes on direct S3-compatible destinations.
        By default S3 writes use If-None-Match/If-Match and require rclone
        v1.73.0 or newer. Use this only for providers without conditional
        write support. Cannot be used with --upload-only.

  --force-delete-untracked-remote
        Initialize a non-empty destination that has no .rcw-state file by
        deleting its existing payload and fully syncing local to remote.
        Cannot be used with --upload-only.

  --fail-on-incomplete-sync
        Exit with status 1 before lock acquisition or remote writes when remote
        .rcw-state has syncing set to true and startup would fully sync remote
        to local. Cannot be used with --upload-only.

  --state-file PATH
        Use PATH, relative to each root and including the filename, for both
        local and remote sync state. Cannot be combined with the path pair.
        Glob characters are literal; paths containing line breaks are rejected.

  --state-file-local PATH
  --state-file-remote PATH
        Set different local and remote sync-state paths. Both must be supplied.
        Paths are relative to their respective roots; .. components may place
        state outside a root. State path options cannot be used with
        --upload-only.

  --logs
        Write diagnostics, status, changed paths, and rclone output to stdout.
        Without this option, rclonewatch writes no runtime output itself.

  -h, --help
        Show this help and exit.

Wrapped command:
  Arguments after -- are run as a command once inotify is ready. rclonewatch
  passes through its standard input, output, and error, watches until it exits,
  then drains events, performs a final sync, and returns the command's status
  if syncing succeeds. SIGINT and SIGTERM are forwarded to the command, whose
  exit is awaited before final shutdown. When standard input is the terminal,
  the command is given the foreground so it can read input; Ctrl-C reaches it
  directly, and Ctrl-Z suspends the whole job until it is resumed. If the
  command cannot be started, the session is still finished with a final sync
  and the exit status is 127 (not found) or 126 (not executable).

Watching and payload transfers:
  A symlink source root is resolved before watching. Watches are installed before
  startup reconciliation, and changes are collected throughout that work.
  Inotify overflow rebuilds recursive watches and requests a full sync.
  Changed paths and subtrees are reconciled using root-relative scope filters;
  overlapping scopes are collapsed, and unrelated sibling payload is preserved.
  Directory deletion is idempotent. Missing or replaced parents expand a scope
  only to the affected ancestor. Syncs delete before copying to resolve type
  conflicts; excluded payload and metadata remain protected. Failed scopes are
  retained for retry. Full-root syncs are used for startup reconciliation,
  recovery, and explicit rescans. Unrepresentable names use the nearest safe
  ancestor scope. Transfers use --ignore-times so matching size/mtime cannot hide
  changed content; only files included within the selected scopes are recopied.

S3 buckets:
  Buckets must already exist. Every rclone command uses --s3-no-check-bucket
  so bucket creation permissions are not needed. Object read/write/list
  permissions are still required; prefixes are created as objects are uploaded.

State file behavior:
  By default, rclonewatch coordinates writers and reconciles remote changes
  through .rcw-state. It combines a required repository_id UUID, the persistent
  generation, unique sync_id, incomplete-sync flag, and optional lock owner,
  timestamp, and TTL. State files without a repository ID are rejected, and
  existing local and remote repository IDs must match. Unlocking clears the lock
  fields but does not delete the file. A destination without remote state must be
  empty unless --force-delete-untracked-remote is supplied.
  Initialization locks remote generation 0, clears its payload, fully syncs
  local to remote, then promotes both state files to generation 1. If local state
  is absent or older, startup performs a full remote-to-local sync, even if
  syncing is true. Equal generations with different sync IDs also trigger a
  remote-to-local sync.
  Matching generations and sync IDs skip reconciliation unless either syncing
  flag or the previous local active marker is true. In those cases startup
  performs a full local-to-remote sync to recover an interrupted upload or
  session, including changes queued before any batch started. An
  incomplete local generation one ahead of remote is recovered this way too. A
  completed local generation ahead of remote is an error. Before each outgoing
  batch, generation is incremented, a fresh sync ID is written locally then
  remotely, and syncing is set true on both sides before payload changes.
  The sync ID is retained after completion. The syncing flag is cleared only
  after the entire batch succeeds, so failures remain detectable on the next
  run. A required remote-to-local sync deletes local payload absent remotely.

  The local-only active marker is set true at startup and stays true across
  interval batches. It is cleared only after the watcher drains and all pending
  changes sync successfully at shutdown, even if the wrapped command exits
  nonzero. Failed recovery, final sync, or watching leaves it true. Remote state
  is never written with this marker. Newer remote generations and conflicting
  sync IDs retain remote-to-local reconciliation priority after a broken session.

  State with a repository ID but no sync ID remains readable. Incomplete states
  at equal generations without sync IDs on either side require manual
  reconciliation because the upload identity is ambiguous. Completed states
  gain sync IDs on upload. A missing active marker means inactive.

  State paths inside either payload root are excluded from payload transfers.
  When local and remote paths differ, both relative names are reserved.
  Local updates use synced temporary files and atomic rename. Sibling names
  matching <local-state-file>.rcw-tmp-* are reserved and excluded as well.

Shutdown and retries:
  Failed running syncs retry with exponential backoff from 1 second to 1
  minute. Failed lock refreshes retry until shortly before the current lock
  expires. If ownership is lost or the lock cannot be refreshed by then,
  active rclone work and the wrapped command are terminated without a final
  sync. SIGINT or SIGTERM drains queued inotify events, performs a final sync,
  clears an owned non-persistent lock, and exits. Once shutdown is in progress
  and no wrapped command is running, a further signal abandons the final sync
  and exits with status 1; the incomplete session is recovered at the next
  start. Runtime failures use status 1 and usage errors status 2. A signal
  while waiting for a remote lock or during startup reconciliation cancels that
  work and exits with 128 plus the signal number without running the command;
  the interrupted startup work is retried at the next start.

Examples:
  # Wrap a command, periodically sync, and retain a reusable lock.
  rclonewatch --interval 30s \
    --persistent-lock build-sequence --exclude '*.tmp' --logs \
    /srv/data remote:backup/data -- ./build.sh --release

  # Periodically upload local changes without remote reconciliation or state.
  rclonewatch --upload-only --interval 5m /srv/data remote:backup/data

  # Coordinate writers and pull newer remote state before watching.
  rclonewatch --interval 30s --lock-ttl 2m --lock-wait inf \
    --logs /srv/data s3:bucket/data

  # Use an S3-compatible provider without conditional-write support.
  rclonewatch --no-consistent-writes \
    /srv/data s3clone:bucket/data
".

Section Output.
(** How an error is printed; the error texts of the development are shortened. *)
Variable Error : error -> string.

(** What [main] writes before it exits without calling [run]: standard output, standard error
  and the exit status. *)
Definition main_output (e : error) : string * string * Z :=
  if is_help e then (printHelp, "", 0%Z)
  else ("", printUsage +:+ "rclonewatch: " +:+ Error e +:+ nl +:+
        "Try 'rclonewatch --help' for more information." +:+ nl, 2%Z).
End Output.

(** ** What the text documents *)
Definition text_lines (text : string) : list string := split_on newline text.
Definition words (line : string) : list string := filter (fun w => w <> "") (split_on " " line).

(** The names of the options in a line that starts with one, and whether an argument follows. *)
Definition line_options (line : string) : list (string * bool) :=
  if has_prefix "  -" line then
    let ws := words line in
    let has_argument := negb (forallb (has_prefix "-") ws) in
    (fun w => (trim_byte "," (trim_byte "-" w), has_argument)) <$> filter (fun w => has_prefix "-" w = true) ws
  else [].

Definition documented : list (string * bool) := text_lines printHelp ≫= line_options.

(** Whether the option [name] is documented, and if so whether it takes an argument. *)
Definition documented_as (name : string) : option bool :=
  snd <$> find (fun o => fst o =? name)%string documented.

(** *** The examples *)

(** The lines of the text after the heading [heading]. *)
Fixpoint section_of (heading : string) (ls : list string) : list string :=
  match ls with
  | [] => []
  | l :: ls => if (l =? heading)%string then ls else section_of heading ls
  end.

(** A line that ends in a backslash goes on in the next one. *)
Fixpoint continued (ls : list string) : list (list string) :=
  match ls with
  | [] => []
  | l :: ls =>
      let ws := words l in
      if bool_decide (last ws = Some (str1 backslash)) then
        match continued ls with
        | next :: rest => (removelast ws ++ next) :: rest
        | [] => [removelast ws]
        end
      else ws :: continued ls
  end.

(** The arguments of the command lines for [program], their quotes taken away. *)
Definition commands_of (program : string) (ls : list (list string)) : list (list string) :=
  ls ≫= fun ws =>
    match ws with
    | w :: args => if (w =? program)%string then [trim_byte "'" <$> args] else []
    | [] => []
    end.

Definition help_examples : list (list string) :=
  commands_of "rclonewatch" (continued (section_of "Examples:" (text_lines printHelp))).

(** [main] takes the arguments as far as it can tell without the file system. *)
Definition accepted_arguments (args : list string) : bool :=
  match parse_arguments args with
  | Ok (c, set, [_; _]) => is_ok (check_config c set)
  | _ => false
  end.

(** A name as it can stand after the dashes of an argument. *)
Definition option_name (name : string) : bool := negb (bad_syntax name) && negb (contains_byte "=" name).

(** ** The text and the parser agree *)
Lemma cut_none sep s : contains_byte sep s = false -> cut sep s = (s, EmptyString, false).
Proof.
  induction s as [|c s IH]; [done|]. cbn [contains_byte cut]. intros [H1 H2]%orb_false_iff. rewrite Ascii.eqb_sym, H1. by rewrite IH.
Qed.

Lemma strip_dashes_name name : option_name name = true -> strip_dashes ("--" +:+ name) = FlagText name.
Proof. intros [H _]%andb_true_iff. by destruct name. Qed.

(** What [parse_flags] does with an option that has no value of its own. *)
Lemma parse_flags_name name args c set : option_name name = true ->
  parse_flags (("--" +:+ name) :: args) c set =
  if bool_decide (name ∈ bool_flags) then parse_flags args (set_bool name true c) ({[name]} ∪ set)
  else if bool_decide (name ∈ value_flags) then
    match args with
    | [] => Err (Errorf "flag needs an argument")
    | value :: rest => result_bind (set_value name value c) (fun c => parse_flags rest c ({[name]} ∪ set))
    end
  else if bool_decide (name ∈ ["help"; "h"]%stdpp) then Err ErrHelp
  else Err (Errorf "flag provided but not defined").
Proof.
  intros H. pose proof H as [Hb He]%andb_true_iff. cbn [parse_flags]. rewrite strip_dashes_name by done.
  rewrite negb_true_iff in Hb, He. rewrite Hb, cut_none by done.
  destruct (bool_decide (name ∈ bool_flags)); [done|]. destruct (bool_decide (name ∈ value_flags)).
  - destruct args as [|v rest]; [done|]. by destruct (set_value name v c).
  - destruct (name =? "help")%string eqn:E1; [by apply String.eqb_eq in E1 as ->|].
    destruct (name =? "h")%string eqn:E2; [by apply String.eqb_eq in E2 as ->|]. cbn [orb].
    rewrite bool_decide_eq_false_2; [done|]. apply String.eqb_neq in E1, E2. set_solver.
Qed.

Lemma documented_as_spec name :
  documented_as name =
  if bool_decide (name ∈ value_flags) then Some true
  else if bool_decide (name ∈ bool_flags) || bool_decide (name ∈ ["help"; "h"]%stdpp) then Some false
  else None.
Proof.
  unfold documented_as. let l := eval vm_compute in documented in change documented with l.
  cbn [find fst snd].
  repeat match goal with
  | |- context [String.eqb ?n name] => destruct (String.eqb_spec n name) as [<-|?]; [vm_compute; reflexivity|]
  end.
  cbn [fmap option_fmap option_map]. unfold value_flags, bool_flags.
  rewrite !bool_decide_eq_false_2; [done|rewrite !elem_of_cons, elem_of_nil; intuition congruence..].
Qed.

(** C39: for every option name, the parser does what the help text says of it: an option shown
    with an argument takes the next one (and needs it), one shown without takes none, the two
    names of the help option ask for help, and any other name is refused. *)
Theorem help_matches_parser name value rest c set : option_name name = true ->
  parse_flags (("--" +:+ name) :: value :: rest) c set =
  match documented_as name with
  | Some true => result_bind (set_value name value c) (fun c => parse_flags rest c ({[name]} ∪ set))
  | Some false =>
      if bool_decide (name ∈ ["help"; "h"]%stdpp) then Err ErrHelp
      else parse_flags (value :: rest) (set_bool name true c) ({[name]} ∪ set)
  | None => Err (Errorf "flag provided but not defined")
  end /\
  (parse_flags [("--" +:+ name)] c set = Err (Errorf "flag needs an argument") <-> documented_as name = Some true).
Proof.
  intros H. rewrite !parse_flags_name, documented_as_spec by done.
  destruct (bool_decide (name ∈ value_flags)) eqn:E1; reflect_bools.
  - assert (Hb : name ∉ bool_flags).
    { intros Hb. unfold bool_flags, value_flags in *. set_solver. }
    by rewrite bool_decide_eq_false_2.
  - destruct (bool_decide (name ∈ bool_flags)) eqn:E2; reflect_bools; cbn [orb].
    + rewrite bool_decide_eq_false_2; [by split|]. unfold bool_flags in *. set_solver.
    + by destruct (bool_decide (name ∈ ["help"; "h"]%stdpp)).
Qed.

Lemma help_matches_parser_witness :
  option_name "interval" = true /\
  documented_as "interval" = Some true /\
  parse_flags ["--interval"; "30s"; "--logs"] (default_config []) ∅ =
  result_bind (set_value "interval" "30s" (default_config [])) (fun c => parse_flags ["--logs"] c ({["interval"%stdpp]} ∪ ∅)).
Proof.
  split; [reflexivity|]. split; [vm_compute; reflexivity|].
  exact (proj1 (help_matches_parser "interval" "30s" ["--logs"] (default_config []) ∅ eq_refl)).
Defined.

(** The command lines of the text are accepted, and the one with a command runs it. *)
Theorem help_examples_accepted :
  length help_examples = 4 /\ forallb accepted_arguments help_examples = true /\
  (snd <$> (split_command <$> help_examples)) = [Some ["./build.sh"; "--release"]; None; None; None].
Proof. vm_compute. by split_and!. Qed.
