(* ===== verification/ConfigSpec.v ===== *)
(** * What an accepted command line guarantees

    The command line is read a second time, independently of the parser: [reads_options] says
    what an option looks like, and [configured] what the options given mean. A configuration
    that is accepted is what this reading says, keeps the rules between options
    ([permitted]), and takes the command after "--" as it is. *)

From Stdlib Require Import Ascii.
From S2P Require Import Prelude GoString GoTime Host HostLogic MemHost MemTree SyncData StateFile SyncPath Options SyncState Config.

Local Open Scope Z_scope.

(** ** Command lines, read independently of the parser *)

(** An option as it was given: its name, and its value unless it is a flag without one. *)
Definition given : Type := string * option string.

(** One option and what follows it: a dash or two, a known name, and a value after "=", or,
    unless the option is a flag, in the next argument. *)
Inductive reads_option : list string -> given -> list string -> Prop :=
| Reads_joined dashes name value rest :
  dashes ∈ ["-"; "--"]%stdpp -> name ∈ bool_flags ++ value_flags ->
  reads_option ((dashes +:+ name +:+ "=" +:+ value) :: rest) (name, Some value) rest
| Reads_flag dashes name rest :
  dashes ∈ ["-"; "--"]%stdpp -> name ∈ bool_flags -> reads_option ((dashes +:+ name) :: rest) (name, None) rest
| Reads_value dashes name value rest :
  dashes ∈ ["-"; "--"]%stdpp -> name ∈ value_flags ->
  reads_option ((dashes +:+ name) :: value :: rest) (name, Some value) rest.

(** Options up to an argument that is none. *)
Inductive reads_options : list string -> list given -> list string -> Prop :=
| Reads_end rest : (forall a, head rest = Some a -> has_prefix "-" a = false \/ a = "-"%stdpp) -> reads_options rest [] rest
| Reads_more args g args' gs rest :
  reads_option args g args' -> reads_options args' gs rest -> reads_options args (g :: gs) rest.

(** The options before the first "--" and the command after it, which is not empty. *)
Definition splits_into (args options cmd : list string) : Prop :=
  "--"%stdpp ∉ options /\ ((args = options ++ ("--"%stdpp :: cmd) /\ cmd <> []) \/ (args = options /\ cmd = [])).

Section Given.
Variable gs : list given.

Definition is_given (name : string) : Prop := name ∈ (fst <$> gs).
(** The last occurrence of an option counts. *)
Definition last_given (name : string) : option (option string) :=
  last (omap (fun g : given => if (fst g =? name)%string then Some (snd g) else None) gs).

Definition flag_is (name : string) (b : bool) : Prop :=
  match last_given name with
  | None => b = false
  | Some None => b = true
  | Some (Some v) => ParseBool v = Some b
  end.
Definition text_is (name t : string) : Prop := t = match last_given name with Some (Some v) => v | _ => "" end.
Definition duration_is (name : string) (d0 d : Z) : Prop :=
  match last_given name with Some (Some v) => ParseDuration v = Some d | _ => d = d0 end.
Definition wait_is (w : lockWait) : Prop :=
  match last_given "lock-wait" with
  | Some (Some v) => lockWait_Set zero_wait v = (w, None)
  | _ => w = zero_wait
  end.
(** The values of an option that may be repeated, in order. *)
Definition all_given (name : string) : list string :=
  omap (fun g : given => if (fst g =? name)%string then snd g else None) gs.

(** What the options say. *)
Record configured (c : config) : Prop := Configured {
  con_interval : duration_is "interval" 0 (interval c);
  con_ttl : duration_is "lock-ttl" defaultLockTTL (lockTimeout c);
  con_wait : wait_is (cfg_lockWait c);
  con_persistent : text_is "persistent-lock" (persistentLock c);
  con_excludes : cfg_excludes c = all_given "exclude";
  con_logs : flag_is "logs" (cfg_logs c);
  con_upload_only : flag_is "upload-only" (uploadOnly c);
  con_force : flag_is "force-delete-untracked-remote" (forceDeleteRemote c);
  con_incomplete : flag_is "fail-on-incomplete-sync" (cfg_failOnIncomplete c);
  con_consistent : flag_is "no-consistent-writes" (noConsistentWrites c);
  con_state : text_is "state-file" (stateFile c);
  con_state_local : text_is "state-file-local" (stateFileLocal c);
  con_state_remote : text_is "state-file-remote" (stateFileRemote c)
}.

(** The rules between options. *)
Record permitted (c : config) : Prop := Permitted {
  per_interval : 0 <= interval c;
  per_ttl : 0 < lockTimeout c;
  per_persistent : is_given "persistent-lock" -> persistentLock c <> "";
  per_state : is_given "state-file" -> ~ is_given "state-file-local" /\ ~ is_given "state-file-remote";
  per_pair : is_given "state-file-local" <-> is_given "state-file-remote";
  per_upload_only : uploadOnly c = true ->
    Forall (fun name => ~ is_given name)
      ["lock-ttl"; "lock-wait"; "persistent-lock"; "state-file"; "state-file-local"; "state-file-remote"]%stdpp /\
    forceDeleteRemote c = false /\ noConsistentWrites c = false /\ cfg_failOnIncomplete c = false
}.

(** The names of the two state files: one for both, one for each, or the default. *)
Definition names_are (c : config) (l r : string) : Prop :=
  is_given "state-file" /\ l = stateFile c /\ r = stateFile c \/
  is_given "state-file-local" /\ l = stateFileLocal c /\ r = stateFileRemote c \/
  ~ is_given "state-file" /\ ~ is_given "state-file-local" /\ l = defaultStateFile /\ r = defaultStateFile.
End Given.

#[export] Instance is_given_decision gs name : Decision (is_given gs name).
Proof. unfold is_given. apply _. Defined.

(** ** The parser follows the reading *)

Lemma last_given_snoc gs name v n :
  last_given (gs ++ [(name, v)]) n = if (name =? n)%string then Some v else last_given gs n.
Proof.
  unfold last_given. rewrite omap_app. cbn. destruct (name =? n)%string; [by rewrite last_snoc|by rewrite app_nil_r].
Qed.
Lemma all_given_snoc gs name v n :
  all_given (gs ++ [(name, v)]) n = all_given gs n ++ (if (name =? n)%string then option_list v else []).
Proof. unfold all_given. rewrite omap_app. cbn. by destruct (name =? n)%string, v. Qed.

(** Unfolds what an option more says, and decides the comparisons of constant names. *)
Ltac given_steps :=
  unfold duration_is, text_is, flag_is, wait_is in *; rewrite ?last_given_snoc, ?all_given_snoc; cbn.

Lemma configured_bool gs c name ov b :
  name ∈ bool_flags -> match ov with None => b = true | Some v => ParseBool v = Some b end ->
  configured gs c -> configured (gs ++ [(name, ov)]) (set_bool name b c).
Proof.
  intros Hn Hv [H1 H2 H3 H4 H5 H6 H7 H8 H9 H10 H11 H12 H13]. unfold bool_flags in Hn. rewrite !elem_of_cons, elem_of_nil in Hn.
  destruct_or! Hn; subst name; split; given_steps; rewrite ?app_nil_r; auto; by destruct ov.
Qed.

Lemma lockWait_Set_ok w w' v : lockWait_Set w v = (w', None) -> lockWait_Set zero_wait v = (w', None).
Proof. unfold lockWait_Set. repeat case_match; congruence. Qed.

Lemma configured_value gs c c' name v :
  name ∈ value_flags -> set_value name v c = Ok c' -> configured gs c -> configured (gs ++ [(name, Some v)]) c'.
Proof.
  intros Hn Hs [H1 H2 H3 H4 H5 H6 H7 H8 H9 H10 H11 H12 H13]. unfold value_flags in Hn. rewrite !elem_of_cons, elem_of_nil in Hn.
  destruct_or! Hn; subst name; unfold set_value in Hs; cbn in Hs.
  1,2: destruct (ParseDuration v) eqn:E; [|done].
  3: destruct (lockWait_Set (cfg_lockWait c) v) as [w [|]] eqn:E; [done|]; apply lockWait_Set_ok in E.
  5: unfold excludePatterns_Set in Hs; destruct (v =? "")%string; [done|].
  all: apply Ok_inj in Hs as <-; split; given_steps; rewrite ?app_nil_r; auto.
  by rewrite H5.
Qed.

Lemma configured_start cmd : configured [] (default_config cmd).
Proof. done. Qed.

Lemma cut_found sep s a b : cut sep s = (a, b, true) -> s = a +:+ String sep b.
Proof.
  revert a. induction s as [|d s IH]; intros a H; cbn in H; [done|]. destruct (Ascii.eqb d sep) eqn:E.
  - injection H as <- <-. apply Ascii.eqb_eq in E. by subst.
  - destruct (cut sep s) as [[x y] f]. injection H as <- -> ->. cbn. f_equal. by apply IH.
Qed.
Lemma cut_missing sep s a b : cut sep s = (a, b, false) -> s = a.
Proof.
  revert a. induction s as [|d s IH]; intros a H; cbn in H; [by injection H as <- _|]. destruct (Ascii.eqb d sep); [done|].
  destruct (cut sep s) as [[x y] f]. injection H as <- -> ->. cbn. f_equal. by apply IH.
Qed.

Lemma strip_dashes_text arg text : strip_dashes arg = FlagText text ->
  exists dashes, dashes ∈ ["-"; "--"]%stdpp /\ arg = dashes +:+ text.
Proof.
  destruct arg as [|c [|d arg]]; cbn; [done|by destruct c as [[] [] [] [] [] [] [] []]|].
  destruct (decide (c = "-"%char)) as [->|Hc]; [|by destruct c as [[] [] [] [] [] [] [] []]].
  destruct (decide (d = "-"%char)) as [->|Hd].
  - destruct arg as [|e arg]; [done|]. intros [= <-]. exists "--". split; [set_solver|done].
  - intros H. assert (FlagText (String d arg) = FlagText text) as [= <-] by (rewrite <- H; by destruct d as [[] [] [] [] [] [] [] []]).
    exists "-". split; [set_solver|done].
Qed.

Lemma strip_dashes_none arg : strip_dashes arg = NotFlag -> has_prefix "-" arg = false \/ arg = "-"%stdpp.
Proof.
  destruct arg as [|c arg]; [by left|]. destruct (decide (c = "-"%char)) as [->|Hc].
  - destruct arg as [|d arg]; [by right|]. destruct (decide (d = "-"%char)) as [->|Hd]; [by destruct arg|].
    intros H. exfalso. revert H. cbn. by destruct d as [[] [] [] [] [] [] [] []].
  - intros _. left. unfold has_prefix. cbn [String.prefix]. by destruct (Ascii.ascii_dec "-" c).
Qed.

Lemma strip_dashes_terminator arg : strip_dashes arg = Terminator -> arg = "--"%stdpp.
Proof.
  destruct arg as [|c [|d arg]]; cbn; [done|by destruct c as [[] [] [] [] [] [] [] []]|].
  destruct (decide (c = "-"%char)) as [->|Hc]; [|by destruct c as [[] [] [] [] [] [] [] []]].
  destruct (decide (d = "-"%char)) as [->|Hd]; [by destruct arg|by destruct d as [[] [] [] [] [] [] [] []]].
Qed.

Definition names_of (gs : list given) : gset string := list_to_set (fst <$> gs).
Lemma names_of_snoc gs g : names_of (gs ++ [g]) = {[fst g]} ∪ names_of gs.
Proof. unfold names_of. rewrite fmap_app, list_to_set_app_L. cbn. set_solver. Qed.

Lemma bool_decide_names gs name : bool_decide (name ∈ names_of gs) = bool_decide (is_given gs name).
Proof. apply bool_decide_ext. unfold names_of, is_given. by rewrite elem_of_list_to_set. Qed.

Lemma parse_flags_reads n : forall args c pre c' set' rest, (length args <= n)%nat -> "--"%stdpp ∉ args ->
  parse_flags args c (names_of pre) = Ok (c', set', rest) -> configured pre c ->
  exists gs, reads_options args gs rest /\ configured (pre ++ gs) c' /\ set' = names_of (pre ++ gs) /\
    command c' = command c /\ syncPaths c' = syncPaths c.
Proof.
  assert (Hnil : forall (pre : list given), pre ++ [] = pre) by (intros; apply app_nil_r).
  induction n as [|n IH]; intros args c pre c' set' rest Hn Hno H Hc; (destruct args as [|arg args];
    [injection H as <- <- <-; exists []; rewrite Hnil; split; [by constructor|done]|]); cbn [length] in Hn; [lia|].
  apply not_elem_of_cons in Hno as [Harg Hno]. cbn [parse_flags] in H.
  destruct (strip_dashes arg) as [| |text] eqn:Ed.
  { injection H as <- <- <-. exists []. rewrite Hnil. split; [|done]. constructor. intros a [= <-]. by apply strip_dashes_none. }
  { exfalso. apply strip_dashes_terminator in Ed. congruence. }
  destruct (strip_dashes_text _ _ Ed) as (dashes & Hdash & ->). destruct (bad_syntax text); [done|].
  destruct (cut "=" text) as [[name value] has] eqn:Ecut.
  assert (Hstep : forall v c1 args1, (length args1 <= n)%nat -> "--"%stdpp ∉ args1 ->
    reads_option ((dashes +:+ text) :: args) (name, v) args1 -> configured (pre ++ [(name, v)]) c1 ->
    command c1 = command c -> syncPaths c1 = syncPaths c ->
    parse_flags args1 c1 ({[name]} ∪ names_of pre) = Ok (c', set', rest) ->
    exists gs, reads_options ((dashes +:+ text) :: args) gs rest /\ configured (pre ++ gs) c' /\ set' = names_of (pre ++ gs) /\
      command c' = command c /\ syncPaths c' = syncPaths c).
  { intros v c1 args1 Hl Hno1 Hr Hc1 Hcmd Hsp Hp. change ({[name]} ∪ names_of pre) with ({[fst (name, v)]} ∪ names_of pre) in Hp.
    rewrite <- names_of_snoc in Hp. destruct (IH _ _ _ _ _ _ Hl Hno1 Hp Hc1) as (gs & H1 & H2 & H3 & H4 & H5).
    exists ((name, v) :: gs). rewrite (cons_middle (name, v)), (app_assoc pre). split; [by econstructor|]. split_and!; congruence || done. }
  assert (Hset : forall v c1, name ∈ value_flags -> set_value name v c = Ok c1 -> command c1 = command c /\ syncPaths c1 = syncPaths c).
  { intros v c1 _ Hs. unfold set_value in Hs. repeat case_match; try done; apply Ok_inj in Hs as <-; done. }
  case_bool_decide as Hb; [|case_bool_decide as Hv; [|by destruct (_ || _)]].
  - destruct has.
    + apply cut_found in Ecut as ->. destruct (ParseBool value) as [b|] eqn:Eb; [|done].
      eapply (Hstep (Some value) _ args); [lia|done| |by apply configured_bool|done|done|exact H].
      apply Reads_joined; [done|]. apply elem_of_app. by left.
    + apply cut_missing in Ecut as ->. eapply (Hstep None _ args); [lia|done|by apply Reads_flag|by apply configured_bool|done|done|exact H].
  - destruct has.
    + apply cut_found in Ecut as ->. destruct (set_value name value c) as [c1| |] eqn:Es; [|done..].
      destruct (Hset _ _ Hv Es). eapply (Hstep (Some value) _ args); [lia|done| |by eapply configured_value|done|done|exact H].
      apply Reads_joined; [done|]. apply elem_of_app. by right.
    + apply cut_missing in Ecut as ->. destruct args as [|v args]; [done|]. apply not_elem_of_cons in Hno as [_ Hno].
      destruct (set_value name v c) as [c1| |] eqn:Es; [|done..]. destruct (Hset _ _ Hv Es).
      eapply (Hstep (Some v) _ args); [simpl in Hn; lia|done|by apply Reads_value|by eapply configured_value|done|done|exact H].
Qed.

(** ** The command *)
Lemma split_command_app opts cmd : "--"%stdpp ∉ opts -> split_command (opts ++ "--"%stdpp :: cmd) = (opts, Some cmd).
Proof.
  induction opts as [|o opts IH]; intros H; cbn [split_command app]; [done|]. apply not_elem_of_cons in H as [Ho H].
  rewrite IH by done. destruct (o =? "--")%string eqn:E; [|done]. reflect_bools. by symmetry in E.
Qed.

Lemma split_command_spec args : "--"%stdpp ∉ fst (split_command args) /\
  match snd (split_command args) with
  | Some cmd => args = fst (split_command args) ++ "--"%stdpp :: cmd
  | None => args = fst (split_command args)
  end.
Proof.
  induction args as [|a args [IH1 IH2]]; cbn [split_command]; [by split; [apply not_elem_of_nil|]|].
  destruct (a =? "--")%string eqn:E; reflect_bools; [by subst; split; [apply not_elem_of_nil|]|].
  destruct (split_command args) as [opts [cmd|]]; cbn in *; (split; [by apply not_elem_of_cons|congruence]).
Qed.

Lemma parse_arguments_reads args c set rest : parse_arguments args = Ok (c, set, rest) ->
  exists options gs, splits_into args options (command c) /\ reads_options options gs rest /\ configured gs c /\
    set = names_of gs /\ syncPaths c = None.
Proof.
  unfold parse_arguments. destruct (split_command_spec args) as [Hno Hargs]. destruct (split_command args) as [opts cmd].
  cbn [fst snd] in *. intros H.
  assert (H' : parse_flags opts (default_config (default [] cmd)) (names_of []) = Ok (c, set, rest)) by (by destruct cmd as [[|]|]).
  destruct (parse_flags_reads _ _ _ [] _ _ _ (le_n _) Hno H' (configured_start _)) as (gs & H1 & H2 & H3 & H4 & H5).
  exists opts, gs. split; [|by split_and!]. rewrite H4. split; [done|]. destruct cmd as [[|a cmd]|]; [done|by left|by right].
Qed.

(** ** The checks *)
Lemma check_config_ok gs c : check_config c (names_of gs) = Ok tt -> permitted gs c.
Proof.
  unfold check_config. intros H. rewrite !bool_decide_names in H.
  destruct (interval c <? 0) eqn:E1; [done|]. destruct (lockTimeout c <=? 0) eqn:E2; [done|].
  destruct (bool_decide _ && (persistentLock c =? "")%string) eqn:E3; [done|].
  destruct (bool_decide (is_given gs "state-file") && _) eqn:E4; [done|].
  destruct (negb (Bool.eqb _ _)) eqn:E5; [done|]. apply negb_false_iff, Bool.eqb_prop in E5.
  assert (Hpair : is_given gs "state-file-local" <-> is_given gs "state-file-remote") by (revert E5; by repeat case_bool_decide).
  reflect_bools. split; [lia|lia| | |done|].
  - intros Hg He. rewrite bool_decide_true, He in E3 by done. done.
  - intros Hg. rewrite bool_decide_true in E4 by done. cbn in E4. by reflect_bools.
  - intros Hu. rewrite Hu in H. repeat case_match; try done. reflect_bools. split_and!; [|done..].
    repeat constructor; try done. by rewrite <- Hpair.
Qed.

Lemma state_file_names_are gs c l r : state_file_names c (names_of gs) = (l, r) -> names_are gs c l r.
Proof.
  unfold state_file_names, names_are. rewrite !bool_decide_names. repeat case_bool_decide; intros [= <- <-]; [by left|by right; left|by right; right].
Qed.

(** ** The places *)

(** What the run asked the file system: the working directory for a relative argument, whether
    the source is a directory, and its resolved path. *)
Definition source_events (argument resolved : string) (t : list event) : Prop :=
  (is_abs argument = true /\
   t = [Event (Stat (clean argument)) (inl true); Event (EvalSymlinks (clean argument)) (inl resolved)]) \/
  exists wd, is_abs argument = false /\
   t = [Event Getwd (inl wd); Event (Stat (path_join [wd; argument])) (inl true);
        Event (EvalSymlinks (path_join [wd; argument])) (inl resolved)].

(** The state files beside the source and the destination, unless the program only uploads. *)
Definition state_paths_are (gs : list given) (c : config) : Prop :=
  if uploadOnly c then syncPaths c = None
  else exists l r paths, names_are gs c l r /\ syncPaths c = Some paths /\
         resolveSyncFilePaths "/" (cfg_source c) (cfg_dest c) l r = Ok paths.

(** The configuration [c] is what the command line says, and the rules allow it. *)
Definition accepted (args : list string) (c : config) (t : list event) : Prop :=
  exists options gs source, splits_into args options (command c) /\
    reads_options options gs [source; cfg_dest c] /\ configured gs c /\ permitted gs c /\
    source_events source (cfg_source c) t /\ state_paths_are gs c.

Section Accepted.
Context {W V : Type} `{!Host W}.

Lemma parseConfig_wp args x :
  wp (parseConfig args) (fun r x' t => forall c, r = Ok c -> accepted args c t) (W := W) (V := V) x.
Proof.
  unfold parseConfig. apply wp_bind, wp_lift. destruct (parse_arguments args) as [[[c set] rest]|e|] eqn:Ep; cbn [after]; [|done..].
  apply parse_arguments_reads in Ep as (options & gs & Hsplit & Hreads & Hconf & -> & Hpaths).
  apply wp_bind, wp_lift. destruct (check_config c _) as [[]|e|] eqn:Ec; cbn [after]; [|done..].
  apply check_config_ok in Ec. destruct rest as [|a0 [|a1 [|]]]; try (apply wp_throw; done).
  assert (Hdone : forall paths resolved t, source_events a0 resolved t -> state_paths_are gs (set_places paths resolved a1 c) ->
    accepted args (set_places paths resolved a1 c) t).
  { intros paths resolved t Ht Hsp. exists options, gs, a0. split; [done|]. split; [done|].
    split; [by destruct Hconf; split|]. split; [by destruct Ec; split|done]. }
  assert (Hrest : forall source x' t0, (forall resolved,
      source_events a0 resolved (t0 ++ [Event (Stat source) (inl true); Event (EvalSymlinks source) (inl resolved)])) ->
    wp (isDir ← wrap "source folder" (obtain (Stat source));
        fail_if (negb isDir) (Errorf "source folder is not a directory");;
        source ← wrap "resolve source folder" (obtain (EvalSymlinks source));
        if uploadOnly c then ret (set_places None source a1 c)
        else
          let '(localRelative, remoteRelative) := state_file_names c (names_of gs) in
          paths ← wrap "resolve state file paths" (lift (resolveSyncFilePaths "/" source a1 localRelative remoteRelative));
          ret (set_places (Some paths) source a1 c))
      (fun r _ t => forall c, r = Ok c -> accepted args c (t0 ++ t)) (W := W) (V := V) x').
  { intros source x' t0 Ht0. apply wp_bind, wp_wrap, wp_obtain; [|done]. intros d w2. cbn [after].
    apply wp_bind, wp_fail_if; [done|]. intros Hd. cbn [after]. apply negb_false_iff in Hd as ->.
    apply wp_bind, wp_wrap, wp_obtain; [|done]. intros resolved w3. cbn [after]. specialize (Ht0 resolved).
    destruct (uploadOnly c) eqn:Eu.
    - apply wp_ret. intros c' [= <-]. rewrite app_nil_r. apply Hdone; [done|]. unfold state_paths_are. cbn. by rewrite Eu.
    - destruct (state_file_names c _) as [l r] eqn:En. apply wp_bind, wp_wrap, wp_lift.
      destruct (resolveSyncFilePaths _ _ _ _ _) as [paths| |] eqn:Er; cbn [after]; [|done..].
      apply wp_ret. intros c' [= <-]. apply Hdone; [done|]. unfold state_paths_are. cbn. rewrite Eu.
      exists l, r, paths. split; [by apply state_file_names_are in En|done]. }
  unfold Abs. apply wp_bind, wp_wrap. destruct (is_abs a0) eqn:Ea.
  - apply wp_ret. cbn [after]. apply (Hrest _ _ []). intros resolved. left. done.
  - apply wp_bind, wp_obtain; [intros wd w|done]. cbn [after]. apply wp_ret. cbn [after].
    apply (Hrest _ _ [Event Getwd (inl wd)]). intros resolved. right. by exists wd.
Qed.
End Accepted.

(** ** Repeated options *)
Lemma parse_exclude p args c set : p <> "" ->
  parse_flags ("--exclude"%stdpp :: p :: args) c set =
  parse_flags args (set_times (interval c) (lockTimeout c) (cfg_lockWait c) (cfg_excludes c ++ [p]) c) ({["exclude"%stdpp]} ∪ set).
Proof. intros Hp. apply String.eqb_neq in Hp. cbn. unfold excludePatterns_Set. by rewrite Hp. Qed.

(** Options that are given one after the other: every pattern is appended. *)
Definition exclude_options (ps : list string) : list string := ps ≫= fun p => ["--exclude"; p].

Lemma parse_excludes ps : Forall (fun p => p <> "") ps -> forall rest c set,
  exists c' set', parse_flags (exclude_options ps ++ rest) c set = parse_flags rest c' set' /\
    cfg_excludes c' = cfg_excludes c ++ ps /\ command c' = command c.
Proof.
  induction 1 as [|p ps Hp Hps IH]; intros rest c set.
  { exists c, set. by rewrite app_nil_r. }
  unfold exclude_options. cbn [mbind list_bind app]. rewrite parse_exclude by done.
  edestruct IH as (c' & set' & E & H1 & H2). exists c', set'. split; [exact E|]. split; [|exact H2].
  rewrite H1. cbn. by rewrite <- (assoc_L (++)).
Qed.

Lemma no_dashes_exclude_options ps : "--"%stdpp ∉ ps -> "--"%stdpp ∉ exclude_options ps.
Proof.
  unfold exclude_options. intros H. rewrite list_elem_of_bind. intros (p & Hin & Hp).
  rewrite !elem_of_cons, elem_of_nil in Hin. destruct Hin as [Hin|[Hin|[]]]; [done|by subst].
Qed.

(** ** Guarantees *)

(** C38: the configuration of a command line that is accepted is what the command line says. The
    wrapped command is what follows the first "--", not empty; before it stand options, read
    as in [reads_options], and then the source and the destination, nothing else. Every field
    is the last value given for its option, all values for --exclude, or the default; the
    source is the resolved path of a directory; and the state files are those of the chosen
    names. The rules hold: no negative interval, a positive lock TTL, an owner that is not
    empty where one is given, --state-file alone or the other two together, and with
    --upload-only none of the options that concern the lock or the state. *)
Theorem accepted_configuration (W V : Type) (H : Host W) args (x : st W V) c :
  res (parseConfig args x) = Ok c -> accepted args c (trace (parseConfig args x)).
Proof. intros Hr. exact (parseConfig_wp args x c Hr). Qed.

(** A command line whose options do not parse, or break a rule among them, ends the program
    with status 2, or 0 when help was asked for, before it has looked at anything. *)
Theorem rejected_options_exit_first (W V : Type) (H : Host W) args (x : st W V) e :
  parse_arguments args = Err e \/
  (exists c set rest, parse_arguments args = Ok (c, set, rest) /\ check_config c set = Err e) ->
  main_config args x = Outcome (Ok (inl (if is_help e then 0 else 2))) x [].
Proof.
  intros [E | (c & set & rest & E & E')]; unfold main_config, parseConfig, bind, try, lift, M_bind, mbind;
    cbn; rewrite E; [done|]. cbn. by rewrite E'.
Qed.

Definition demo_arguments : list string :=
  ["--interval"; "30s"; "--exclude"; "*.tmp"; "/src"; "remote:dir"; "--"; "make"; "all"].
Definition demo_tree : tree := Tree [("/src"%stdpp, (1, true))] ∅ 1 [].
Definition demo_config : config :=
  match res (parseConfig demo_arguments (St demo_tree tt)) with Ok c => c | _ => default_config [] end.

Lemma accepted_configuration_witness :
  accepted demo_arguments demo_config (trace (parseConfig demo_arguments (St demo_tree tt))).
Proof.
  apply (accepted_configuration tree unit tree_host demo_arguments (St demo_tree tt) demo_config).
  vm_compute. reflexivity.
Defined.

(** Exclusion patterns given by repeated options are kept in the order given, and the
    command is taken as it stands after "--", its own options included. *)
Theorem repeated_excludes_in_order ps source destination cmd :
  Forall (fun p => p <> "" /\ p <> "--") ps -> cmd <> [] ->
  strip_dashes source = NotFlag -> source <> "--" -> destination <> "--" ->
  exists c set,
    parse_arguments (exclude_options ps ++ [source; destination] ++ "--"%stdpp :: cmd) =
      Ok (c, set, [source; destination]) /\ cfg_excludes c = ps /\ command c = cmd.
Proof.
  intros Hps Hcmd Hsource Hs Hd.
  assert (Hno : "--"%stdpp ∉ exclude_options ps ++ [source; destination]).
  { rewrite elem_of_app. intros [Hin|Hin].
    - apply no_dashes_exclude_options in Hin; [done|]. intros Hp.
      rewrite Forall_forall in Hps. by destruct (Hps _ Hp).
    - set_solver. }
  unfold parse_arguments. rewrite (assoc_L (++)), split_command_app by done.
  assert (Hps' : Forall (fun p => p <> "") ps) by (by eapply Forall_impl; [exact Hps|intros p []]).
  destruct (parse_excludes ps Hps' [source; destination] (default_config cmd) ∅) as (c & set & E & H1 & H2).
  exists c, set. split; [|done]. destruct cmd as [|a cmd]; [done|]. etrans; [exact E|].
  cbn [parse_flags]. by rewrite Hsource.
Qed.

Lemma repeated_excludes_in_order_witness : exists c set,
  parse_arguments ["--exclude"; "*.o"; "--exclude"; "/tmp"; "src"; "s3:b"; "--"; "make"; "--jobs"] =
    Ok (c, set, ["src"%stdpp; "s3:b"%stdpp]) /\ cfg_excludes c = ["*.o"%stdpp; "/tmp"%stdpp] /\
    command c = ["make"%stdpp; "--jobs"%stdpp].
Proof.
  apply (repeated_excludes_in_order ["*.o"; "/tmp"] "src" "s3:b" ["make"; "--jobs"]); try done.
  by repeat constructor.
Defined.
