(* ===== verification/TestVectors.v ===== *)
(** * The repository's test vectors

    What the definitions compute on the inputs of [src]'s own tests: [options_test.go],
    [syncpath_test.go], [subtree_test.go], [backend_test.go], [syncstate_test.go] and the
    [parseConfig] tests of [main_test.go]. *)

From S2P Require Import Prelude GoString GoTime Host MemTree SyncData StateFile SyncPath Options Filters Payload Backend Config.

Local Open Scope Z_scope.

(** Each answer on the left is the one on the right. *)
Notation "'vectors' f 'give' l" := (map (fun v => f (fst v)) l = map snd l)
  (at level 70, f at level 9, l at level 9).

(** ** [options_test.go] *)
Definition waits (value : string) : option (Z * bool * bool) :=
  let '(w, err) := lockWait_Set zero_wait value in
  match err with
  | None => Some (duration w, infinite w, explicit w)
  | Some _ => None
  end.

Example TestLockWaitParsing : vectors waits give
  [("0", Some (0, false, true)); ("30s", Some (30 * second, false, true));
   ("1h30m", Some (90 * minute, false, true)); ("inf", Some (0, true, true));
   ("1ms", None); ("-1s", None); ("later", None)].
Proof. vm_compute. reflexivity. Qed.

Example TestExcludePatterns :
  excludePatterns_Set [] "*.tmp" = Ok ["*.tmp"] /\
  excludePatterns_Set ["*.tmp"] "/cache/**" = Ok ["*.tmp"; "/cache/**"] /\
  excludePatterns_String (Some ["*.tmp"; "/cache/**"]) = "*.tmp,/cache/**" /\
  is_ok (excludePatterns_Set ["*.tmp"] "") = false.
Proof. vm_compute. split_and!; reflexivity. Qed.

(** ** [syncpath_test.go] *)
Definition resolved (names : string * string * string) : option syncFilePaths :=
  let '(destination, l, r) := names in
  match resolveSyncFilePaths "/" "/tmp/t/source" destination l r with Ok p => Some p | _ => None end.

Example TestResolveStateFilePaths : vectors resolved give
  [(("remote:bucket/root", ".meta/local.json", ".meta/remote.json"),
    Some (SyncFilePaths "/tmp/t/source/.meta/local.json" "remote:bucket/root/.meta/remote.json"
            ".meta/local.json" ".meta/remote.json"));
   (("remote:bucket/root", "../local.json", "../remote.json"),
    Some (SyncFilePaths "/tmp/t/local.json" "remote:bucket/remote.json" "" ""));
   (("/tmp/u/destination", defaultStateFile, defaultStateFile),
    Some (SyncFilePaths "/tmp/t/source/.rcw-state" "/tmp/u/destination/.rcw-state"
            ".rcw-state" ".rcw-state"))].
Proof. vm_compute. reflexivity. Qed.

Example TestResolveStateFilePathsRejectsInvalidNames :
  map (fun names => resolved ("remote:root", fst names, snd names))
    [("", "state"); ("state", ""); ("/absolute", "state"); ("state", "/absolute");
     (".", "state"); ("state", "."); ("state" +:+ nl +:+ "file", "state");
     ("state", "state" +:+ str1 (chr 13) +:+ "file")] = repeat None 8.
Proof. vm_compute. reflexivity. Qed.

Example TestStatePathsWithQuotedConnectionOptions :
  let d := str1 dquote in
  let roots := [":s3,endpoint='http://localhost:9000',provider=Minio:bucket/";
                "remote,description='it''s: a test',type=" +:+ d +:+ "s3" +:+ d +:+ ":bucket/"] in
  map (fun root => option_map (fun p => (remote p, remoteFilter p))
                     (resolved (root +:+ "root", "state", "../state"))) roots
  = map (fun root => Some (root +:+ "state", ""%stdpp)) roots.
Proof. vm_compute. reflexivity. Qed.

Definition filtered : syncFilePaths := SyncFilePaths "" "" ".local/state" ".remote/state".

Example TestSyncStatePayloadFilters :
  payloadFilters filtered = [".local/state.rcw-tmp-*"; ".local/state"; ".remote/state"] /\
  vectors (protects filtered) give
    [(".local/state", (true, false)); (".remote", (false, true)); (".local/state.rcw-tmp-123", (true, false))].
Proof. vm_compute. split; reflexivity. Qed.

(** ** [subtree_test.go] *)
Example TestSubtreeScopesCollapseOverlappingChanges :
  collapse ["a/b/file"; "a-b/file"; "a"; "a/b"; "ab/file"; "a"] = ["a"; "a-b/file"; "ab/file"].
Proof. vm_compute. reflexivity. Qed.

Example TestNonUTF8Scope :
  scope_file ["changed"] true =
  "+ /changed" +:+ nl +:+ "+ /changed/**" +:+ nl +:+ "- /**" +:+ nl.
Proof. vm_compute. reflexivity. Qed.

(** ** [backend_test.go] *)
Definition supported (version : string) : bool := is_ok (parse_version ("rclone " +:+ version +:+ nl)).

Example TestUseConsistentWrites_versions : vectors supported give
  [("v1.73.0", true); ("v1.74.1-DEV", true); ("v1.72.2", false); ("v1.60.1", false)].
Proof. vm_compute. reflexivity. Qed.

Example TestUseConsistentWrites_listed :
  listed_backend "remote" "remote: s3" = Some "s3" /\ listed_backend "remote" "remote: local" = Some "local".
Proof. vm_compute. split; reflexivity. Qed.

(** ** [syncstate_test.go] *)
Example TestResponseETag :
  responseETag ("2026/09/10 DEBUG : HTTP RESPONSE" +:+ nl +:+ "HTTP/1.1 200 OK" +:+ nl +:+
                "Etag: " +:+ str1 dquote +:+ "opaque-etag" +:+ str1 dquote +:+ nl) = "opaque-etag".
Proof. vm_compute. reflexivity. Qed.

(** ** [main_test.go] *)

(** [main] up to [run] on a tree with the source folder. *)
Definition folder_tree : tree := Tree [("/tmp/source"%stdpp, (1, true))] ∅ 1 [].
Definition configured (args : list string) : option config :=
  match res (main_config (V := unit) args (St folder_tree tt)) with
  | Ok (inr c) => Some c
  | _ => None
  end.
Definition status (args : list string) : option Z :=
  match res (main_config (V := unit) args (St folder_tree tt)) with
  | Ok (inl code) => Some code
  | _ => None
  end.

Definition folders : list string := ["/tmp/source"; "remote:destination"].

Example TestParseConfigLockTTL :
  vectors (fun args => lockTimeout <$> configured (args ++ folders)) give
  [(["--lock-ttl"; "0"], None); (["--lock-ttl"; "-1s"], None); ([], Some defaultLockTTL);
   (["--lock-ttl"; "3m"], Some (3 * minute))].
Proof. vm_compute. reflexivity. Qed.

Example TestParseConfigRejectsRemovedOptions :
  map (fun args => status (args ++ folders))
  [["--use-lock"; "state.json"]; ["--reconcile-remote-changes"]; ["--sync-remote"];
   ["--sync-file"; "state.json"]; ["--sync-file-local"; "state.json"]; ["--sync-file-remote"; "state.json"]] = repeat (Some 2) 6.
Proof. vm_compute. reflexivity. Qed.

Example TestParseConfigUploadOnlyRejectsSyncOptions :
  map (fun args => status ("--upload-only" :: args ++ folders))
  [["--lock-ttl"; "1m"]; ["--lock-wait"; "1m"]; ["--persistent-lock"; "sequence"];
   ["--no-consistent-writes"]; ["--fail-on-incomplete-sync"]; ["--force-delete-untracked-remote"];
   ["--state-file"; "state.json"]] = repeat (Some 2) 7 /\
  (infinite ∘ cfg_lockWait <$> configured (["--lock-wait"; "inf"] ++ folders)) = Some true /\
  status (["--persistent-lock"; ""] ++ folders) = Some 2.
Proof. vm_compute. split_and!; reflexivity. Qed.

Example TestParseConfigWrappedCommand :
  ((fun c => (persistentLock c, command c)) <$>
     configured (["--persistent-lock"; "sequence"] ++ folders ++ ["--"; "sh"; "-c"; "exit 7"]))
  = Some ("sequence", ["sh"; "-c"; "exit 7"]) /\
  status (folders ++ ["--"]) = Some 2.
Proof. vm_compute. split; reflexivity. Qed.

Example TestParseConfigExcludes :
  (cfg_excludes <$> configured (["--exclude"; "*.tmp"; "--exclude"; "/cache/**"] ++ folders))
  = Some ["*.tmp"; "/cache/**"] /\
  status (["--exclude"; ""] ++ folders) = Some 2.
Proof. vm_compute. split; reflexivity. Qed.

Example TestParseConfigStateFileOptions :
  map (fun args => status (args ++ folders))
  [["--state-file"; "one"; "--state-file-local"; "two"; "--state-file-remote"; "three"];
   ["--state-file-local"; "two"]; ["--state-file-remote"; "three"];
   ["--fail-on-incomplete-sync"; "--state-file"; "/absolute"]] = repeat (Some 2) 4 /\
  (syncPaths <$> configured ["--lock-ttl"; "1m"; "--fail-on-incomplete-sync"; "--state-file-local"; "../local-state";
                             "--state-file-remote"; "../remote-state"; "/tmp/source"; "remote:destination/root"])
  = Some (Some (SyncFilePaths "/tmp/local-state" "remote:destination/remote-state" "" "")).
Proof. vm_compute. split_and!; reflexivity. Qed.

Example help_is_no_failure : status ["--help"] = Some 0 /\ status ["-h"; "x"] = Some 0 /\ status [] = Some 2.
Proof. vm_compute. split_and!; reflexivity. Qed.
