(* ===== verification/MainLoop.v ===== *)
(** * The event loop of [run] ([main.go])

    The loop is a state machine: each turn first decides whether the program is done, then
    receives one message of the channels that are open.  [receive] is the body of the
    [select], branch by branch; what a branch does outside the loop's variables is a list of
    [effect]s.  [turn] is the test at the top of the loop. *)

From S2P Require Import Prelude GoString GoTime Host SyncData SyncPath Filters SyncState Acquire Session Payload.

Local Open Scope Z_scope.

Definition initialRetryDelay : Z := second.
Definition maxRetryDelay : Z := minute.

Definition SIGTERM : Z := 15.
Definition SIGKILL : Z := 9.

(** ** State *)
Record loop := Loop {
  active : bool;
  stopping : bool;
  watcherClosed : bool;
  finalAttempted : bool;
  syncReady : bool;
  abandoned : bool;
  watcherErr : option error;
  lockErr : option error;
  lastSyncErr : option error;
  wrappedExitCode : Z;
  signalsSeen : Z;
  pending_ : gmap string change;
  commandRunning : bool;    (* [commandDone != nil] *)
  timerArmed : bool;        (* [timerC != nil] *)
  eventsOpen : bool;        (* [eventC != nil] *)
  errorsOpen : bool;        (* [errorC != nil] *)
  locksOpen : bool;         (* [lockErrors != nil] *)
  retryDelay : Z
}.

(** Assignments to the variables of the loop. *)
Definition set_active b s := Loop b (stopping s) (watcherClosed s) (finalAttempted s) (syncReady s) (abandoned s) (watcherErr s) (lockErr s) (lastSyncErr s) (wrappedExitCode s) (signalsSeen s) (pending_ s) (commandRunning s) (timerArmed s) (eventsOpen s) (errorsOpen s) (locksOpen s) (retryDelay s).
Definition set_stopping b s := Loop (active s) b (watcherClosed s) (finalAttempted s) (syncReady s) (abandoned s) (watcherErr s) (lockErr s) (lastSyncErr s) (wrappedExitCode s) (signalsSeen s) (pending_ s) (commandRunning s) (timerArmed s) (eventsOpen s) (errorsOpen s) (locksOpen s) (retryDelay s).
Definition set_watcherClosed b s := Loop (active s) (stopping s) b (finalAttempted s) (syncReady s) (abandoned s) (watcherErr s) (lockErr s) (lastSyncErr s) (wrappedExitCode s) (signalsSeen s) (pending_ s) (commandRunning s) (timerArmed s) (eventsOpen s) (errorsOpen s) (locksOpen s) (retryDelay s).
Definition set_finalAttempted b s := Loop (active s) (stopping s) (watcherClosed s) b (syncReady s) (abandoned s) (watcherErr s) (lockErr s) (lastSyncErr s) (wrappedExitCode s) (signalsSeen s) (pending_ s) (commandRunning s) (timerArmed s) (eventsOpen s) (errorsOpen s) (locksOpen s) (retryDelay s).
Definition set_syncReady b s := Loop (active s) (stopping s) (watcherClosed s) (finalAttempted s) b (abandoned s) (watcherErr s) (lockErr s) (lastSyncErr s) (wrappedExitCode s) (signalsSeen s) (pending_ s) (commandRunning s) (timerArmed s) (eventsOpen s) (errorsOpen s) (locksOpen s) (retryDelay s).
Definition set_abandoned b s := Loop (active s) (stopping s) (watcherClosed s) (finalAttempted s) (syncReady s) b (watcherErr s) (lockErr s) (lastSyncErr s) (wrappedExitCode s) (signalsSeen s) (pending_ s) (commandRunning s) (timerArmed s) (eventsOpen s) (errorsOpen s) (locksOpen s) (retryDelay s).
Definition set_watcherErr e s := Loop (active s) (stopping s) (watcherClosed s) (finalAttempted s) (syncReady s) (abandoned s) e (lockErr s) (lastSyncErr s) (wrappedExitCode s) (signalsSeen s) (pending_ s) (commandRunning s) (timerArmed s) (eventsOpen s) (errorsOpen s) (locksOpen s) (retryDelay s).
Definition set_lockErr e s := Loop (active s) (stopping s) (watcherClosed s) (finalAttempted s) (syncReady s) (abandoned s) (watcherErr s) e (lastSyncErr s) (wrappedExitCode s) (signalsSeen s) (pending_ s) (commandRunning s) (timerArmed s) (eventsOpen s) (errorsOpen s) (locksOpen s) (retryDelay s).
Definition set_lastSyncErr e s := Loop (active s) (stopping s) (watcherClosed s) (finalAttempted s) (syncReady s) (abandoned s) (watcherErr s) (lockErr s) e (wrappedExitCode s) (signalsSeen s) (pending_ s) (commandRunning s) (timerArmed s) (eventsOpen s) (errorsOpen s) (locksOpen s) (retryDelay s).
Definition set_wrappedExitCode c s := Loop (active s) (stopping s) (watcherClosed s) (finalAttempted s) (syncReady s) (abandoned s) (watcherErr s) (lockErr s) (lastSyncErr s) c (signalsSeen s) (pending_ s) (commandRunning s) (timerArmed s) (eventsOpen s) (errorsOpen s) (locksOpen s) (retryDelay s).
Definition set_signalsSeen n s := Loop (active s) (stopping s) (watcherClosed s) (finalAttempted s) (syncReady s) (abandoned s) (watcherErr s) (lockErr s) (lastSyncErr s) (wrappedExitCode s) n (pending_ s) (commandRunning s) (timerArmed s) (eventsOpen s) (errorsOpen s) (locksOpen s) (retryDelay s).
Definition set_pending_ p s := Loop (active s) (stopping s) (watcherClosed s) (finalAttempted s) (syncReady s) (abandoned s) (watcherErr s) (lockErr s) (lastSyncErr s) (wrappedExitCode s) (signalsSeen s) p (commandRunning s) (timerArmed s) (eventsOpen s) (errorsOpen s) (locksOpen s) (retryDelay s).
Definition set_commandRunning b s := Loop (active s) (stopping s) (watcherClosed s) (finalAttempted s) (syncReady s) (abandoned s) (watcherErr s) (lockErr s) (lastSyncErr s) (wrappedExitCode s) (signalsSeen s) (pending_ s) b (timerArmed s) (eventsOpen s) (errorsOpen s) (locksOpen s) (retryDelay s).
Definition set_timerArmed b s := Loop (active s) (stopping s) (watcherClosed s) (finalAttempted s) (syncReady s) (abandoned s) (watcherErr s) (lockErr s) (lastSyncErr s) (wrappedExitCode s) (signalsSeen s) (pending_ s) (commandRunning s) b (eventsOpen s) (errorsOpen s) (locksOpen s) (retryDelay s).
Definition set_eventsOpen b s := Loop (active s) (stopping s) (watcherClosed s) (finalAttempted s) (syncReady s) (abandoned s) (watcherErr s) (lockErr s) (lastSyncErr s) (wrappedExitCode s) (signalsSeen s) (pending_ s) (commandRunning s) (timerArmed s) b (errorsOpen s) (locksOpen s) (retryDelay s).
Definition set_errorsOpen b s := Loop (active s) (stopping s) (watcherClosed s) (finalAttempted s) (syncReady s) (abandoned s) (watcherErr s) (lockErr s) (lastSyncErr s) (wrappedExitCode s) (signalsSeen s) (pending_ s) (commandRunning s) (timerArmed s) (eventsOpen s) b (locksOpen s) (retryDelay s).
Definition set_locksOpen b s := Loop (active s) (stopping s) (watcherClosed s) (finalAttempted s) (syncReady s) (abandoned s) (watcherErr s) (lockErr s) (lastSyncErr s) (wrappedExitCode s) (signalsSeen s) (pending_ s) (commandRunning s) (timerArmed s) (eventsOpen s) (errorsOpen s) b (retryDelay s).
Definition set_retryDelay d s := Loop (active s) (stopping s) (watcherClosed s) (finalAttempted s) (syncReady s) (abandoned s) (watcherErr s) (lockErr s) (lastSyncErr s) (wrappedExitCode s) (signalsSeen s) (pending_ s) (commandRunning s) (timerArmed s) (eventsOpen s) (errorsOpen s) (locksOpen s) d.

(** What a turn does besides updating the loop's variables. *)
Inductive effect :=
| StartSync (b : batch) (final : bool)      (* a goroutine that runs [Sync] *)
| CancelRunner
| CloseWatcher
| SignalCommand (sig : Z)
| ArmTimer (d : Z).

(** The messages of the channels. *)
Inductive message :=
| Item (c : change)
| EventsClosed
| WatcherError (e : option error)
| ErrorsClosed
| LockError (e : option error)
| LocksClosed
| TimerFired
| SyncResult (b : batch) (e : option error)
| CommandDone (code : Z)
| Signal (sig : Z).

Section Loop.
Variable cfg_interval : Z.
Variable state : option syncState.

(** Which channels can deliver. *)
Definition enabled (s : loop) (m : message) : bool :=
  match m with
  | Item _ | EventsClosed => eventsOpen s
  | WatcherError _ | ErrorsClosed => errorsOpen s
  | LockError _ | LocksClosed => locksOpen s
  | TimerFired => timerArmed s
  | SyncResult _ _ => active s
  | CommandDone _ => commandRunning s
  | Signal _ => true
  end.

Definition startSync (final : bool) (s : loop) : loop * list effect :=
  if active s || bool_decide (pending_ s = ∅) then (s, [])
  else
    let b := map_to_list (pending_ s) in
    let s := set_active true (set_pending_ ∅ s) in
    ((if final then set_finalAttempted true s else s), [StartSync b final]).

Definition abortForLockFailure (e : error) (s : loop) : loop * list effect :=
  match lockErr s with
  | Some _ => (s, [])
  | None =>
      (set_syncReady false (set_timerArmed false (set_stopping true (set_lockErr (Some e) s))),
       [CancelRunner] ++ (if commandRunning s then [SignalCommand SIGKILL] else []) ++ [CloseWatcher])
  end.

Definition receive_item (c : change) (s : loop) : loop * list effect :=
  let s := set_pending_ (queueChange state (pending_ s) c) s in
  if syncReady s && negb (active s) && negb (stopping s)
  then startSync false (set_syncReady false s) else (s, []).

Definition receive_watcherErr (e : option error) (s : loop) : loop * list effect :=
  match e, watcherErr s with
  | Some e, None =>
      (set_timerArmed false (set_stopping true (set_watcherErr (Some e) s)),
       (if commandRunning s then [SignalCommand SIGTERM] else []) ++ [CloseWatcher])
  | _, _ => (s, [])
  end.

Definition receive_timer (s : loop) : loop * list effect :=
  let s := set_timerArmed false s in
  if bool_decide (pending_ s = ∅) then (set_syncReady true s, []) else startSync false s.

Definition receive_result (b : batch) (err : option error) (s : loop) : loop * list effect :=
  let s := set_active false s in
  let s := if abandoned s then s else set_lastSyncErr err s in
  match err with
  | Some e =>
      if is_ownership_lost e then abortForLockFailure e s
      else
        let s := set_pending_ (mergeFailedBatch (pending_ s) b) s in
        if stopping s then (s, [])
        else
          let d := retryDelay s in
          (set_retryDelay (if maxRetryDelay <? d * 2 then maxRetryDelay else d * 2)
             (set_timerArmed true (set_syncReady false s)), [ArmTimer d])
  | None =>
      let s := set_retryDelay initialRetryDelay s in
      if negb (stopping s) && (0 <? cfg_interval)
      then (set_timerArmed true (set_syncReady false s), [ArmTimer cfg_interval])
      else (s, [])
  end.

Definition receive_exit (code : Z) (s : loop) : loop * list effect :=
  let s := set_wrappedExitCode code (set_commandRunning false s) in
  ((if stopping s then s else set_syncReady false (set_timerArmed false (set_stopping true s))), [CloseWatcher]).

Definition receive_signal (sig : Z) (s : loop) : loop * list effect :=
  let forwarded := if commandRunning s then [SignalCommand sig] else [] in
  let s := if commandRunning s then s else set_signalsSeen (signalsSeen s + 1) s in
  if negb (stopping s) then
    (set_syncReady false (set_timerArmed false (set_stopping true s)),
     forwarded ++ (if commandRunning s then [] else [CloseWatcher]))
  else if commandRunning s || abandoned s then (s, forwarded)
  else if signalsSeen s <? 2 then (s, forwarded)
  else
    (set_lastSyncErr (Some (Errorf "abandoned after repeated signal"))
       (set_finalAttempted true (set_abandoned true s)), forwarded ++ [CancelRunner]).

(** The [select]. *)
Definition receive (m : message) (s : loop) : loop * list effect :=
  match m with
  | Item c => receive_item c s
  | EventsClosed => (set_eventsOpen false (set_watcherClosed true s), [])
  | WatcherError e => receive_watcherErr e s
  | ErrorsClosed => (set_errorsOpen false s, [])
  | LockError (Some e) => abortForLockFailure e s
  | LockError None => (s, [])
  | LocksClosed => (set_locksOpen false s, [])
  | TimerFired => receive_timer s
  | SyncResult b e => receive_result b e s
  | CommandDone code => receive_exit code s
  | Signal sig => receive_signal sig s
  end.

(** The test at the top of the loop. *)
Inductive decision :=
| Continue
| FinalSync
| Exit (code : Z)
| Finish (code : Z).     (* end the session first, if there is one *)

Definition turn (s : loop) : decision :=
  if stopping s && watcherClosed s && negb (errorsOpen s) && negb (active s) && negb (commandRunning s) then
    match lockErr s with
    | Some _ => Exit 1
    | None =>
        if negb (bool_decide (pending_ s = ∅)) && negb (finalAttempted s) then FinalSync
        else
          match watcherErr s with
          | Some _ => Exit 1
          | None => if bool_decide (pending_ s = ∅) then Finish (wrappedExitCode s) else Exit 1
          end
    end
  else Continue.

(** The top of a turn that goes on. *)
Definition begin_turn (s : loop) : loop * list effect :=
  match turn s with FinalSync => startSync true s | _ => (s, []) end.

(** A turn that does not exit: the effects of its beginning, then one message. *)
Inductive step (s : loop) (m : message) : loop -> list effect -> list effect -> Prop :=
| Step s1 e1 s2 e2 :
  (turn s = Continue \/ turn s = FinalSync) ->
  begin_turn s = (s1, e1) -> enabled s1 m = true -> receive m s1 = (s2, e2) ->
  step s m s2 e1 e2.

(** The variables when the loop is entered. *)
Definition initial_loop (pending : gmap string change) (command_running start_failed : bool) (code : Z) : loop :=
  Loop false start_failed false false false false None None None code 0 pending command_running
    ((0 <? cfg_interval) && negb start_failed) true true (match state with Some _ => true | None => false end)
    initialRetryDelay.
End Loop.

(** ** Exit codes *)

(** [exec.ExitError.ExitCode] is -1 unless the process exited. *)
Definition commandExitCode (e : option (option wait_status)) : Z :=
  match e with
  | None => 0
  | Some None => 1                       (* not an [exec.ExitError] *)
  | Some (Some (Exited code)) => if 0 <=? code then code else 1
  | Some (Some (Signaled sig)) => 128 + sig
  | Some (Some (Stopped | OtherStatus)) => 1
  end.

Definition waitStatusExitCode (s : wait_status) : Z :=
  match s with Exited code => code | Signaled sig => 128 + sig | Stopped | OtherStatus => 1 end.

(** [None] is a signal that is no [syscall.Signal]. *)
Definition signalExitCode (sig : option Z) : Z := match sig with Some n => 128 + n | None => 1 end.

Definition startExitCode (not_found : bool) (e : error) : Z := if not_found || is_not_exist e then 127 else 126.

(** ** Around the loop *)

(** A failed start ([Acquire] or [initializeWatching]): an interruption is reported as the
    signal's status. *)
Definition startup_status (e : error) : Z :=
  match as_interrupted e with Some sig => signalExitCode (Some sig) | None => 1 end.

(** [initializeWatching]: reconciliation runs in a goroutine while events are queued. *)
Record startup := Startup {
  su_pending : gmap string change;
  su_watcherErr : option error;
  su_interrupted : option Z;
  su_eventsOpen : bool;
  su_errorsOpen : bool;
  su_cancelled : bool            (* [cancelCommands] was called *)
}.

Inductive startup_message :=
| SuItem (c : change)
| SuEventsClosed
| SuWatcherError (e : option error)
| SuErrorsClosed
| SuSignal (sig : Z).

Definition startup_enabled (s : startup) (m : startup_message) : bool :=
  match m with
  | SuItem _ | SuEventsClosed => su_eventsOpen s
  | SuWatcherError _ | SuErrorsClosed => su_errorsOpen s
  | SuSignal _ => true
  end.

Definition startup_receive (state : option syncState) (m : startup_message) (s : startup) : startup :=
  match m with
  | SuItem c => Startup (queueChange state (su_pending s) c) (su_watcherErr s) (su_interrupted s) (su_eventsOpen s) (su_errorsOpen s) (su_cancelled s)
  | SuEventsClosed => Startup (su_pending s) (su_watcherErr s) (su_interrupted s) false (su_errorsOpen s) (su_cancelled s)
  | SuWatcherError e =>
      match e, su_watcherErr s with
      | Some e, None => Startup (su_pending s) (Some e) (su_interrupted s) (su_eventsOpen s) (su_errorsOpen s) true
      | _, _ => s
      end
  | SuErrorsClosed => Startup (su_pending s) (su_watcherErr s) (su_interrupted s) (su_eventsOpen s) false (su_cancelled s)
  | SuSignal sig =>
      match su_interrupted s with
      | None => Startup (su_pending s) (su_watcherErr s) (Some sig) (su_eventsOpen s) (su_errorsOpen s) true
      | Some _ => s
      end
  end.

(** The message on [done]: what is returned for the result of [InitializeGeneration]. *)
Definition startup_result (s : startup) (r : option error) : option error :=
  match su_interrupted s with
  | Some sig => Some (ErrInterrupted sig "reconciling startup state")
  | None =>
      match su_watcherErr s with
      | Some e => Some (Wrapf "watch during initialization" e)
      | None => r
      end
  end.

(** Leaving [run] after the loop: the end of the session if [finish], then the deferred
    [Close]. *)
Section Conclude.
Context {W : Type} `{!Host W}.

Definition finish_session (st : syncState) (code : Z) : M W syncVars Z :=
  r ← try (FinishSession st);
  ret (match r with inl _ => code | inr _ => 1 end).

(** The deferred function sets the result of [run]. *)
Definition deferred_close (st : syncState) (code : Z) : M W syncVars Z :=
  r ← try (Close st);
  ret (match r with inl _ => code | inr _ => 1 end).

Definition conclude (state : option syncState) (finish : bool) (code : Z) : M W syncVars Z :=
  match state with
  | None => ret code
  | Some st =>
      code ← (if finish then finish_session st code else ret code);
      deferred_close st code
  end.
End Conclude.
