(* ===== verification/ExitSpec.v ===== *)
(** * Leaving the program

    After the loop the session is ended and the lock released, in this order, and the exit
    status is the wrapped command's only when both succeeded. *)

From S2P Require Import Prelude GoString Host HostLogic MemHost SyncData SyncState SyncStateSpec Session SessionSpec Fixtures MainLoop.

Local Open Scope Z_scope.

(** The end of the session, when it is asked for. *)
Definition c_end (s : syncState) (finish : bool) : contract syncVars :=
  if finish then c_finish s else c_skip.

Definition exit_status (code : Z) (ended released : result error unit) : result error Z :=
  Ok (if is_ok ended && is_ok released then code else 1).

(** What [conclude] does: the end, then the release, whatever the end answered. *)
Definition concluded (s : syncState) (finish : bool) (code : Z)
    (v : syncVars) (r : result error Z) (v' : syncVars) (l : list action) : Prop :=
  exists r1 v1 l1 r2 l2, c_end s finish v r1 v1 l1 /\ c_close s v1 r2 v' l2 /\
    l = l1 ++ l2 /\ r = exit_status code r1 r2.

Section Exit.
Context {W : Type} `{!Host W}.
Variable s : syncState.

Lemma c_finish_not_fuel v v' l : ~ c_finish s v OutOfFuel v' l.
Proof.
  intros [[[e [[=] _]] _]|(d & b & _ & H)]. destruct b; [by apply saves_not_fuel in H|].
  by destruct H as [[e [[=] _]] _].
Qed.
Lemma c_close_not_fuel v v' l : ~ c_close s v OutOfFuel v' l.
Proof. intros [H _]. by destruct (releaseErr v'). Qed.

Lemma conclude_wp finish code (x : st W syncVars) :
  wp (conclude (Some s) finish code) (fun r x' t =>
    exists l, acts t l /\ concluded s finish code (vars x) r (vars x') l) x.
Proof.
  destruct x as [w0 v0]. cbn [vars].
  assert (Hclose : forall code' r1 v1 l1 w t1, c_end s finish v0 r1 v1 l1 -> acts t1 l1 ->
    code' = (if is_ok r1 then code else 1) ->
    wp (r ← try (Close s); ret (match r with inl _ => code' | inr _ => 1 end)) (fun r x' t =>
      exists l, acts (t1 ++ t) l /\ concluded s finish code v0 r (vars x') l) (St w v1)).
  { intros code' r1 v1 l1 w t1 H1 Ht1 ->. apply wp_bind, wp_try.
    eapply satisfies_wp; [apply Close_satisfies|]. intros r2 w2 v2 l2 t2 H2 Ht2. cbn [vars] in H2.
    destruct r2 as [[]|e|]; [..|by apply c_close_not_fuel in H2]; cbn [after]; apply wp_ret;
      exists (l1 ++ l2); (split; [rewrite app_nil_r; by apply acts_app|]); eexists r1, v1, l1, _, l2;
      (split_and!; [done|exact H2|done|]); unfold exit_status; cbn; by destruct (is_ok r1). }
  unfold conclude. destruct finish.
  - apply wp_bind, wp_bind, wp_try. eapply satisfies_wp; [apply FinishSession_satisfies|].
    intros r1 w1 v1 l1 t1 H1 Ht1.
    destruct r1 as [[]|e|]; [..|by apply c_finish_not_fuel in H1]; cbn [after]; apply wp_ret; cbn [after];
      (eapply wp_mono; [eapply Hclose; [exact H1|exact Ht1|done]|]); intros; by rewrite app_nil_r.
  - apply wp_bind, wp_ret. cbn [after]. by apply (Hclose code (Ok tt) v0 [] w0 []); [|apply acts_nil|].
Qed.
End Exit.

(** C34: on the way out the session is ended first, if the run got that far, and then the lock
    is released whether or not that worked; the exit status is the command's exactly when both
    succeeded, and 1 otherwise. *)
Theorem exit_ends_then_releases (W : Type) (H : Host W) s finish code (x : st W syncVars) :
  let o := conclude (Some s) finish code x in
  exists l, acts (trace o) l /\ concluded s finish code (vars x) (res o) (vars (out_state o)) l.
Proof. apply (conclude_wp s finish code x). Qed.
