(* ===== verification/Run.v ===== *)
(** * The program up to its loop ([run] and [initializeWatching] in [main.go])

    [run] configures the sync state and acquires the lock, starts the watcher, reconciles the
    two sides while watching, and starts the wrapped command.  Every early return runs the
    deferred calls: it closes the watcher and releases the lock. *)

From S2P Require Import Prelude GoString GoTime Host SyncData StateFile SyncPath Options SyncState Acquire Session Payload Watcher Backend Config MainLoop.

Local Open Scope Z_scope.

(** The variables of the sync state and those of the watcher. *)
Record run_vars := RunVars { rv_sync : syncVars; rv_watch : watcher }.

Definition initial_run_vars : run_vars := RunVars initial_vars new_watcher.

(** What reaches the program from its other goroutines while it starts: the messages received
    during the reconciliation, and what a look at the error channel of the lock's refresh loop
    finds after it. *)
Record environment := Environment {
  startup_messages : list startup_message;
  lock_failed : option error
}.

Inductive beginning :=
| Leave (code : Z)
| Enter (state : option syncState) (pending : gmap string change).

Section Run.
Context {W : Type} `{!Host W}.

(** A component's computation in the program. *)
Definition on_sync {A} (m : M W syncVars A) : M W run_vars A := fun x =>
  let o := m (St (host x) (rv_sync (vars x))) in
  Outcome (res o) (St (host (out_state o)) (RunVars (vars (out_state o)) (rv_watch (vars x)))) (trace o).
Definition on_watch {A} (m : M W watcher A) : M W run_vars A := fun x =>
  let o := m (St (host x) (rv_watch (vars x))) in
  Outcome (res o) (St (host (out_state o)) (RunVars (rv_sync (vars x)) (vars (out_state o)))) (trace o).

Definition error_of {A} (r : A + error) : option error := match r with inl _ => None | inr e => Some e end.

(** The loop of [initializeWatching] up to the message on [done]. A message is received from a
    channel that is open. *)
Definition startup_loop (st : syncState) (messages : list startup_message) : startup :=
  foldl (fun su m => if startup_enabled su m then startup_receive (Some st) m su else su)
    (Startup ∅ None None true true false) messages.

(** The pending changes and the error. A message that cancels the commands does so while the
    reconciliation runs; when it takes effect there is up to the host's answers. *)
Definition initializeWatching (st : syncState) (messages : list startup_message) :
    M W syncVars (gmap string change * option error) :=
  r ← try (InitializeGeneration st);
  let su := startup_loop st messages in
  (if su_cancelled su then cancelCommands st else ret tt);;
  ret (su_pending su, startup_result su (error_of r)).

Variable unicode_ToUpper : Z -> Z.
Variable fuel : nat.
Variable cfg : config.

(** The sync state with its lock, [None] with [--upload-only]; [inl] is an exit status. *)
Definition configure : M W syncVars (Z + option syncState) :=
  if uploadOnly cfg then ret (inr None)
  else
    consistent ← try (useConsistentWrites unicode_ToUpper (cfg_dest cfg) (noConsistentWrites cfg));
    match consistent with
    | inr _ => ret (inl 1)
    | inl consistent =>
        state ← try (newSyncState cfg (default (SyncFilePaths "" "" "" "") (syncPaths cfg)) consistent);
        match state with
        | inr _ => ret (inl 1)
        | inl state =>
            acquired ← try (Acquire state fuel);
            match acquired with
            | inr e => ret (inl (startup_status e))
            | inl _ => ret (inr (Some state))
            end
        end
    end.

(** The changes that are pending after the start; [inl] is an exit status. *)
Definition start_watching (env : environment) (state : option syncState) :
    M W run_vars (Z + gmap string change) :=
  watched ← try (on_watch (newWatcher fuel (cfg_source cfg)));
  match watched with
  | inr _ => ret (inl 1)
  | inl _ =>
      match state with
      | None => ret (inr ∅)
      | Some st =>
          '(pending, err) ← on_sync (initializeWatching st (startup_messages env));
          match err with
          | Some e => on_watch w_Close;; ret (inl (startup_status e))
          | None =>
              match lock_failed env with
              | Some _ => on_watch w_Close;; ret (inl 1)
              | None => ret (inr pending)
              end
          end
      end
  end.

Definition prepare (env : environment) : M W run_vars beginning :=
  configured ← on_sync configure;
  match configured with
  | inl code => ret (Leave code)
  | inr state =>
      started ← start_watching env state;
      match started with
      | inl code => code ← on_sync (conclude state false code); ret (Leave code)
      | inr pending => ret (Enter state pending)
      end
  end.
End Run.

(** Starting the wrapped command: is it running, did it fail to start, and with which status.
    [start] is the error of [Start], and whether it is [exec.ErrNotFound]. *)
Definition start_command (cfg : config) (start : option (bool * error)) : bool * bool * Z :=
  match command cfg, start with
  | [], _ => (false, false, 0)
  | _, None => (true, false, 0)
  | _, Some (not_found, e) => (false, true, startExitCode not_found e)
  end.

(** The loop's variables when it is entered. *)
Definition enter_loop (cfg : config) (start : option (bool * error)) (state : option syncState)
    (pending : gmap string change) : loop :=
  let '(running, failed, code) := start_command cfg start in
  initial_loop (interval cfg) state pending running failed code.
