(* ===== verification/Terminal.v ===== *)
(** * The command's terminal ([terminal_linux.go])

    When rclonewatch owns the foreground terminal, the wrapped command gets it, and [wait]
    plays the shell's part: it takes the terminal back when the command stops or ends, stops
    its own job when the command stops, and continues the command with the job. *)

From S2P Require Import Prelude GoString Host HostLogic MemHost MainLoop.

Local Open Scope Z_scope.

Definition SIGTSTP : Z := 20.
Definition SIGCONT : Z := 18.
Definition SIGTTOU : Z := 22.

(** [fd] is standard input, the file that [Tcgetpgrp] and [Tcsetpgrp] are about; [pgrp] is
    rclonewatch's own process group. *)
Record terminal := Terminal { fd : Z; pgrp : Z }.

(** [os.Stdin.Fd()]. *)
Definition stdin : Z := 0.

Section Terminal.
Context {W V : Type} `{!Host W}.
#[local] Abbreviation P := (M W V).

Definition foregroundTerminal : P (option terminal) :=
  foreground ← sys Tcgetpgrp;
  match foreground with
  | inr _ => ret None
  | inl f =>
      own ← sys Getpgrp;
      if negb (f =? own) then ret None
      else own ← sys Getpgrp; ret (Some (Terminal stdin own))
  end.

Variable t : terminal.

(** The attributes the command is started with. *)
Definition terminal_configure : process_attr := ProcessAttr true true (fd t).

Definition terminal_started : P unit := sys (IgnoreSignal SIGTTOU).

Definition reclaim (pid : Z) : P unit :=
  foreground ← sys Tcgetpgrp;
  match foreground with
  | inl f => if f =? pid then sys (Tcsetpgrp (pgrp t)) else ret tt
  | inr _ => ret tt
  end.

Definition suspend : P unit :=
  ignored ← sys (IsIgnored SIGTSTP);
  if (ignored : bool) then ret tt
  else
    r ← sys (Kill 0 SIGTSTP);
    match r with Some _ => ret tt | None => sys (AwaitSignal SIGCONT) end.

(** The command is continued; it gets the terminal only if the job was resumed in the
  foreground. *)
Definition resume (pid : Z) : P unit :=
  foreground ← sys Tcgetpgrp;
  match foreground with
  | inl f => if f =? pgrp t then sys (Tcsetpgrp pid) else ret tt
  | inr _ => ret tt
  end;;
  sys (Kill (- pid) SIGCONT);;
  ret tt.

Fixpoint terminal_wait (fuel : nat) (pid : Z) : P Z :=
  match fuel with
  | O => out_of_fuel
  | S fuel =>
      status ← sys (Wait4 pid);
      match status with
      | inr Interrupted => terminal_wait fuel pid
      | inr _ => reclaim pid;; ret 1
      | inl Stopped =>
          reclaim pid;;
          suspend;;
          resume pid;;
          terminal_wait fuel pid
      | inl status => reclaim pid;; ret (waitStatusExitCode status)
      end
  end.
End Terminal.

(** ** What [wait] leaves behind *)

(** Who holds the terminal after the last event that tells; [None] when it cannot be told. *)
Definition holder (h : option Z) (e : event) : option Z :=
  match ev_op e in op A return A -> _ with
  | Tcgetpgrp => fun a => match a with inl f => Some f | inr _ => None end
  | Tcsetpgrp g => fun _ => Some g
  | _ => fun _ => h
  end (ev_answer e).

(** Whether the command has stopped and was not continued since. *)
Definition stopped_now (pid : Z) (n : bool) (e : event) : bool :=
  match ev_op e in op A return A -> _ with
  | Wait4 _ => fun a => match a with inl Stopped => true | _ => n end
  | Kill p sig => fun _ => if (p =? - pid) && (sig =? SIGCONT) then false else n
  | _ => fun _ => n
  end (ev_answer e).

(** The last answer of [Wait4]. *)
Definition reaped (s : option (wait_status + sys_error)) (e : event)
    : option (wait_status + sys_error) :=
  match ev_op e in op A return A -> _ with
  | Wait4 _ => fun a => Some a
  | _ => fun _ => s
  end (ev_answer e).

(** The exit code the last answer of [Wait4] stands for. *)
Definition reaped_code (s : option (wait_status + sys_error)) : option Z :=
  match s with
  | Some (inl Stopped) | Some (inr Interrupted) | None => None
  | Some (inl status) => Some (waitStatusExitCode status)
  | Some (inr _) => Some 1
  end.

Section TerminalSpec.
Context {W V : Type} `{!Host W}.
Variable t : terminal.
Variable pid : Z.

(** After these events, whatever went before, the command does not hold the terminal. *)
Definition released (tr : list event) : Prop :=
  forall h, foldl holder h tr <> Some pid \/ pgrp t = pid.

Definition waited (code : Z) (tr : list event) : Prop :=
  released tr /\ foldl (stopped_now pid) false tr = false /\
  forall s, reaped_code (foldl reaped s tr) = Some code.

(** The rounds of these events that do not end the wait: the command stopped, or the wait was
  interrupted. *)
Definition goes_round (e : event) : bool :=
  match reaped None e, reaped_code (reaped None e) with Some _, None => true | _, _ => false end.
Definition rounds (tr : list event) : nat := length (List.filter goes_round tr).

Definition wait_post (fuel : nat) (r : result error Z) (tr : list event) : Prop :=
  (exists code, r = Ok code /\ waited code tr) \/ (r = OutOfFuel /\ (fuel <= rounds tr)%nat).

(** Events that are nothing to the command's state. *)
Definition aside (tr : list event) : Prop :=
  (forall n, foldl (stopped_now pid) n tr = n) /\ forall s, foldl reaped s tr = s.

Lemma reclaim_wp x :
  wp (reclaim (V := V) t pid) (fun r _ tr => r = Ok tt /\ released tr /\ aside tr) x.
Proof.
  unfold reclaim. apply wp_bind, wp_sys. intros [f|e] w; cbn [after].
  - destruct (f =? pid) eqn:E; reflect_bools.
    + apply wp_sys. intros [] w'. split_and!; [done| |done].
      intros h. cbn. destruct (decide (pgrp t = pid)); [by right|left; congruence].
    + apply wp_ret. split_and!; [done| |done]. intros h. left. cbn. congruence.
  - apply wp_ret. split_and!; [done| |done]. by left.
Qed.

(** Stopping rclonewatch's own job does not continue the command. *)
Lemma stop_job_aside (a : option sys_error) : pid <> 0 -> aside [Event (Kill 0 SIGTSTP) a].
Proof.
  intros Hpid. split; [|done]. intros n. cbn [foldl stopped_now ev_op ev_answer].
  by replace (0 =? - pid) with false by lia.
Qed.
Lemma aside_app t1 t2 : aside t1 -> aside t2 -> aside (t1 ++ t2).
Proof.
  intros [Hn1 Hs1] [Hn2 Hs2].
  split; intros ?; rewrite foldl_app; [by rewrite Hn1, Hn2|by rewrite Hs1, Hs2].
Qed.

Lemma suspend_wp x : pid <> 0 ->
  wp (suspend (W := W) (V := V)) (fun r _ tr => r = Ok tt /\ aside tr) x.
Proof.
  intros Hpid. unfold suspend. apply wp_bind, wp_sys. intros b w; cbn [after].
  destruct b; [by apply wp_ret|].
  apply wp_bind, wp_sys. intros [e|] w'; cbn [after].
  - apply wp_ret. split; [done|]. apply (aside_app [_] [_]); [done|]. by apply stop_job_aside.
  - apply wp_sys. intros [] w''. split; [done|]. apply (aside_app [_] [_; _]); [done|].
    apply (aside_app [_] [_]); [by apply stop_job_aside|done].
Qed.

Lemma resume_wp x :
  wp (resume (V := V) t pid)
    (fun r _ tr => r = Ok tt /\ (forall n, foldl (stopped_now pid) n tr = false) /\
                   forall s, foldl reaped s tr = s) x.
Proof.
  assert (Heq : (- pid =? - pid) = true) by lia.
  unfold resume. apply wp_bind, wp_sys. intros [f|e] w; cbn [after]; [case_match|].
  2,3: apply wp_bind, wp_ret; cbn [after].
  1: apply wp_bind, wp_sys; intros [] w'; cbn [after].
  all: apply wp_bind, wp_sys; intros a w2; cbn [after]; apply wp_ret.
  all: split_and!; [done|intros n; cbn; by rewrite Heq|done].
Qed.

Lemma waited_once answer code tr :
  reaped_code (Some answer) = Some code -> released tr -> aside tr ->
  waited code (Event (Wait4 pid) answer :: tr).
Proof.
  intros Hcode Hr [Hn Hs]. split_and!.
  - intros h. apply Hr.
  - cbn [foldl]. rewrite Hn. by destruct answer as [[]|].
  - intros s. cbn [foldl]. by rewrite Hs.
Qed.

Lemma waited_after tr1 code tr :
  foldl (stopped_now pid) false tr1 = false -> waited code tr -> waited code (tr1 ++ tr).
Proof.
  intros Hn (H1 & H2 & H3). split_and!.
  - intros h. rewrite foldl_app. apply H1.
  - by rewrite foldl_app, Hn.
  - intros s. rewrite foldl_app. apply H3.
Qed.

(** The end of a wait: the command is reaped, and the terminal taken back. *)
Lemma reap_wp answer code x :
  reaped_code (Some answer) = Some code ->
  wp (reclaim (V := V) t pid;; ret code)
    (fun r _ tr => exists c, r = Ok c /\ waited c (Event (Wait4 pid) answer :: tr)) x.
Proof.
  intros Hcode. eapply wp_bind, wp_mono; [apply reclaim_wp|]. intros r w tr (-> & Hr & Ha).
  cbn [after]. apply wp_ret. exists code. split; [done|]. rewrite app_nil_r. by apply waited_once.
Qed.

Lemma wait_post_after fuel answer t1 r tr :
  goes_round (Event (Wait4 pid) answer) = true ->
  foldl (stopped_now pid) false (Event (Wait4 pid) answer :: t1) = false ->
  wait_post fuel r tr -> wait_post (S fuel) r ((Event (Wait4 pid) answer :: t1) ++ tr).
Proof.
  intros Hround Hn [(code & -> & H)|[-> H]].
  - left. exists code. split; [done|]. by apply waited_after.
  - right. split; [done|]. unfold rounds in *. cbn [app List.filter]. rewrite Hround. cbn [length].
    rewrite List.filter_app, length_app. lia.
Qed.

Lemma terminal_wait_wp fuel x : pid <> 0 ->
  wp (terminal_wait (V := V) t fuel pid) (fun r _ tr => wait_post fuel r tr) x.
Proof.
  intros Hpid. revert x. induction fuel as [|fuel IH]; intros x; cbn [terminal_wait].
  { apply wp_out_of_fuel. right. split; [done|]. apply Nat.le_0_l. }
  apply wp_bind, wp_sys. intros answer w; cbn [after].
  assert (Hend : forall code, reaped_code (Some answer) = Some code ->
    wp (reclaim (V := V) t pid;; ret code)
      (fun r _ tr => wait_post (S fuel) r (Event (Wait4 pid) answer :: tr)) (St w (vars x))).
  { intros code Hcode. eapply wp_mono; [by apply reap_wp|]. by left. }
  destruct answer as [[c|sig| |]|[]]; try by eapply Hend.
  - (* the command stops: the job stops with it, and continues it *)
    eapply wp_bind, wp_mono; [apply reclaim_wp|]. intros r1 x1 t1 (-> & _ & Ha1). cbn [after].
    eapply wp_bind, wp_mono; [by apply suspend_wp|]. intros r2 x2 t2 (-> & Ha2). cbn [after].
    eapply wp_bind, wp_mono; [apply resume_wp|]. intros r3 x3 t3 (-> & Hn3 & _). cbn [after].
    eapply wp_mono; [apply IH|]. intros r x' tr H. 
    rewrite (assoc_L (++) t2), (assoc_L (++) t1).
    apply (wait_post_after _ _ (t1 ++ t2 ++ t3)); [done| |exact H].
    cbn [foldl]. by rewrite !foldl_app, Hn3.
  - (* interrupted: wait again *)
    eapply wp_mono; [apply IH|]. intros r x' tr H. by apply (wait_post_after _ _ []).
Qed.

(** Waiting for the wrapped command on its terminal returns as soon as [Wait4] answers
  anything but a stop of the command or an interruption, so the fuel only has to exceed the
  number of those; the exit code it returns is that of the last answer, every stop of the
  command before it was followed by continuing the command, and on return the last that was
  seen or done to the terminal does not leave it with the command. *)
Theorem terminal_wait_returns fuel x : pid <> 0 ->
  wp (terminal_wait (V := V) t fuel pid) (fun r _ tr =>
    ((rounds tr < fuel)%nat -> exists code, r = Ok code) /\
    forall code, r = Ok code ->
      (forall s, reaped_code (foldl reaped s tr) = Some code) /\
      foldl (stopped_now pid) false tr = false /\
      forall h, foldl holder h tr <> Some pid \/ pgrp t = pid) x.
Proof.
  intros Hpid. eapply wp_mono; [by apply terminal_wait_wp|].
  intros r x' tr [(code & -> & H1 & H2 & H3)|[-> H]]; (split; [|by intros ? [= <-]]).
  - by exists code.
  - intros ?. lia.
Qed.
End TerminalSpec.

(** A run on the example host, whose command exits with status 0. *)
Example terminal_wait_returns_witness :
  wp (terminal_wait (V := unit) (Terminal 0 100) 3 42) (fun r _ tr =>
    ((rounds tr < 3)%nat -> exists code, r = Ok code) /\
    forall code, r = Ok code ->
      (forall s, reaped_code (foldl reaped s tr) = Some code) /\
      foldl (stopped_now 42) false tr = false /\
      forall h, foldl holder h tr <> Some 42 \/ pgrp (Terminal 0 100) = 42)
    (St (fresh_mem ∅ None false) tt).
Proof. apply terminal_wait_returns. intros [=]. Defined.
