(* ===== verification/Command.v ===== *)
(** * The wrapped command's process ([run] in [main.go], with [terminal_linux.go])

    [run] starts the command in a process group of its own; when rclonewatch owns the
    foreground of its terminal, the command's group gets it. A goroutine waits for the command
    and sends its status to the loop; the loop signals the whole group. *)

From S2P Require Import Prelude GoString GoTime Host HostLogic MemHost SyncData StateFile SyncPath Options SyncState Config MainLoop Run Terminal.

Local Open Scope Z_scope.

(** A command that runs: its process, and the terminal it was given. *)
Record wrapped_command := Wrapped { wrapped_pid : Z; tty : option terminal }.

Inductive launched :=
| NoCommand
| Running (wrapped : wrapped_command)
| NotStarted (wrappedExitCode : Z).        (* the watcher is closed, the loop stops *)

Section Command.
Context {W V : Type} `{!Host W}.
#[local] Abbreviation P := (M W V).

Definition launch_command (cfg : config) : P launched :=
  match command cfg with
  | [] => ret NoCommand
  | args =>
      foreground ← foregroundTerminal;
      let attr := match foreground with Some t => terminal_configure t | None => ProcessAttr true false 0 end in
      r ← sys (StartProcess args attr);
      match r with
      | inr (not_found, e) => ret (NotStarted (startExitCode not_found e))
      | inl pid =>
          match foreground with
          | Some t => terminal_started;; ret (Running (Wrapped pid (Some t)))
          | None => ret (Running (Wrapped pid None))
          end
      end
  end.

(** The goroutine that waits: what it sends on [done]. *)
Definition await_command (fuel : nat) (w : wrapped_command) : P Z :=
  match tty w with
  | Some t => terminal_wait t fuel (wrapped_pid w)
  | None => err ← sys (WaitProcess (wrapped_pid w)); ret (commandExitCode err)
  end.

(** The signal is [None] when it is no [syscall.Signal]; [Process.Signal] refuses it. *)
Definition signalCommandGroup (pid : Z) (signal : option Z) : P (option sys_error) :=
  match signal with
  | None => ret (Some (OtherError "os: unsupported signal type"))
  | Some sig => sys (Kill (- pid) sig)
  end.

(** The command from its start to the status it leaves to the loop, [None] without a command. *)
Definition run_command (fuel : nat) (cfg : config) : P (option Z) :=
  l ← launch_command cfg;
  match l with
  | NoCommand => ret None
  | Running w => code ← await_command fuel w; ret (Some code)
  | NotStarted code => ret (Some code)
  end.
End Command.

(** ** What the process group and the terminal are spared *)

(** What is known of the process after some events: its own group, the command's, whether
    [SIGTTOU] is ignored, and whether everything so far was allowed: the command is started in
    a group of its own, and in the foreground only with the terminal; the foreground is only
    given to one of the two groups, and not before [SIGTTOU] is ignored, which would stop
    rclonewatch in the background; the command's group is only continued, and rclonewatch's own
    job only stopped. *)
Record guard := Guard { own : option Z; child : option Z; ignoring : bool; allowed : bool }.

Definition watch_event (g : guard) (e : event) : guard :=
  match ev_op e in op A return A -> guard with
  | Getpgrp => fun a => Guard (Some a) (child g) (ignoring g) (allowed g)
  | StartProcess _ attr => fun a =>
      Guard (own g) (match a with inl pid => Some pid | inr _ => child g end) (ignoring g)
        (allowed g && Setpgid attr && (negb (Foreground attr) || bool_decide (is_Some (own g))))
  | IgnoreSignal sig => fun _ => Guard (own g) (child g) (ignoring g || (sig =? SIGTTOU)) (allowed g)
  | Tcsetpgrp p => fun _ =>
      Guard (own g) (child g) (ignoring g)
        (allowed g && ignoring g && bool_decide (Some p = own g \/ Some p = child g))
  | Kill p sig => fun _ =>
      Guard (own g) (child g) (ignoring g)
        (allowed g && (bool_decide (Some (- p) = child g) && (sig =? SIGCONT) || (p =? 0) && (sig =? SIGTSTP)))
  | _ => fun _ => g
  end (ev_answer e).

Definition watch_events : guard -> list event -> guard := foldl watch_event.
Definition at_start : guard := Guard None None false true.

(** The command runs on the terminal [t]. *)
Definition handed_over (t : terminal) (pid : Z) : guard := Guard (Some (pgrp t)) (Some pid) true true.

Section Guarded.
Context {W V : Type} `{!Host W}.

Definition keeps (g : guard) (tr : list event) : Prop := watch_events g tr = g.

Lemma keeps_app g t1 t2 : keeps g t1 -> keeps g t2 -> keeps g (t1 ++ t2).
Proof. unfold keeps, watch_events. intros H1 H2. by rewrite foldl_app, H1. Qed.

Lemma keeps_nil g : keeps g []. Proof. done. Qed.

Lemma keeps_give t pid p a : p = pgrp t \/ p = pid -> keeps (handed_over t pid) [Event (Tcsetpgrp p) a].
Proof.
  intros H. unfold keeps. cbn. by rewrite bool_decide_eq_true_2 by (destruct H as [-> | ->]; auto).
Qed.
Lemma keeps_cont t pid a : keeps (handed_over t pid) [Event (Kill (- pid) SIGCONT) a].
Proof. unfold keeps. cbn. by rewrite Z.opp_involutive, bool_decide_eq_true_2. Qed.
Lemma keeps_stop t pid a : keeps (handed_over t pid) [Event (Kill 0 SIGTSTP) a].
Proof. unfold keeps. cbn. by rewrite andb_false_r. Qed.

(** The computations of [wait] on the terminal. *)
Definition minds {A} (t : terminal) (pid : Z) (m : M W V A) : Prop :=
  forall x, wp m (fun _ _ tr => keeps (handed_over t pid) tr) x.

Lemma minds_ret {A} t pid (a : A) : minds t pid (ret a).
Proof. intros x. by apply wp_ret. Qed.
Lemma minds_bind {A B} t pid (m : M W V A) (f : A -> M W V B) :
  minds t pid m -> (forall a, minds t pid (f a)) -> minds t pid (m ≫= f).
Proof.
  intros Hm Hf x. apply wp_bind. eapply wp_mono; [apply Hm|]. intros [a|e|] x' tr H; cbn [after]; [|done..].
  eapply wp_mono; [apply Hf|]. intros. by apply keeps_app.
Qed.
Lemma minds_sys {A} t pid (o : op A) : (forall a, keeps (handed_over t pid) [Event o a]) -> minds t pid (sys o).
Proof. intros H x. apply wp_sys. intros a w. apply H. Qed.
End Guarded.

Ltac minds_tac :=
  repeat first
    [ apply minds_bind; [|intros]
    | apply minds_ret
    | apply minds_sys; intros; solve [done | apply keeps_give; auto | apply keeps_cont | apply keeps_stop ]
    | match goal with |- minds _ _ (match ?x with _ => _ end) => destruct x eqn:?; reflect_bools; subst end ].

Section Minds.
Context {W V : Type} `{!Host W}.

Lemma reclaim_minds t pid : minds (W := W) (V := V) t pid (reclaim t pid).
Proof. unfold reclaim. minds_tac. Qed.
Lemma suspend_minds t pid : minds (W := W) (V := V) t pid suspend.
Proof. unfold suspend. minds_tac. Qed.
Lemma resume_minds t pid : minds (W := W) (V := V) t pid (resume t pid).
Proof. unfold resume. minds_tac. Qed.

Lemma terminal_wait_minds t fuel pid : minds (W := W) (V := V) t pid (terminal_wait t fuel pid).
Proof.
  induction fuel as [|fuel IH]; cbn [terminal_wait]; [intros x; by apply wp_out_of_fuel|].
  apply minds_bind; [apply minds_sys; done|]. intros [[| | |]|[]]; try exact IH.
  all: apply minds_bind; [apply reclaim_minds|intros; try apply minds_ret].
  apply minds_bind; [apply suspend_minds|intros]. apply minds_bind; [apply resume_minds|intros; exact IH].
Qed.

(** A command that was started on the terminal finds it handed over. *)
Definition launch_post (cfg : config) (l : launched) (tr : list event) : Prop :=
  allowed (watch_events at_start tr) = true /\
  (exists start, start_command cfg start =
     match l with
     | NoCommand => (false, false, 0)
     | Running _ => (true, false, 0)
     | NotStarted code => (false, true, code)
     end) /\
  forall w t, l = Running w -> tty w = Some t -> watch_events at_start tr = handed_over t (wrapped_pid w).

Lemma foregroundTerminal_wp x :
  wp (foregroundTerminal (W := W) (V := V)) (fun r _ tr => exists t, r = Ok t /\
    let g := watch_events at_start tr in
    g = Guard (own g) None false true /\ forall t', t = Some t' -> own g = Some (pgrp t')) x.
Proof.
  unfold foregroundTerminal. apply wp_bind, wp_sys. intros [f|e] w; cbn [after]; [|apply wp_ret; by exists None].
  apply wp_bind, wp_sys. intros own0 w1. cbn [after]. destruct (negb _); [apply wp_ret; by exists None|].
  apply wp_bind, wp_sys. intros own1 w2. cbn [after]. apply wp_ret. eexists. split; [done|]. split; [done|].
  by intros t' [= <-].
Qed.

Lemma launch_wp cfg x : wp (launch_command (W := W) (V := V) cfg) (fun r _ tr => exists l, r = Ok l /\ launch_post cfg l tr) x.
Proof.
  unfold launch_command, launch_post, start_command. destruct (command cfg) as [|arg args].
  { apply wp_ret. exists NoCommand. split; [done|]. split; [done|]. split; [by exists None|done]. }
  eapply wp_bind, wp_mono; [apply foregroundTerminal_wp|]. intros r x1 t1 (tm & -> & Hg & Ht). cbn [after].
  apply wp_bind, wp_sys. intros [pid|[nf e]] w; cbn [after].
  - destruct tm as [t|].
    + apply wp_bind, wp_sys. intros [] w'. cbn [after]. apply wp_ret. eexists. split; [done|].
      unfold watch_events in *. rewrite foldl_app, Hg, (Ht t eq_refl). split; [done|]. split; [by exists None|].
      intros w1 t' [= <-] [= <-]. done.
    + apply wp_ret. eexists. split; [done|]. unfold watch_events in *. rewrite foldl_app, Hg.
      split; [done|]. split; [by exists None|]. by intros w1 t' [= <-].
  - apply wp_ret. eexists. split; [done|]. unfold watch_events in *. rewrite foldl_app, Hg.
    split; [|by split; [exists (Some (nf, e))|]]. destruct tm as [t|]; [|done]. by rewrite (Ht t eq_refl).
Qed.

(** *** Termination *)
Lemma rounds_app t1 t2 : rounds (t1 ++ t2) = (rounds t1 + rounds t2)%nat.
Proof. unfold rounds. by rewrite List.filter_app, length_app. Qed.

Lemma reclaim_returns t pid (code : Z) x :
  wp (reclaim (W := W) (V := V) t pid;; ret code) (fun r _ _ => r = Ok code) x.
Proof.
  eapply wp_bind, wp_mono; [apply reclaim_wp|]. intros r x' tr (-> & _). cbn [after]. by apply wp_ret.
Qed.

Lemma terminal_wait_fuel t pid fuel x :
  wp (terminal_wait (W := W) (V := V) t fuel pid) (fun r _ tr => (rounds tr < fuel)%nat -> exists code, r = Ok code) x.
Proof.
  revert x. induction fuel as [|fuel IH]; intros x; cbn [terminal_wait]; [apply wp_out_of_fuel; lia|].
  apply wp_bind, wp_sys. intros answer w. cbn [after].
  destruct answer as [[c|sig| |]|[]]; try (eapply wp_mono; [apply reclaim_returns|]; intros r x' tr -> _; by eexists).
  - eapply wp_bind, wp_mono; [apply reclaim_wp|]. intros r1 x1 t1 (-> & _). cbn [after].
    eapply wp_bind, wp_mono; [by apply (suspend_wp 1)|]. intros r2 x2 t2 [-> _]. cbn [after].
    eapply wp_bind, wp_mono; [apply resume_wp|]. intros r3 x3 t3 (-> & _). cbn [after].
    eapply wp_mono; [apply IH|]. intros r x' tr Hr Hlt. apply Hr.
    change (rounds _) with (S (rounds (t1 ++ t2 ++ t3 ++ tr))) in Hlt. rewrite !rounds_app in Hlt. lia.
  - eapply wp_mono; [apply IH|]. intros r x' tr Hr Hlt. apply Hr.
    change (rounds _) with (S (rounds tr)) in Hlt. lia.
Qed.

(** *** The whole command *)
Lemma await_command_wp fuel w g x :
  (forall t, tty w = Some t -> g = handed_over t (wrapped_pid w)) ->
  wp (await_command (W := W) (V := V) fuel w)
    (fun r _ tr => keeps g tr /\ ((rounds tr < fuel)%nat \/ tty w = None -> exists code, r = Ok code)) x.
Proof.
  intros Hg. unfold await_command. destruct (tty w) as [t|].
  - rewrite (Hg t eq_refl). apply wp_and; [apply terminal_wait_minds|].
    eapply wp_mono; [apply terminal_wait_fuel|]. intros r x' tr H [Hlt|?]; [by apply H|done].
  - apply wp_bind, wp_sys. intros e w'. cbn [after]. apply wp_ret. split; [done|]. intros _. by eexists.
Qed.

Lemma run_command_wp fuel cfg x :
  wp (run_command (W := W) (V := V) fuel cfg) (fun r _ tr =>
    allowed (watch_events at_start tr) = true /\
    ((rounds tr < fuel)%nat -> exists status, r = Ok status /\ (status = None <-> command cfg = []))) x.
Proof.
  unfold run_command. eapply wp_bind, wp_mono; [apply launch_wp|].
  intros r x1 t1 (l & -> & Ha & [start Hs] & Hw). cbn [after]. unfold start_command in Hs.
  destruct l as [|w|code].
  - apply wp_ret. split; [by rewrite app_nil_r|]. intros _. exists None. split; [done|].
    by destruct (command cfg), start as [[]|].
  - eapply wp_bind, wp_mono; [apply (await_command_wp _ _ (watch_events at_start t1)); by eauto|].
    intros r x2 t2 [Hk Hf]. unfold keeps in Hk.
    assert (Hall : allowed (watch_events at_start (t1 ++ t2)) = true) by (unfold watch_events in *; by rewrite foldl_app, Hk).
    destruct r as [code|e|]; cbn [after].
    1: apply wp_ret; rewrite app_nil_r; split; [done|]; intros _; exists (Some code); split; [done|];
       by destruct (command cfg), start as [[]|].
    all: split; [done|]; rewrite rounds_app; intros Hlt; destruct Hf as [c Hc]; [left; lia|done].
  - apply wp_ret. split; [by rewrite app_nil_r|]. intros _. exists (Some code). split; [done|].
    by destruct (command cfg), start as [[]|].
Qed.
End Minds.

(** ** Guarantee *)

(** C40: from the start of the wrapped command to its exit status, rclonewatch starts it in a
    process group of its own and in the foreground only with the terminal, never sets the
    foreground group before it ignores the signal that would stop it for that, gives the
    foreground to none but the two groups, stops only its own job and continues only the
    command's; a status results unless the command stops as often as there is fuel. *)
Theorem command_job_control (W V : Type) (H : Host W) fuel cfg (x : st W V) :
  let o := run_command fuel cfg x in
  allowed (watch_events at_start (trace o)) = true /\
  ((rounds (trace o) < fuel)%nat -> exists status, res o = Ok status /\ (status = None <-> command cfg = [])).
Proof. apply run_command_wp. Qed.

(** ** A run on a terminal: the command stops once, is continued, and exits with status 7 *)
Definition tty_step A (o : op A) (m : mem) : A * mem :=
  match o in op A return A * mem with
  | Tcgetpgrp => (inl 100, m)
  | Wait4 _ => if counter m =? 0 then (inl Stopped, count m) else (inl (Exited 7), m)
  | o => mem_step _ o m
  end.

Example job_control_run :
  let o := @run_command mem unit tty_step 2 (default_config ["make"]) (St (fresh_mem ∅ None false) tt) in
  res o = Ok (Some 7) /\ rounds (trace o) = 1%nat /\ watch_events at_start (trace o) = Guard (Some 100) (Some 42) true true.
Proof. vm_compute. by split_and!. Qed.
