(* ===== verification/MainLoopSpec.v ===== *)
(** * What the event loop guarantees

    Runs of the loop with a ghost account of the changes that no successful sync covers yet:
    the program finishes cleanly only when there are none left.  At most one sync is in
    flight, at most one final sync is attempted, no sync starts after a lock failure, and
    retries back off up to a minute. *)

From S2P Require Import Prelude GoString GoTime Host SyncData SyncPath Filters SyncState Acquire Session Payload Fixtures MainLoop.

Local Open Scope Z_scope.

(** ** Histories *)
Inductive label := Got (m : message) | Did (e : effect).

(** The paths of a batch. *)
Definition batch_paths (b : batch) : gset string := list_to_set (fst <$> b).

Definition protected (state : option syncState) (p : string) : bool :=
  match state with Some s => fst (protects (paths s) p) | None => false end.

(** The account: paths changed since they were last handed to a sync, and paths handed to the
    sync in flight. A change is settled by a successful sync that started after it arrived and
    has its path. *)
Definition account : Type := gset string * gset string.

Definition book (state : option syncState) (a : account) (l : label) : account :=
  let '(fresh, flying) := a in
  match l with
  | Got (Item c) => if protected state (change_path c) then a else ({[change_path c]} ∪ fresh, flying)
  | Got (SyncResult _ None) => (fresh, ∅)
  | Got (SyncResult _ (Some _)) => (fresh ∪ flying, ∅)
  | Did (StartSync b _) => (fresh ∖ batch_paths b, (fresh ∩ batch_paths b) ∪ flying)
  | _ => a
  end.

Definition books (state : option syncState) (a : account) (h : list label) : account := foldl (book state) a h.

(** The batch in flight after some effects. *)
Definition launch (f : option batch) (e : effect) : option batch :=
  match e with StartSync b _ => Some b | _ => f end.
Definition in_flight (f : option batch) (es : list effect) : option batch := foldl launch f es.

Section Runs.
Variable cfg_interval : Z.
Variable state : option syncState.
Variables (pending0 : gmap string change) (running0 failed0 : bool) (code0 : Z).

Definition labels (e1 : list effect) (m : message) (e2 : list effect) : list label :=
  (Did <$> e1) ++ [Got m] ++ (Did <$> e2).

(** Runs of the loop: the state, the batch in flight, and the history. A result carries the
  batch that was started. *)
Inductive runs : loop -> option batch -> list label -> Prop :=
| Runs_init : runs (initial_loop cfg_interval state pending0 running0 failed0 code0) None []
| Runs_step s f h m s' e1 e2 :
  runs s f h -> step cfg_interval state s m s' e1 e2 ->
  (forall b e, m = SyncResult b e -> in_flight f e1 = Some b) ->
  runs s' (in_flight (match m with SyncResult _ _ => None | _ => in_flight f e1 end) e2)
    (h ++ labels e1 m e2).

(** ** The invariant *)
Definition accounted_for (s : loop) (f : option batch) (a : account) : Prop :=
  active s = (match f with Some _ => true | None => false end) /\
  (lockErr s = None ->
     fst a ⊆ dom (pending_ s) /\ snd a ⊆ match f with Some b => batch_paths b | None => ∅ end).

Lemma batch_paths_pending (p : gmap string change) : batch_paths (map_to_list p) = dom p.
Proof.
  apply set_eq. intros x. unfold batch_paths. rewrite elem_of_list_to_set, list_elem_of_fmap, elem_of_dom. split.
  - intros ([k c] & -> & H). apply elem_of_map_to_list in H. by eexists.
  - intros [c H]. exists (x, c). split; [done|]. by apply elem_of_map_to_list.
Qed.

Lemma mergeFailedBatch_dom p b : dom (mergeFailedBatch p b) = dom p ∪ batch_paths b.
Proof.
  revert p. induction b as [|[k c] b IH]; intros p; cbn [mergeFailedBatch]; [set_solver|].
  rewrite IH. unfold batch_paths. csimpl. destruct (p !! k) eqn:E; [|rewrite dom_insert_L; set_solver].
  assert (k ∈ dom p) by (apply elem_of_dom; by eexists). set_solver.
Qed.

Lemma queueChange_dom p c :
  dom (queueChange state p c) = if protected state (change_path c) then dom p else {[change_path c]} ∪ dom p.
Proof.
  unfold queueChange, protected, addPending. destruct state as [st|]; [|by rewrite dom_insert_L].
  destruct (fst _); [done|by rewrite dom_insert_L].
Qed.

(** Starting a sync moves every pending path into flight. *)
Lemma startSync_accounted final s s' es f a :
  accounted_for s f a -> startSync final s = (s', es) ->
  accounted_for s' (in_flight f es) (books state a (Did <$> es)) /\ lockErr s' = lockErr s.
Proof.
  unfold startSync. intros [Ha Hl]. destruct (active s || _) eqn:E.
  { intros [= <- <-]. by split. }
  reflect_bools. intros [= <- <-]. rewrite H in Ha. destruct f as [b|]; [done|].
  destruct a as [fresh flying]. cbn. destruct final; (split; [|done]); (split; [done|]); simpl; intros Hn;
    specialize (Hl Hn) as [H1 H2]; simpl in *; rewrite batch_paths_pending; set_solver.
Qed.
Definition no_start (es : list effect) : Prop :=
  Forall (fun e => match e with StartSync _ _ => False | _ => True end) es.

Lemma no_start_flight f es : no_start es -> in_flight f es = f.
Proof. induction 1 as [|e es He _ IH]; [done|]. cbn. by destruct e. Qed.
Lemma no_start_books a es : no_start es -> books state a (Did <$> es) = a.
Proof. induction 1 as [|e es He _ IH]; [done|]. csimpl. unfold books in *. cbn. destruct a, e; done. Qed.

Lemma quiet_accounted s s' f a es :
  accounted_for s f a -> no_start es -> active s' = active s ->
  (lockErr s' = None -> lockErr s = None /\ pending_ s' = pending_ s) ->
  accounted_for s' (in_flight f es) (books state a (Did <$> es)).
Proof.
  intros [Ha Hl] He Hact Hs'. rewrite no_start_flight, no_start_books by done. split; [congruence|].
  intros H. destruct (Hs' H) as [Hn ->]. auto.
Qed.

Lemma abort_no_start e s s' es : abortForLockFailure e s = (s', es) -> no_start es /\ active s' = active s /\ lockErr s' <> None.
Proof.
  unfold abortForLockFailure. destruct (lockErr s) eqn:E; intros [= <- <-]; [split; [constructor|by rewrite E]|].
  split; [|done]. unfold no_start. destruct (commandRunning s); repeat constructor.
Qed.

Lemma receive_item_accounted c s s' es f a :
  accounted_for s f a -> receive_item state c s = (s', es) ->
  accounted_for s' (in_flight f es) (books state (book state a (Got (Item c))) (Did <$> es)).
Proof.
  intros [Ha Hl] H. unfold receive_item in H.
  assert (Hq : accounted_for (set_pending_ (queueChange state (pending_ s) c) s) f (book state a (Got (Item c)))).
  { split; [done|]. intros Hn. specialize (Hl Hn) as [H1 H2]. destruct a as [fresh flying]. simpl in *.
    rewrite queueChange_dom. destruct (protected state (change_path c)); simpl; set_solver. }
  destruct (_ && _) in H; [|by injection H as <- <-].
  eapply startSync_accounted; [|exact H]. exact Hq.
Qed.

Lemma receive_result_accounted b e s s' es a :
  accounted_for s (Some b) a -> receive_result cfg_interval b e s = (s', es) ->
  accounted_for s' (in_flight None es) (books state (book state a (Got (SyncResult b e))) (Did <$> es)).
Proof.
  intros [Ha Hl]. unfold receive_result.
  set (s1 := if abandoned (set_active false s) then set_active false s else set_lastSyncErr e (set_active false s)).
  assert (H1 : active s1 = false /\ lockErr s1 = lockErr s /\ pending_ s1 = pending_ s) by (subst s1; by case_match).
  destruct H1 as (Hact & Hlock & Hpend). clearbody s1. destruct a as [fresh flying].
  destruct e as [e|]; cbn [book].
  - destruct (is_ownership_lost e).
    + intros H. apply abort_no_start in H as (Hno & Hact' & Hlock'). rewrite no_start_flight, no_start_books by done.
      split; [congruence|done].
    + assert (Hm : accounted_for (set_pending_ (mergeFailedBatch (pending_ s1) b) s1) None (fresh ∪ flying, ∅)).
      { split; [done|]. simpl. intros Hn. rewrite Hlock in Hn. specialize (Hl Hn) as [H2 H3]. simpl in *.
        rewrite mergeFailedBatch_dom, Hpend. set_solver. }
      case_goal; intros [= <- <-]; (eapply quiet_accounted; [exact Hm|repeat constructor|done|done]).
  - assert (Hm : accounted_for s1 None (fresh, ∅)).
    { split; [done|]. simpl. intros Hn. rewrite Hlock in Hn. specialize (Hl Hn) as [H2 H3]. simpl in *.
      rewrite Hpend. set_solver. }
    case_goal; intros [= <- <-]; (eapply quiet_accounted; [exact Hm|repeat constructor|done|done]).
Qed.

Lemma receive_accounted m s s' es f a :
  accounted_for s f a -> (forall b e, m = SyncResult b e -> f = Some b) ->
  receive cfg_interval state m s = (s', es) ->
  accounted_for s' (in_flight (match m with SyncResult _ _ => None | _ => f end) es)
    (books state (book state a (Got m)) (Did <$> es)).
Proof.
  intros Hacc Hf H. destruct m; cbn [receive] in H.
  - by eapply receive_item_accounted.
  - destruct a. injection H as <- <-. by eapply quiet_accounted; [exact Hacc|constructor|..].
  - destruct a. unfold receive_watcherErr in H.
    destruct e, (watcherErr s); injection H as <- <-; (eapply quiet_accounted; [exact Hacc| |done|done]); unfold no_start;
      try destruct (commandRunning s); repeat constructor.
  - destruct a. injection H as <- <-. by eapply quiet_accounted; [exact Hacc|constructor|..].
  - destruct a, e as [e|]; [|injection H as <- <-; by eapply quiet_accounted; [exact Hacc|constructor|..]].
    apply abort_no_start in H as (Hno & Hact & Hlock). by eapply quiet_accounted; [exact Hacc|done..].
  - destruct a. injection H as <- <-. by eapply quiet_accounted; [exact Hacc|constructor|..].
  - destruct a. unfold receive_timer in H. case_match; [injection H as <- <-; by eapply quiet_accounted; [exact Hacc|constructor|..]|].
    eapply startSync_accounted; [|exact H]. exact Hacc.
  - rewrite (Hf _ _ eq_refl) in Hacc. by eapply receive_result_accounted.
  - destruct a. unfold receive_exit in H. injection H as <- <-.
    by eapply quiet_accounted; [exact Hacc|repeat constructor|case_match|case_match].
  - destruct a. unfold receive_signal in H.
    set (s1 := if commandRunning s then s else set_signalsSeen (signalsSeen s + 1) s) in *.
    assert (H1 : active s1 = active s /\ lockErr s1 = lockErr s /\ pending_ s1 = pending_ s) by (subst s1; by destruct (commandRunning s)).
    destruct H1 as (Hact & Hlock & Hpend). clearbody s1.
    repeat case_match; injection H as <- <-; (eapply quiet_accounted; [exact Hacc|unfold no_start; repeat constructor|done|]);
      simpl; rewrite ?Hlock; auto.
Qed.
Lemma books_app a h1 h2 : books state a (h1 ++ h2) = books state (books state a h1) h2.
Proof. apply foldl_app. Qed.

Lemma begin_turn_accounted s s1 e1 f a : accounted_for s f a -> begin_turn s = (s1, e1) ->
  accounted_for s1 (in_flight f e1) (books state a (Did <$> e1)).
Proof.
  unfold begin_turn. intros Ha. case_match; try (intros [= <- <-]; done).
  intros H'. by eapply startSync_accounted.
Qed.

Lemma runs_accounted s f h : runs s f h -> accounted_for s f (books state (dom pending0, ∅) h).
Proof.
  induction 1 as [|s f h m s' e1 e2 Hr IH Hs Hf]; [by split|].
  destruct Hs as [s1 e1 s2 e2 _ Hb _ Hm]. unfold labels. rewrite !books_app.
  eapply begin_turn_accounted in IH; [|exact Hb].
  eapply receive_accounted; [exact IH|exact Hf|exact Hm].
Qed.

(** ** A lock failure stops everything *)
Definition stopped (s : loop) : Prop :=
  (stopping s = true -> timerArmed s = false) /\ (lockErr s <> None -> stopping s = true).

Lemma startSync_stopped final s : stopped s -> stopped (fst (startSync final s)).
Proof. unfold startSync, stopped. intros [H1 H2]. repeat case_goal; done. Qed.

Lemma startSync_lockErr final s : lockErr (fst (startSync final s)) = lockErr s /\ stopping (fst (startSync final s)) = stopping s.
Proof. unfold startSync. repeat case_goal; done. Qed.

Lemma receive_stopped m s : stopped s -> enabled s m = true -> stopped (fst (receive cfg_interval state m s)).
Proof.
  intros Hs He. destruct m; cbn [receive].
  - unfold receive_item. case_goal; [apply startSync_stopped|]; exact Hs.
  - exact Hs.
  - unfold receive_watcherErr. destruct e, (watcherErr s); try exact Hs. by split.
  - exact Hs.
  - destruct e; [|exact Hs]. unfold abortForLockFailure. case_goal; [exact Hs|by split].
  - exact Hs.
  - unfold receive_timer. destruct Hs as [H1 H2]. case_goal; [by split|apply startSync_stopped; by split].
  - unfold receive_result. destruct Hs as [H1 H2].
    set (s1 := if abandoned (set_active false s) then set_active false s else set_lastSyncErr e (set_active false s)).
    assert (Hs1 : stopped s1) by (subst s1; case_goal; by split). destruct Hs1 as [H3 H4]. clearbody s1.
    destruct e as [e|]; [destruct (is_ownership_lost e)|].
    + unfold abortForLockFailure. case_goal; split; simpl; naive_solver.
    + case_goal; split; simpl in *; naive_solver.
    + case_goal; reflect_bools; split; simpl in *; naive_solver.
  - unfold receive_exit. destruct Hs as [H1 H2]. case_goal; by split.
  - unfold receive_signal. destruct Hs as [H1 H2].
    set (s1 := if commandRunning s then s else set_signalsSeen (signalsSeen s + 1) s).
    assert (Hs1 : stopped s1) by (subst s1; destruct (commandRunning s); by split). destruct Hs1 as [H3 H4]. clearbody s1.
    repeat case_goal; by split.
Qed.

Lemma runs_stopped s f h : runs s f h -> stopped s.
Proof.
  induction 1 as [|s f h m s' e1 e2 Hr IH Hs Hf].
  - split; [|done]. simpl. intros ->. by rewrite andb_false_r.
  - destruct Hs as [s1 e1 s2 e2 _ Hb He Hm]. assert (H1 : stopped s1).
    { unfold begin_turn in Hb. case_match; try (injection Hb as <- <-; done).
      pose proof (startSync_stopped true s IH) as H'. by rewrite Hb in H'. }
    pose proof (receive_stopped m s1 H1 He) as H2. by rewrite Hm in H2.
Qed.

(** A state that has stopped for a lock failure starts no sync and exits with 1. *)
Lemma lock_failure_step s m s' e1 e2 :
  stopped s -> lockErr s <> None -> step cfg_interval state s m s' e1 e2 ->
  no_start (e1 ++ e2) /\ lockErr s' = lockErr s.
Proof.
  intros [H1 H2] Hl Hs. specialize (H2 Hl). specialize (H1 H2). destruct Hs as [s1 e1 s2 e2 Ht Hb He Hm].
  assert (begin_turn s = (s, [])) as Hb'.
  { unfold begin_turn, turn in *. destruct (lockErr s); [|done]. repeat case_match; try done. }
  rewrite Hb' in Hb. injection Hb as <- <-. cbn [app].
  destruct m; cbn [receive enabled] in *.
  - unfold receive_item in Hm. simpl in Hm. rewrite H2, andb_false_r in Hm. injection Hm as <- <-. split; [constructor|done].
  - injection Hm as <- <-. split; [constructor|done].
  - unfold receive_watcherErr in Hm. destruct e, (watcherErr s); injection Hm as <- <-; (split; [|done]); unfold no_start;
      try destruct (commandRunning s); repeat constructor.
  - injection Hm as <- <-. split; [constructor|done].
  - destruct e; [|injection Hm as <- <-; split; [constructor|done]].
    unfold abortForLockFailure in Hm. destruct (lockErr s) eqn:E; [|done]. injection Hm as <- <-. by split; [constructor|].
  - injection Hm as <- <-. split; [constructor|done].
  - congruence.
  - unfold receive_result in Hm.
    set (s1 := if abandoned (set_active false s) then set_active false s else set_lastSyncErr e (set_active false s)) in *.
    assert (Hs1 : lockErr s1 = lockErr s /\ stopping s1 = true) by (subst s1; by destruct (abandoned (set_active false s))). destruct Hs1 as [H3 H4]. clearbody s1.
    destruct e as [e|]; [destruct (is_ownership_lost e)|].
    + unfold abortForLockFailure in Hm. destruct (lockErr s1) eqn:E; [|congruence]. injection Hm as <- <-. split; [constructor|congruence].
    + cbn [stopping set_pending_] in Hm. rewrite H4 in Hm. injection Hm as <- <-. split; [constructor|done].
    + cbn [stopping set_retryDelay] in Hm. rewrite H4 in Hm. injection Hm as <- <-. split; [constructor|done].
  - unfold receive_exit in Hm. injection Hm as <- <-. split; [repeat constructor|by case_match].
  - unfold receive_signal in Hm.
    set (s1 := if commandRunning s then s else set_signalsSeen (signalsSeen s + 1) s) in *.
    assert (Hs1 : lockErr s1 = lockErr s) by (subst s1; by destruct (commandRunning s)). clearbody s1.
    repeat case_match; injection Hm as <- <-; (split; [unfold no_start; repeat constructor|done]).
Qed.
End Runs.

(** ** One final sync *)
Definition final_starts (h : list label) : nat :=
  length (List.filter (fun l => match l with Did (StartSync _ true) => true | _ => false end) h).

Lemma final_starts_app h1 h2 : final_starts (h1 ++ h2) = (final_starts h1 + final_starts h2)%nat.
Proof. unfold final_starts. by rewrite List.filter_app, length_app. Qed.

Section Final.
Variable cfg_interval : Z.
Variable state : option syncState.

Lemma startSync_final final s s' es : startSync final s = (s', es) ->
  (final_starts (Did <$> es) <= if final then 1 else 0)%nat /\
  (final_starts (Did <$> es) = 1%nat -> finalAttempted s' = true) /\
  (finalAttempted s = true -> finalAttempted s' = true).
Proof.
  unfold startSync. case_goal; [intros [= <- <-]|destruct final; intros [= <- <-]]; cbn; naive_solver lia.
Qed.

(** A branch of the [select] starts no final sync and forgets none. *)
Lemma receive_final m s s' es : receive cfg_interval state m s = (s', es) ->
  final_starts (Did <$> es) = 0%nat /\ (finalAttempted s = true -> finalAttempted s' = true).
Proof.
  assert (Habort : forall e x y es, abortForLockFailure e x = (y, es) ->
    final_starts (Did <$> es) = 0%nat /\ (finalAttempted x = true -> finalAttempted y = true)).
  { intros e x y es'. unfold abortForLockFailure. case_goal; intros [= <- <-]; [done|].
    by destruct (commandRunning x). }
  assert (Hstart : forall x y es, startSync false x = (y, es) ->
    final_starts (Did <$> es) = 0%nat /\ (finalAttempted x = true -> finalAttempted y = true)).
  { intros x y es' H. apply startSync_final in H as (H1 & _ & H2). split; [lia|done]. }
  destruct m; cbn [receive].
  - unfold receive_item. case_goal; [|by intros [= <- <-]]. intros H. apply Hstart in H. exact H.
  - by intros [= <- <-].
  - unfold receive_watcherErr. destruct e, (watcherErr s); intros [= <- <-]; try done. by destruct (commandRunning s).
  - by intros [= <- <-].
  - destruct e; [apply Habort|by intros [= <- <-]].
  - by intros [= <- <-].
  - unfold receive_timer. case_goal; [by intros [= <- <-]|]. intros H. apply Hstart in H. exact H.
  - unfold receive_result. intros H.
    set (s1 := if abandoned (set_active false s) then set_active false s else set_lastSyncErr e (set_active false s)) in *.
    assert (Hs1 : finalAttempted s1 = finalAttempted s) by (subst s1; by destruct (abandoned (set_active false s))).
    clearbody s1. rewrite <- Hs1. destruct e as [e|]; [destruct (is_ownership_lost e); [by apply Habort in H|]|];
      revert H; case_goal; intros [= <- <-]; done.
  - unfold receive_exit. intros [= <- <-]. by case_goal.
  - unfold receive_signal. intros H.
    set (s1 := if commandRunning s then s else set_signalsSeen (signalsSeen s + 1) s) in *.
    assert (Hs1 : finalAttempted s1 = finalAttempted s) by (subst s1; by destruct (commandRunning s)).
    clearbody s1. rewrite <- Hs1. repeat case_match; injection H as <- <-; done.
Qed.

Lemma runs_final p r fl c s f h : runs cfg_interval state p r fl c s f h ->
  (final_starts h <= 1)%nat /\ (final_starts h = 1%nat -> finalAttempted s = true).
Proof.
  induction 1 as [|s f h m s' e1 e2 Hr IH Hs Hf]; [unfold final_starts; cbn; split; [lia|done]|].
  destruct Hs as [s1 e1 s2 e2 _ Hb _ Hm]. unfold labels. rewrite !final_starts_app.
  apply receive_final in Hm as [Hm1 Hm2]. rewrite Hm1. change (final_starts [Got m]) with 0%nat.
  destruct IH as [IH1 IH2]. unfold begin_turn in Hb. case_match eqn:Et; try (injection Hb as <- <-; cbn; split; [lia|intros; apply Hm2, IH2; lia]).
  assert (finalAttempted s = false) as Hno.
  { unfold turn in Et. repeat case_match; try done. reflect_bools. by destruct (finalAttempted s). }
  apply startSync_final in Hb as (H1 & H2 & H3).
  assert (final_starts h = 0%nat) by (destruct (final_starts h) as [|[|]]; [done| |lia]; by rewrite IH2 in Hno).
  split; [lia|]. intros H4. apply Hm2, H2. lia.
Qed.
End Final.

(** ** Backing off *)
Definition backoff (d : Z) : Z := if maxRetryDelay <? d * 2 then maxRetryDelay else d * 2.

Lemma backoff_iter n : Nat.iter n backoff initialRetryDelay = Z.min (initialRetryDelay * 2 ^ Z.of_nat n) maxRetryDelay.
Proof.
  induction n as [|n IH]; [done|]. cbn [Nat.iter nat_rect]. unfold Nat.iter in IH. rewrite IH.
  rewrite Nat2Z.inj_succ, Z.pow_succ_r by lia. unfold backoff, initialRetryDelay, maxRetryDelay, minute, second.
  assert (0 < 2 ^ Z.of_nat n) by (apply Z.pow_pos_nonneg; lia). case_goal; reflect_bools; lia.
Qed.

(** A failure other than a lost lock, while the loop is not stopping. *)
Lemma receive_failure i b e s : is_ownership_lost e = false -> stopping s = false ->
  retryDelay (fst (receive_result i b (Some e) s)) = backoff (retryDelay s) /\
  snd (receive_result i b (Some e) s) = [ArmTimer (retryDelay s)] /\
  stopping (fst (receive_result i b (Some e) s)) = false.
Proof.
  intros He Hs. unfold receive_result.
  set (s1 := if abandoned (set_active false s) then set_active false s else set_lastSyncErr (Some e) (set_active false s)).
  assert (Hs1 : stopping s1 = stopping s /\ retryDelay s1 = retryDelay s) by (subst s1; by destruct (abandoned _)).
  destruct Hs1 as [Hs1 Hd1]. clearbody s1. rewrite He. cbn [stopping set_pending_]. rewrite Hs1, Hs. cbn. by rewrite Hs1, Hd1.
Qed.

(** ** Replaying messages *)

(** The run of a list of messages, if every one of them can be received. *)
Section Replay.
Variable cfg_interval : Z.
Variable state : option syncState.

Definition goes_on (s : loop) : bool := match turn s with Continue | FinalSync => true | _ => false end.

Definition receivable (s : loop) (f : option batch) (m : message) : bool :=
  goes_on s && enabled (fst (begin_turn s)) m &&
  match m with SyncResult b _ => bool_decide (in_flight f (snd (begin_turn s)) = Some b) | _ => true end.

Fixpoint replay (s : loop) (f : option batch) (h : list label) (ms : list message) : option (loop * option batch * list label) :=
  match ms with
  | [] => Some (s, f, h)
  | m :: ms =>
      if receivable s f m then
        let '(s1, e1) := begin_turn s in
        let '(s2, e2) := receive cfg_interval state m s1 in
        replay s2 (in_flight (match m with SyncResult _ _ => None | _ => in_flight f e1 end) e2) (h ++ labels e1 m e2) ms
      else None
  end.

Lemma replay_runs pending running failed code ms : forall s f h s' f' h',
  runs cfg_interval state pending running failed code s f h -> replay s f h ms = Some (s', f', h') ->
  runs cfg_interval state pending running failed code s' f' h'.
Proof.
  induction ms as [|m ms IH]; intros s f h s' f' h' Hr H; cbn [replay] in H; [by injection H as <- <- <-|].
  destruct (receivable s f m) eqn:E; [|done]. unfold receivable, goes_on in E. apply andb_true_iff in E as [E E3].
  apply andb_true_iff in E as [E1 E2]. destruct (begin_turn s) as [s1 e1] eqn:Eb. cbn [fst snd] in E2, E3.
  destruct (receive cfg_interval state m s1) as [s2 e2] eqn:Em.
  eapply IH; [|exact H]. eapply Runs_step; [exact Hr| |].
  - eapply Step; [|exact Eb|exact E2|exact Em]. destruct (turn s); by auto.
  - intros b e ->. by apply bool_decide_eq_true in E3.
Qed.
End Replay.

Lemma finish_is_synced interval state pending running failed code s f h c :
  runs interval state pending running failed code s f h -> turn s = Finish c ->
  books state (dom pending, ∅) h = (∅, ∅) /\ f = None /\ commandRunning s = false /\ watcherErr s = None /\
  lockErr s = None /\ c = wrappedExitCode s.
Proof.
  intros Hr Ht. apply runs_accounted in Hr as [Ha Hl]. unfold turn in Ht.
  destruct (_ && _) eqn:E in Ht; [|done]. reflect_bools.
  destruct (lockErr s) eqn:El; [done|]. destruct (_ && _) eqn:E2 in Ht; [done|]. destruct (watcherErr s); [done|].
  case_bool_decide as Hp; [|done]. injection Ht as <-. specialize (Hl eq_refl) as [Hfresh Hfly].
  assert (Hf : f = None) by (destruct f; congruence). subst f. rewrite Hp in Hfresh. cbn in Hfly. split_and!; try done.
  destruct (books _ _ _) as [fresh flying]. cbn in Hfresh, Hfly. f_equal; apply set_eq; set_solver.
Qed.

(** ** Guarantees *)

(** C9: when the loop decides that the program is done without an error, every change it has
    received, and every change that was pending when it started, has been handed to a sync
    that started afterwards and succeeded, apart from the reserved state files; no sync is in
    flight, the command has ended, and neither the watcher nor the lock has failed. *)
Theorem finish_means_synced interval state pending running failed code s f h c :
  runs interval state pending running failed code s f h -> turn s = Finish c ->
  books state (dom pending, ∅) h = (∅, ∅) /\ f = None /\ commandRunning s = false /\ watcherErr s = None /\
  lockErr s = None /\ c = wrappedExitCode s.
Proof. apply finish_is_synced. Qed.

(** C12: once the lock is lost, the loop starts no sync any more, not even a final one, the
    failure is never forgotten, and the program can only end with status 1. *)
Theorem lost_lock_stops_syncing interval state pending running failed code s f h m s' e1 e2 :
  runs interval state pending running failed code s f h -> lockErr s <> None -> step interval state s m s' e1 e2 ->
  no_start (e1 ++ e2) /\ lockErr s' = lockErr s /\ (turn s' = Continue \/ turn s' = Exit 1).
Proof.
  intros Hr Hl Hs. pose proof (lock_failure_step _ _ _ _ _ _ _ (runs_stopped _ _ _ _ _ _ _ _ _ Hr) Hl Hs) as [H1 H2].
  split; [done|]. split; [done|]. unfold turn. rewrite H2. destruct (lockErr s); [|done]. case_goal; [by right|by left].
Qed.

(** At most one final sync is started in a run. *)
Theorem one_final_sync interval state pending running failed code s f h :
  runs interval state pending running failed code s f h -> (final_starts h <= 1)%nat.
Proof. intros Hr. by apply runs_final in Hr as [H _]. Qed.

(** C35: consecutive failures are retried after 1 s, 2 s, 4 s and so on, up to a minute: after
    [n] of them the next one arms the timer for the smaller of 2^n seconds and a minute. *)
Theorem retries_back_off interval b e s n :
  is_ownership_lost e = false -> stopping s = false -> retryDelay s = initialRetryDelay ->
  let s' := Nat.iter n (fun s => fst (receive_result interval b (Some e) s)) s in
  snd (receive_result interval b (Some e) s') = [ArmTimer (Z.min (initialRetryDelay * 2 ^ Z.of_nat n) maxRetryDelay)].
Proof.
  intros He Hs Hd. cbv zeta. set (f := fun s => fst (receive_result interval b (Some e) s)).
  assert (Hi : retryDelay (Nat.iter n f s) = Nat.iter n backoff initialRetryDelay /\ stopping (Nat.iter n f s) = false).
  { induction n as [|n [IH1 IH2]]; [done|]. rewrite !Nat.iter_succ.
    destruct (receive_failure interval b e _ He IH2) as (H1 & _ & H2). unfold f at 1 3. by rewrite H1, H2, IH1. }
  destruct Hi as [Hi1 Hi2]. destruct (receive_failure interval b e _ He Hi2) as (_ & H & _).
  by rewrite H, Hi1, backoff_iter.
Qed.

(** A change arrives, a signal stops the program, and the final sync goes through. *)
Definition one_change : change := Change "a" false false.
Definition orderly_end : list message :=
  [Item one_change; Signal SIGTERM; EventsClosed; ErrorsClosed; SyncResult [("a"%stdpp, one_change)] None].
Definition quiet_start : loop := initial_loop 0 None ∅ false false 0.
Definition orderly_run : loop * option batch * list label :=
  default (quiet_start, None, []) (replay 0 None quiet_start None [] orderly_end).

Lemma orderly_runs : runs 0 None ∅ false false 0 (fst (fst orderly_run)) (snd (fst orderly_run)) (snd orderly_run).
Proof. eapply (replay_runs 0 None ∅ false false 0 orderly_end); [apply Runs_init|vm_compute; reflexivity]. Qed.

Lemma finish_means_synced_witness :
  length (snd orderly_run) = 7%nat /\ books None (∅, ∅) (snd orderly_run) = (∅, ∅).
Proof.
  split; [vm_compute; reflexivity|].
  apply (finish_means_synced 0 None ∅ false false 0 (fst (fst orderly_run)) (snd (fst orderly_run)) (snd orderly_run) 0
           orderly_runs).
  vm_compute. reflexivity.
Defined.

Lemma one_final_sync_witness : final_starts (snd orderly_run) = 1%nat /\ (final_starts (snd orderly_run) <= 1)%nat.
Proof.
  split; [vm_compute; reflexivity|].
  apply (one_final_sync 0 None ∅ false false 0 (fst (fst orderly_run)) (snd (fst orderly_run)) (snd orderly_run) orderly_runs).
Defined.

Lemma retries_back_off_witness :
  snd (receive_result 0 [] (Some (Errorf "x")) (Nat.iter 3 (fun s => fst (receive_result 0 [] (Some (Errorf "x")) s)) quiet_start)) =
  [ArmTimer (8 * second)].
Proof. apply (retries_back_off 0 [] (Errorf "x") quiet_start 3); reflexivity. Defined.

(** A lock is lost while a command runs. *)
Definition demo_lock_loss : loop * option batch * list label :=
  default (quiet_start, None, [])
    (replay 0 (Some demo) (initial_loop 0 (Some demo) ∅ true false 0) None [] [Item one_change; LockError (Some ErrLockOwnershipLost)]).
Definition after_loss : loop * list effect := receive 0 (Some demo) (CommandDone 137) (fst (fst demo_lock_loss)).

Lemma lock_loss_runs : runs 0 (Some demo) ∅ true false 0 (fst (fst demo_lock_loss)) (snd (fst demo_lock_loss)) (snd demo_lock_loss).
Proof. eapply (replay_runs 0 (Some demo) ∅ true false 0 [Item one_change; LockError (Some ErrLockOwnershipLost)]); [apply Runs_init|vm_compute; reflexivity]. Qed.

Lemma lost_lock_stops_syncing_witness :
  no_start (snd after_loss) /\ lockErr (fst after_loss) = Some ErrLockOwnershipLost /\
  (turn (fst after_loss) = Continue \/ turn (fst after_loss) = Exit 1).
Proof.
  apply (lost_lock_stops_syncing 0 (Some demo) ∅ true false 0 (fst (fst demo_lock_loss)) (snd (fst demo_lock_loss)) (snd demo_lock_loss)
    (CommandDone 137) (fst after_loss) [] (snd after_loss)); [apply lock_loss_runs|discriminate|].
  apply (Step 0 (Some demo) _ _ (fst (fst demo_lock_loss)) []); [left; vm_compute; reflexivity|vm_compute; reflexivity..].
Defined.
