(* ===== verification/LoopProgress.v ===== *)
(** * The event loop makes progress

    While the loop is not stopping, a pending change reaches a sync after at most one result
    and one timer; once it is stopping, a handful of messages that are all on their way end
    it.  [stalled_loop] is a run in which the first does not hold: an event for a reserved
    path uses up the loop's readiness without starting anything. *)

From S2P Require Import Prelude GoString GoTime Host SyncData SyncPath Filters SyncState Acquire Session Payload Fixtures MainLoop MainLoopSpec.

Local Open Scope Z_scope.

(** ** Runs that go on *)
Section Extends.
Variable cfg_interval : Z.
Variable state : option syncState.

(** From one state and batch in flight to another, with the labels between. *)
Inductive extends : loop -> option batch -> list label -> loop -> option batch -> Prop :=
| Extends_refl s f : extends s f [] s f
| Extends_step s f h s1 f1 m s2 e1 e2 :
  extends s f h s1 f1 -> step cfg_interval state s1 m s2 e1 e2 ->
  (forall b e, m = SyncResult b e -> in_flight f1 e1 = Some b) ->
  extends s f (h ++ labels e1 m e2) s2 (in_flight (match m with SyncResult _ _ => None | _ => in_flight f1 e1 end) e2).

Lemma runs_extends p r fl c s f h h' s' f' :
  runs cfg_interval state p r fl c s f h -> extends s f h' s' f' ->
  runs cfg_interval state p r fl c s' f' (h ++ h').
Proof.
  intros Hr He. induction He as [|s f h' s1 f1 m s2 e1 e2 He IH Hs Hf]; [by rewrite app_nil_r|].
  rewrite app_assoc. by eapply Runs_step; [apply IH| |].
Qed.
End Extends.

Lemma replay_extends interval state s0 f0 ms : forall s f h s' f' h',
  extends interval state s0 f0 h s f -> replay interval state s f h ms = Some (s', f', h') ->
  extends interval state s0 f0 h' s' f'.
Proof.
  induction ms as [|m ms IH]; intros s f h s' f' h' Hr H; cbn [replay] in H; [by injection H as <- <- <-|].
  destruct (receivable s f m) eqn:E; [|done]. unfold receivable, goes_on in E. apply andb_true_iff in E as [E E3].
  apply andb_true_iff in E as [E1 E2]. destruct (begin_turn s) as [s1 e1] eqn:Eb. cbn [fst snd] in E2, E3.
  destruct (receive interval state m s1) as [s2 e2] eqn:Em.
  eapply IH; [|exact H]. eapply Extends_step; [exact Hr| |].
  - eapply Step; [|exact Eb|exact E2|exact Em]. destruct (turn s); by auto.
  - intros b e ->. by apply bool_decide_eq_true in E3.
Qed.

(** How often the messages of a kind were received. *)
Definition received (kind : message -> bool) (h : list label) : nat :=
  length (List.filter (fun l => match l with Got m => kind m | Did _ => false end) h).

Lemma received_app kind h1 h2 : received kind (h1 ++ h2) = (received kind h1 + received kind h2)%nat.
Proof. unfold received. by rewrite List.filter_app, length_app. Qed.

Lemma received_did kind es : received kind (Did <$> es) = 0%nat.
Proof. induction es; [done|]. unfold received in *. cbn. exact IHes. Qed.

Lemma received_labels kind e1 m e2 : received kind (labels e1 m e2) = if kind m then 1%nat else 0%nat.
Proof.
  unfold labels. rewrite !received_app, !received_did. unfold received. cbn. by destruct (kind m).
Qed.

(** A batch was handed to a sync that has the path. *)
Definition served (p : string) (h : list label) : Prop :=
  exists b final, Did (StartSync b final) ∈ h /\ p ∈ batch_paths b.

Lemma served_app p h1 h2 : served p h1 \/ served p h2 -> served p (h1 ++ h2).
Proof. intros [(b & fin & H & Hp)|(b & fin & H & Hp)]; exists b, fin; set_solver. Qed.

(** ** Awake *)
Section Awake.
Variable cfg_interval : Z.
Variable state : option syncState.

(** The messages that lead to a sync. *)
Definition wakeup (m : message) : bool :=
  match m with TimerFired | SyncResult _ _ => true | _ => false end.

(** An event for a path that is reserved for the state files. *)
Definition reserved (m : message) : bool :=
  match m with Item c => protected state (change_path c) | _ => false end.

(** Unless the loop stops, a sync is in flight, the timer runs, or the next change starts a sync
    and none is pending. *)
Definition awake (s : loop) : Prop :=
  stopping s = false ->
  active s = true /\ timerArmed s = false /\ syncReady s = false \/
  active s = false /\ timerArmed s = true /\ syncReady s = false \/
  active s = false /\ timerArmed s = false /\ syncReady s = true /\ pending_ s = ∅.

Lemma begin_turn_running s : stopping s = false -> begin_turn s = (s, []).
Proof. intros H. unfold begin_turn, turn. by rewrite H. Qed.

Lemma startSync_stopping final s : stopping (fst (startSync final s)) = stopping s.
Proof. apply startSync_lockErr. Qed.

Lemma begin_turn_stopping s : stopping (fst (begin_turn s)) = stopping s.
Proof. unfold begin_turn. case_match; try done. apply startSync_stopping. Qed.

Lemma receive_stays_stopping m s : stopping s = true -> stopping (fst (receive cfg_interval state m s)) = true.
Proof.
  intros H. destruct m; cbn [receive]; try done.
  - unfold receive_item. case_goal; [|done]. by rewrite startSync_stopping.
  - unfold receive_watcherErr. by destruct e, (watcherErr s).
  - destruct e; [|done]. unfold abortForLockFailure. by destruct (lockErr s).
  - unfold receive_timer. case_goal; [done|]. by rewrite startSync_stopping.
  - unfold receive_result. destruct (abandoned _), e as [e|]; try (destruct (is_ownership_lost e));
      unfold abortForLockFailure; repeat case_goal; done.
  - unfold receive_exit. cbn. by rewrite H.
  - unfold receive_signal. cbn. destruct (commandRunning s); cbn; rewrite H; cbn; repeat case_goal; done.
Qed.

(** Stopping is for good. *)
Lemma step_running s m s' e1 e2 : step cfg_interval state s m s' e1 e2 -> stopping s' = false -> stopping s = false.
Proof.
  intros [s1 ? ? ? _ Hb _ Hrec] Hns. destruct (stopping s) eqn:E; [|done].
  pose proof (begin_turn_stopping s) as H. rewrite Hb in H. cbn in H.
  pose proof (receive_stays_stopping m s1) as H'. rewrite Hrec in H'. cbn in H'. rewrite H' in Hns; congruence.
Qed.

(** A change of a path that is not reserved is pending afterwards. *)
Lemma queueChange_pending p c : protected state (change_path c) = false -> queueChange state p c <> ∅.
Proof.
  intros H E. apply (f_equal dom) in E. rewrite queueChange_dom, H, dom_empty_L in E. set_solver.
Qed.

(** Starting a sync hands over everything that is pending. *)
Lemma startSync_all final s : active s = false -> pending_ s <> ∅ ->
  let '(s', es) := startSync final s in
  active s' = true /\ timerArmed s' = timerArmed s /\ syncReady s' = syncReady s /\
  es = [StartSync (map_to_list (pending_ s)) final].
Proof.
  intros Ha Hp. unfold startSync. rewrite Ha, bool_decide_false by done. by destruct final.
Qed.

Hypothesis Hinterval : 0 < cfg_interval.
#[local] Set Default Proof Using "Type*".

(** A result leaves the timer running, and what was pending still pending. *)
Lemma receive_result_awake b e s s' es :
  stopped s -> receive_result cfg_interval b e s = (s', es) -> stopping s' = false ->
  active s' = false /\ timerArmed s' = true /\ syncReady s' = false /\ dom (pending_ s) ⊆ dom (pending_ s').
Proof.
  intros [_ Hlost]. unfold receive_result.
  set (s1 := if abandoned (set_active false s) then set_active false s else set_lastSyncErr e (set_active false s)).
  assert (H1 : active s1 = false /\ stopping s1 = stopping s /\ pending_ s1 = pending_ s /\ lockErr s1 = lockErr s)
    by (subst s1; by case_match).
  destruct H1 as (Ha & Hst & Hp & Hl). clearbody s1. intros H Hns. destruct e as [e|]; [destruct (is_ownership_lost e)|].
  - unfold abortForLockFailure in H. destruct (lockErr s1) eqn:El; injection H as <- <-; [|done].
    rewrite Hst, Hlost in Hns by congruence. done.
  - cbn [stopping set_pending_] in H. rewrite Hst in H. destruct (stopping s) eqn:Es; injection H as <- <-.
    { cbn in Hns. congruence. }
    cbn. rewrite mergeFailedBatch_dom, Hp. split_and!; try done. set_solver.
  - cbn [stopping set_retryDelay] in H. rewrite Hst in H. destruct (stopping s) eqn:Es; cbn in H.
    { injection H as <- <-. cbn in Hns. congruence. }
    rewrite (proj2 (Z.ltb_lt _ _) Hinterval) in H. injection H as <- <-. cbn. by rewrite Hp.
Qed.

(** One message, while the loop is not stopping: the loop stays awake; a pending path is served
    or still pending, and then the only wake-up is the result of a sync. *)
Lemma receive_awake m s s' es :
  stopped s -> awake s -> enabled s m = true -> reserved m = false ->
  receive cfg_interval state m s = (s', es) -> stopping s' = false ->
  awake s' /\ forall p, p ∈ dom (pending_ s) ->
    served p (Did <$> es) \/
    p ∈ dom (pending_ s') /\
    (if wakeup m then active s = true /\ active s' = false else active s' = active s).
Proof.
  intros Hst Haw Hen Hres Hrec Hns.
  assert (Hns0 : stopping s = false).
  { destruct (stopping s) eqn:E; [|done]. pose proof (receive_stays_stopping m s E) as H. rewrite Hrec in H. cbn in H. congruence. }
  specialize (Haw Hns0).
  assert (Hsame : forall x, active x = active s -> timerArmed x = timerArmed s -> syncReady x = syncReady s -> pending_ x = pending_ s -> awake x)
    by (intros x H1 H2 H3 H4 _; by rewrite H1, H2, H3, H4).
  destruct m; cbn [receive enabled reserved wakeup] in *.
  - unfold receive_item in Hrec. set (s1 := set_pending_ (queueChange state (pending_ s) c) s) in *.
    assert (Hdom : dom (pending_ s) ⊆ dom (pending_ s1)).
    { cbn. rewrite queueChange_dom, Hres. set_solver. }
    assert (Hne : pending_ s1 <> ∅) by by apply queueChange_pending.
    destruct (syncReady s1 && negb (active s1) && negb (stopping s1)) eqn:E.
    + apply andb_true_iff in E as [E _]. apply andb_true_iff in E as [E1 E2]. apply negb_true_iff in E2.
      pose proof (startSync_all false (set_syncReady false s1) E2 Hne) as Hall. rewrite Hrec in Hall.
      destruct Hall as (Ha & Ht & Hr & ->). cbn in Ht, Hr. split.
      * intros _. left. split; [done|]. split; [|done]. rewrite Ht.
        subst s1. cbn in E1, E2 |- *. destruct Haw as [(?&?&?)|[(?&?&?)|(?&?&?&?)]]; congruence.
      * intros p Hp. left. exists (map_to_list (pending_ s1)), false. split; [by left|].
        rewrite batch_paths_pending. by apply Hdom.
    + injection Hrec as <- <-. split; [|intros p Hp; right; split; [by apply Hdom|done]].
      intros _. subst s1. cbn in E |- *. rewrite Hns0, andb_true_r in E.
      destruct Haw as [(?&?&?)|[(?&?&?)|(H1&?&H3&?)]]; [by left|by right; left|].
      rewrite H1, H3 in E. done.
  - injection Hrec as <- <-. split; [by apply Hsame|by right].
  - unfold receive_watcherErr in Hrec. destruct e, (watcherErr s); injection Hrec as <- <-; try done;
      (split; [by apply Hsame|by right]).
  - injection Hrec as <- <-. split; [by apply Hsame|by right].
  - destruct e; [|injection Hrec as <- <-; split; [by apply Hsame|by right]].
    unfold abortForLockFailure in Hrec. destruct (lockErr s); injection Hrec as <- <-; [|done].
    split; [by apply Hsame|by right].
  - injection Hrec as <- <-. split; [by apply Hsame|by right].
  - unfold receive_timer in Hrec. cbn [pending_ set_timerArmed] in Hrec.
    destruct Haw as [(?&?&?)|[(H1&H2&H3)|(?&?&?&?)]]; [congruence| |congruence].
    case_bool_decide as Hp.
    + injection Hrec as <- <-. split; [intros _; by right; right|]. intros p Hin. rewrite Hp, dom_empty_L in Hin. set_solver.
    + pose proof (startSync_all false (set_timerArmed false s) H1 Hp) as Hall. rewrite Hrec in Hall.
      destruct Hall as (Ha & Ht & Hr & ->). cbn in Ht, Hr. split; [intros _; left; by rewrite Hr|].
      intros p Hin. left. exists (map_to_list (pending_ s)), false. split; [by left|]. by rewrite batch_paths_pending.
  - apply receive_result_awake in Hrec as (H1 & H2 & H3 & H4); [|done..]. split; [intros _; by right; left|].
    intros p Hin. right. split; [by apply H4|done].
  - unfold receive_exit in Hrec. cbn [stopping set_wrappedExitCode set_commandRunning] in Hrec. rewrite Hns0 in Hrec.
    by injection Hrec as <- <-.
  - unfold receive_signal in Hrec. destruct (commandRunning s); cbn in Hrec; rewrite Hns0 in Hrec; cbn in Hrec;
      by injection Hrec as <- <-.
Qed.

Lemma step_awake s m s' e1 e2 :
  stopped s -> awake s -> reserved m = false -> step cfg_interval state s m s' e1 e2 -> stopping s' = false ->
  stopping s = false /\ e1 = [] /\ awake s' /\ forall p, p ∈ dom (pending_ s) ->
    served p (labels e1 m e2) \/
    p ∈ dom (pending_ s') /\
    (if wakeup m then active s = true /\ active s' = false else active s' = active s).
Proof.
  intros Hst Haw Hres Hs Hns. pose proof (step_running _ _ _ _ _ Hs Hns) as Hns0.
  destruct Hs as [s1 e1' s2 e2' Ht Hb Hen Hrec].
  rewrite begin_turn_running in Hb by done. injection Hb as <- <-.
  destruct (receive_awake m s s2 e2' Hst Haw Hen Hres Hrec Hns) as [H1 H2]. split_and!; try done.
  intros p Hp. destruct (H2 p Hp) as [(b & final & Hin & Hb)|H]; [left|by right].
  exists b, final. split; [|done]. unfold labels. cbn. by right.
Qed.

(** The awake state of a run. *)
Lemma runs_awake p r fl c s f h :
  runs cfg_interval state p r fl c s f h -> Forall (fun l => match l with Got m => reserved m = false | Did _ => True end) h ->
  awake s.
Proof.
  induction 1 as [|s f h m s' e1 e2 Hr IH Hs Hf]; intros Hres.
  - intros Hns. cbn in Hns |- *. rewrite Hns, andb_true_r, (proj2 (Z.ltb_lt _ _) Hinterval). by right; left.
  - apply Forall_app in Hres as [H1 H2]. unfold labels in H2. rewrite !Forall_app, Forall_singleton in H2.
    destruct H2 as (_ & Hm & _). intros Hns.
    destruct (step_awake s m s' e1 e2) as (_ & _ & H & _); try done; [by eapply runs_stopped|by apply IH|by apply H].
Qed.

(** One wake-up is left while a sync is in flight. *)
Definition wakeups_left (s : loop) : nat := if active s then 1%nat else 0%nat.

Lemma extends_awake s f h' s' f' q :
  extends cfg_interval state s f h' s' f' ->
  stopped s -> awake s -> Forall (fun l => match l with Got m => reserved m = false | Did _ => True end) h' ->
  stopping s' = false -> q ∈ dom (pending_ s) ->
  stopped s' /\ awake s' /\ (served q h' \/ q ∈ dom (pending_ s') /\ (received wakeup h' + wakeups_left s' = wakeups_left s)%nat).
Proof.
  intros He Hst Haw. induction He as [|s f h' s1 f1 m s2 e1 e2 He IH Hs Hf]; intros Hres Hns Hq.
  { split_and!; try done. by right. }
  apply Forall_app in Hres as [H1 H2]. pose proof H2 as Hm. unfold labels in Hm. rewrite !Forall_app, Forall_singleton in Hm.
  destruct Hm as (_ & Hm & _).
  pose proof (step_running _ _ _ _ _ Hs Hns) as Hns1.
  destruct (IH Hst Haw H1 Hns1 Hq) as (Hst1 & Haw1 & Hor). clear IH.
  destruct (step_awake s1 m s2 e1 e2 Hst1 Haw1 Hm Hs Hns) as (_ & _ & Haw2 & Hp).
  assert (Hst2 : stopped s2).
  { destruct Hs as [x1 ? ? ? _ Hb Hen Hrec]. rewrite begin_turn_running in Hb by done. injection Hb as <- <-.
    pose proof (receive_stopped cfg_interval state m s1 Hst1 Hen) as H. by rewrite Hrec in H. }
  split_and!; try done. destruct Hor as [Hserved|[Hin Hcount]]; [left; apply served_app; by left|].
  destruct (Hp q Hin) as [H|[Hin2 Hw]]; [left; apply served_app; by right|right]. split; [done|].
  rewrite received_app, received_labels. unfold wakeups_left in *. destruct (wakeup m).
  - destruct Hw as [Ha1 Ha2]. rewrite Ha1 in Hcount. rewrite Ha2. lia.
  - rewrite Hw. lia.
Qed.
End Awake.

(** ** Asleep *)
Section Asleep.
Variable cfg_interval : Z.
Variable state : option syncState.

(** No sync in flight, no timer, and not ready for a change. *)
Definition asleep (s : loop) : Prop := active s = false /\ timerArmed s = false /\ syncReady s = false.

Lemma step_asleep s m s' e1 e2 :
  asleep s -> step cfg_interval state s m s' e1 e2 -> stopping s' = false -> asleep s' /\ no_start (e1 ++ e2).
Proof.
  intros (Ha & Ht & Hr) Hs Hns. pose proof (step_running _ _ _ _ _ _ _ Hs Hns) as Hns0.
  destruct Hs as [s1 e1' s2 e2' _ Hb Hen Hrec].
  rewrite begin_turn_running in Hb by done. injection Hb as <- <-. cbn [app].
  destruct m; cbn [receive enabled] in *; try congruence.
  - unfold receive_item in Hrec. cbn [syncReady set_pending_] in Hrec. rewrite Hr in Hrec. cbn in Hrec.
    injection Hrec as <- <-. by split; [|constructor].
  - injection Hrec as <- <-. by split; [|constructor].
  - unfold receive_watcherErr in Hrec. destruct e, (watcherErr s); injection Hrec as <- <-; try done; by split; [|constructor].
  - injection Hrec as <- <-. by split; [|constructor].
  - destruct e; [|injection Hrec as <- <-; by split; [|constructor]].
    unfold abortForLockFailure in Hrec. destruct (lockErr s); injection Hrec as <- <-; [by split; [|constructor]|done].
  - injection Hrec as <- <-. by split; [|constructor].
  - unfold receive_exit in Hrec. cbn [stopping set_wrappedExitCode set_commandRunning] in Hrec. rewrite Hns0 in Hrec.
    by injection Hrec as <- <-.
  - unfold receive_signal in Hrec. destruct (commandRunning s); cbn in Hrec; rewrite Hns0 in Hrec; cbn in Hrec;
      by injection Hrec as <- <-.
Qed.

Lemma extends_asleep s f h' s' f' :
  extends cfg_interval state s f h' s' f' -> asleep s -> stopping s' = false ->
  asleep s' /\ forall b final, Did (StartSync b final) ∉ h'.
Proof.
  intros He Ha. induction He as [|s f h' s1 f1 m s2 e1 e2 He IH Hs Hf]; intros Hns; [split; [done|set_solver]|].
  pose proof (step_running _ _ _ _ _ _ _ Hs Hns) as Hns1.
  destruct (IH Ha Hns1) as [Ha1 Hno]. destruct (step_asleep s1 m s2 e1 e2 Ha1 Hs Hns) as [Ha2 He12]. split; [done|].
  intros b final Hin. unfold labels in Hin. rewrite !elem_of_app, !list_elem_of_fmap in Hin.
  apply Forall_app in He12 as [He1 He2]. rewrite Forall_forall in He1, He2.
  destruct Hin as [Hin|[(e & He' & Hin)|[Hin|(e & He' & Hin)]]].
  - by eapply Hno.
  - injection He' as <-. exact (He1 _ Hin).
  - apply list_elem_of_singleton in Hin. done.
  - injection He' as <-. exact (He2 _ Hin).
Qed.
End Asleep.

(** ** Stopping *)

(** The messages a shutdown waits for. *)
Definition closing (m : message) : bool :=
  match m with EventsClosed | ErrorsClosed | CommandDone _ | SyncResult _ _ => true | _ => false end.

(** What is left to be done: the channels and the command, the sync in flight, and a final sync
    with its result. *)
Definition work (s : loop) : nat :=
  ((if watcherClosed s then 0 else 1) + (if errorsOpen s then 1 else 0) + (if commandRunning s then 1 else 0) +
   (if active s then 1 else 0) + (if finalAttempted s then 0 else match lockErr s with Some _ => 0 | None => 2 end))%nat.

Section Shutdown.
Variable cfg_interval : Z.
Variable state : option syncState.

(** The loop stops, with an events channel that is open until it is seen closed. *)
Definition winding_down (s : loop) : Prop :=
  stopping s = true /\ timerArmed s = false /\ eventsOpen s = negb (watcherClosed s).

Lemma abort_work e s s' es : abortForLockFailure e s = (s', es) -> winding_down s ->
  winding_down s' /\ (work s' <= work s)%nat.
Proof.
  unfold abortForLockFailure, winding_down, work. intros H (H1 & H2 & H3).
  destruct (lockErr s) eqn:El; injection H as <- <-; cbn; rewrite ?El; (split; [done|]); [lia|].
  destruct (finalAttempted s); lia.
Qed.

Lemma receive_work m s s' es :
  winding_down s -> enabled s m = true -> receive cfg_interval state m s = (s', es) ->
  winding_down s' /\ (work s' + (if closing m then 1 else 0) <= work s)%nat.
Proof.
  intros Hw Hen Hrec. pose proof Hw as (H1 & H2 & H3).
  destruct m; cbn [receive enabled closing] in *; try congruence.
  - unfold receive_item in Hrec. cbn in Hrec. rewrite H1, andb_false_r in Hrec. injection Hrec as <- <-.
    split; [done|]. unfold work. cbn. lia.
  - injection Hrec as <- <-. split; [done|]. unfold work. cbn. rewrite Hen in H3. destruct (watcherClosed s); [done|]. cbn. lia.
  - unfold receive_watcherErr in Hrec. destruct e, (watcherErr s); injection Hrec as <- <-; (split; [done|]); unfold work; cbn; lia.
  - injection Hrec as <- <-. split; [done|]. unfold work. cbn. rewrite Hen. lia.
  - destruct e; [|injection Hrec as <- <-; split; [done|lia]].
    apply abort_work in Hrec as [H4 H5]; [|done]. split; [done|lia].
  - injection Hrec as <- <-. split; [done|]. unfold work. cbn. lia.
  - unfold receive_result in Hrec.
    set (s1 := if abandoned (set_active false s) then set_active false s else set_lastSyncErr e (set_active false s)) in *.
    assert (Hs1 : winding_down s1 /\ (work s1 + 1 <= work s)%nat).
    { assert (E : work s1 = work (set_active false s) /\ (winding_down (set_active false s) -> winding_down s1)) by (subst s1; destruct (abandoned (set_active false s)); split; [reflexivity|exact id|reflexivity|exact id]).
      destruct E as [-> E]. split; [apply E, Hw|]. unfold work. cbn. rewrite Hen. lia. }
    destruct Hs1 as [Hw1 Hle]. clearbody s1. destruct e as [e|]; [destruct (is_ownership_lost e)|].
    + apply abort_work in Hrec as [H4 H5]; [|done]. split; [done|lia].
    + cbn [stopping set_pending_] in Hrec. destruct Hw1 as (Hst & ?). rewrite Hst in Hrec. injection Hrec as <- <-.
      split; [done|]. unfold work in *. cbn in *. lia.
    + cbn [stopping set_retryDelay] in Hrec. destruct Hw1 as (Hst & ?). rewrite Hst in Hrec. injection Hrec as <- <-.
      split; [done|]. unfold work in *. cbn in *. lia.
  - unfold receive_exit in Hrec. cbn [stopping set_wrappedExitCode set_commandRunning] in Hrec. rewrite H1 in Hrec.
    injection Hrec as <- <-. split; [done|]. unfold work. cbn. rewrite Hen. lia.
  - unfold receive_signal in Hrec.
    set (s1 := if commandRunning s then s else set_signalsSeen (signalsSeen s + 1) s) in *.
    assert (Hs1 : winding_down s1 /\ work s1 = work s) by (subst s1; by destruct (commandRunning s)).
    destruct Hs1 as [Hw1 Hle]. clearbody s1. rewrite (proj1 Hw1) in Hrec. cbn [negb] in Hrec.
    repeat case_match; injection Hrec as <- <-; (split; [done|]); unfold work in *; cbn in *;
      try destruct (finalAttempted s1); lia.
Qed.

Lemma begin_turn_work s : winding_down s -> winding_down (fst (begin_turn s)) /\ (work (fst (begin_turn s)) <= work s)%nat.
Proof.
  intros Hw. unfold begin_turn. destruct (turn s) eqn:Et; try (split; [exact Hw|cbn [fst]; lia]).
  unfold turn in Et. destruct (stopping s && watcherClosed s && _ && _ && _) eqn:E; [|done]. destruct (lockErr s) eqn:El; [done|].
  destruct (negb (bool_decide _) && _) eqn:E2 in Et; [|by repeat case_match].
  assert (Ha : active s = false) by (reflect_bools; by destruct (active s)).
  assert (Hf : finalAttempted s = false) by (reflect_bools; by destruct (finalAttempted s)).
  unfold startSync. destruct (active s || _); [split; [exact Hw|cbn [fst]; lia]|].
  split; [exact Hw|]. unfold work. cbn. rewrite Hf, El, Ha. lia.
Qed.

Lemma extends_work s f h' s' f' : extends cfg_interval state s f h' s' f' -> winding_down s ->
  winding_down s' /\ (work s' + received closing h' <= work s)%nat.
Proof.
  intros He Hw. induction He as [|s f h' s1 f1 m s2 e1 e2 He IH Hs Hf]; [split; [done|unfold received; cbn; lia]|].
  destruct (IH Hw) as [Hw1 Hle]. destruct Hs as [x1 ? ? ? _ Hb Hen Hrec].
  destruct (begin_turn_work s1 Hw1) as [Hw2 Hle2]. rewrite Hb in Hw2, Hle2. cbn in Hw2, Hle2.
  destruct (receive_work m x1 _ _ Hw2 Hen Hrec) as [Hw3 Hle3]. split; [done|].
  rewrite received_app, received_labels. lia.
Qed.

(** The branches of the [select] keep the two views of the events channel in step, and stop the
    loop without a running command only with the watcher told to close. *)
Definition told (s s' : loop) (es : list effect) : Prop :=
  (eventsOpen s = negb (watcherClosed s) -> eventsOpen s' = negb (watcherClosed s')) /\
  (stopping s' = true -> commandRunning s' = false ->
   stopping s = true /\ commandRunning s = false \/ CloseWatcher ∈ es).

Lemma startSync_told final s s' es : startSync final s = (s', es) -> told s s' es.
Proof.
  unfold startSync. case_goal; [intros [= <- <-]|destruct final; intros [= <- <-]]; (split; [done|by left]).
Qed.

Lemma abort_told e s s' es : abortForLockFailure e s = (s', es) -> told s s' es.
Proof.
  unfold abortForLockFailure. destruct (lockErr s); intros [= <- <-]; (split; [done|]); [by left|].
  intros _ _. right. destruct (commandRunning s); cbn; rewrite !elem_of_cons; auto.
Qed.

Lemma receive_told m s s' es : receive cfg_interval state m s = (s', es) -> told s s' es.
Proof.
  intros Hrec. destruct m; cbn [receive] in Hrec.
  - unfold receive_item in Hrec. case_match; [|injection Hrec as <- <-; split; [done|by left]].
    by apply startSync_told in Hrec.
  - injection Hrec as <- <-. split; [done|by left].
  - unfold receive_watcherErr in Hrec. destruct e, (watcherErr s); injection Hrec as <- <-; (split; [done|]); try by left.
    intros _ _. right. rewrite elem_of_app. right. by left.
  - injection Hrec as <- <-. split; [done|by left].
  - destruct e; [by eapply abort_told|injection Hrec as <- <-; split; [done|by left]].
  - injection Hrec as <- <-. split; [done|by left].
  - unfold receive_timer in Hrec. case_match; [injection Hrec as <- <-; split; [done|by left]|].
    by apply startSync_told in Hrec.
  - unfold receive_result in Hrec.
    set (s1 := if abandoned (set_active false s) then set_active false s else set_lastSyncErr e (set_active false s)) in *.
    assert (Hs1 : forall x es, told s1 x es -> told s x es) by (subst s1; by destruct (abandoned (set_active false s))).
    clearbody s1. apply Hs1. clear Hs1. destruct e as [e|]; [destruct (is_ownership_lost e); [by eapply abort_told|]|];
      revert Hrec; case_goal; intros [= <- <-]; (split; [done|by left]).
  - unfold receive_exit in Hrec. injection Hrec as <- <-. split; [by case_goal|]. intros _ _. right. by left.
  - unfold receive_signal in Hrec. destruct (commandRunning s) eqn:Ec; cbn in Hrec; destruct (stopping s) eqn:Es; cbn in Hrec;
      repeat case_match; injection Hrec as <- <-; (split; [done|]); cbn; intros; try congruence; try (by left);
      right; by left.
Qed.

Lemma step_told s m s' e1 e2 : step cfg_interval state s m s' e1 e2 -> told s s' (e1 ++ e2).
Proof.
  intros [s1 x1 s2 x2 _ Hb _ Hrec]. apply receive_told in Hrec as [H1 H2].
  assert (H0 : told s s1 x1).
  { unfold begin_turn in Hb. case_match; try (injection Hb as <- <-; split; [done|by left]). by apply startSync_told in Hb. }
  destruct H0 as [H3 H4]. split; [auto|]. intros Hs Hc. rewrite elem_of_app.
  destruct (H2 Hs Hc) as [[Hs1 Hc1]|Hin]; [|by right; right]. destruct (H4 Hs1 Hc1); [by left|by right; left].
Qed.

Lemma runs_told p r fl c s f h : runs cfg_interval state p r fl c s f h ->
  eventsOpen s = negb (watcherClosed s) /\
  (stopping s = true -> commandRunning s = false -> fl = true \/ Did CloseWatcher ∈ h).
Proof.
  induction 1 as [|s f h m s' e1 e2 Hr [IH1 IH2] Hs Hf]; [split; [done|by left]|].
  apply step_told in Hs as [H1 H2]. split; [auto|]. intros Hst Hc. unfold labels.
  destruct (H2 Hst Hc) as [[H3 H4]|Hin].
  - destruct (IH2 H3 H4); [by left|right]. rewrite elem_of_app. by left.
  - right. rewrite !elem_of_app, !list_elem_of_fmap. rewrite elem_of_app in Hin. destruct Hin; eauto 8.
Qed.

(** While the loop goes on, one of the messages it waits for can be received. *)
Lemma turn_receivable s f : winding_down s -> active s = (match f with Some _ => true | None => false end) ->
  goes_on s = true -> exists m, closing m = true /\ receivable s f m = true.
Proof.
  intros (H1 & _ & H3) Ha Hgo. unfold receivable. rewrite Hgo. cbn [andb]. unfold begin_turn.
  destruct (turn s) eqn:Et; [| |unfold goes_on in Hgo; by rewrite Et in Hgo..].
  - assert (Hno : stopping s && watcherClosed s && negb (errorsOpen s) && negb (active s) && negb (commandRunning s) = false).
    { unfold turn in Et. by destruct (_ && _); [repeat case_match|]. }
    rewrite H1 in Hno. cbn [fst snd]. destruct f as [b|].
    { exists (SyncResult b None). split; [done|]. cbn. rewrite Ha. by rewrite bool_decide_true. }
    destruct (watcherClosed s) eqn:E2; [|exists EventsClosed; split; [done|]; cbn; by rewrite H3].
    destruct (errorsOpen s) eqn:E3; [exists ErrorsClosed; split; [done|]; cbn; by rewrite E3|].
    destruct (commandRunning s) eqn:E4; [exists (CommandDone 0); split; [done|]; cbn; by rewrite E4|].
    by rewrite Ha in Hno.
  - assert (Hp : pending_ s <> ∅ /\ active s = false).
    { unfold turn in Et. destruct (_ && _) eqn:E in Et; [|done]. reflect_bools. destruct (lockErr s); [done|].
      destruct (active s); [done|]. split; [|done]. intros Hp. rewrite (bool_decide_true _ Hp) in Et. cbn in Et.
      by destruct (watcherErr s). }
    destruct Hp as [Hp Hact]. pose proof (startSync_all true s Hact Hp) as Hall.
    destruct (startSync true s) as [s1 e1]. destruct Hall as (Ha1 & _ & _ & ->).
    exists (SyncResult (map_to_list (pending_ s)) None). split; [done|]. cbn. rewrite Ha1. cbn. by rewrite bool_decide_true.
Qed.
End Shutdown.

(** ** A loop that stalls

    With the timer over and nothing pending the loop is ready for the next change.  An event
    for the state file takes that readiness away and starts nothing, so a change that follows
    stays pending: no timer runs, no sync is in flight. *)
Definition stalling_messages : list message :=
  [TimerFired; Item (Change ".rcw-state" false false); Item (Change "docs/a.txt" false false)].

Definition stalled : option (loop * option batch * list label) :=
  replay second (Some demo) (initial_loop second (Some demo) ∅ false false 0) None [] stalling_messages.

Definition stalled_state : loop := Eval vm_compute in
  match stalled with Some (s, _, _) => s | None => initial_loop second (Some demo) ∅ false false 0 end.
Definition stalled_history : list label := Eval vm_compute in match stalled with Some (_, _, h) => h | None => [] end.

Lemma stalled_runs : runs second (Some demo) ∅ false false 0 stalled_state None stalled_history.
Proof.
  assert (E : replay second (Some demo) (initial_loop second (Some demo) ∅ false false 0) None [] stalling_messages
    = Some (stalled_state, None, stalled_history)) by (vm_compute; reflexivity).
  eapply replay_runs; [apply Runs_init|exact E].
Qed.

(** ** Guarantees *)

(** C7: with a positive interval, in a run that has received no event for a reserved path, and as
    long as it receives none and the loop is not stopping, a pending change is handed to a sync
    at the latest with the second result or timer that is received, and one of the two is on
    its way. An event for the state file breaks this ([reserved_event_stalls_loop]). *)
Theorem pending_change_is_served interval state pending running failed code s f h h' s' f' p :
  0 < interval ->
  runs interval state pending running failed code s f h -> extends interval state s f h' s' f' ->
  Forall (fun l => match l with Got m => reserved state m = false | Did _ => True end) (h ++ h') ->
  p ∈ dom (pending_ s) -> stopping s' = false ->
  served p h' \/
  p ∈ dom (pending_ s') /\ (received wakeup h' < 2)%nat /\
  (enabled s' TimerFired = true \/ forall b e, enabled s' (SyncResult b e) = true).
Proof.
  intros Hi Hr He Hres Hp Hns. apply Forall_app in Hres as [H1 H2].
  pose proof (runs_stopped interval state pending running failed code s f h Hr) as Hst.
  pose proof (runs_awake interval state Hi pending running failed code s f h Hr H1) as Haw.
  destruct (extends_awake interval state Hi s f h' s' f' p He Hst Haw H2 Hns Hp) as (_ & Haw' & [H|[Hin Hc]]); [by left|right].
  split; [done|]. split.
  - unfold wakeups_left in Hc. destruct (active s), (active s'); lia.
  - cbn. destruct (Haw' Hns) as [(->&_)|[(_&->&_)|(_&_&_&Hn)]]; [by right|by left|].
    rewrite Hn, dom_empty_L in Hin. set_solver.
Qed.

(** A run of the loop in which an event for the state file arrives while the loop is ready:
    the change that follows is pending, and however the run goes on, no sync is started until
    the loop stops. *)
Theorem reserved_event_stalls_loop :
  runs second (Some demo) ∅ false false 0 stalled_state None stalled_history /\
  "docs/a.txt"%stdpp ∈ dom (pending_ stalled_state) /\ stopping stalled_state = false /\
  forall h' s' f', extends second (Some demo) stalled_state None h' s' f' -> stopping s' = false ->
    forall b final, Did (StartSync b final) ∉ stalled_history ++ h'.
Proof.
  split; [exact stalled_runs|]. split; [apply elem_of_dom; by eexists|]. split; [done|].
  intros h' s' f' He Hns b final. rewrite elem_of_app. intros [Hin|Hin].
  - unfold stalled_history in Hin. rewrite !elem_of_cons in Hin. destruct Hin as [H|[H|[H|H]]]; try done. by apply not_elem_of_nil in H.
  - by eapply (extends_asleep second (Some demo)) in He as [_ Hno]; [eapply Hno| |].
Qed.

(** A change that arrives while the timer runs, and the timer. *)
Definition demo_state_after (ms : list message) : loop * option batch * list label :=
  let s0 := initial_loop second (Some demo) ∅ false false 0 in default (s0, None, []) (replay second (Some demo) s0 None [] ms).
Definition demo_continued (ms ms' : list message) : loop * option batch * list label :=
  let '(s, f, _) := demo_state_after ms in default (s, f, []) (replay second (Some demo) s f [] ms').

Definition one_change : list message := [Item (Change "docs/a.txt" false false)].
Definition change_pending : loop * option batch * list label := Eval vm_compute in demo_state_after one_change.
Definition change_handed_over : loop * option batch * list label := Eval vm_compute in demo_continued one_change [TimerFired].

Lemma pending_change_is_served_witness :
  let '(s, f, h) := change_pending in let '(s', f', h') := change_handed_over in
  served "docs/a.txt" h' \/
  "docs/a.txt"%stdpp ∈ dom (pending_ s') /\ (received wakeup h' < 2)%nat /\
  (enabled s' TimerFired = true \/ forall b e, enabled s' (SyncResult b e) = true).
Proof.
  unfold change_pending, change_handed_over.
  eapply (pending_change_is_served second (Some demo) ∅ false false 0).
  - reflexivity.
  - eapply (replay_runs _ _ _ _ _ _ one_change); [apply Runs_init|vm_compute; reflexivity].
  - eapply (replay_extends _ _ _ _ [TimerFired]); [apply Extends_refl|vm_compute; reflexivity].
  - repeat constructor.
  - apply elem_of_dom. eexists. reflexivity.
  - reflexivity.
Defined.

(** C13: once the loop stops it ends: it receives at most six of the messages it waits for (the
    closed channels of the watcher, the command's exit, results of syncs), and as long as it goes
    on one of them can be received. The watcher has been told to close when no command runs. *)
Theorem shutdown_ends interval state pending running failed code s f h h' s' f' :
  runs interval state pending running failed code s f h -> stopping s = true ->
  extends interval state s f h' s' f' ->
  (received closing h' <= 6)%nat /\
  (goes_on s' = true -> exists m, closing m = true /\ receivable s' f' m = true) /\
  (commandRunning s' = false -> failed = true \/ Did CloseWatcher ∈ h ++ h').
Proof.
  intros Hr Hst He.
  destruct (runs_told interval state pending running failed code s f h Hr) as [Hev _].
  assert (Hw : winding_down s) by (split; [done|]; split; [by eapply runs_stopped in Hr as [Ht _]; apply Ht|done]).
  destruct (extends_work interval state s f h' s' f' He Hw) as [Hw' Hle].
  pose proof (runs_extends interval state pending running failed code s f h h' s' f' Hr He) as Hr'.
  split; [|split].
  - assert (work s <= 6)%nat; [|lia]. unfold work. repeat case_match; lia.
  - intros Hgo. apply turn_receivable; [done| |done]. by apply runs_accounted in Hr' as [Ha _].
  - intros Hc. by eapply runs_told in Hr' as [_ Ht]; apply Ht; [apply Hw'|].
Qed.

(** A signal, and the watcher's channels closed. *)
Definition stop_requested : loop * option batch * list label := Eval vm_compute in demo_state_after (one_change ++ [Signal SIGTERM]).
Definition channels_closed : loop * option batch * list label :=
  Eval vm_compute in demo_continued (one_change ++ [Signal SIGTERM]) [EventsClosed; ErrorsClosed].

Lemma shutdown_ends_witness :
  let '(s, f, h) := stop_requested in let '(s', f', h') := channels_closed in
  (received closing h' <= 6)%nat /\
  (goes_on s' = true -> exists m, closing m = true /\ receivable s' f' m = true) /\
  (commandRunning s' = false -> false = true \/ Did CloseWatcher ∈ h ++ h').
Proof.
  unfold stop_requested, channels_closed.
  eapply (shutdown_ends second (Some demo) ∅ false false 0).
  - eapply (replay_runs _ _ _ _ _ _ (one_change ++ [Signal SIGTERM])); [apply Runs_init|vm_compute; reflexivity].
  - reflexivity.
  - eapply (replay_extends _ _ _ _ [EventsClosed; ErrorsClosed]); [apply Extends_refl|vm_compute; reflexivity].
Defined.
