(* ===== verification/RunSpec.v ===== *)
(** * What the exit status means

    The run as a whole: an early return reports a failure and leaves no lock behind, and the
    status 0 means that everything was synced, the session ended and the lock released. *)

From S2P Require Import Prelude GoString GoTime Host HostLogic SyncData Json StateFile SyncPath Options Filters SyncState SyncStateSpec Acquire Session SessionSpec Payload Watcher Backend Config MainLoop ExitSpec Run MainLoopSpec MemHost MemTree Fixtures.

Local Open Scope Z_scope.

(** ** Errors of signals

    Signals have positive numbers. An error that says the start was interrupted carries the
    number of a signal that was delivered. *)
Definition mild (e : error) : Prop := match as_interrupted e with Some sig => 0 < sig | None => True end.

Definition positive_signals (W : Type) (H : Host W) : Prop :=
  forall d (w : W), match fst (host_step (AwaitTimer d) w) with Some sig => 0 < sig | None => True end.

Lemma mild_ordinary e : ordinary e -> mild e.
Proof. intros [_ H]. unfold mild. by rewrite H. Qed.
Lemma mild_Wrapf msg e : mild e -> mild (Wrapf msg e).
Proof. done. Qed.
Lemma mild_commandError e out : mild e -> mild (commandError e out).
Proof. unfold commandError. by destruct (trim_space out). Qed.
Lemma mild_sys e : mild (ErrSys e).
Proof. done. Qed.
Lemma mild_Errorf msg : mild (Errorf msg).
Proof. done. Qed.
Lemma mild_lost : mild ErrLockOwnershipLost.
Proof. done. Qed.
Lemma mild_interrupted sig phase : 0 < sig -> mild (ErrInterrupted sig phase).
Proof. done. Qed.

Create HintDb mild discriminated.
#[export] Hint Resolve mild_Wrapf mild_commandError mild_sys mild_Errorf mild_lost mild_interrupted : mild.

Section Gentle.
Context {W V : Type} `{!Host W}.

(** The errors of a computation are mild. *)
Definition gentle {A} (m : M W V A) : Prop := forall x, match res (m x) with Err e => mild e | _ => True end.

Lemma gentle_ret {A} (a : A) : gentle (ret a).
Proof. done. Qed.
Lemma gentle_throw {A} e : mild e -> gentle (A := A) (throw e).
Proof. by intros He x. Qed.
Lemma gentle_out_of_fuel {A} : gentle (A := A) out_of_fuel.
Proof. done. Qed.
Lemma gentle_get : gentle get.
Proof. done. Qed.
Lemma gentle_modify f : gentle (modify f).
Proof. done. Qed.
Lemma gentle_lift {A} (r : result error A) : plain r -> gentle (lift r).
Proof. intros Hr x. simpl. destruct r; [done| |done]. by apply mild_ordinary. Qed.
Lemma gentle_sys {A} (o : op A) : gentle (sys o).
Proof. intros x. unfold sys. by destruct (host_step o (host x)). Qed.
Lemma gentle_fail_if b e : mild e -> gentle (fail_if b e).
Proof. intros He. destruct b; [by apply gentle_throw|done]. Qed.
Lemma gentle_bind {A B} (m : M W V A) (f : A -> M W V B) :
  gentle m -> (forall a, gentle (f a)) -> gentle (m ≫= f).
Proof.
  intros Hm Hf x. specialize (Hm x). unfold mbind, M_bind, bind. destruct (res (m x)) as [a| |]; [|done..].
  apply (Hf a).
Qed.
Lemma gentle_try {A B} (m : M W V A) (f : A + error -> M W V B) :
  gentle m -> (forall a, gentle (f (inl a))) -> (forall e, mild e -> gentle (f (inr e))) -> gentle (try m ≫= f).
Proof.
  intros Hm H1 H2 x. specialize (Hm x). unfold mbind, M_bind, bind, try.
  destruct (res (m x)) as [a|e|]; cbn [res out_state]; [apply H1|by apply H2|done].
Qed.
Lemma gentle_timer {B} d (f : option Z -> M W V B) :
  positive_signals W _ -> (forall sig, 0 < sig -> gentle (f (Some sig))) -> gentle (f None) ->
  gentle (sys (AwaitTimer d) ≫= f).
Proof.
  intros Hp H1 H2 x. specialize (Hp d (host x)). unfold mbind, M_bind, bind, sys.
  destruct (host_step (AwaitTimer d) (host x)) as [[sig|] w]; cbn [res out_state fst] in *; [by apply H1|apply H2].
Qed.
Lemma gentle_wrap {A} msg (m : M W V A) : gentle m -> gentle (wrap msg m).
Proof. intros Hm x. specialize (Hm x). unfold wrap. by destruct (res (m x)) eqn:E; simpl; rewrite ?E. Qed.
Lemma gentle_finally {A} (m : M W V A) c : gentle m -> gentle (finally m c).
Proof. intros Hm x. apply Hm. Qed.
Lemma gentle_obtain {A} (o : op (A + sys_error)) : gentle (obtain o).
Proof. apply gentle_bind; [apply gentle_sys|]. intros []; (apply gentle_ret || by apply gentle_throw). Qed.
Lemma gentle_check (o : op (option sys_error)) : gentle (check o).
Proof. apply gentle_bind; [apply gentle_sys|]. intros []; (apply gentle_ret || by apply gentle_throw). Qed.
End Gentle.

#[export] Hint Resolve gentle_ret gentle_throw gentle_out_of_fuel gentle_get gentle_modify gentle_lift gentle_sys
  gentle_fail_if gentle_wrap gentle_obtain gentle_check : mild.

Ltac gentle_steps :=
  repeat first
    [ solve [auto 6 with mild go]
    | lazymatch goal with
      | |- gentle (mbind _ (try _)) => apply gentle_try; [|intros ?|intros ??]
      | |- gentle (mbind _ (sys (AwaitTimer _))) => apply gentle_timer; [assumption|intros ??|]
      | |- gentle (mbind _ _) => apply gentle_bind; [|intros ?]
      | |- gentle (wrap _ _) => apply gentle_wrap
      | |- gentle (finally _ _) => apply gentle_finally
      | |- gentle (let '(_, _) := ?x in _) => destruct x
      | |- gentle (match ?x with _ => _ end) => destruct x
      end; cbv beta iota zeta ].

(** ** The operations of the start *)
Section Operations.
Context {W : Type} `{!Host W}.
Variable s : syncState.

Lemma runner_Run_gentle args : gentle (W := W) (runner_Run args).
Proof. unfold runner_Run. gentle_steps. Qed.
#[local] Hint Resolve runner_Run_gentle : mild.

Lemma run_gentle args : gentle (W := W) (run s args).
Proof. unfold run. gentle_steps. Qed.
#[local] Hint Resolve run_gentle : mild.

#[local] Hint Resolve decode_entries_plain entry_paths_plain decodeSyncFile_plain encodeSyncFile_plain
  encodeLocalSyncFile_plain : go.

Lemma readRemote_gentle : gentle (W := W) (readRemote s).
Proof. unfold readRemote, remoteStateExists. gentle_steps. Qed.
#[local] Hint Resolve readRemote_gentle : mild.

Lemma writeRemote_gentle d tag : gentle (W := W) (writeRemote s d tag).
Proof. unfold writeRemote. gentle_steps. Qed.
#[local] Hint Resolve writeRemote_gentle : mild.

Lemma readLocalSyncFile_gentle path : gentle (W := W) (readLocalSyncFile path).
Proof. unfold readLocalSyncFile. gentle_steps. Qed.
Lemma writeLocalSyncFile_gentle path d : gentle (W := W) (writeLocalSyncFile path d).
Proof. unfold writeLocalSyncFile. gentle_steps. Qed.
#[local] Hint Resolve readLocalSyncFile_gentle writeLocalSyncFile_gentle : mild.

Lemma replaceOwnedRemote_gentle p c : gentle (W := W) (replaceOwnedRemote s p c).
Proof. unfold replaceOwnedRemote, forget_pending, setOwnedRemote. gentle_steps. Qed.
#[local] Hint Resolve replaceOwnedRemote_gentle : mild.

(** *** Acquiring the lock *)
Hypothesis signals : positive_signals W _.
#[local] Set Default Proof Using "Type*".

Lemma validateAcquisition_gentle local b r : gentle (W := W) (validateAcquisition s local b r).
Proof. unfold validateAcquisition, remotePayloadEmpty. gentle_steps. Qed.

Lemma verifyAcquiredLock_gentle fuel deadline : gentle (W := W) (verifyAcquiredLock s fuel deadline).
Proof. revert deadline. induction fuel as [|fuel IH]; intros deadline; cbn [verifyAcquiredLock]; gentle_steps. Qed.

Lemma awaitLock_gentle fuel deadline o r : gentle (W := W) (awaitLock s fuel deadline o r).
Proof. revert o r. induction fuel as [|fuel IH]; intros o r; cbn [awaitLock]; gentle_steps. Qed.
#[local] Hint Resolve validateAcquisition_gentle verifyAcquiredLock_gentle awaitLock_gentle : mild.

Lemma judge_attempt_gentle o r c d e expires : match e with Some e => mild e | None => True end ->
  gentle (W := W) (judge_attempt s o r c d e expires).
Proof. intros He. unfold judge_attempt, setOwnedRemote. gentle_steps. Qed.
#[local] Hint Resolve judge_attempt_gentle : mild.

Lemma try_acquire_gentle fuel local b o r : gentle (W := W) (try_acquire s fuel local b o r).
Proof.
  unfold try_acquire, newLock, cancelCommands. gentle_steps.
  all: apply gentle_throw; by simpl.
Qed.
#[local] Hint Resolve try_acquire_gentle : mild.

Lemma acquireLoop_gentle fuel deadline local b o r : gentle (W := W) (acquireLoop s fuel deadline local b o r).
Proof. revert o r. induction fuel as [|fuel IH]; intros o r; cbn [acquireLoop]; gentle_steps. Qed.
#[local] Hint Resolve acquireLoop_gentle : mild.

Lemma Acquire_gentle fuel : gentle (W := W) (Acquire s fuel).
Proof. unfold Acquire, newLock. gentle_steps. Qed.

(** *** Reconciling *)
Lemma InitializeGeneration_gentle : gentle (W := W) (InitializeGeneration s).
Proof.
  unfold InitializeGeneration, InitializeRemote, BeforeRemoteChange, AfterRemoteChange, deleteRemotePayload,
    ignore_not_found, syncToRemote, syncFromRemote, getRemote.
  gentle_steps.
Qed.
End Operations.

(** ** Early returns *)
Definition failure_status (code : Z) : Prop := code = 1 \/ exists sig, 0 < sig /\ code = 128 + sig.

(** What can arrive during the start: signals, and errors of the watcher, which is never
    interrupted. *)
Definition startup_input (m : startup_message) : Prop :=
  match m with
  | SuSignal sig => 0 < sig
  | SuWatcherError (Some e) => as_interrupted e = None
  | _ => True
  end.

Lemma startup_status_failure e : mild e -> failure_status (startup_status e).
Proof.
  unfold mild, startup_status. destruct (as_interrupted e) as [sig|]; [|by left].
  right. by exists sig.
Qed.

(** The errors kept by the loop of [initializeWatching] are mild. *)
Definition mild_startup (su : startup) : Prop :=
  match su_interrupted su with Some sig => 0 < sig | None => True end /\
  match su_watcherErr su with Some e => mild e | None => True end.

Lemma startup_receive_mild st m su : startup_input m -> mild_startup su -> mild_startup (startup_receive st m su).
Proof.
  intros Hm [H1 H2]. destruct m as [c| |[e|]| |sig]; cbn [startup_receive startup_input] in *; try by split.
  - destruct (su_watcherErr su) eqn:E; [by split; [|rewrite E]|]. split; [done|]. cbn. unfold mild. by rewrite Hm.
  - destruct (su_interrupted su) eqn:E; split; rewrite ?E; done.
Qed.

Lemma startup_loop_mild st ms : Forall startup_input ms -> mild_startup (startup_loop st ms).
Proof.
  unfold startup_loop. assert (H0 : mild_startup (Startup ∅ None None true true false)) by done.
  generalize dependent (Startup ∅ None None true true false). intros su H0 Hms. revert su H0.
  induction Hms as [|m ms Hm _ IH]; intros su H; [done|]. cbn [foldl]. apply IH.
  destruct (startup_enabled su m); [by apply startup_receive_mild|done].
Qed.

Lemma startup_result_mild su r e : mild_startup su -> match r with Some e => mild e | None => True end ->
  startup_result su r = Some e -> mild e.
Proof.
  intros [H1 H2] Hr. unfold startup_result. destruct (su_interrupted su); [by intros [= <-]|].
  destruct (su_watcherErr su); [by intros [= <-]|]. by intros ->.
Qed.

Section Early.
Context {W : Type} `{!Host W}.
Hypothesis signals : positive_signals W _.

Lemma wp_any {V A} (m : M W V A) (Q : post A) x : (forall r x' t, Q r x' t) -> wp m Q x.
Proof. intros HQ. apply HQ. Qed.

Lemma wp_gentle {V A} (m : M W V A) (Q : post A) x : gentle m ->
  (forall a x' t, Q (Ok a) x' t) -> (forall e x' t, mild e -> Q (Err e) x' t) ->
  (forall x' t, Q OutOfFuel x' t) -> wp m Q x.
Proof.
  intros Hm H1 H2 H3. unfold wp. specialize (Hm x). destruct (res (m x)); [apply H1|by apply H2|apply H3].
Qed.

Lemma wp_on_sync {A} (m : M W syncVars A) (Q : post A) x :
  wp m (fun r x' t => Q r (St (host x') (RunVars (vars x') (rv_watch (vars x)))) t) (St (host x) (rv_sync (vars x))) ->
  wp (on_sync m) Q x.
Proof. done. Qed.

#[local] Set Default Proof Using "Type*".

Lemma configure_wp upper fuel cfg x :
  wp (configure upper fuel cfg) (fun r _ _ => forall code, r = Ok (inl code) -> failure_status code) x.
Proof.
  unfold configure. destruct (uploadOnly cfg); [by apply wp_ret|].
  apply wp_bind, wp_try, wp_any. intros [consistent|e|] x1 t1; cbn [after]; [|apply wp_ret; intros c [= <-]; by left|done].
  apply wp_bind, wp_try, wp_any. intros [state|e|] x2 t2; cbn [after]; [|apply wp_ret; intros c [= <-]; by left|done].
  apply wp_bind, wp_try, wp_gentle; [by apply Acquire_gentle|intros [] x3 t3|intros e x3 t3 He|done]; cbn [after]; apply wp_ret; [done|].
  intros c [= <-]. by apply startup_status_failure.
Qed.

Lemma initializeWatching_wp st ms x : Forall startup_input ms ->
  wp (initializeWatching st ms) (fun r _ _ => forall p e, r = Ok (p, Some e) -> mild e) x.
Proof.
  intros Hms. unfold initializeWatching.
  assert (Hend : forall (r : unit + error) t0 (x' : Host.st W syncVars), match r with inr e => mild e | inl _ => True end ->
    after (fun r : unit + error =>
        (if su_cancelled (startup_loop st ms) then cancelCommands st else ret tt);;
        ret (su_pending (startup_loop st ms), startup_result (startup_loop st ms) (error_of r)))
      (fun r' _ _ => forall p e, r' = Ok (p, Some e) -> mild e) (Ok r) x' t0).
  { intros r t0 x' Hr. cbn [after]. apply wp_bind, wp_any. intros [[]|e|] x2 t2; cbn [after]; [|done..].
    apply wp_ret. intros p e [= _ He]. eapply startup_result_mild; [by apply startup_loop_mild| |exact He]. by destruct r. }
  apply wp_bind, wp_try, wp_gentle; [by apply InitializeGeneration_gentle|intros a x1 t1|intros e x1 t1 He|done]; by apply Hend.
Qed.

Lemma start_watching_wp fuel cfg env state x : Forall startup_input (startup_messages env) ->
  wp (start_watching fuel cfg env state) (fun r _ _ => forall code, r = Ok (inl code) -> failure_status code) x.
Proof.
  intros Hms. unfold start_watching.
  apply wp_bind, wp_try, wp_any. intros [root|e|] x1 t1; cbn [after]; [|apply wp_ret; intros c [= <-]; by left|done].
  destruct state as [st|]; [|by apply wp_ret].
  apply wp_bind, wp_on_sync. eapply wp_mono; [by apply initializeWatching_wp|]. intros [[p [e|]]|e|] x2 t2 H; cbn [after]; [..|done|done].
  - apply wp_bind, wp_any. intros [[]|e2|] x3 t3; cbn [after]; [|done..]. apply wp_ret. intros c [= <-].
    by eapply startup_status_failure, H.
  - destruct (lock_failed env); [|by apply wp_ret].
    apply wp_bind, wp_any. intros [[]|e2|] x3 t3; cbn [after]; [|done..]. apply wp_ret. intros c [= <-]. by left.
Qed.
End Early.

(** ** Leaving *)
Section Leaving.
Context {W : Type} `{!Host W}.

Lemma conclude_closes st finish code (x : Host.st W syncVars) : res (conclude (Some st) finish code x) <> OutOfFuel ->
  closed (vars (out_state (conclude (Some st) finish code x))) = true.
Proof.
  unfold conclude, deferred_close, mbind, M_bind, bind.
  set (m := if finish then finish_session st code else ret code). destruct (res (m x)) as [c|e|] eqn:E; cbn [res out_state].
  - intros _. unfold try. pose proof (Close_closes st (out_state (m x))) as H.
    by destruct (res (Close st (out_state (m x)))).
  - intros _. exfalso. subst m. destruct finish; [|done]. unfold finish_session, try, mbind, M_bind, bind in E.
    by destruct (res (FinishSession st x)).
  - done.
Qed.

Lemma conclude_res st finish code (x : Host.st W syncVars) c : res (conclude (Some st) finish code x) = Ok c ->
  c = 1 \/ (c = code /\
    (finish = true -> res (FinishSession st x) = Ok tt /\ res (Close st (out_state (FinishSession st x))) = Ok tt)).
Proof.
  unfold conclude, deferred_close, finish_session, try, mbind, M_bind, bind. destruct finish; cbn [res out_state ret].
  - destruct (res (FinishSession st x)) as [[]|e|]; cbn [res out_state ret]; [..|done];
      destruct (res (Close st _)) as [[]|e2|]; cbn [res ret]; try done; intros [= <-]; first [by left|by right; split; [|intros _; split]].
  - destruct (res (Close st _)) as [[]|e2|]; cbn [res ret]; try done; intros [= <-]; first [by left|by right].
Qed.
End Leaving.

(** ** The whole run *)
Section Whole.
Context {W : Type} `{!Host W}.
Variable upper : Z -> Z.
Variable fuel : nat.
Variable cfg : config.
Variable env : environment.
Variable start : option (bool * error).
Variable x0 : Host.st W run_vars.

(** Runs of the loop from where it is entered. *)
Definition loop_runs (state : option syncState) (pending : gmap string change) :
    loop -> option batch -> list label -> Prop :=
  let '(running, failed, code) := start_command cfg start in
  runs (interval cfg) state pending running failed code.

(** The exit statuses the program can have: an early return, or the loop's end and what follows
    it, in whatever state the session's computations have left the variables. *)
Inductive exits : Z -> Prop :=
| Exits_early code :
    res (prepare upper fuel cfg env x0) = Ok (Leave code) -> exits code
| Exits_loop state pending s f h (finish : bool) c code (x : Host.st W syncVars) :
    res (prepare upper fuel cfg env x0) = Ok (Enter state pending) ->
    loop_runs state pending s f h -> turn s = (if finish then Finish c else Exit c) ->
    res (conclude state finish c x) = Ok code -> exits code.

Lemma prepare_leave code : positive_signals W _ -> Forall startup_input (startup_messages env) ->
  res (prepare upper fuel cfg env x0) = Ok (Leave code) -> failure_status code.
Proof.
  intros Hp Hms.
  assert (Hwp : wp (prepare upper fuel cfg env) (fun r _ _ => forall code, r = Ok (Leave code) -> failure_status code) x0).
  { unfold prepare. apply wp_bind, wp_on_sync. eapply wp_mono; [by apply configure_wp|].
    intros [[c|state]|e|] x1 t1 H; cbn [after]; [|clear H|done..].
    { apply wp_ret. intros c' [= <-]. by apply H. }
    apply wp_bind. eapply wp_mono; [by apply start_watching_wp|].
    intros [[c|pending]|e|] x2 t2 H; cbn [after]; [|by apply wp_ret|done..].
    apply wp_bind, wp_on_sync. unfold wp at 1.
    destruct (res (conclude state false c _)) as [c'|e|] eqn:E; cbn [after]; [|done..].
    apply wp_ret. intros c2 [= <-]. destruct state as [st|]; [|by injection E as <-; apply H].
    apply conclude_res in E as [->|[-> _]]; [by left|by apply H]. }
  apply Hwp.
Qed.

Lemma prepare_closes :
  wp (prepare upper fuel cfg env) (fun r x' _ => forall code, r = Ok (Leave code) ->
    match res (configure upper fuel cfg (St (host x0) (rv_sync (vars x0)))) with
    | Ok (inr (Some _)) => closed (rv_sync (vars x')) = true
    | _ => True
    end) x0.
Proof.
  unfold prepare. apply wp_bind, wp_on_sync. unfold wp at 1.
  destruct (res (configure upper fuel cfg _)) as [[c|state]|e|]; cbn [after]; [by apply wp_ret| |done..].
  apply wp_bind, wp_any. intros [[c|pending]|e|] x2 t2; cbn [after]; [|by apply wp_ret|done..].
  apply wp_bind, wp_on_sync. unfold wp at 1. destruct state as [st|]; [|by apply wp_any].
  pose proof (conclude_closes st false c (St (host x2) (rv_sync (vars x2)))) as Hc.
  destruct (res (conclude (Some st) false c _)) as [c'|e|]; cbn [after]; [|done..].
  apply wp_ret. intros c2 _. cbn [vars rv_sync]. by apply Hc.
Qed.

Lemma failure_status_nonzero : ~ failure_status 0.
Proof. intros [?|(sig & H & ?)]; lia. Qed.

Lemma turn_exit s c : turn s = Exit c -> c = 1.
Proof. unfold turn. repeat case_goal; congruence. Qed.
End Whole.

(** C16: the program returns before its loop with a status that tells of a failure: 1, or 128
    and the number of the signal that interrupted the start; and when it had acquired the lock,
    [Close] has run, so the lock is not left behind. *)
Theorem early_exit_fails_and_closes (W : Type) (H : Host W) upper fuel cfg env (x : Host.st W run_vars) code :
  positive_signals W H -> Forall startup_input (startup_messages env) ->
  res (prepare upper fuel cfg env x) = Ok (Leave code) ->
  failure_status code /\
  match res (configure upper fuel cfg (St (host x) (rv_sync (vars x)))) with
  | Ok (inr (Some _)) => closed (rv_sync (vars (out_state (prepare upper fuel cfg env x)))) = true
  | _ => True
  end.
Proof.
  intros Hp Hms Hr. split; [by eapply prepare_leave|].
  exact (prepare_closes upper fuel cfg env x code Hr).
Qed.

(** C8: exit status 0 means that nothing was left undone: the loop was entered and every change
    it received was covered by a sync that started afterwards and succeeded, the wrapped
    command, if any, ended with 0, and the session was ended and the lock released without an
    error. *)
Theorem exit_zero_means_synced (W : Type) (H : Host W) upper fuel cfg env start (x0 : Host.st W run_vars) :
  positive_signals W H -> Forall startup_input (startup_messages env) ->
  exits upper fuel cfg env start x0 0 ->
  exists state pending s f h,
    res (prepare upper fuel cfg env x0) = Ok (Enter state pending) /\ loop_runs cfg start state pending s f h /\
    books state (dom pending, ∅) h = (∅, ∅) /\ commandRunning s = false /\ wrappedExitCode s = 0 /\
    match state with
    | None => True
    | Some st => exists x : Host.st W syncVars, res (FinishSession st x) = Ok tt /\
                   res (Close st (out_state (FinishSession st x))) = Ok tt
    end.
Proof.
  intros Hp Hms He. inversion He as [code Hr|state pending s f h finish c code x Hr Hl Ht Hc]; subst.
  { exfalso. eapply failure_status_nonzero, prepare_leave; [exact Hp|exact Hms|exact Hr]. }
  exists state, pending, s, f, h.
  assert (Hfin : finish = true /\ c = 0 /\ match state with None => True | Some st => exists x : Host.st W syncVars,
    res (FinishSession st x) = Ok tt /\ res (Close st (out_state (FinishSession st x))) = Ok tt end).
  { destruct state as [st|].
    - apply conclude_res in Hc as [?|[<- Hc]]; [done|]. destruct finish; [|by apply turn_exit in Ht].
      split_and!; [done|done|]. exists x. by apply Hc.
    - injection Hc as ->. destruct finish; [done|by apply turn_exit in Ht]. }
  destruct Hfin as (-> & -> & Hend). unfold loop_runs in *. destruct (start_command cfg start) as [[running failed] code0].
  destruct (finish_is_synced _ _ _ _ _ _ _ _ _ _ Hl Ht) as (H1 & _ & H2 & _ & _ & H3). by split_and!.
Qed.

(** *** Witnesses: a host without inotify, where the start fails after the lock was acquired *)
Definition tracked_config : config :=
  set_places (Some demo_paths) "/src" "r:dst" (set_bool "no-consistent-writes" true (default_config [])).
Definition quiet_environment : environment := Environment [] None.
Definition fresh_start : Host.st mem run_vars := St empty_host initial_run_vars.

Lemma mem_host_signals : positive_signals mem mem_host.
Proof. intros d m. cbn. by destruct (signals m) as [|[g|] l]. Qed.

Lemma early_exit_fails_and_closes_witness :
  let o := prepare (fun r => r) 10 tracked_config quiet_environment fresh_start in
  failure_status 1 /\ closed (rv_sync (vars (out_state o))) = true.
Proof.
  apply (early_exit_fails_and_closes mem mem_host (fun r => r) 10 tracked_config quiet_environment fresh_start 1).
  - apply mem_host_signals.
  - apply Forall_nil_2.
  - vm_compute. reflexivity.
Defined.

(** An upload-only run on a directory tree: a change arrives, and a signal ends the run. *)
Definition upload_config : config := set_places None "/src" "r:dst" (set_bool "upload-only" true (default_config [])).
Definition tree_start : Host.st tree run_vars := St (fresh_tree [("/src"%stdpp, (1, true))]) initial_run_vars.

Lemma tree_host_signals : positive_signals tree tree_host.
Proof. by intros d t. Qed.

Lemma upload_run_exits : exits (fun r => r) 5 upload_config quiet_environment None tree_start 0.
Proof.
  eapply (Exits_loop _ _ _ _ _ _ None ∅ _ _ _ true 0 0 (St (host tree_start) initial_vars));
    [vm_compute; reflexivity|exact orderly_runs|vm_compute; reflexivity|reflexivity].
Qed.

Lemma exit_zero_means_synced_witness :
  exists state pending s f h,
    res (prepare (fun r => r) 5 upload_config quiet_environment tree_start) = Ok (Enter state pending) /\
    loop_runs upload_config None state pending s f h /\
    books state (dom pending, ∅) h = (∅, ∅) /\ commandRunning s = false /\ wrappedExitCode s = 0 /\
    match state with
    | None => True
    | Some st => exists x : Host.st tree syncVars, res (FinishSession st x) = Ok tt /\
                   res (Close st (out_state (FinishSession st x))) = Ok tt
    end.
Proof.
  apply (exit_zero_means_synced tree tree_host (fun r => r) 5 upload_config quiet_environment None tree_start);
    [apply tree_host_signals|apply Forall_nil_2|apply upload_run_exits].
Defined.
