(* ===== verification/Clock.v ===== *)
(** * Hosts with a clock, and the loops that end because of it

    The interface [Clock]: time never goes back, [time.Now] reads it, and a timer that fires
    has let its duration pass.  Against this interface the loops of [Acquire] that poll are
    proved to end. *)

From S2P Require Import Prelude GoString GoTime Host HostLogic SyncData Json StateFile SyncPath Options Filters SyncState SyncStateSpec Acquire SessionSpec AcquireSpec MemHost Session Fixtures.

Local Open Scope Z_scope.

Class Clock (W : Type) `{!Host W} := {
  time : W -> Z;
  time_advances A (o : op A) w : time w <= time (snd (host_step o w));
  time_now w : time w <= fst (host_step Now w) <= time (snd (host_step Now w));
  time_timer d w : fst (host_step (AwaitTimer d) w) = None -> time w + d <= time (snd (host_step (AwaitTimer d) w))
}.

(** ** Every computation lets time pass *)
Section Advances.
Context {W V : Type} `{!Host W, !Clock W}.

Definition advances {A} (m : M W V A) : Prop := forall x, time (host x) <= time (host (out_state (m x))).

Lemma advances_ret {A} (a : A) : advances (ret a).
Proof. intros x. simpl. lia. Qed.
Lemma advances_throw {A} e : advances (A := A) (throw e).
Proof. intros x. simpl. lia. Qed.
Lemma advances_out_of_fuel {A} : advances (A := A) out_of_fuel.
Proof. intros x. simpl. lia. Qed.
Lemma advances_get : advances get.
Proof. intros x. simpl. lia. Qed.
Lemma advances_modify f : advances (modify f).
Proof. intros x. simpl. lia. Qed.
Lemma advances_lift {A} (r : result error A) : advances (lift r).
Proof. intros x. simpl. lia. Qed.
Lemma advances_sys {A} (o : op A) : advances (sys o).
Proof.
  intros x. unfold sys. pose proof (time_advances A o (host x)).
  by destruct (host_step o (host x)).
Qed.
Lemma advances_bind {A B} (m : M W V A) (f : A -> M W V B) :
  advances m -> (forall a, advances (f a)) -> advances (m ≫= f).
Proof.
  intros Hm Hf x. specialize (Hm x). unfold mbind, M_bind, bind. destruct (res (m x)) as [a| |]; [|done..].
  specialize (Hf a (out_state (m x))). simpl. lia.
Qed.
Lemma advances_try {A} (m : M W V A) : advances m -> advances (try m).
Proof. intros Hm x. specialize (Hm x). unfold try. by destruct (res (m x)). Qed.
Lemma advances_wrap {A} msg (m : M W V A) : advances m -> advances (wrap msg m).
Proof. intros Hm x. specialize (Hm x). unfold wrap. by destruct (res (m x)). Qed.
Lemma advances_finally {A} (m : M W V A) c : advances m -> advances c -> advances (finally m c).
Proof. intros Hm Hc x. specialize (Hm x). specialize (Hc (out_state (m x))). simpl. lia. Qed.
Lemma advances_fail_if b e : advances (fail_if b e).
Proof. destruct b; [apply advances_throw|apply advances_ret]. Qed.
End Advances.

Create HintDb clock discriminated.
#[export] Hint Resolve advances_ret advances_throw advances_out_of_fuel advances_get advances_modify advances_lift
  advances_sys advances_try advances_wrap advances_fail_if : clock.

Ltac advances_steps :=
  repeat first
    [ solve [auto with clock]
    | lazymatch goal with
      | |- advances (mbind _ _) => apply advances_bind; [|intros ?]
      | |- advances (try _) => apply advances_try
      | |- advances (wrap _ _) => apply advances_wrap
      | |- advances (finally _ _) => apply advances_finally
      | |- advances (match ?x with _ => _ end) => destruct x
      | |- advances (let '(_, _) := ?x in _) => destruct x
      end ].

Section Reading.
Context {W : Type} `{!Host W, !Clock W}.
Variable s : syncState.

Lemma runner_Run_advances args : advances (W := W) (runner_Run args).
Proof. unfold runner_Run. advances_steps. Qed.
#[local] Hint Resolve runner_Run_advances : clock.

Lemma readRemote_advances : advances (W := W) (readRemote s).
Proof. unfold readRemote, remoteStateExists. advances_steps. Qed.
End Reading.
#[export] Hint Resolve runner_Run_advances readRemote_advances : clock.


(** ** Termination *)

(** [m] returns when it is started in [x]; a value it returns, and the state then, satisfy [P]. *)
Definition returns {W V A} (P : A -> st W V -> Prop) (m : M W V A) (x : st W V) : Prop :=
  match res (m x) with Ok a => P a (out_state (m x)) | Err _ => True | OutOfFuel => False end.
Abbreviation ends m x := (returns (fun _ _ => True) m x).

Section Ends.
Context {W V : Type} `{!Host W, !Clock W}.

Lemma returns_not_fuel {A} P (m : M W V A) x : returns P m x -> res (m x) <> OutOfFuel.
Proof. unfold returns. by destruct (res (m x)). Qed.
Lemma returns_ret {A} (P : A -> st W V -> Prop) a x : P a x -> returns P (ret a) x.
Proof. done. Qed.
Lemma returns_mono {A} (P Q : A -> st W V -> Prop) m x :
  returns P m x -> (forall a x', P a x' -> Q a x') -> returns Q m x.
Proof. unfold returns. destruct (res (m x)); auto. Qed.
Lemma returns_bind {A B} (P : B -> st W V -> Prop) (m : M W V A) (f : A -> M W V B) x :
  returns (fun a x' => returns P (f a) x') m x -> returns P (m ≫= f) x.
Proof. unfold returns, mbind, M_bind, bind. destruct (res (m x)); done. Qed.
Lemma returns_wrap {A} msg (P : A -> st W V -> Prop) m x : returns P m x -> returns P (wrap msg m) x.
Proof. unfold returns, wrap. destruct (res (m x)) eqn:E; simpl; by rewrite ?E. Qed.
Lemma returns_fail_if b e (P : unit -> st W V -> Prop) x : (b = false -> P tt x) -> returns P (fail_if b e) x.
Proof. destruct b; [done|]. intros H. by apply H. Qed.

(** What is known of a computation that ends: time has passed. *)
Lemma returns_later {A} (P : A -> st W V -> Prop) m x :
  advances m -> ends m x -> (forall a x', time (host x) <= time (host x') -> P a x') -> returns P m x.
Proof. unfold returns. intros Ha He HP. specialize (Ha x). destruct (res (m x)); auto. Qed.
Lemma returns_try {A} (P : A + error -> st W V -> Prop) (m : M W V A) x :
  advances m -> ends m x -> (forall a x', time (host x) <= time (host x') -> P a x') -> returns P (try m) x.
Proof.
  intros Ha He HP. apply returns_later; [by apply advances_try| |done].
  revert He. unfold returns, try. by destruct (res (m x)).
Qed.

Lemma ends_try {A} (m : M W V A) x : ends m x -> ends (try m) x.
Proof. unfold returns, try. by destruct (res (m x)). Qed.

Lemma returns_sys {A} (P : A -> st W V -> Prop) (o : op A) x :
  (forall a w, time (host x) <= time w -> P a (St w (vars x))) -> returns P (sys o) x.
Proof.
  intros H. pose proof (time_advances _ o (host x)) as Hm. unfold returns, sys.
  destruct (host_step o (host x)). by apply H.
Qed.
Lemma returns_now (P : Z -> st W V -> Prop) x :
  (forall now w, time (host x) <= now <= time w -> P now (St w (vars x))) -> returns P (sys Now) x.
Proof.
  intros H. pose proof (time_now (host x)) as Hm. unfold returns, sys.
  destruct (host_step Now (host x)). by apply H.
Qed.
Lemma returns_timer (P : option Z -> st W V -> Prop) d x :
  (forall a w, (a = None -> time (host x) + d <= time w) -> time (host x) <= time w -> P a (St w (vars x))) ->
  returns P (sys (AwaitTimer d)) x.
Proof.
  intros H. pose proof (time_timer d (host x)) as Ht. pose proof (time_advances _ (AwaitTimer d) (host x)) as Hm.
  unfold returns, sys. destruct (host_step (AwaitTimer d) (host x)). by apply H.
Qed.

Lemma returns_wp {A} (P : A -> Prop) (m : M W V A) x :
  wp m (fun r _ _ => match r with Ok a => P a | Err _ => True | OutOfFuel => False end) x ->
  returns (fun a _ => P a) m x.
Proof. done. Qed.
End Ends.

Section Termination.
#[local] Set Default Proof Using "Type*".
Context {W : Type} `{!Host W, !Clock W}.
Variable s : syncState.

Lemma readRemote_returns (x : st W syncVars) : returns (fun r _ => remote_reading s r) (readRemote s) x.
Proof. apply returns_wp, readRemote_wp; intros; intros ?; done. Qed.

Lemma readRemote_ends (x : st W syncVars) : ends (readRemote s) x.
Proof. by eapply returns_mono; [apply readRemote_returns|]. Qed.

(** As many polls as fit before the deadline are enough. *)
Lemma verify_ends n : 0 < pollInterval s -> forall deadline (x : st W syncVars),
  deadline - time (host x) <= pollInterval s * Z.of_nat n -> deadline - time (host x) <= int64_max ->
  ends (verifyAcquiredLock s (S n) deadline) x.
Proof.
  intros Hp. induction n as [|n IH]; intros deadline x Hd Hmax.
  all: change (verifyAcquiredLock s (S ?m) deadline) with (
      r ← try (readRemote s);
      match r with
      | inl remote => ret remote
      | inr lastErr =>
          now ← sys Now;
          if until deadline now <=? 0 then throw (Wrapf "verify acquired lock before expiry" lastErr)
          else
            sig ← sys (AwaitTimer (Z.min (pollInterval s) (until deadline now)));
            match sig with
            | Some sig => throw (ErrInterrupted sig "verifying the acquired lock")
            | None => verifyAcquiredLock s m deadline
            end
      end : M W syncVars remoteSyncFile).
  all: apply returns_bind, returns_try; [auto with clock|apply readRemote_ends|].
  all: intros [r|e] x1 H1; [done|]; apply returns_bind, returns_now; intros now w H2;
    unfold until, clamp_int64, int64_max, int64_min in *.
  - replace (_ <=? 0) with true by lia. done.
  - case_goal; [done|]. reflect_bools. apply returns_bind, returns_timer. intros [g|] w' Ht Hm; [done|].
    specialize (Ht eq_refl). cbn [host] in *. apply IH; cbn [host]; lia.
Qed.

(** *** Without waiting *)
Lemma validateAcquisition_ends local b remote (x : st W syncVars) :
  remote_reading s remote -> local_reading local b -> ends (validateAcquisition s local b remote) x.
Proof. intros Hr Hl. apply returns_wp, validateAcquisition_wp; [done..| |]; intros; intros w; done. Qed.

Lemma writeRemote_ends d tag (x : st W syncVars) : ends (writeRemote s d tag) x.
Proof. apply returns_wp, writeRemote_wp; intros; intros w; done. Qed.

Lemma writeRemote_advances d tag : advances (W := W) (writeRemote s d tag).
Proof. unfold writeRemote, run, check, obtain. advances_steps. Qed.

Definition no_retry (a : attempt) : Prop := canWait s = false -> a = Acquired.

Lemma judge_attempt_ends o remote current cand we expires (x : st W syncVars) :
  returns (fun a _ => no_retry a) (judge_attempt s o remote current cand we expires) x.
Proof.
  unfold returns, judge_attempt, no_retry. destruct (sameSyncFileData _ _); [done|].
  destruct we as [e|].
  - destruct (canWait s), (consistentWrites s), (negb _); simpl; try done.
    destruct (refreshed_meanwhile _ _ _); done.
  - destruct (_ || _); [|done]. destruct (canWait s); simpl; [|done].
    destruct (Lock (data current)); simpl; [|done]. destruct (refreshed_meanwhile _ _ _); done.
Qed.

Lemma awaitLock_reading fuel deadline o remote (x : st W syncVars) :
  remote_reading s remote -> ends (awaitLock s fuel deadline o remote) x ->
  returns (fun a _ => remote_reading s (snd a)) (awaitLock s fuel deadline o remote) x.
Proof.
  intros Hr He. pose proof (awaitLock_wp s fuel deadline o remote x) as Hwp. unfold wp, await_post in Hwp.
  unfold returns in *. destruct (res _) as [[o' r']| |]; [|done..]. by destruct Hwp as (_ & _ & [->|?] & _).
Qed.

Lemma awaitLock_no_wait_ends fuel deadline o remote (x : st W syncVars) :
  canWait s = false -> ends (awaitLock s (S fuel) deadline o remote) x.
Proof.
  intros Hw. assert (Hd : defaultWait s = false) by (unfold canWait in Hw; by reflect_bools).
  apply returns_wp. cbn [awaitLock]. rewrite Hw, Hd. cbn [negb andb].
  destruct (Lock (data remote)); [|done].
  destruct (observedLock o =? _)%string; wp_run; done.
Qed.

Lemma refreshSafetyWindow_positive t : 0 < refreshSafetyWindow t.
Proof. unfold refreshSafetyWindow, nanosecond. lia. Qed.

Lemma try_acquire_ends n local b o remote (x : st W syncVars) :
  0 < pollInterval s -> timeout s <= int64_max -> timeout s <= pollInterval s * Z.of_nat n ->
  remote_reading s remote -> local_reading local b ->
  returns (fun a _ => no_retry a) (try_acquire s (S n) local b o remote) x.
Proof.
  intros Hp Hmax Ht Hr Hl. pose proof (refreshSafetyWindow_positive (timeout s)) as Hw. unfold try_acquire.
  apply returns_bind. eapply returns_mono; [by apply validateAcquisition_ends|]. intros [] x1 _.
  unfold newLock. apply returns_bind, returns_bind, returns_sys. intros now w1 _. apply returns_ret.
  apply returns_bind, returns_now. intros writtenAt w2 H2. apply returns_bind, returns_now. intros now' w3 H3.
  cbn [host vars] in *.
  apply returns_bind, returns_try; [apply writeRemote_advances|apply writeRemote_ends|]. intros written x4 H4.
  cbn [host] in *. apply returns_bind. eapply returns_mono; [apply ends_try, verify_ends; [done|lia..]|].
  intros current x5 _. apply returns_bind, returns_sys. intros [|bu] w6 _.
  - destruct current; [apply judge_attempt_ends|done].
  - unfold cancelCommands. by destruct (has_cancelCommands s).
Qed.

Lemma acquireLoop_no_wait_ends n deadline local b o remote (x : st W syncVars) :
  canWait s = false ->
  0 < pollInterval s -> timeout s <= int64_max -> timeout s <= pollInterval s * Z.of_nat n ->
  remote_reading s remote -> local_reading local b ->
  ends (acquireLoop s (S (S n)) deadline local b o remote) x.
Proof.
  intros Hc Hp Hmax Ht Hr Hl. cbn [acquireLoop]. apply returns_bind.
  eapply returns_mono; [apply awaitLock_reading; [done|by apply awaitLock_no_wait_ends]|].
  intros [o' r'] x1 Hr'. apply returns_bind. eapply returns_mono; [by apply try_acquire_ends|].
  intros a x2 Ha. by rewrite (Ha Hc).
Qed.

Lemma Acquire_no_wait_ends n (x : st W syncVars) :
  canWait s = false ->
  0 < pollInterval s -> timeout s <= int64_max -> timeout s <= pollInterval s * Z.of_nat n ->
  ends (Acquire s (S (S n))) x.
Proof.
  intros Hc Hp Hmax Ht. unfold Acquire. apply returns_bind.
  apply (returns_mono (fun a _ => local_reading (fst a) (snd a))).
  { apply returns_wp, readLocalSyncFile_wp; intros; intros ?; done. }
  intros [local b] x1 Hl. apply returns_bind. eapply returns_mono; [apply readRemote_returns|]. intros remote x2 Hr.
  apply returns_bind. eapply returns_mono; [by apply validateAcquisition_ends|]. intros [] x3 _.
  destruct (persistent s && ownedBy remote (owner s)).
  - unfold newLock. apply returns_bind, returns_bind, returns_sys. intros now w _. apply returns_ret, returns_wrap.
    apply returns_wp, replaceOwnedRemote_wp. intros r v l t H _ w'. destruct r; [done..|]. by apply replaces_not_fuel in H.
  - apply returns_bind. destruct (_ && _);
      [apply returns_bind, returns_sys; intros now w _; apply returns_ret|apply returns_ret];
      by apply acquireLoop_no_wait_ends.
Qed.

(** *** Waiting until a deadline *)

(** A round of the wait ends it or lets at least a nanosecond pass. *)
Lemma awaitLock_round fuel deadline o remote (x : st W syncVars) :
  deadline <> time_zero -> 0 < pollInterval s <= int64_max ->
  (time (host x) < deadline -> forall o' r' x', time (host x) < time (host x') ->
     ends (awaitLock s fuel deadline o' r') x') ->
  ends (awaitLock s (S fuel) deadline o remote) x.
Proof.
  intros Hdl Hp IH. cbn [awaitLock]. destruct (Lock (data remote)); [|done].
  apply returns_bind, returns_later.
  { advances_steps. }
  { destruct (_ =? _)%string; [done|]. apply returns_bind, returns_fail_if. intros _. apply returns_bind. by apply returns_now. }
  intros o1 x1 H1. apply returns_bind, returns_now. intros now w2 H2. cbn [host vars].
  destruct (now <? observedAt o1 + lockTTL remote (timeout s)) eqn:En; cbn [negb]; [|done]. apply Z.ltb_lt in En.
  apply returns_bind, returns_fail_if. intros _. apply returns_bind.
  apply Z.eqb_neq in Hdl. rewrite Hdl.
  apply returns_bind, returns_now. intros n0 w3 H3. cbn [host vars] in *.
  apply returns_fail_if. intros Hn0%negb_false_iff%Z.ltb_lt.
  apply returns_bind, returns_now. intros n1 w4 H4. apply returns_bind, returns_now. intros n2 w5 H5. cbn [host vars negb andb] in *.
  set (wake1 := if _ <? n1 + pollInterval s then _ else n1 + pollInterval s).
  set (wake := if deadline <? wake1 then deadline else wake1).
  assert (Hwake : time (host x) < wake <= n1 + pollInterval s).
  { subst wake wake1. repeat case_goal; reflect_bools; lia. }
  apply returns_bind, returns_timer. intros [g|] w6 Ht Hm; [done|]. specialize (Ht eq_refl). cbn [host vars] in *.
  unfold until, clamp_int64, int64_min, int64_max in *.
  apply returns_bind, returns_later; [auto with clock|apply readRemote_ends|]. intros r' x7 H7. cbn [host] in *.
  apply IH; lia.
Qed.

Lemma awaitLock_deadline_ends n deadline : deadline <> time_zero -> 0 < pollInterval s <= int64_max ->
  forall o remote (x : st W syncVars), deadline - time (host x) <= Z.of_nat n ->
  ends (awaitLock s (S n) deadline o remote) x.
Proof.
  intros Hdl Hp. induction n as [|n IH]; intros o remote x Hn; apply awaitLock_round; [done..| |done|done|].
  - lia.
  - intros Hlt o' r' x' Hx'. apply IH. lia.
Qed.
End Termination.

Lemma mem_rclone_clock args m : clock (snd (mem_rclone args m)) = clock m.
Proof. unfold mem_rclone. repeat case_match; done. Qed.

#[export] Instance mem_clock : Clock mem.
Proof.
  refine {| time := clock |}.
  - intros A o w. destruct o; cbn; try lia; repeat case_match; cbn; rewrite ?mem_rclone_clock; cbn; try lia.
  - intros w. cbn. lia.
  - intros d w. cbn. repeat case_goal; cbn; intros; simplify_eq; lia.
Defined.

(** ** Guarantees *)

(** C28: when waiting for an active lock is not allowed, [Acquire] returns on every host whose
    clock advances: as many polls as fit into the lock's TTL, and two rounds, are enough fuel
    for both loops. *)
Theorem Acquire_without_wait_returns (W : Type) (H : Host W) (HC : Clock W) s n (x : st W syncVars) :
  canWait s = false -> 0 < pollInterval s -> timeout s <= int64_max -> timeout s <= pollInterval s * Z.of_nat n ->
  res (Acquire s (S (S n)) x) <> OutOfFuel.
Proof. intros Hc Hp Hm Ht. eapply returns_not_fuel. by apply Acquire_no_wait_ends. Qed.

Lemma Acquire_without_wait_returns_witness : res (Acquire demo_no_wait 122 (start_in empty_host)) <> OutOfFuel.
Proof.
  apply (Acquire_without_wait_returns mem mem_host mem_clock demo_no_wait 120 (start_in empty_host));
    vm_compute; (reflexivity || discriminate).
Defined.

(** C29: waiting until a deadline ends: every round of the wait lets at least a nanosecond
    pass, so the time left bounds the rounds. *)
Theorem wait_until_deadline_returns (W : Type) (H : Host W) (HC : Clock W) s n deadline o remote (x : st W syncVars) :
  deadline <> time_zero -> 0 < pollInterval s <= int64_max -> deadline - time (host x) <= Z.of_nat n ->
  res (awaitLock s (S n) deadline o remote x) <> OutOfFuel.
Proof. intros Hd Hp Hn. eapply returns_not_fuel. by apply awaitLock_deadline_ends. Qed.

Lemma wait_until_deadline_returns_witness :
  res (awaitLock demo 6 (1700000000 * second + 5) (Observation "" 0) (remote_ (vars demo_started)) (start_in empty_host)) <> OutOfFuel.
Proof.
  apply (wait_until_deadline_returns mem mem_host mem_clock demo 5); vm_compute; try (split; (reflexivity || discriminate)); discriminate.
Defined.
